(** * AAV visualizer: signal-processing core, metadata text and power state

    A shallow embedding of [visualizer.cpp]: the capture loop and its circular
    sample buffer, the spectrum and stereo analysers, the parameter setters,
    the MPD metadata text formatting and the sleep/wake logic of the main loop.

    C++ [float] is IEEE-754 binary32.  It is modelled with the Standard
    Library's executable specification of floating-point arithmetic
    ([SpecFloat]) instantiated at [prec = 24], [emax = 128]: every operation
    is the correctly rounded one (to nearest, ties to even), NaN and
    infinities included.  [int] and [size_t] values are integers of [Z];
    arrays are lists read and written by index.  Calls into libm and FFTW
    ([atan2f], [fftwf_execute]) and the device ([snd_pcm_readi]) are
    parameters of the functions that make them.

    The displays are covered as well: the frame buffer and
    its drawing primitives, the transfer over SPI, text through FreeType,
    the title scroller, and the frames of the VU meter, the spectrum and
    the waveform.  There the wrap-around of [int] and [uint8_t] arithmetic
    is written out ([C.int], [C.uint8_t]), a [while (true)] loop runs on
    fuel and returns [None] when it runs out, and [FT_Load_Char] is a
    parameter. *)

From Stdlib Require Import ZArith QArith Bool List String Ascii Lia SpecFloat.
From Stdlib Require Import DecimalString DecimalPos.
From stdpp Require Import base list.

Set Default Proof Using "Type".

(* ================================================================== *)
(** ** Binary32 arithmetic *)
(* ================================================================== *)

Module F32.

Definition prec : Z := 24.
Definition emax : Z := 128.

(** A [float] value. *)
Definition float : Type := spec_float.

#[global] Instance float_inhabited : Inhabited float := populate (S754_zero false).

(** [(float)z] for an integer [z]: rounding to nearest, ties to even. *)
Definition of_int (z : Z) : float := binary_normalize prec emax z 0 false.

Definition add : float -> float -> float := SFadd prec emax.
Definition sub : float -> float -> float := SFsub prec emax.
Definition mul : float -> float -> float := SFmul prec emax.
Definition div : float -> float -> float := SFdiv prec emax.
Definition sqrtf : float -> float := SFsqrt prec emax.
Definition fabs : float -> float := SFabs.

(** [a < b] and [a <= b]; both are false as soon as an operand is NaN. *)
Definition lt (a b : float) : bool := SFltb a b.
Definition le (a b : float) : bool := SFleb a b.

(** [std::max(a, b)] is [(a < b) ? b : a]; [std::min(a, b)] is
    [(b < a) ? b : a]. *)
Definition fmax (a b : float) : float := if lt a b then b else a.
Definition fmin (a b : float) : float := if lt b a then b else a.

(** A decimal literal [n/d] written with the [f] suffix: the binary32
    number nearest to the quotient (both [n] and [d] are small enough to be
    exact, and the division is correctly rounded). *)
Definition literal (n d : Z) : float := div (of_int n) (of_int d).

Definition zero : float := S754_zero false.
Definition one : float := of_int 1.

(** [(int)x]: truncation toward zero.  The conversion of a NaN, of an
    infinity or of a value outside the range of [int] is undefined in C++;
    [indef] stands for whatever the target yields there. *)
Definition to_int (indef : float -> Z) (x : float) : Z :=
  match x with
  | S754_zero _ => 0
  | S754_finite s m e =>
      let mag := match e with
                 | Zneg k => Z.shiftr (Zpos m) (Zpos k)
                 | _ => Z.shiftl (Zpos m) e
                 end in
      let v := if s then Z.opp mag else mag in
      if (Z.leb (- 2 ^ 31) v && Z.ltb v (2 ^ 31))%bool then v else indef x
  | _ => indef x
  end.

(** The exact rational value of a finite number (0 for the others). *)
Definition toQ (x : float) : Q :=
  match x with
  | S754_finite s m e =>
      let q := (inject_Z (Zpos m) * Qpower (2 # 1) e)%Q in
      if s then Qopp q else q
  | _ => 0%Q
  end.

Definition is_finite (x : float) : bool :=
  match x with
  | S754_zero _ | S754_finite _ _ _ => true
  | _ => false
  end.

(** [x] is a finite number whose exact value lies in the rational
    interval [[lo, hi]]. *)
Definition within (lo hi : Q) (x : float) : bool :=
  is_finite x && Qle_bool lo (toQ x) && Qle_bool (toQ x) hi.

End F32.

Abbreviation float := F32.float.

(* ================================================================== *)
(** ** AudioProcessor *)
(* ================================================================== *)

Module Audio.

Local Open Scope Z_scope.

Definition SAMPLE_RATE : Z := 44100.
Definition CHANNELS : Z := 2.
Definition FRAMES_PER_BUFFER : Z := 2048.
Definition FFT_SIZE_BASS : Z := 8192.
Definition SILENCE_THRESHOLD : float := F32.literal 1 1000.
Definition SLEEP_TIMEOUT_SEC : Z := 10.

Record FreqBand := { low : Z; high : Z; correction : float }.

Definition FREQ_BANDS : list FreqBand :=
  [ {| low := 63;    high := 120;   correction := F32.literal 5 10 |};
    {| low := 120;   high := 350;   correction := F32.of_int 1 |};
    {| low := 350;   high := 900;   correction := F32.of_int 2 |};
    {| low := 900;   high := 2000;  correction := F32.literal 35 10 |};
    {| low := 2000;  high := 5000;  correction := F32.of_int 5 |};
    {| low := 5000;  high := 10000; correction := F32.of_int 7 |};
    {| low := 10000; high := 16000; correction := F32.of_int 10 |} ].

(** The members of [AudioProcessor] that the analysis and capture code
    reads or writes.  Times are ticks of [steady_clock] (nanoseconds). *)
Record state := {
  thread_running : bool;
  is_sleeping : bool;
  circular_buffer_left : list float;
  circular_buffer_right : list float;
  write_pos : Z;
  window_bass : list float;
  prev_left_spectrum : list float;
  prev_right_spectrum : list float;
  noise_reduction : float;
  sensitivity : float;
  integral_factor : float;
  gravity_factor : float;
  scale_factor : float;
  last_audio_time : Z;
  max_amplitude : float
}.

(** [updateParameters] *)
Definition updateParameters (st : state) : state :=
  let nr_normalized := F32.div (noise_reduction st) (F32.of_int 100) in
  let integral := F32.mul nr_normalized (F32.literal 95 100) in
  let gravity := F32.sub F32.one (F32.mul nr_normalized (F32.literal 8 10)) in
  let gravity := F32.fmax gravity (F32.literal 2 10) in
  let scale := F32.mul (F32.div (sensitivity st) (F32.of_int 100)) (F32.literal 22 10) in
  {| thread_running := thread_running st;
     is_sleeping := is_sleeping st;
     circular_buffer_left := circular_buffer_left st;
     circular_buffer_right := circular_buffer_right st;
     write_pos := write_pos st;
     window_bass := window_bass st;
     prev_left_spectrum := prev_left_spectrum st;
     prev_right_spectrum := prev_right_spectrum st;
     noise_reduction := noise_reduction st;
     sensitivity := sensitivity st;
     integral_factor := integral;
     gravity_factor := gravity;
     scale_factor := scale;
     last_audio_time := last_audio_time st;
     max_amplitude := max_amplitude st |}.

Definition with_sensitivity (v : float) (st : state) : state :=
  {| thread_running := thread_running st;
     is_sleeping := is_sleeping st;
     circular_buffer_left := circular_buffer_left st;
     circular_buffer_right := circular_buffer_right st;
     write_pos := write_pos st;
     window_bass := window_bass st;
     prev_left_spectrum := prev_left_spectrum st;
     prev_right_spectrum := prev_right_spectrum st;
     noise_reduction := noise_reduction st;
     sensitivity := v;
     integral_factor := integral_factor st;
     gravity_factor := gravity_factor st;
     scale_factor := scale_factor st;
     last_audio_time := last_audio_time st;
     max_amplitude := max_amplitude st |}.

Definition with_noise_reduction (v : float) (st : state) : state :=
  {| thread_running := thread_running st;
     is_sleeping := is_sleeping st;
     circular_buffer_left := circular_buffer_left st;
     circular_buffer_right := circular_buffer_right st;
     write_pos := write_pos st;
     window_bass := window_bass st;
     prev_left_spectrum := prev_left_spectrum st;
     prev_right_spectrum := prev_right_spectrum st;
     noise_reduction := v;
     sensitivity := sensitivity st;
     integral_factor := integral_factor st;
     gravity_factor := gravity_factor st;
     scale_factor := scale_factor st;
     last_audio_time := last_audio_time st;
     max_amplitude := max_amplitude st |}.

(** [setSensitivity(int value)] *)
Definition setSensitivity (value : Z) (st : state) : state :=
  updateParameters
    (with_sensitivity
       (F32.fmax (F32.of_int 10) (F32.fmin (F32.of_int 300) (F32.of_int value))) st).

(** [setNoiseReduction(int value)] *)
Definition setNoiseReduction (value : Z) (st : state) : state :=
  updateParameters
    (with_noise_reduction
       (F32.fmax (F32.of_int 0) (F32.fmin (F32.of_int 100) (F32.of_int value))) st).

(** The constructor: zeroed buffers of [2 * FFT_SIZE_BASS] samples, zeroed
    previous spectra, the default parameters, [updateParameters()], and the
    construction time as the last moment audio was heard.  [hann] is the
    table that [createHannWindow] fills through [cosf]. *)
Definition AudioProcessor (hann : list float) (now : Z) : state :=
  updateParameters
    {| thread_running := false;
       is_sleeping := false;
       circular_buffer_left := replicate (Z.to_nat (FFT_SIZE_BASS * 2)) F32.zero;
       circular_buffer_right := replicate (Z.to_nat (FFT_SIZE_BASS * 2)) F32.zero;
       write_pos := 0;
       window_bass := hann;
       prev_left_spectrum := replicate 7 F32.zero;
       prev_right_spectrum := replicate 7 F32.zero;
       noise_reduction := F32.of_int 77;
       sensitivity := F32.of_int 100;
       integral_factor := F32.zero;
       gravity_factor := F32.zero;
       scale_factor := F32.zero;
       last_audio_time := now;
       max_amplitude := F32.zero |}.

Definition setSleepState (sleeping : bool) (st : state) : state :=
  {| thread_running := thread_running st;
     is_sleeping := sleeping;
     circular_buffer_left := circular_buffer_left st;
     circular_buffer_right := circular_buffer_right st;
     write_pos := write_pos st;
     window_bass := window_bass st;
     prev_left_spectrum := prev_left_spectrum st;
     prev_right_spectrum := prev_right_spectrum st;
     noise_reduction := noise_reduction st;
     sensitivity := sensitivity st;
     integral_factor := integral_factor st;
     gravity_factor := gravity_factor st;
     scale_factor := scale_factor st;
     last_audio_time := last_audio_time st;
     max_amplitude := max_amplitude st |}.

(** [getSensitivity] and [getNoiseReduction] cast the stored [float] to
    [int]. *)
Definition getSensitivity (indef : float -> Z) (st : state) : Z :=
  F32.to_int indef (sensitivity st).
Definition getNoiseReduction (indef : float -> Z) (st : state) : Z :=
  F32.to_int indef (noise_reduction st).

(* ---------------------------------------------------------------- *)
(** *** The capture loop *)

(** What one call of [snd_pcm_readi] (and, on failure, of
    [snd_pcm_recover]) gives back: the two return values and the contents of
    [audio_buffer] afterwards, interleaved 16-bit samples. *)
Record pcm_read := {
  readi_ret : Z;
  recover_ret : Z;
  audio_buffer : list Z
}.

(** [audio_buffer[i] / 32768.0f] *)
Definition normalize (sample : Z) : float :=
  F32.div (F32.of_int sample) (F32.of_int 32768).

(** The asleep branch: only the maximum amplitude of the block. *)
Definition sleep_frame_max (buf : list Z) (frames : Z) : float :=
  fold_left
    (fun frame_max i => F32.fmax frame_max (F32.fabs (normalize (buf !!! Z.to_nat i))))
    (seqZ 0 (frames * CHANNELS)) F32.zero.

(** The state of the awake branch's [for] loop. *)
Record write_loop := {
  wl_left : list float;
  wl_right : list float;
  wl_pos : Z;
  wl_frame_max : float
}.

(** One frame of the awake branch: store both channels at [pos], fold
    their magnitudes into [frame_max], advance [pos] modulo the capacity. *)
Definition write_frame (buf : list Z) (w : write_loop) (i : Z) : write_loop :=
  let pos := Z.to_nat (wl_pos w) in
  let left := <[pos := normalize (buf !!! Z.to_nat (i * CHANNELS))]> (wl_left w) in
  let right :=
    <[pos := if 1 <? CHANNELS then normalize (buf !!! Z.to_nat (i * CHANNELS + 1))
             else left !!! pos]> (wl_right w) in
  let frame_max := F32.fmax (wl_frame_max w) (F32.fabs (left !!! pos)) in
  let frame_max := F32.fmax frame_max (F32.fabs (right !!! pos)) in
  {| wl_left := left; wl_right := right;
     wl_pos := (wl_pos w + 1) mod (FFT_SIZE_BASS * 2);
     wl_frame_max := frame_max |}.

Definition write_frames (buf : list Z) (frames : Z) (st : state) : write_loop :=
  fold_left (write_frame buf) (seqZ 0 frames)
    {| wl_left := circular_buffer_left st;
       wl_right := circular_buffer_right st;
       wl_pos := write_pos st;
       wl_frame_max := F32.zero |}.

Definition set_capture (left right : list float) (pos : Z)
    (amplitude : float) (last : Z) (st : state) : state :=
  {| thread_running := thread_running st;
     is_sleeping := is_sleeping st;
     circular_buffer_left := left;
     circular_buffer_right := right;
     write_pos := pos;
     window_bass := window_bass st;
     prev_left_spectrum := prev_left_spectrum st;
     prev_right_spectrum := prev_right_spectrum st;
     noise_reduction := noise_reduction st;
     sensitivity := sensitivity st;
     integral_factor := integral_factor st;
     gravity_factor := gravity_factor st;
     scale_factor := scale_factor st;
     last_audio_time := last;
     max_amplitude := amplitude |}.

(** The number of frames an iteration asks the device for. *)
Definition frames_to_read (st : state) : Z :=
  if is_sleeping st then 256 else FRAMES_PER_BUFFER.

(** One iteration of the [while (thread_running)] loop of
    [audioThreadFunc].  [snd_pcm_readi] is the device, as a function of the
    number of frames requested; [now] is what [steady_clock::now()] returns
    during the iteration.  The sleep flag is taken to keep its value for
    the duration of the iteration. *)
Definition audioThreadFunc_iteration (snd_pcm_readi : Z -> pcm_read) (now : Z)
    (st : state) : state :=
  let r := snd_pcm_readi (frames_to_read st) in
  let frames := readi_ret r in
  let frames := if frames <? 0 then recover_ret r else frames in
  if frames <? 0 then st
  else if is_sleeping st then
    let frame_max := sleep_frame_max (audio_buffer r) frames in
    set_capture (circular_buffer_left st) (circular_buffer_right st) (write_pos st)
      frame_max
      (if F32.lt SILENCE_THRESHOLD frame_max then now else last_audio_time st) st
  else
    let w := write_frames (audio_buffer r) frames st in
    set_capture (wl_left w) (wl_right w) (wl_pos w)
      (wl_frame_max w)
      (if F32.lt SILENCE_THRESHOLD (wl_frame_max w) then now else last_audio_time st) st.

(** [checkForAudio]: [duration_cast<seconds>] truncates the tick count
    toward zero. *)
Definition TICKS_PER_SECOND : Z := 1000000000.

Definition checkForAudio (now : Z) (st : state) : bool :=
  let elapsed := Z.quot (now - last_audio_time st) TICKS_PER_SECOND in
  elapsed <? SLEEP_TIMEOUT_SEC.

(* ---------------------------------------------------------------- *)
(** *** Reading the circular buffer *)

(** [size_t] arithmetic wraps modulo [2^64]. *)
Definition size_t (z : Z) : Z := z mod 2 ^ 64.

(** [(write_pos + FFT_SIZE_BASS * 2 - count) % (FFT_SIZE_BASS * 2)] *)
Definition read_start (pos count : Z) : Z :=
  size_t (size_t (pos + FFT_SIZE_BASS * 2) - count) mod (FFT_SIZE_BASS * 2).

(** The copy loop shared by the three readers: [n] iterations, each one
    taking what [body] finds at [read_pos] and advancing [read_pos] modulo
    the capacity. *)
Fixpoint copy_loop {A : Type} (body : Z -> A) (read_pos : Z) (n : nat) : list A :=
  match n with
  | O => []
  | S k => body read_pos :: copy_loop body ((read_pos + 1) mod (FFT_SIZE_BASS * 2)) k
  end.

(** [getWaveformData(out, samples, left_channel)]: the contents of [out]. *)
Definition getWaveformData (samples : Z) (left_channel : bool) (st : state) : list float :=
  copy_loop
    (fun read_pos =>
       if left_channel then circular_buffer_left st !!! Z.to_nat read_pos
       else circular_buffer_right st !!! Z.to_nat read_pos)
    (read_start (write_pos st) samples) (Z.to_nat samples).

(* ---------------------------------------------------------------- *)
(** *** Stereo analysis *)

Definition ANALYSIS_SAMPLES : Z := 512.

(** The local arrays [left] and [right] of [getStereoAnalysis], as a list
    of pairs [(left[i], right[i])]. *)
Definition stereo_window (st : state) : list (float * float) :=
  copy_loop
    (fun read_pos =>
       (circular_buffer_left st !!! Z.to_nat read_pos,
        circular_buffer_right st !!! Z.to_nat read_pos))
    (read_start (write_pos st) ANALYSIS_SAMPLES) (Z.to_nat ANALYSIS_SAMPLES).

Section Stereo.

(** libm's [atan2f(y, x)]. *)
Variable atan2f : float -> float -> float.

(** "Calculate phase difference" *)
Definition stereo_phase (window : list (float * float)) : float :=
  let sum_phase :=
    fold_left
      (fun sum_phase '(l, r) =>
         if F32.lt (F32.literal 1 100) (F32.fabs l)
            && F32.lt (F32.literal 1 100) (F32.fabs r)
         then F32.add sum_phase (atan2f r l)
         else sum_phase)
      window F32.zero in
  F32.div sum_phase (F32.of_int ANALYSIS_SAMPLES).

(** The five running sums of the correlation loop. *)
Record sums := {
  sum_l : float; sum_r : float; sum_lr : float; sum_l2 : float; sum_r2 : float
}.

Definition sums_step (s : sums) (x : float * float) : sums :=
  let '(l, r) := x in
  {| sum_l := F32.add (sum_l s) l;
     sum_r := F32.add (sum_r s) r;
     sum_lr := F32.add (sum_lr s) (F32.mul l r);
     sum_l2 := F32.add (sum_l2 s) (F32.mul l l);
     sum_r2 := F32.add (sum_r2 s) (F32.mul r r) |}.

Definition sums_zero : sums :=
  {| sum_l := F32.of_int 0; sum_r := F32.of_int 0; sum_lr := F32.of_int 0;
     sum_l2 := F32.of_int 0; sum_r2 := F32.of_int 0 |}.

(** "Calculate correlation": [num] and [den] from the five sums. *)
Definition correlation_num (s : sums) : float :=
  let n := F32.of_int ANALYSIS_SAMPLES in
  F32.sub (F32.mul n (sum_lr s)) (F32.mul (sum_l s) (sum_r s)).

Definition correlation_den (s : sums) : float :=
  let n := F32.of_int ANALYSIS_SAMPLES in
  F32.sqrtf
    (F32.mul (F32.sub (F32.mul n (sum_l2 s)) (F32.mul (sum_l s) (sum_l s)))
             (F32.sub (F32.mul n (sum_r2 s)) (F32.mul (sum_r s) (sum_r s)))).

Definition stereo_correlation (window : list (float * float)) : float :=
  let s := fold_left sums_step window sums_zero in
  let num := correlation_num s in
  let den := correlation_den s in
  let correlation := if F32.lt (F32.of_int 0) den then F32.div num den else F32.zero in
  F32.fmax (F32.of_int (-1)) (F32.fmin F32.one correlation).

(** [getStereoAnalysis(phase, correlation)]: the two results. *)
Definition getStereoAnalysis (st : state) : float * float :=
  let window := stereo_window st in
  (stereo_phase window, stereo_correlation window).

End Stereo.

(* ---------------------------------------------------------------- *)
(** *** Spectrum *)

Section Spectrum.

(** [fftwf_execute(plan_bass)]: from the [FFT_SIZE_BASS] reals of
    [fft_in_bass] to the complex bins of [fft_out_bass]. *)
Variable fftwf_execute : list float -> list (float * float).

(** The result of [(int)x] where C++ leaves it undefined. *)
Variable indef : float -> Z.

(** [freq * FFT_SIZE_BASS / SAMPLE_RATE] in [int] arithmetic. *)
Definition bin_index (freq : Z) : Z := Z.quot (freq * FFT_SIZE_BASS) SAMPLE_RATE.

(** The bins that the inner loop
    [for (j = low_idx; j < high_idx && j < FFT_SIZE_BASS/2; j++)] visits. *)
Definition band_bins (b : FreqBand) : list Z :=
  let low_idx := bin_index (low b) in
  let high_idx := bin_index (high b) in
  seqZ low_idx (Z.min high_idx (Z.quot FFT_SIZE_BASS 2) - low_idx).

(** The divisor [high_idx - low_idx] of the per-band mean. *)
Definition band_divisor (b : FreqBand) : Z :=
  bin_index (high b) - bin_index (low b).

Definition band_level (fft_out : list (float * float)) (scale : float)
    (b : FreqBand) : float :=
  let sum :=
    fold_left
      (fun sum j =>
         let c := fft_out !!! Z.to_nat j in
         let mag := F32.sqrtf (F32.add (F32.mul (fst c) (fst c))
                                       (F32.mul (snd c) (snd c))) in
         F32.add sum (F32.mul mag mag))
      (band_bins b) F32.zero in
  F32.mul
    (F32.mul (F32.sqrtf (F32.div sum (F32.of_int (band_divisor b)))) scale)
    (correction b).

(** The windowed transform of one channel and its seven band levels. *)
Definition channel_bands (st : state) (temp : list float) : list float :=
  let fft_in :=
    (fun i : nat => F32.mul (temp !!! i) (window_bass st !!! i))
      <$> seq 0 (Z.to_nat FFT_SIZE_BASS) in
  let fft_out := fftwf_execute fft_in in
  band_level fft_out (scale_factor st) <$> FREQ_BANDS.

(** The smoothing of one band of one channel: the new value of
    [prev_..._spectrum[i]]. *)
Definition smooth (integral gravity prev band : float) : float :=
  let smoothed :=
    F32.add (F32.mul integral prev) (F32.mul (F32.sub F32.one integral) band) in
  if F32.lt smoothed prev then
    let fall := F32.mul (F32.sub prev smoothed) gravity in
    let prev := F32.sub prev fall in
    F32.fmax prev smoothed
  else smoothed.

(** [std::min(255, std::max(0, (int)x))] *)
Definition level_of (x : float) : Z := Z.min 255 (Z.max 0 (F32.to_int indef x)).

Definition set_prev_spectra (left right : list float) (st : state) : state :=
  {| thread_running := thread_running st;
     is_sleeping := is_sleeping st;
     circular_buffer_left := circular_buffer_left st;
     circular_buffer_right := circular_buffer_right st;
     write_pos := write_pos st;
     window_bass := window_bass st;
     prev_left_spectrum := left;
     prev_right_spectrum := right;
     noise_reduction := noise_reduction st;
     sensitivity := sensitivity st;
     integral_factor := integral_factor st;
     gravity_factor := gravity_factor st;
     scale_factor := scale_factor st;
     last_audio_time := last_audio_time st;
     max_amplitude := max_amplitude st |}.

(** [getSpectrumData(left_out, right_out)]: the new state (the previous
    spectra are updated) and the two output arrays. *)
Definition getSpectrumData (st : state) : state * list Z * list Z :=
  let read_pos := read_start (write_pos st) FFT_SIZE_BASS in
  let temp :=
    copy_loop
      (fun p => (circular_buffer_left st !!! Z.to_nat p,
                 circular_buffer_right st !!! Z.to_nat p))
      read_pos (Z.to_nat FFT_SIZE_BASS) in
  let left_bands := channel_bands st (fst <$> temp) in
  let right_bands := channel_bands st (snd <$> temp) in
  let prev_left :=
    (fun i : nat => smooth (integral_factor st) (gravity_factor st)
                      (prev_left_spectrum st !!! i) (left_bands !!! i))
      <$> seq 0 7 in
  let prev_right :=
    (fun i : nat => smooth (integral_factor st) (gravity_factor st)
                      (prev_right_spectrum st !!! i) (right_bands !!! i))
      <$> seq 0 7 in
  (set_prev_spectra prev_left prev_right st,
   level_of <$> prev_left, level_of <$> prev_right).

End Spectrum.

(** [getVUMeterData(left_out, right_out)]: the state [getSpectrumData]
    leaves, and the two means. *)
Definition getVUMeterData (fftwf_execute : list float -> list (float * float))
    (indef : float -> Z) (st : Audio.state) : Audio.state * Z * Z :=
  let '(st, left_spectrum, right_spectrum) :=
    Audio.getSpectrumData fftwf_execute indef st in
  let left_sum := fold_left (fun sum i => sum + left_spectrum !!! i) (seq 0 7) 0 in
  let right_sum := fold_left (fun sum i => sum + right_spectrum !!! i) (seq 0 7) 0 in
  (st, Z.quot left_sum 7, Z.quot right_sum 7).


End Audio.

(* ================================================================== *)
(** ** MPDClient: the displayed track text *)
(* ================================================================== *)

Module MPD.

Local Open Scope string_scope.

(** The part of [std::stringstream] that [updateFormattedText] uses: the
    characters written so far, the fill character, and the field width,
    which applies to the next insertion only. *)
Record stringstream := { ss_str : string; ss_fill : ascii; ss_width : nat }.

Definition ss_empty : stringstream :=
  {| ss_str := ""; ss_fill := " "%char; ss_width := 0 |}.

Definition setfill (c : ascii) (ss : stringstream) : stringstream :=
  {| ss_str := ss_str ss; ss_fill := c; ss_width := ss_width ss |}.

Definition setw (n : nat) (ss : stringstream) : stringstream :=
  {| ss_str := ss_str ss; ss_fill := ss_fill ss; ss_width := n |}.

(** [ss << s]: right-adjusted in a field of the pending width, filled on
    the left; the width is then reset. *)
Definition put (s : string) (ss : stringstream) : stringstream :=
  let padding := string_of_list_ascii (repeat (ss_fill ss) (ss_width ss - String.length s)) in
  {| ss_str := ss_str ss ++ padding ++ s; ss_fill := ss_fill ss; ss_width := 0 |}.

Record state := {
  conn : bool;               (* [conn != nullptr] *)
  thread_running : bool;
  shutdown_requested : bool;
  is_sleeping : bool;
  track_number : string;
  title : string;
  artist : string;
  year : string;
  formatted_text : string
}.

Definition empty (s : string) : bool :=
  match s with EmptyString => true | _ => false end.

(** [updateFormattedText]: the new [formatted_text]. *)
Definition format_text (st : state) : string :=
  let ss := ss_empty in
  let ss := if negb (empty (track_number st))
            then put ". " (put (track_number st) (setw 2 (setfill "0"%char ss)))
            else ss in
  let ss := if negb (empty (title st)) then put (title st) ss
            else put "Unknown Title" ss in
  let ss := if negb (empty (artist st)) then put (artist st) (put " - " ss) else ss in
  let ss := if negb (empty (year st)) then put ")" (put (year st) (put " (" ss)) else ss in
  ss_str ss.

Definition set_song (tn t a y : string) (st : state) : state :=
  {| conn := conn st; thread_running := thread_running st;
     shutdown_requested := shutdown_requested st; is_sleeping := is_sleeping st;
     track_number := tn; title := t; artist := a; year := y;
     formatted_text := formatted_text st |}.

Definition updateFormattedText (st : state) : state :=
  {| conn := conn st; thread_running := thread_running st;
     shutdown_requested := shutdown_requested st; is_sleeping := is_sleeping st;
     track_number := track_number st; title := title st; artist := artist st;
     year := year st;
     formatted_text := format_text st |}.

Definition set_conn (c : bool) (st : state) : state :=
  {| conn := c; thread_running := thread_running st;
     shutdown_requested := shutdown_requested st; is_sleeping := is_sleeping st;
     track_number := track_number st; title := title st; artist := artist st;
     year := year st; formatted_text := formatted_text st |}.

(** [setSleepState]: the flag is exchanged; the rest is a log message. *)
Definition setSleepState (sleeping : bool) (st : state) : state :=
  {| conn := conn st; thread_running := thread_running st;
     shutdown_requested := shutdown_requested st; is_sleeping := sleeping;
     track_number := track_number st; title := title st; artist := artist st;
     year := year st; formatted_text := formatted_text st |}.

(** A song as libmpdclient presents it: its position in the queue and the
    first value of three tags, each absent ([nullptr]) or present. *)
Record mpd_song := {
  song_pos : Z;
  tag_title : option string;
  tag_artist : option string;
  tag_date : option string
}.

(** The outcome of [mpd_run_current_song]: whether the connection is in
    error afterwards, and the song, if any. *)
Record current_song := { cs_error : bool; cs_song : option mpd_song }.

(** [std::to_string] of an [unsigned]. *)
Definition to_string (n : Z) : string := NilEmpty.string_of_uint (N.to_uint (Z.to_N n)).

(** [tag ? tag : ""] *)
Definition tag_or_empty (tag : option string) : string :=
  match tag with Some s => s | None => "" end.

(** [updateCurrentSong] *)
Definition updateCurrentSong (reply : current_song) (st : state) : state :=
  if negb (conn st) || shutdown_requested st || is_sleeping st then st
  else if cs_error reply then set_conn false st
  else
    match cs_song reply with
    | Some song =>
        let track := ((song_pos song + 1) mod 2 ^ 32)%Z in
        let y := match tag_date song with
                 | Some tag => if (4 <=? String.length tag)%nat
                               then String.substring 0 4 tag else ""
                 | None => ""
                 end in
        updateFormattedText
          (set_song (to_string track) (tag_or_empty (tag_title song))
             (tag_or_empty (tag_artist song)) y st)
    | None =>
        updateFormattedText (set_song "" "No song playing" "" "" st)
    end.

(** The constructor. *)
Definition MPDClient : state :=
  updateFormattedText
    {| conn := false; thread_running := false; shutdown_requested := false;
       is_sleeping := false;
       track_number := ""; title := "Waiting for MPD..."; artist := ""; year := "";
       formatted_text := "" |}.

Definition getFormattedText (st : state) : string := formatted_text st.

(** What [mpd_connection_new] returns: nothing, a connection object in
    error, or a working connection. *)
Inductive new_connection := NoConnection | InError | Connected.

(** [connectMPD]: the new state and the return value.  Whatever
    connection there was is freed first. *)
Definition connectMPD (reply : new_connection) (st : MPD.state) : MPD.state * bool :=
  let st := MPD.set_conn false st in
  if MPD.shutdown_requested st || MPD.is_sleeping st then (st, false)
  else
    match reply with
    | Connected => (MPD.set_conn true st, true)
    | _ => (MPD.set_conn false st, false)
    end.

(** [disconnectMPD] *)
Definition disconnectMPD (st : MPD.state) : MPD.state := MPD.set_conn false st.


End MPD.

(* ================================================================== *)
(** ** The main loop: controls and power state *)
(* ================================================================== *)

Module App.

Local Open Scope Z_scope.

(** [struct ControlState] *)
Record ControlState := {
  running : bool;
  current_viz : Z;
  is_sleeping : bool
}.

(** The GPIO levels one call of [ControlHandler::poll] reads: the two
    encoders as [(clk << 1) | dt], and the three switches ([true] is HIGH,
    the released level of a pulled-up input). *)
Record gpio := {
  rot1 : Z;
  rot2 : Z;
  rot1_sw : bool;
  rot2_sw : bool;
  power_sw : bool
}.

Inductive display := LeftDisplay | RightDisplay.

(** The calls that the loop makes on its collaborators. *)
Inductive call :=
| AudioSetSleepState (sleeping : bool)
| MpdSetSleepState (sleeping : bool)
| DisplaySleep (d : display)
| DisplayWake (d : display)
| DisplayClear (d : display)
| DisplayDisplay (d : display)
| SetPowerLED (on : bool)
| SetSPISpeedSlow
| SetSPISpeedNormal
| Render (viz : Z)
| Delay (ms : Z).

(** Everything [VisualizerApp::run] and [ControlHandler::poll] keep between
    iterations, and the log of calls made so far (oldest first). *)
Record state := {
  ctl : ControlState;
  audio : Audio.state;
  mpd_client : MPD.state;
  encoder1_state : Z;
  encoder2_state : Z;
  btn1_last : bool;
  btn2_last : bool;
  pwr_last : bool;
  local_current_viz : Z;     (* [int current_viz] of [run] *)
  sleep_counter : Z;
  calls : list call
}.

Definition set_ctl (c : ControlState) (st : state) : state :=
  {| ctl := c; audio := audio st; mpd_client := mpd_client st;
     encoder1_state := encoder1_state st; encoder2_state := encoder2_state st;
     btn1_last := btn1_last st; btn2_last := btn2_last st; pwr_last := pwr_last st;
     local_current_viz := local_current_viz st; sleep_counter := sleep_counter st;
     calls := calls st |}.

Definition set_audio (a : Audio.state) (st : state) : state :=
  {| ctl := ctl st; audio := a; mpd_client := mpd_client st;
     encoder1_state := encoder1_state st; encoder2_state := encoder2_state st;
     btn1_last := btn1_last st; btn2_last := btn2_last st; pwr_last := pwr_last st;
     local_current_viz := local_current_viz st; sleep_counter := sleep_counter st;
     calls := calls st |}.

Definition set_mpd (m : MPD.state) (st : state) : state :=
  {| ctl := ctl st; audio := audio st; mpd_client := m;
     encoder1_state := encoder1_state st; encoder2_state := encoder2_state st;
     btn1_last := btn1_last st; btn2_last := btn2_last st; pwr_last := pwr_last st;
     local_current_viz := local_current_viz st; sleep_counter := sleep_counter st;
     calls := calls st |}.

Definition set_encoders (e1 e2 : Z) (st : state) : state :=
  {| ctl := ctl st; audio := audio st; mpd_client := mpd_client st;
     encoder1_state := e1; encoder2_state := e2;
     btn1_last := btn1_last st; btn2_last := btn2_last st; pwr_last := pwr_last st;
     local_current_viz := local_current_viz st; sleep_counter := sleep_counter st;
     calls := calls st |}.

Definition set_buttons (b1 b2 p : bool) (st : state) : state :=
  {| ctl := ctl st; audio := audio st; mpd_client := mpd_client st;
     encoder1_state := encoder1_state st; encoder2_state := encoder2_state st;
     btn1_last := b1; btn2_last := b2; pwr_last := p;
     local_current_viz := local_current_viz st; sleep_counter := sleep_counter st;
     calls := calls st |}.

Definition set_local_viz (v : Z) (st : state) : state :=
  {| ctl := ctl st; audio := audio st; mpd_client := mpd_client st;
     encoder1_state := encoder1_state st; encoder2_state := encoder2_state st;
     btn1_last := btn1_last st; btn2_last := btn2_last st; pwr_last := pwr_last st;
     local_current_viz := v; sleep_counter := sleep_counter st;
     calls := calls st |}.

Definition set_sleep_counter (n : Z) (st : state) : state :=
  {| ctl := ctl st; audio := audio st; mpd_client := mpd_client st;
     encoder1_state := encoder1_state st; encoder2_state := encoder2_state st;
     btn1_last := btn1_last st; btn2_last := btn2_last st; pwr_last := pwr_last st;
     local_current_viz := local_current_viz st; sleep_counter := n;
     calls := calls st |}.

(** Append to the log. *)
Definition log (cs : list call) (st : state) : state :=
  {| ctl := ctl st; audio := audio st; mpd_client := mpd_client st;
     encoder1_state := encoder1_state st; encoder2_state := encoder2_state st;
     btn1_last := btn1_last st; btn2_last := btn2_last st; pwr_last := pwr_last st;
     local_current_viz := local_current_viz st; sleep_counter := sleep_counter st;
     calls := calls st ++ cs |}.

Definition set_sleeping (b : bool) (st : state) : state :=
  set_ctl {| running := running (ctl st); current_viz := current_viz (ctl st);
             is_sleeping := b |} st.

Definition set_running (b : bool) (st : state) : state :=
  set_ctl {| running := b; current_viz := current_viz (ctl st);
             is_sleeping := is_sleeping (ctl st) |} st.

Definition set_current_viz (v : Z) (st : state) : state :=
  set_ctl {| running := running (ctl st); current_viz := v;
             is_sleeping := is_sleeping (ctl st) |} st.

(** [getDirection] *)
Definition transitions : list Z :=
  [0; 1; -1; 0; -1; 0; 0; 1; 1; 0; 0; -1; 0; -1; 1; 0].

Definition getDirection (old_state new_state : Z) : Z :=
  transitions !!! Z.to_nat (Z.lor (Z.shiftl old_state 2) new_state).

Section Loop.

(** The result of the [int] casts in [getSensitivity] and
    [getNoiseReduction] where C++ leaves them undefined. *)
Variable indef : float -> Z.

(** [if (state.is_sleeping) state.is_sleeping = false;] *)
Definition wake_flag (st : state) : state :=
  if is_sleeping (ctl st) then set_sleeping false st else st.

(** [ControlHandler::poll], "Encoder 1 - Sensitivity" *)
Definition poll_encoder1 (g : gpio) (st : state) : state :=
  let new1 := rot1 g in
  if negb (new1 =? encoder1_state st) then
    let dir := getDirection (encoder1_state st) new1 in
    let st :=
      if negb (dir =? 0) then
        let val := Audio.getSensitivity indef (audio st) + dir * 10 in
        set_audio (Audio.setSensitivity (Z.max 10 (Z.min 300 val)) (audio st)) st
      else st in
    set_encoders new1 (encoder2_state st) st
  else st.

(** "Encoder 2 - Noise reduction" *)
Definition poll_encoder2 (g : gpio) (st : state) : state :=
  let new2 := rot2 g in
  if negb (new2 =? encoder2_state st) then
    let dir := getDirection (encoder2_state st) new2 in
    let st :=
      if negb (dir =? 0) then
        let val := Audio.getNoiseReduction indef (audio st) + dir * 5 in
        set_audio (Audio.setNoiseReduction (Z.max 0 (Z.min 100 val)) (audio st)) st
      else st in
    set_encoders (encoder1_state st) new2 st
  else st.

(** The button of rotary 1: next visualization. *)
Definition poll_button1 (g : gpio) (st : state) : state :=
  let btn1 := rot1_sw g in
  let st :=
    if negb btn1 && btn1_last st then
      wake_flag (set_current_viz ((current_viz (ctl st) + 1) mod 6) st)
    else st in
  set_buttons btn1 (btn2_last st) (pwr_last st) st.

(** The button of rotary 2: reset the settings. *)
Definition poll_button2 (g : gpio) (st : state) : state :=
  let btn2 := rot2_sw g in
  let st :=
    if negb btn2 && btn2_last st then
      wake_flag
        (set_audio (Audio.setNoiseReduction 77 (Audio.setSensitivity 100 (audio st))) st)
    else st in
  set_buttons (btn1_last st) btn2 (pwr_last st) st.

(** The power button: leave the loop. *)
Definition poll_power (g : gpio) (st : state) : state :=
  let pwr := power_sw g in
  let st := if negb pwr && pwr_last st then set_running false st else st in
  set_buttons (btn1_last st) (btn2_last st) pwr st.

(** [ControlHandler::poll] *)
Definition poll (g : gpio) (st : state) : state :=
  poll_power g (poll_button2 g (poll_button1 g (poll_encoder2 g (poll_encoder1 g st)))).

(** "Enter sleep mode" *)
Definition enter_sleep (st : state) : state :=
  let st := set_sleeping true st in
  let st := log [AudioSetSleepState true]
              (set_audio (Audio.setSleepState true (audio st)) st) in
  let st := log [MpdSetSleepState true]
              (set_mpd (MPD.setSleepState true (mpd_client st)) st) in
  log [DisplaySleep LeftDisplay; DisplaySleep RightDisplay; SetPowerLED false;
       SetSPISpeedSlow] st.

(** "Wake up" *)
Definition wake_up (st : state) : state :=
  let st := set_sleeping false st in
  let st := log [SetSPISpeedNormal] st in
  let st := log [AudioSetSleepState false]
              (set_audio (Audio.setSleepState false (audio st)) st) in
  let st := log [MpdSetSleepState false]
              (set_mpd (MPD.setSleepState false (mpd_client st)) st) in
  log [DisplayWake LeftDisplay; DisplayWake RightDisplay; SetPowerLED true;
       DisplayClear LeftDisplay; DisplayClear RightDisplay;
       DisplayDisplay LeftDisplay; DisplayDisplay RightDisplay] st.

(** "Handle visualization switching" *)
Definition switch_viz (st : state) : state :=
  if negb (current_viz (ctl st) =? local_current_viz st) then
    let st := set_local_viz (current_viz (ctl st)) st in
    let st := log [DisplayClear LeftDisplay; DisplayClear RightDisplay;
                   DisplayDisplay LeftDisplay; DisplayDisplay RightDisplay] st in
    if is_sleeping (ctl st) then
      let st := set_sleeping false st in
      let st := log [SetSPISpeedNormal] st in
      let st := log [AudioSetSleepState false]
                  (set_audio (Audio.setSleepState false (audio st)) st) in
      let st := log [MpdSetSleepState false]
                  (set_mpd (MPD.setSleepState false (mpd_client st)) st) in
      log [DisplayWake LeftDisplay; DisplayWake RightDisplay; SetPowerLED true] st
    else st
  else st.

(** What one iteration of the loop takes from outside: the levels seen
    by the poll at its top, the answer of [audio.checkForAudio()], and the
    levels seen by the extra poll of the asleep branch, when it runs. *)
Record loop_input := {
  gpio_top : gpio;
  has_audio : bool;
  gpio_asleep : gpio
}.

(** "Check for audio and handle sleep mode": the two edges. *)
Definition coordinator (has_audio : bool) (st : state) : state :=
  if negb has_audio && negb (is_sleeping (ctl st)) then enter_sleep st
  else if has_audio && is_sleeping (ctl st) then wake_up st
  else st.

(** "Render visualization if not sleeping"; asleep, every tenth pass
    polls the controls once more.  Rendering is logged, not computed: it
    only reads the analysers. *)
Definition render_or_idle (g : gpio) (st : state) : state :=
  if negb (is_sleeping (ctl st)) then
    log [Render (local_current_viz st); Delay 10] st
  else
    let n := sleep_counter st + 1 in
    let st :=
      if 10 <=? n then set_sleep_counter 0 (poll g (set_sleep_counter n st))
      else set_sleep_counter n st in
    log [Delay 100] st.

(** The body of [while (state.running)] in [VisualizerApp::run]. *)
Definition run_iteration (i : loop_input) (st : state) : state :=
  render_or_idle (gpio_asleep i)
    (switch_viz (coordinator (has_audio i) (poll (gpio_top i) st))).

(** The loop, for as long as inputs are supplied and [state.running]
    holds. *)
Fixpoint run (inputs : list loop_input) (st : state) : state :=
  match inputs with
  | [] => st
  | i :: rest => if running (ctl st) then run rest (run_iteration i st) else st
  end.

End Loop.

(** The state in which [run] enters its loop: freshly constructed
    collaborators, the encoder positions read by the [ControlHandler]
    constructor, nothing logged. *)
Definition initial (hann : list float) (now : Z) (enc1 enc2 : Z) : state :=
  {| ctl := {| running := true; current_viz := 0; is_sleeping := false |};
     audio := Audio.AudioProcessor hann now;
     mpd_client := MPD.MPDClient;
     encoder1_state := enc1; encoder2_state := enc2;
     btn1_last := true; btn2_last := true; pwr_last := true;
     local_current_viz := 0; sleep_counter := 0; calls := [] |}.

End App.

(* ================================================================== *)
(** ** Machine integers *)
(* ================================================================== *)

Module C.

Local Open Scope Z_scope.

(** The conversion of an integer to [uint8_t], to [unsigned int], and to
    [int] (the result of an [int] operation wraps around on the target). *)
Definition uint8_t (z : Z) : Z := z mod 256.
Definition uint32_t (z : Z) : Z := z mod 2 ^ 32.
Definition int (z : Z) : Z := (z + 2 ^ 31) mod 2 ^ 32 - 2 ^ 31.

End C.

(* ================================================================== *)
(** ** FontManager: text through FreeType *)
(* ================================================================== *)

Module Font.

Local Open Scope Z_scope.

(** What [FT_Load_Char] leaves in [face->glyph]: the bitmap (with
    [FT_LOAD_RENDER]), its position relative to the pen, and the advance
    in 26.6 fixed point. *)
Record glyph := {
  rows : Z;
  width : Z;
  pitch : Z;
  bitmap : list Z;
  bitmap_left : Z;
  bitmap_top : Z;
  advance_x : Z
}.

Inductive FontSize := SMALL | REGULAR | LARGE.

(** The members of [FontManager]; a face is known by its handle, and the
    small and large faces may have failed to load. *)
Record FontManager := {
  initialized : bool;
  face_regular : Z;
  face_small : option Z;
  face_large : option Z
}.

(** The [switch (size)] that picks the face. *)
Definition select_face (fm : FontManager) (size : FontSize) : Z :=
  match size with
  | SMALL => match face_small fm with Some f => f | None => face_regular fm end
  | LARGE => match face_large fm with Some f => f | None => face_regular fm end
  | REGULAR => face_regular fm
  end.

(** The character that ends a C string. *)
Definition NUL : ascii := Ascii.zero.

Section FreeType.

(** [FT_Load_Char(face, c, flags)], [None] when it reports an error;
    the flag is [true] for [FT_LOAD_RENDER], [false] for
    [FT_LOAD_DEFAULT]. *)
Variable FT_Load_Char : Z -> ascii -> bool -> option glyph.

(** [face->size->metrics.height] *)
Variable metrics_height : Z -> Z.

(** [buffer[page * buf_width + px] |= (1 << bit)] *)
Definition set_bit (buf_width px py : Z) (buffer : list Z) : list Z :=
  let page := Z.quot py 8 in
  let bit := Z.rem py 8 in
  let i := Z.to_nat (C.int (C.int (page * buf_width) + px)) in
  <[ i := C.uint8_t (Z.lor (buffer !!! i) (Z.shiftl 1 bit)) ]> buffer.

(** The body of the two inner loops of [renderText]. *)
Definition render_pixel (g : glyph) (buf_width buf_height start_x start_y : Z)
    (invert : bool) (buffer : list Z) (row col : Z) : list Z :=
  let px := C.int (start_x + col) in
  let py := C.int (start_y + row) in
  if (0 <=? px) && (px <? buf_width) && (0 <=? py) && (py <? buf_height) then
    let gray := bitmap g !!! Z.to_nat (C.uint32_t (row * pitch g + col)) in
    let pixel_on := 128 <? gray in
    let pixel_on := if invert then negb pixel_on else pixel_on in
    if pixel_on then set_bit buf_width px py buffer else buffer
  else buffer.

Definition render_glyph (g : glyph) (buf_width buf_height start_x start_y : Z)
    (invert : bool) (buffer : list Z) : list Z :=
  fold_left
    (fun b row =>
       fold_left (fun b col => render_pixel g buf_width buf_height start_x start_y invert b row col)
         (seqZ 0 (width g)) b)
    (seqZ 0 (rows g)) buffer.

(** The loop of [renderText] over the characters of [text], up to its
    terminator. *)
Fixpoint renderText_loop (face : Z) (text : string) (buf_width buf_height : Z)
    (cursor_x baseline_y : Z) (invert : bool) (buffer : list Z) : list Z :=
  match text with
  | EmptyString => buffer
  | String c text' =>
      if Ascii.eqb c NUL then buffer
      else
        match FT_Load_Char face c true with
        | None =>
            renderText_loop face text' buf_width buf_height cursor_x baseline_y invert buffer
        | Some g =>
            let start_x := C.int (cursor_x + bitmap_left g) in
            let start_y := C.int (baseline_y - bitmap_top g) in
            let buffer := render_glyph g buf_width buf_height start_x start_y invert buffer in
            renderText_loop face text' buf_width buf_height
              (C.int (cursor_x + Z.shiftr (advance_x g) 6)) baseline_y invert buffer
        end
  end.

(** [renderText]: the buffer afterwards and the return value.  [text]
    is not a null pointer. *)
Definition renderText (fm : FontManager) (text : string) (buffer : list Z)
    (buf_width buf_height x y : Z) (size : FontSize) (invert : bool) : list Z * bool :=
  if negb (initialized fm) then (buffer, false)
  else
    (renderText_loop (select_face fm size) text buf_width buf_height x y invert buffer,
     true).

(** The loop of [getTextWidth] over the characters of [text], up to
    its terminator. *)
Fixpoint getTextWidth_loop (face : Z) (text : string) (width : Z) : Z :=
  match text with
  | EmptyString => width
  | String c text' =>
      if Ascii.eqb c NUL then width
      else
        let width :=
          match FT_Load_Char face c false with
          | None => width
          | Some g => C.int (width + Z.shiftr (advance_x g) 6)
          end in
        getTextWidth_loop face text' width
  end.

Definition getTextWidth (fm : FontManager) (text : string) (size : FontSize) : Z :=
  if negb (initialized fm) then 0
  else getTextWidth_loop (select_face fm size) text 0.

Definition getFontHeight (fm : FontManager) (size : FontSize) : Z :=
  if negb (initialized fm) then 12
  else Z.shiftr (metrics_height (select_face fm size)) 6.

Definition isInitialized (fm : FontManager) : bool := initialized fm.

End FreeType.

End Font.

(* ================================================================== *)
(** ** Display: the frame buffer and its drawing primitives *)
(* ================================================================== *)

Module Display.

Local Open Scope Z_scope.

(** [uint8_t buffer[1024]], cleared by the constructor. *)
Definition Display : list Z := replicate 1024%nat 0.

(** [clear]: [memset(buffer, 0x00, sizeof(buffer))] *)
Definition clear (buffer : list Z) : list Z := replicate 1024%nat 0.

(** What goes over the wires: a GPIO level written, a byte shifted out. *)
Inductive bus :=
| gpio_write (pin : Z) (level : bool)
| spi_transfer (value : Z).

(** The pins of one display. *)
Record pins := { _cs : Z; _dc : Z; _rst : Z }.

Definition LOW : bool := false.
Definition HIGH : bool := true.

Definition sendCommand (d : pins) (cmd : Z) : list bus :=
  [gpio_write (_dc d) LOW; gpio_write (_cs d) LOW; spi_transfer cmd;
   gpio_write (_cs d) HIGH].

Definition sendData (d : pins) (data : Z) : list bus :=
  [gpio_write (_dc d) HIGH; gpio_write (_cs d) LOW; spi_transfer data;
   gpio_write (_cs d) HIGH].

(** [display]: the eight pages, each one addressed and then sent column
    by column. *)
Definition display (d : pins) (buffer : list Z) : list bus :=
  seqZ 0 8 ≫= (fun page =>
    sendCommand d (C.uint8_t (0xB0 + page)) ++ sendCommand d 0x00 ++ sendCommand d 0x10 ++
    (seqZ 0 128 ≫= (fun col => sendData d (buffer !!! Z.to_nat (page * 128 + col))))).

Definition sleep (d : pins) : list bus := sendCommand d 0xAE.
Definition wake (d : pins) : list bus := sendCommand d 0xAF.

(** [drawPixel] and [clearPixel]; [x] and [y] are [uint8_t] values. *)
Definition drawPixel (x y : Z) (buffer : list Z) : list Z :=
  if (128 <=? x) || (64 <=? y) then buffer
  else
    let i := Z.to_nat (y / 8 * 128 + x) in
    <[ i := C.uint8_t (Z.lor (buffer !!! i) (Z.shiftl 1 (y mod 8))) ]> buffer.

Definition clearPixel (x y : Z) (buffer : list Z) : list Z :=
  if (128 <=? x) || (64 <=? y) then buffer
  else
    let i := Z.to_nat (y / 8 * 128 + x) in
    <[ i := C.uint8_t (Z.land (buffer !!! i) (Z.lnot (Z.shiftl 1 (y mod 8)))) ]> buffer.

Definition abs (z : Z) : Z := C.int (Z.abs z).

(** The [while (true)] loop of [drawLine], run for at most [fuel]
    iterations; [None] when they do not suffice.  The [int] coordinates
    are converted to [uint8_t] by the call of [drawPixel]. *)
Fixpoint drawLine_loop (fuel : nat) (dx dy sx sy x1 y1 x0 y0 err : Z)
    (buffer : list Z) : option (list Z) :=
  match fuel with
  | O => None
  | S fuel =>
      let buffer := drawPixel (C.uint8_t x0) (C.uint8_t y0) buffer in
      if (x0 =? x1) && (y0 =? y1) then Some buffer
      else
        let e2 := C.int (2 * err) in
        let '(err, x0) :=
          if C.int (- dy) <? e2 then (C.int (err - dy), C.int (x0 + sx)) else (err, x0) in
        let '(err, y0) :=
          if e2 <? dx then (C.int (err + dx), C.int (y0 + sy)) else (err, y0) in
        drawLine_loop fuel dx dy sx sy x1 y1 x0 y0 err buffer
  end.

Definition drawLine (fuel : nat) (x0 y0 x1 y1 : Z) (buffer : list Z) : option (list Z) :=
  let dx := abs (C.int (x1 - x0)) in
  let dy := abs (C.int (y1 - y0)) in
  let sx := if x0 <? x1 then 1 else -1 in
  let sy := if y0 <? y1 then 1 else -1 in
  let err := C.int (dx - dy) in
  drawLine_loop fuel dx dy sx sy x1 y1 x0 y0 err buffer.

(** [for (int j = x; j < x + w && j < 128; j++) drawPixel(j, i);] *)
Definition drawRect_row (x w i : Z) (buffer : list Z) : list Z :=
  fold_left (fun b j => drawPixel (C.uint8_t j) (C.uint8_t i) b)
    (seqZ x (Z.min (C.int (x + w)) 128 - x)) buffer.

(** [drawRect]; the outline is four lines, each run with [fuel]. *)
Definition drawRect (fuel : nat) (x y w h : Z) (filled : bool) (buffer : list Z)
    : option (list Z) :=
  if filled then
    Some (fold_left (fun b i => drawRect_row x w i b)
            (seqZ y (Z.min (C.int (y + h)) 64 - y)) buffer)
  else
    let x' := C.int (C.int (x + w) - 1) in
    let y' := C.int (C.int (y + h) - 1) in
    b ← drawLine fuel x y x' y buffer;
    b ← drawLine fuel x' y x' y' b;
    b ← drawLine fuel x' y' x y' b;
    drawLine fuel x y' x y b.

(** The eight [drawPixel] calls of one pass of the outline loop of
    [drawCircle]. *)
Definition drawCircle_octants (x0 y0 x y : Z) (buffer : list Z) : list Z :=
  let draw (px py : Z) (b : list Z) := drawPixel (C.uint8_t (C.int px)) (C.uint8_t (C.int py)) b in
  draw (x0 + x) (y0 - y)
    (draw (x0 + y) (y0 - x)
      (draw (x0 - y) (y0 - x)
        (draw (x0 - x) (y0 - y)
          (draw (x0 - x) (y0 + y)
            (draw (x0 - y) (y0 + x)
              (draw (x0 + y) (y0 + x)
                (draw (x0 + x) (y0 + y) buffer))))))).

(** The [while (x >= y)] loop of the outline. *)
Fixpoint drawCircle_loop (fuel : nat) (x0 y0 x y err : Z) (buffer : list Z)
    : option (list Z) :=
  if x <? y then Some buffer
  else
    match fuel with
    | O => None
    | S fuel =>
        let buffer := drawCircle_octants x0 y0 x y buffer in
        let '(y, err) :=
          if err <=? 0 then let y := C.int (y + 1) in (y, C.int (err + C.int (C.int (2 * y) + 1)))
          else (y, err) in
        let '(x, err) :=
          if 0 <? err then let x := C.int (x - 1) in (x, C.int (err - C.int (C.int (2 * x) + 1)))
          else (x, err) in
        drawCircle_loop fuel x0 y0 x y err buffer
    end.

Section Circle.

(** [(int)sqrt(n)] for an [int] [n]: a call into libm. *)
Variable sqrt : Z -> Z.

(** [drawCircle]; filled, one horizontal line per row. *)
Definition drawCircle (fuel : nat) (x0 y0 radius : Z) (filled : bool) (buffer : list Z)
    : option (list Z) :=
  if filled then
    fold_left
      (fun (ob : option (list Z)) (y : Z) =>
         b ← ob;
         let x := sqrt (C.int (C.int (radius * radius) - C.int (y * y))) in
         drawLine fuel (C.int (x0 - x)) (C.int (y0 + y)) (C.int (x0 + x)) (C.int (y0 + y)) b)
      (seqZ (C.int (- radius)) (radius - C.int (- radius) + 1)) (Some buffer)
  else drawCircle_loop fuel x0 y0 radius 0 0 buffer.

End Circle.

Section Text.

Variable FT_Load_Char : Z -> ascii -> bool -> option Font.glyph.

(** [drawText]; [font_manager] is the pointer given to [setFont], [x]
    and [y] are [uint8_t] values. *)
Definition drawText (font_manager : option Font.FontManager) (x y : Z) (text : string)
    (size : Font.FontSize) (buffer : list Z) : list Z :=
  match font_manager with
  | None => buffer
  | Some fm =>
      if negb (Font.isInitialized fm) then buffer
      else fst (Font.renderText FT_Load_Char fm text buffer 128 64 x y size false)
  end.

(** [drawTextCentered] *)
Definition drawTextCentered (font_manager : option Font.FontManager) (y : Z) (text : string)
    (size : Font.FontSize) (buffer : list Z) : list Z :=
  match font_manager with
  | None => buffer
  | Some fm =>
      if negb (Font.isInitialized fm) then buffer
      else
        let text_width := Font.getTextWidth FT_Load_Char fm text size in
        let x := Z.quot (C.int (128 - text_width)) 2 in
        let x := if x <? 0 then 0 else x in
        drawText font_manager (C.uint8_t x) y text size buffer
  end.

End Text.

End Display.

(* ================================================================== *)
(** ** TextScroller *)
(* ================================================================== *)

Module TextScroller.

Local Open Scope Z_scope.

Inductive ScrollState := PAUSED_AT_START | SCROLLING | PAUSED_AT_END.

(** Times are ticks of [steady_clock] (nanoseconds). *)
Record state := {
  current_text : string;
  scroll_position : float;
  last_scroll_time : Z;
  pause_counter : Z;
  text_width_pixels : Z;
  needs_scrolling : bool;
  scroll_state : ScrollState
}.

Definition SCROLL_SPEED_PIXELS_PER_SECOND : float := F32.of_int 30.
Definition SCROLL_PAUSE_MS : Z := 2000.
Definition SCROLL_GAP_PIXELS : Z := 1.

(** The constructor. *)
Definition TextScroller (now : Z) : state :=
  {| current_text := ""; scroll_position := F32.zero; last_scroll_time := now;
     pause_counter := 0; text_width_pixels := 0; needs_scrolling := false;
     scroll_state := PAUSED_AT_START |}.

Definition setText (text : string) (st : state) : state :=
  if negb (String.eqb text (current_text st)) then
    {| current_text := text; scroll_position := F32.zero;
       last_scroll_time := last_scroll_time st;
       pause_counter := SCROLL_PAUSE_MS; text_width_pixels := 0;
       needs_scrolling := false; scroll_state := PAUSED_AT_START |}
  else st.

Definition reset (now : Z) (st : state) : state :=
  {| current_text := current_text st; scroll_position := F32.zero;
     last_scroll_time := now;
     pause_counter := SCROLL_PAUSE_MS; text_width_pixels := text_width_pixels st;
     needs_scrolling := needs_scrolling st; scroll_state := PAUSED_AT_START |}.

(** [s.substr(pos, count)] for [pos] within [s]; [count] is an [int]
    converted to [size_t], so a negative one reaches to the end. *)
Definition substr (s : string) (pos count : Z) : string :=
  String.substring (Z.to_nat pos)
    (if count <? 0 then String.length s else Z.to_nat count) s.

Definition empty (s : string) : bool :=
  match s with EmptyString => true | _ => false end.

Section FreeType.

Variable FT_Load_Char : Z -> ascii -> bool -> option Font.glyph.

(** The first loop of [createVisibleText] from index [i] on, over the
    characters [chars] left: the values of [start_char] and [end_char]
    when it ends. *)
Fixpoint find_window (fm : Font.FontManager) (font_size : Font.FontSize)
    (scroll_position : float) (max_width : Z)
    (chars : string) (i current_pixel start_char : Z) : Z * Z :=
  match chars with
  | EmptyString => (start_char, -1)
  | String c rest =>
      let char_width := Font.getTextWidth FT_Load_Char fm (String c EmptyString) font_size in
      let start_char :=
        if F32.lt scroll_position (F32.of_int (C.int (current_pixel + char_width)))
           && (start_char =? -1)
        then i else start_char in
      let current_pixel := C.int (current_pixel + char_width) in
      if F32.lt (F32.add scroll_position (F32.of_int max_width)) (F32.of_int current_pixel)
      then (start_char, i)
      else find_window fm font_size scroll_position max_width rest (i + 1)
             current_pixel start_char
  end.

(** The loop that appends the beginning of the text. *)
Fixpoint fill (fm : Font.FontManager) (font_size : Font.FontSize)
    (chars : string) (remaining_width : Z) (visible : string) : string :=
  match chars with
  | EmptyString => visible
  | String c rest =>
      if 0 <? remaining_width then
        fill fm font_size rest
          (C.int (remaining_width
                  - Font.getTextWidth FT_Load_Char fm (String c EmptyString) font_size))
          (visible ++ String c EmptyString)
      else visible
  end.

Definition createVisibleText (max_width : Z) (fm : Font.FontManager)
    (font_size : Font.FontSize) (st : state) : string :=
  let text := current_text st in
  let '(start_char, end_char) :=
    find_window fm font_size (scroll_position st) max_width text 0 0 (-1) in
  let start_char := if start_char =? -1 then 0 else start_char in
  let end_char := if end_char =? -1 then Z.of_nat (String.length text) else end_char in
  let visible := substr text start_char (C.int (end_char - start_char)) in
  let visible_width := Font.getTextWidth FT_Load_Char fm visible font_size in
  if (visible_width <? max_width) && F32.lt (F32.of_int 0) (scroll_position st) then
    let gap := string_of_list_ascii
                 (repeat " "%char (Z.to_nat (Z.quot SCROLL_GAP_PIXELS 6))) in
    let visible := (visible ++ gap)%string in
    let remaining_width :=
      C.int (max_width - Font.getTextWidth FT_Load_Char fm visible font_size) in
    fill fm font_size text remaining_width visible
  else visible.

Definition set_width (w : Z) (needs : bool) (st : state) : state :=
  {| current_text := current_text st; scroll_position := scroll_position st;
     last_scroll_time := last_scroll_time st; pause_counter := pause_counter st;
     text_width_pixels := w; needs_scrolling := needs;
     scroll_state := scroll_state st |}.

Definition set_scroll (position : float) (last : Z) (pause : Z) (s : ScrollState)
    (st : state) : state :=
  {| current_text := current_text st; scroll_position := position;
     last_scroll_time := last; pause_counter := pause;
     text_width_pixels := text_width_pixels st; needs_scrolling := needs_scrolling st;
     scroll_state := s |}.

(** [getScrollingText]: the scroller afterwards and the string returned;
    [now] is what [steady_clock::now()] returns during the call. *)
Definition getScrollingText (now : Z) (max_width : Z)
    (font_manager : option Font.FontManager) (font_size : Font.FontSize) (st : state)
    : state * string :=
  match font_manager with
  | None => (st, current_text st)
  | Some fm =>
      if negb (Font.isInitialized fm) || empty (current_text st) then (st, current_text st)
      else
        let st :=
          if text_width_pixels st =? 0 then
            let w := Font.getTextWidth FT_Load_Char fm (current_text st) font_size in
            set_width w (max_width <? w) st
          else st in
        if negb (needs_scrolling st) then (st, current_text st)
        else
          let elapsed_ms := Z.quot (now - last_scroll_time st) 1000000 in
          let st :=
            match scroll_state st with
            | PAUSED_AT_START =>
                let pause := C.int (pause_counter st - elapsed_ms) in
                if pause <=? 0 then set_scroll (scroll_position st) now 0 SCROLLING st
                else set_scroll (scroll_position st) now pause PAUSED_AT_START st
            | SCROLLING =>
                let position :=
                  F32.add (scroll_position st)
                    (F32.div (F32.mul SCROLL_SPEED_PIXELS_PER_SECOND (F32.of_int elapsed_ms))
                       (F32.of_int 1000)) in
                if F32.le (F32.of_int (C.int (text_width_pixels st + SCROLL_GAP_PIXELS)))
                     position
                then set_scroll F32.zero now SCROLL_PAUSE_MS PAUSED_AT_START st
                else set_scroll position now (pause_counter st) SCROLLING st
            | PAUSED_AT_END =>
                set_scroll (scroll_position st) now (pause_counter st) PAUSED_AT_END st
            end in
          (st, createVisibleText max_width fm font_size st)
  end.

End FreeType.

End TextScroller.

(* ================================================================== *)
(** ** The visualizations *)
(* ================================================================== *)

Module Viz.

Local Open Scope Z_scope.

(** A [Display] object: its pins, the font manager given to [setFont],
    its frame buffer. *)
Record Display := {
  pins_of : Display.pins;
  display_font : option Font.FontManager;
  buffer : list Z
}.

Definition with_buffer (b : list Z) (d : Display) : Display :=
  {| pins_of := pins_of d; display_font := display_font d; buffer := b |}.

(** The members of the base class [Visualization] other than the two
    display pointers: whether [mpd_client] is set, the font manager, the
    two title scrollers. *)
Record Visualization := {
  mpd_client : bool;
  font_manager : option Font.FontManager;
  title_scroller_left : TextScroller.state;
  title_scroller_right : TextScroller.state
}.

Definition with_scroller (is_left : bool) (s : TextScroller.state) (v : Visualization)
    : Visualization :=
  if is_left then
    {| mpd_client := mpd_client v; font_manager := font_manager v;
       title_scroller_left := s; title_scroller_right := title_scroller_right v |}
  else
    {| mpd_client := mpd_client v; font_manager := font_manager v;
       title_scroller_left := title_scroller_left v; title_scroller_right := s |}.

(** The two constructors. *)
Definition Visualization_basic (now : Z) : Visualization :=
  {| mpd_client := false; font_manager := None;
     title_scroller_left := TextScroller.TextScroller now;
     title_scroller_right := TextScroller.TextScroller now |}.

Definition Visualization_mpd (fm : option Font.FontManager) (now : Z) : Visualization :=
  {| mpd_client := true; font_manager := fm;
     title_scroller_left := TextScroller.TextScroller now;
     title_scroller_right := TextScroller.TextScroller now |}.

Definition hasMPDSupport (v : Visualization) : bool :=
  mpd_client v && match font_manager v with Some _ => true | None => false end.

Section Rendering.

Variable FT_Load_Char : Z -> ascii -> bool -> option Font.glyph.

(** The result of [(int)x] where C++ leaves it undefined. *)
Variable indef : float -> Z.

(** [renderClippedText]: the display buffer afterwards.  The text is
    rendered into a zeroed buffer of its own, of which the columns from 0
    on are then or-ed into the display buffer from column [x] on. *)
Definition renderClippedText (fm : Font.FontManager) (x y : Z) (text : string)
    (clip_width : Z) (font_size : Font.FontSize) (buffer : list Z) : list Z :=
  let temp_buffer :=
    fst (Font.renderText FT_Load_Char fm text (replicate 1024%nat 0) 128 64 0 y
           font_size false) in
  let page_start := Z.quot (C.int (y - 8)) 8 in
  let page_end := Z.quot (C.int (y + 8)) 8 in
  fold_left
    (fun b page =>
       fold_left
         (fun b col =>
            let i := Z.to_nat (page * 128 + x + col) in
            <[ i := C.uint8_t (Z.lor (b !!! i) (temp_buffer !!! Z.to_nat (page * 128 + col))) ]> b)
         (seqZ 0 (Z.min clip_width (128 - x))) b)
    (seqZ page_start (Z.min page_end 7 - page_start + 1)) buffer.

(** [drawTitleWithMPD]; [mpd] is the client [mpd_client] points to and
    [now] what the clock shows. *)
Definition drawTitleWithMPD (now : Z) (mpd : MPD.state) (viz_name : string) (y_offset : Z)
    (is_left : bool) (dv : Display * Visualization) : Display * Visualization :=
  let '(display, v) := dv in
  let display :=
    with_buffer
      (Display.drawText FT_Load_Char (display_font display) 0 (C.uint8_t y_offset) viz_name
         Font.SMALL (buffer display)) display in
  if negb (mpd_client v) then (display, v)
  else
    match font_manager v with
    | None => (display, v)
    | Some fm =>
        let viz_name_width := Font.getTextWidth FT_Load_Char fm viz_name Font.SMALL in
        let mpd_start_x := C.int (viz_name_width + 8) in
        let available_width := C.int (128 - mpd_start_x) in
        let mpd_text := MPD.getFormattedText mpd in
        let scroller := if is_left then title_scroller_left v else title_scroller_right v in
        let scroller := TextScroller.setText mpd_text scroller in
        if negb (TextScroller.empty mpd_text) && (20 <? available_width) then
          let '(scroller, scrolled) :=
            TextScroller.getScrollingText FT_Load_Char now available_width
              (font_manager v) Font.SMALL scroller in
          let text_width := Font.getTextWidth FT_Load_Char fm mpd_text Font.SMALL in
          let b :=
            if available_width <? text_width then
              renderClippedText fm mpd_start_x y_offset scrolled available_width
                Font.SMALL (buffer display)
            else
              Display.drawText FT_Load_Char (display_font display)
                (C.uint8_t mpd_start_x) (C.uint8_t y_offset) scrolled Font.SMALL
                (buffer display) in
          (with_buffer b display, with_scroller is_left scroller v)
        else (display, with_scroller is_left scroller v)
    end.

(** [drawTitle] *)
Definition drawTitle (viz_name : string) (y_offset : Z) (display : Display) : Display :=
  with_buffer
    (Display.drawText FT_Load_Char (display_font display) 2 (C.uint8_t y_offset) viz_name
       Font.SMALL (buffer display)) display.

(** *** VUMeterVisualization *)

(** [drawVUNeedle]: the buffer afterwards, when [fuel] iterations suffice
    for each line.  After the clamp of [pos] every intermediate value is
    small. *)
Definition drawVUNeedle (fuel : nat) (level : float) (buffer : list Z) : option (list Z) :=
  let pos := F32.to_int indef
               (F32.mul (F32.div level (F32.of_int 255)) (F32.of_int 127)) in
  let pos := Z.max 0 (Z.min 127 pos) in
  let start_x := 71 - Z.quot (127 - pos) 8 in
  let start_y := 63 in
  let end_x := pos in
  let curve_height := pos * (127 - pos) in
  let end_y := 20 - Z.quot curve_height 200 in
  b ← Display.drawLine fuel start_x start_y end_x end_y buffer;
  Display.drawLine fuel (start_x + 1) start_y (end_x + 1) end_y b.

(** *** WaveformVisualizationMPD *)

Definition WAVE_SAMPLES : Z := 128.

(** [center_y - (int)(sample * wave_height)], clamped. *)
Definition wave_y (sample : float) : Z :=
  Z.max 12 (Z.min 63 (C.int (37 - F32.to_int indef (F32.mul sample (F32.of_int 25))))).

(** [drawWaveform]: display and visualization afterwards, and what
    [display()] sends. *)
Definition drawWaveform (fuel : nat) (now : Z) (mpd : MPD.state) (audio : Audio.state)
    (is_left : bool) (dv : Display * Visualization)
    : option (Display * Visualization * list Display.bus) :=
  let '(display, v) := dv in
  let display := with_buffer (Display.clear (buffer display)) display in
  let '(display, v) :=
    drawTitleWithMPD now mpd (if is_left then "WAVEFORM L" else "WAVEFORM R")%string 5
      is_left (display, v) in
  let samples := Audio.getWaveformData WAVE_SAMPLES is_left audio in
  b ← Display.drawLine fuel 0 37 127 37 (buffer display);
  b ← fold_left
        (fun (ob : option (list Z)) (i : Z) =>
           b ← ob;
           let y1 := wave_y (samples !!! Z.to_nat i) in
           let y2 := wave_y (samples !!! Z.to_nat (i + 1)) in
           Display.drawLine fuel i y1 (i + 1) y2 b)
        (seqZ 0 (WAVE_SAMPLES - 1)) (Some b);
  Some (with_buffer b display, v, Display.display (pins_of display) b).

(** *** SpectrumVisualizationMPD *)

Definition FREQ_LABELS : list string :=
  ["63"; "160"; "400"; "1K"; "2.5K"; "6.3K"; "16K"]%string.

(** One pass of the "Draw bars" loop of [drawSpectrum]: the buffer and
    [peaks[i]] afterwards. *)
Definition drawSpectrum_bar (fuel : nat) (font : option Font.FontManager)
    (levels : list Z) (i : Z) (bp : list Z * list float) : option (list Z * list float) :=
  let '(b, peaks) := bp in
  let bar_top := 8 in
  let bar_bottom := 57 in
  let bar_width := 12 in
  let bar_height_range := bar_bottom - bar_top in
  let x := 1 + i * 19 in
  let height := Z.quot (C.int (levels !!! Z.to_nat i * bar_height_range)) 255 in
  let bar_y := C.int (bar_bottom - height) in
  b ← (if (0 <? height) && (bar_top <=? bar_y) then
         Display.drawRect fuel x (Z.max bar_y bar_top) bar_width
           (Z.min height (bar_bottom - bar_top)) true b
       else Some b);
  let peak := peaks !!! Z.to_nat i in
  let peak := if F32.lt (F32.of_int bar_y) peak then F32.of_int bar_y else peak in
  let peak := F32.fmin (F32.of_int (bar_bottom - 1)) (F32.add peak (F32.literal 8 10)) in
  b ← (if F32.lt peak (F32.of_int (bar_bottom - 1)) && F32.le (F32.of_int bar_top) peak then
         Display.drawLine fuel x (F32.to_int indef peak)
           (x + bar_width - 1) (F32.to_int indef peak) b
       else Some b);
  let b := Display.drawText FT_Load_Char font (C.uint8_t x) 64
             (nth (Z.to_nat i) FREQ_LABELS EmptyString) Font.SMALL b in
  Some (b, <[Z.to_nat i := peak]> peaks).

(** [drawSpectrum]: display, visualization and peaks afterwards, and
    what [display()] sends. *)
Definition drawSpectrum (fuel : nat) (now : Z) (mpd : MPD.state) (levels : list Z)
    (peaks : list float) (title : string) (is_left : bool) (dv : Display * Visualization)
    : option (Display * Visualization * list float * list Display.bus) :=
  let '(display, v) := dv in
  let display := with_buffer (Display.clear (buffer display)) display in
  let '(display, v) := drawTitleWithMPD now mpd title 5 is_left (display, v) in
  bp ← fold_left
         (fun obp i => bp ← obp; drawSpectrum_bar fuel (display_font display) levels i bp)
         (seqZ 0 7) (Some (buffer display, peaks));
  Some (with_buffer (fst bp) display, v, snd bp, Display.display (pins_of display) (fst bp)).

End Rendering.

End Viz.

(* ================================================================== *)
(** ** Auxiliary definitions for the statements below *)
(* ================================================================== *)

Module Spec.

Local Open Scope Z_scope.

(** Two numbers with the same representation. *)
Definition float_same (a b : float) : bool :=
  match a, b with
  | S754_zero s, S754_zero s' => Bool.eqb s s'
  | S754_infinity s, S754_infinity s' => Bool.eqb s s'
  | S754_nan, S754_nan => true
  | S754_finite s m e, S754_finite s' m' e' => Bool.eqb s s' && Pos.eqb m m' && Z.eqb e e'
  | _, _ => false
  end.

(** *** Parameters *)

(** [std::max(lo, std::min(hi, (float)value))] *)
Definition clamp_int (lo hi value : Z) : float :=
  F32.fmax (F32.of_int lo) (F32.fmin (F32.of_int hi) (F32.of_int value)).

(** The two public operations that change the analysis parameters. *)
Inductive param_op :=
| SetSensitivity (value : Z)
| SetNoiseReduction (value : Z).

Definition apply_op (st : Audio.state) (op : param_op) : Audio.state :=
  match op with
  | SetSensitivity v => Audio.setSensitivity v st
  | SetNoiseReduction v => Audio.setNoiseReduction v st
  end.

Definition run_ops (ops : list param_op) (st : Audio.state) : Audio.state :=
  fold_left apply_op ops st.

(** The three factors as functions of the stored parameter they depend on
    (the right-hand sides of [updateParameters]). *)
Definition integral_of (nr : float) : float :=
  F32.mul (F32.div nr (F32.of_int 100)) (F32.literal 95 100).
Definition gravity_of (nr : float) : float :=
  F32.fmax
    (F32.sub F32.one (F32.mul (F32.div nr (F32.of_int 100)) (F32.literal 8 10)))
    (F32.literal 2 10).
Definition scale_of (sens : float) : float :=
  F32.mul (F32.div sens (F32.of_int 100)) (F32.literal 22 10).

(** The largest scale factor, reached at sensitivity 300: the product
    [3.0f * 2.2f] is a tie and rounds up to 13841204 * 2^-21, about
    6.6000004, one unit in the last place above the binary32 nearest
    to 6.6. *)
Definition SCALE_MAX : Q := 13841204 # 2097152.

(** Stored parameters and factors are those of some integers in range. *)
Definition params_inv (st : Audio.state) : Prop :=
  exists k n,
    10 <= k <= 300 /\ 0 <= n <= 100 /\
    Audio.sensitivity st = F32.of_int k /\
    Audio.noise_reduction st = F32.of_int n /\
    Audio.integral_factor st = integral_of (F32.of_int n) /\
    Audio.gravity_factor st = gravity_of (F32.of_int n) /\
    Audio.scale_factor st = scale_of (F32.of_int k).

(** Bounds, checked by evaluation over every integer of a range. *)
Definition clamp_exact (lo hi k : Z) : bool :=
  float_same (clamp_int lo hi k) (F32.of_int (Z.max lo (Z.min hi k))).
Definition scale_bounded (k : Z) : bool :=
  F32.within (22 # 100) SCALE_MAX (scale_of (F32.of_int k)).
Definition smoothing_bounded (n : Z) : bool :=
  F32.within 0 (95 # 100) (integral_of (F32.of_int n))
  && F32.within (2 # 10) 1 (gravity_of (F32.of_int n)).

(** *** The circular buffer *)

Definition CAPACITY : Z := Audio.FFT_SIZE_BASS * 2.

(** The buffers have their allocated size and the cursor is inside. *)
Definition well_formed (st : Audio.state) : Prop :=
  length (Audio.circular_buffer_left st) = Z.to_nat CAPACITY /\
  length (Audio.circular_buffer_right st) = Z.to_nat CAPACITY /\
  0 <= Audio.write_pos st < CAPACITY.

(** Storing [xs] consecutively from [pos] on, wrapping at the capacity. *)
Fixpoint ring_store {A : Type} (xs : list A) (b : list A) (pos : Z) : list A :=
  match xs with
  | [] => b
  | x :: xs' => ring_store xs' (<[Z.to_nat pos := x]> b) ((pos + 1) mod CAPACITY)
  end.

(** The number of frames an iteration goes on to process (negative: the
    iteration is skipped). *)
Definition effective_frames (r : Audio.pcm_read) : Z :=
  if Audio.readi_ret r <? 0 then Audio.recover_ret r else Audio.readi_ret r.

(** The first [frames] stereo frames of an interleaved buffer. *)
Definition frames_of (buf : list Z) (frames : Z) : list (Z * Z) :=
  (fun i => (buf !!! Z.to_nat (i * 2), buf !!! Z.to_nat (i * 2 + 1))) <$> seqZ 0 frames.

(** The frames one device answer delivers to the processing code. *)
Definition delivered (r : Audio.pcm_read) : list (Z * Z) :=
  frames_of (Audio.audio_buffer r) (effective_frames r).

(** The magnitudes of the samples of a block, in buffer order. *)
Definition magnitudes (fs : list (Z * Z)) : list float :=
  fs ≫= (fun f => [F32.fabs (Audio.normalize (fst f)); F32.fabs (Audio.normalize (snd f))]).

(** The peak amplitude of a block: the running maximum of the magnitudes
    of all its samples, from 0. *)
Definition block_peak (fs : list (Z * Z)) : float :=
  fold_left F32.fmax (magnitudes fs) F32.zero.

(** The samples of a block, in buffer order. *)
Definition samples_of (fs : list (Z * Z)) : list Z :=
  fs ≫= (fun f => [fst f; snd f]).

(** A 16-bit sample. *)
Definition is_int16 (z : Z) : Prop := -32768 <= z <= 32767.

(** A sample whose magnitude, over 32768, is above the silence threshold
    0.001: 33 / 32768 is, 32 / 32768 is not. *)
Definition loud_sample (z : Z) : bool := 33 <=? Z.abs z.

Definition has_loud_sample (fs : list (Z * Z)) : bool :=
  existsb loud_sample (samples_of fs).

(** [P k && P (k + 1) && ...], [n] times. *)
Fixpoint all_from (P : Z -> bool) (n : nat) (k : Z) : bool :=
  match n with
  | O => true
  | S n' => P k && all_from P n' (k + 1)
  end.

(** [normalize k], [normalize (k + 1)], ..., [n] of them. *)
Fixpoint normalized_from (n : nat) (k : Z) : list float :=
  match n with
  | O => []
  | S n' => Audio.normalize k :: normalized_from n' (k + 1)
  end.

(** The comparison with the threshold agrees with the integer test. *)
Definition threshold_agrees (a : Z) : bool :=
  Bool.eqb (F32.lt Audio.SILENCE_THRESHOLD (Audio.normalize a)) (33 <=? a).

(** [normalize l] is above every number of [qs], in both directions of
    the comparison. *)
Definition above_all (qs : list float) (l : Z) : bool :=
  let vl := Audio.normalize l in
  forallb (fun vq => F32.lt vq vl && negb (F32.lt vl vq)) qs.

(** A run of the capture thread: one device answer and one clock reading
    per iteration. *)
Definition capture (its : list ((Z -> Audio.pcm_read) * Z)) (st : Audio.state) : Audio.state :=
  fold_left (fun st it => Audio.audioThreadFunc_iteration (fst it) (snd it) st) its st.

(** All the frames delivered during a run made awake. *)
Definition delivered_awake (its : list ((Z -> Audio.pcm_read) * Z)) : list (Z * Z) :=
  its ≫= (fun it => delivered (fst it Audio.FRAMES_PER_BUFFER)).

Definition left_samples (fs : list (Z * Z)) : list float :=
  (fun f => Audio.normalize (fst f)) <$> fs.
Definition right_samples (fs : list (Z * Z)) : list float :=
  (fun f => Audio.normalize (snd f)) <$> fs.

(** *** The track text *)

(** Zero-padding on the left to at least two characters. *)
Definition pad2 (s : string) : string :=
  match String.length s with
  | 0%nat => "00" ++ s
  | 1%nat => "0" ++ s
  | _ => s
  end%string.

(** "NN. ": the 1-based position, an [unsigned], in decimal. *)
Definition track_part (song : MPD.mpd_song) : string :=
  (pad2 (MPD.to_string ((MPD.song_pos song + 1) mod 2 ^ 32)) ++ ". ")%string.

(** " - Artist", or nothing. *)
Definition artist_part (song : MPD.mpd_song) : string :=
  match MPD.tag_artist song with
  | Some a => if MPD.empty a then "" else " - " ++ a
  | None => ""
  end%string.

(** The title, with a placeholder for an absent or empty one. *)
Definition title_part (song : MPD.mpd_song) : string :=
  match MPD.tag_title song with
  | Some t => if MPD.empty t then "Unknown Title" else t
  | None => "Unknown Title"
  end%string.

(** " (Year)" for a date of at least four characters, or nothing. *)
Definition year_part (song : MPD.mpd_song) : string :=
  match MPD.tag_date song with
  | Some d => if (4 <=? String.length d)%nat
              then " (" ++ String.substring 0 4 d ++ ")" else ""
  | None => ""
  end%string.

(** The text the code shows for a song. *)
Definition display (song : MPD.mpd_song) : string :=
  (track_part song ++ title_part song ++ artist_part song ++ year_part song)%string.

(** The text as the specification words it: each missing component is
    left out with its separator, and the year is the first four characters
    of the date whenever there is a date. *)
Definition title_as_specified (song : MPD.mpd_song) : string :=
  match MPD.tag_title song with Some t => t | None => "" end%string.

Definition year_as_specified (song : MPD.mpd_song) : string :=
  match MPD.tag_date song with
  | Some d => if MPD.empty d then "" else " (" ++ String.substring 0 4 d ++ ")"
  | None => ""
  end%string.

Definition display_as_specified (song : MPD.mpd_song) : string :=
  (track_part song ++ title_as_specified song ++ artist_part song
     ++ year_as_specified song)%string.

(** A fetch that goes through: connected, not shutting down, awake, and
    no protocol error. *)
Definition fetch_succeeds (reply : MPD.current_song) (st : MPD.state) : bool :=
  MPD.conn st && negb (MPD.shutdown_requested st) && negb (MPD.is_sleeping st)
  && negb (MPD.cs_error reply).

Definition fetched (song : option MPD.mpd_song) : MPD.current_song :=
  {| MPD.cs_error := false; MPD.cs_song := song |}.

(** What happens to a client: its connection is made or lost, the power
    state changes, a fetch of the current song is attempted. *)
Inductive client_op :=
| SetConn (c : bool)
| SetSleepState (sleeping : bool)
| UpdateCurrentSong (reply : MPD.current_song).

Definition client_step (st : MPD.state) (op : client_op) : MPD.state :=
  match op with
  | SetConn c => MPD.set_conn c st
  | SetSleepState b => MPD.setSleepState b st
  | UpdateCurrentSong reply => MPD.updateCurrentSong reply st
  end.

(** Whether some fetch of the run went through. *)
Fixpoint some_fetch_succeeds (ops : list client_op) (st : MPD.state) : bool :=
  match ops with
  | [] => false
  | op :: rest =>
      match op with
      | UpdateCurrentSong reply => fetch_succeeds reply st
      | _ => false
      end || some_fetch_succeeds rest (client_step st op)
  end.

(** A client that has connected. *)
Definition example_client : MPD.state := MPD.set_conn true MPD.MPDClient.

Definition example_song : MPD.mpd_song :=
  {| MPD.song_pos := 4; MPD.tag_title := Some "Blue in Green"%string;
     MPD.tag_artist := Some "Miles Davis"%string;
     MPD.tag_date := Some "1959-08-17"%string |}.

(** A song without a title tag, and one whose date is two characters. *)
Definition example_untitled : MPD.mpd_song :=
  {| MPD.song_pos := 0; MPD.tag_title := None;
     MPD.tag_artist := Some "A"%string; MPD.tag_date := None |}.

Definition example_short_date : MPD.mpd_song :=
  {| MPD.song_pos := 0; MPD.tag_title := Some "T"%string;
     MPD.tag_artist := None; MPD.tag_date := Some "99"%string |}.

(** *** Spectrum and stereo analysis *)

(** Both products of a band's index computation fit in an [int]. *)
Definition band_fits_int (b : Audio.FreqBand) : Prop :=
  0 <= Audio.low b * Audio.FFT_SIZE_BASS < 2 ^ 31 /\
  0 <= Audio.high b * Audio.FFT_SIZE_BASS < 2 ^ 31.

(** A band level as the display layer expects it. *)
Definition is_level (v : Z) : Prop := 0 <= v <= 255.

(** The sum of a list of [float]s, accumulated from the left from +0. *)
Definition fsum (l : list float) : float := fold_left F32.add l F32.zero.

(** Both channels of a sample exceed the magnitude floor 0.01. *)
Definition qualifies (x : float * float) : bool :=
  F32.lt (F32.literal 1 100) (F32.fabs (fst x))
  && F32.lt (F32.literal 1 100) (F32.fabs (snd x)).

(** The phase angles of the qualifying samples of a window, in order. *)
Definition phases (atan2f : float -> float -> float) (w : list (float * float)) : list float :=
  (fun x => atan2f (snd x) (fst x)) <$> List.filter qualifies w.

(** The phase as the specification words it: the mean of the phase angles
    of the qualifying samples, 0 when there is none. *)
Definition mean_phase (atan2f : float -> float -> float) (w : list (float * float)) : float :=
  match phases atan2f w with
  | [] => F32.zero
  | ps => F32.div (fsum ps) (F32.of_int (Z.of_nat (length ps)))
  end.






(** Clamping to [[-1, 1]]. *)
Definition clamp_unit (x : float) : float :=
  F32.fmax (F32.of_int (-1)) (F32.fmin F32.one x).

(** The binary32 number nearest to pi/4, and the value of [atan2f] at the
    one point the example below needs: [atan2f(1, 1)], which every libm
    returns as that number. *)
Definition quarter_pi : float := S754_finite false 13176795 (-24).

Definition atan2f_at_1_1 (y x : float) : float :=
  if float_same y F32.one && float_same x F32.one then quarter_pi else F32.zero.

(** A processor whose most recent stereo sample is (1.0, 1.0), after
    silence. *)
Definition example_stereo : Audio.state :=
  Audio.set_capture
    (replicate (Z.to_nat 16383) F32.zero ++ [F32.one])
    (replicate (Z.to_nat 16383) F32.zero ++ [F32.one])
    0 F32.one 0 (Audio.AudioProcessor [] 0).

(** *** Example data *)

(** A freshly constructed processor (the window table plays no role in
    the examples), awake and asleep. *)
Definition example_awake : Audio.state := Audio.AudioProcessor [] 0.
Definition example_asleep : Audio.state := Audio.setSleepState true example_awake.

(** A device answer of three frames, the second one loud. *)
Definition example_read : Audio.pcm_read :=
  {| Audio.readi_ret := 3; Audio.recover_ret := 0;
     Audio.audio_buffer := [10; -10; 2000; -3000; 20; 5] |}.
Definition example_device (_ : Z) : Audio.pcm_read := example_read.





(** *** The main loop *)

(** No button is held down. *)
Definition released (g : App.gpio) : bool :=
  App.rot1_sw g && App.rot2_sw g && App.power_sw g.

(** An iteration in which [checkForAudio] answers false and no button is
    pressed (the encoders may turn). *)
Definition quiet (i : App.loop_input) : bool :=
  negb (App.has_audio i) && released (App.gpio_top i) && released (App.gpio_asleep i).

(** The calls of the sleep-mode switch of the capture engine and of the
    metadata client. *)
Definition is_mode_switch (c : App.call) : bool :=
  match c with
  | App.AudioSetSleepState _ | App.MpdSetSleepState _ => true
  | _ => false
  end.

Definition mode_switches (cs : list App.call) : list App.call :=
  List.filter is_mode_switch cs.

(** The power state ([true] is asleep) after each iteration of a run. *)
Fixpoint power_states (indef : float -> Z) (inputs : list App.loop_input)
    (st : App.state) : list bool :=
  match inputs with
  | [] => []
  | i :: rest =>
      if App.running (App.ctl st) then
        let st1 := App.run_iteration indef i st in
        App.is_sleeping (App.ctl st1) :: power_states indef rest st1
      else []
  end.

(** The loop is between two iterations, running, with its copy of the
    visualization index up to date. *)
Definition between_iterations (st : App.state) : Prop :=
  App.running (App.ctl st) = true /\
  App.local_current_viz st = App.current_viz (App.ctl st).

(** Asleep, with both collaborators told so. *)
Definition all_asleep (st : App.state) : Prop :=
  App.is_sleeping (App.ctl st) = true /\
  Audio.is_sleeping (App.audio st) = true /\
  MPD.is_sleeping (App.mpd_client st) = true.

(** What a step leaves alone when it is not a button press. *)
Definition same_power (st st' : App.state) : Prop :=
  App.ctl st' = App.ctl st /\
  Audio.is_sleeping (App.audio st') = Audio.is_sleeping (App.audio st) /\
  App.mpd_client st' = App.mpd_client st /\
  App.local_current_viz st' = App.local_current_viz st /\
  App.sleep_counter st' = App.sleep_counter st /\
  App.calls st' = App.calls st.

(** What the power-state argument looks at. *)
Definition view (st : App.state) : App.ControlState * bool * bool * Z * list App.call :=
  (App.ctl st, Audio.is_sleeping (App.audio st), MPD.is_sleeping (App.mpd_client st),
   App.local_current_viz st, mode_switches (App.calls st)).

Definition example_gpio : App.gpio :=
  {| App.rot1 := 0; App.rot2 := 0;
     App.rot1_sw := true; App.rot2_sw := true; App.power_sw := true |}.

Definition example_quiet : App.loop_input :=
  {| App.gpio_top := example_gpio; App.has_audio := false;
     App.gpio_asleep := example_gpio |}.

Definition example_app : App.state := App.initial [] 0 0 0.

(** An iteration, audio absent, at whose top the button of rotary 2 is held
    down. *)
Definition example_button2 : App.loop_input :=
  {| App.gpio_top :=
       {| App.rot1 := 0; App.rot2 := 0;
          App.rot1_sw := true; App.rot2_sw := false; App.power_sw := true |};
     App.has_audio := false;
     App.gpio_asleep := example_gpio |}.

(** *** The frame buffer as a picture *)

Definition on_screen (x y : Z) : Prop := 0 <= x < 128 /\ 0 <= y < 64.

(** A well-formed frame buffer: 1024 bytes. *)
Definition frame (buffer : list Z) : Prop :=
  length buffer = 1024%nat /\ Forall (fun v => 0 <= v < 256) buffer.

(** The pixel at column [x] of row [y]: bit [y mod 8] of byte [x] of
    page [y / 8], as [display] sends it. *)
Definition pixel (buffer : list Z) (x y : Z) : bool :=
  Z.testbit (buffer !!! Z.to_nat (y / 8 * 128 + x)) (y mod 8).

(** [drawPixel] called at each of the [int] points of a list in turn. *)
Definition plot (pts : list (Z * Z)) (buffer : list Z) : list Z :=
  fold_left (fun b p => Display.drawPixel (C.uint8_t p.1) (C.uint8_t p.2) b)
    pts buffer.

(** The point [p] is drawn at the pixel [(x, y)]. *)
Definition hits (x y : Z) (p : Z * Z) : bool :=
  (C.uint8_t p.1 =? x) && (C.uint8_t p.2 =? y).

(** [n / d] rounded to the nearest integer, halves rounded down. *)
Definition round_half_down (n d : Z) : Z := (2 * n + d - 1) / (2 * d).

(** The ideal segment from [(x0, y0)] to [(x1, y1)], sampled once per
    step along its longer axis and rounded along the other. *)
Definition line_points (x0 y0 x1 y1 : Z) : list (Z * Z) :=
  let dx := Z.abs (x1 - x0) in
  let dy := Z.abs (y1 - y0) in
  let sx := if x0 <? x1 then 1 else -1 in
  let sy := if y0 <? y1 then 1 else -1 in
  if dy <=? dx then
    (fun k => (x0 + sx * k, y0 + sy * round_half_down (k * dy) dx)) <$> seqZ 0 (dx + 1)
  else
    (fun j => (x0 + sx * round_half_down (j * dx) dy, y0 + sy * j)) <$> seqZ 0 (dy + 1).

(** Coordinates for which the [int] arithmetic of the drawing routines
    is exact. *)
Definition COORD_MAX : Z := 2 ^ 26.
Definition coord (z : Z) : Prop := - COORD_MAX <= z <= COORD_MAX.
Definition small (z : Z) : Prop := - 2 ^ 29 <= z <= 2 ^ 29.
Definition byte (z : Z) : Prop := 0 <= z < 256.

(** What a display takes in from the bus: the bytes shifted out while its
    chip select is low, as data when its D/C line is high ([data = true])
    and as commands when it is low.  [cs] and [dc] are the levels of the
    two lines so far. *)
Fixpoint received (d : Display.pins) (data cs dc : bool) (t : list Display.bus) : list Z :=
  match t with
  | [] => []
  | Display.gpio_write pin level :: t =>
      received d data (if pin =? Display._cs d then level else cs)
        (if pin =? Display._dc d then level else dc) t
  | Display.spi_transfer v :: t =>
      (if negb cs && eqb dc data then [v] else []) ++ received d data cs dc t
  end.

(** The pixels of the rectangle with corner [(x, y)], width [w] and
    height [h], and those of its border. *)
Definition in_rect (x y w h px py : Z) : Prop :=
  x <= px < x + w /\ y <= py < y + h.

(** A point next to the circle of centre [(x0, y0)] and radius [r], on
    its inside: within the disc, while the point one step further out
    along both axes is not. *)
Definition near_circle (x0 y0 r : Z) (p : Z * Z) : Prop :=
  let a := Z.abs (p.1 - x0) in
  let b := Z.abs (p.2 - y0) in
  a * a + b * b <= r * r < (a + 1) * (a + 1) + (b + 1) * (b + 1).

Definition on_border (x y w h px py : Z) : Prop :=
  in_rect x y w h px py /\ (px = x \/ px = x + w - 1 \/ py = y \/ py = y + h - 1).

(** *** Text *)

(** The pixels of a glyph drawn with its bitmap's corner at
    [(start_x, start_y)]: those of the bitmap above the threshold (below
    it, inverted) that fall on the screen. *)
Definition glyph_points (g : Font.glyph) (start_x start_y : Z) (invert : bool)
    : list (Z * Z) :=
  row ← seqZ 0 (Font.rows g);
  col ← seqZ 0 (Font.width g);
  let px := C.int (start_x + col) in
  let py := C.int (start_y + row) in
  let gray := Font.bitmap g !!! Z.to_nat (C.uint32_t (row * Font.pitch g + col)) in
  if (0 <=? px) && (px <? 128) && (0 <=? py) && (py <? 64)
     && (if invert then negb (128 <? gray) else 128 <? gray)
  then [(px, py)] else [].

(** The pixels of a text drawn with the pen starting at
    [(cursor_x, baseline_y)]. *)
Fixpoint text_points (FT_Load_Char : Z -> ascii -> bool -> option Font.glyph) (face : Z)
    (text : string) (cursor_x baseline_y : Z) (invert : bool) : list (Z * Z) :=
  match text with
  | EmptyString => []
  | String c text' =>
      if Ascii.eqb c Font.NUL then []
      else
        match FT_Load_Char face c true with
        | None => text_points FT_Load_Char face text' cursor_x baseline_y invert
        | Some g =>
            glyph_points g (C.int (cursor_x + Font.bitmap_left g))
              (C.int (baseline_y - Font.bitmap_top g)) invert
            ++ text_points FT_Load_Char face text'
                 (C.int (cursor_x + Z.shiftr (Font.advance_x g) 6)) baseline_y invert
        end
  end.

(** The advances, in whole pixels, of the characters of a C string that
    FreeType loads. *)
Fixpoint advances (FT_Load_Char : Z -> ascii -> bool -> option Font.glyph) (face : Z)
    (text : string) : list Z :=
  match text with
  | EmptyString => []
  | String c text' =>
      if Ascii.eqb c Font.NUL then []
      else
        match FT_Load_Char face c false with
        | None => advances FT_Load_Char face text'
        | Some g => Z.shiftr (Font.advance_x g) 6 :: advances FT_Load_Char face text'
        end
  end.

Definition sum (l : list Z) : Z := fold_right Z.add 0 l.

(** A string without the terminator of C strings. *)
Definition no_NUL (s : string) : Prop :=
  Forall (fun c => c <> Font.NUL) (list_ascii_of_string s).

(** The pixels [drawText] adds: none without an initialised font
    manager. *)
Definition drawn_text (FT_Load_Char : Z -> ascii -> bool -> option Font.glyph)
    (font : option Font.FontManager) (text : string) (x y : Z) (size : Font.FontSize)
    : list (Z * Z) :=
  match font with
  | Some fm =>
      if Font.initialized fm
      then text_points FT_Load_Char (Font.select_face fm size) text x y false
      else []
  | None => []
  end.

(** *** The spectrum bars *)

(** The column where bar [i] starts, and the height of a bar. *)
Definition bar_x (i : Z) : Z := 1 + i * 19.
Definition bar_height (level : Z) : Z := level * 49 / 255.

(** The peak marker of a bar after a frame: it jumps up to the top of
    the bar, then sinks by 0.8 of a row, down to row 56. *)
Definition new_peak (level : Z) (peak : float) : float :=
  let bar_y := F32.of_int (57 - bar_height level) in
  F32.fmin (F32.of_int 56)
    (F32.add (if F32.lt bar_y peak then bar_y else peak) (F32.literal 8 10)).

Definition peak_shown (peak : float) : bool :=
  F32.lt peak (F32.of_int 56) && F32.le (F32.of_int 8) peak.

(** What one pass of the bar loop adds to the picture: the bar, the
    peak marker, the label. *)
Definition bar_picture (FT_Load_Char : Z -> ascii -> bool -> option Font.glyph)
    (indef : float -> Z) (font : option Font.FontManager)
    (level : Z) (peak : float) (i px py : Z) : Prop :=
  in_rect (bar_x i) (57 - bar_height level) 12 (bar_height level) px py \/
  (peak_shown (new_peak level peak) = true /\
   bar_x i <= px < bar_x i + 12 /\
   py = C.uint8_t (F32.to_int indef (new_peak level peak))) \/
  (px, py) ∈ drawn_text FT_Load_Char font (nth (Z.to_nat i) Viz.FREQ_LABELS EmptyString)
               (bar_x i) 64 Font.SMALL.

(** *** The title scroller *)

(** [getScrollingText] called once per clock reading: the scroller
    afterwards and the strings returned, oldest first. *)
Fixpoint scroll_calls (FT_Load_Char : Z -> ascii -> bool -> option Font.glyph)
    (nows : list Z) (max_width : Z) (fm : Font.FontManager) (size : Font.FontSize)
    (st : TextScroller.state) : TextScroller.state * list string :=
  match nows with
  | [] => (st, [])
  | now :: rest =>
      let '(st1, s) :=
        TextScroller.getScrollingText FT_Load_Char now max_width (Some fm) size st in
      let '(st2, ss) := scroll_calls FT_Load_Char rest max_width fm size st1 in
      (st2, s :: ss)
  end.

(** The whole milliseconds counted by calls at the clock readings
    [nows], the previous call having been at [last]. *)
Fixpoint whole_ms (last : Z) (nows : list Z) : Z :=
  match nows with
  | [] => 0
  | now :: rest => Z.quot (now - last) 1000000 + whole_ms now rest
  end.

(** Clock readings that do not go back. *)
Fixpoint monotone (last : Z) (nows : list Z) : Prop :=
  match nows with
  | [] => True
  | now :: rest => last <= now /\ monotone now rest
  end.

(** *** Analysis parameters and controls *)

(** [(int)(float)k] gives [k] back. *)
Definition int_round_trip (k : Z) : bool :=
  F32.to_int (fun _ => -1) (F32.of_int k) =? k.

(** The last [n] elements of a list. *)
Definition most_recent {A : Type} (n : nat) (l : list A) : list A :=
  drop (length l - n) l.

(** The normalised frames of a block, as pairs. *)
Definition both_samples (fs : list (Z * Z)) : list (float * float) :=
  (fun f => (Audio.normalize (fst f), Audio.normalize (snd f))) <$> fs.

(** *** The metadata client *)

(** What the client's thread and the coordinator do to it. *)
Inductive thread_op :=
| Connect (reply : MPD.new_connection)
| Disconnect
| Sleep (sleeping : bool)
| Fetch (reply : MPD.current_song).

Definition thread_step (st : MPD.state) (op : thread_op) : MPD.state :=
  match op with
  | Connect reply => fst (MPD.connectMPD reply st)
  | Disconnect => MPD.disconnectMPD st
  | Sleep b => MPD.setSleepState b st
  | Fetch reply => MPD.updateCurrentSong reply st
  end.

(** *** The main loop, continued *)

(** The three sleep flags are never out of step in the dangerous
    direction: the capture engine and the metadata client agree, and the
    coordinator is not asleep without them. *)
Definition flags_consistent (st : App.state) : Prop :=
  Audio.is_sleeping (App.audio st) = MPD.is_sleeping (App.mpd_client st) /\
  (App.is_sleeping (App.ctl st) = true -> Audio.is_sleeping (App.audio st) = true).

(** The visualization indices address the table of six. *)
Definition indices_valid (st : App.state) : Prop :=
  0 <= App.current_viz (App.ctl st) < 6 /\
  0 <= App.local_current_viz st < 6.

Definition renders_valid (cs : list App.call) : Prop :=
  forall v, App.Render v ∈ cs -> 0 <= v < 6.

(** What holds of the main loop at every moment. *)
Definition loop_inv (st : App.state) : Prop :=
  flags_consistent st /\ indices_valid st /\ renders_valid (App.calls st) /\
  params_inv (App.audio st).

(** An iteration in which [checkForAudio] answers true and no button is
    pressed. *)
Definition audible (i : App.loop_input) : bool :=
  App.has_audio i && released (App.gpio_top i) && released (App.gpio_asleep i).

(** The number of presses in a sequence of readings of a pulled-up
    switch: the readings that are low after a high one, [last] being the
    reading before the first. *)
Fixpoint falling_edges (last : bool) (levels : list bool) : Z :=
  match levels with
  | [] => 0
  | l :: rest => (if negb l && last then 1 else 0) + falling_edges l rest
  end.

(** The analysis parameters of two processors are the same. *)
Definition same_parameters (a b : Audio.state) : Prop :=
  Audio.sensitivity a = Audio.sensitivity b /\
  Audio.noise_reduction a = Audio.noise_reduction b /\
  Audio.integral_factor a = Audio.integral_factor b /\
  Audio.gravity_factor a = Audio.gravity_factor b /\
  Audio.scale_factor a = Audio.scale_factor b.

(** [ControlHandler::poll] called once per reading. *)
Definition polls (indef : float -> Z) (gs : list App.gpio) (st : App.state) : App.state :=
  fold_left (fun st g => App.poll indef g st) gs st.

(** A reading of a rotary encoder: two bits. *)
Definition two_bits (z : Z) : Prop := 0 <= z <= 3.

(** Awake, with both collaborators told so. *)
Definition all_awake (st : App.state) : Prop :=
  App.is_sleeping (App.ctl st) = false /\
  Audio.is_sleeping (App.audio st) = false /\
  MPD.is_sleeping (App.mpd_client st) = false.

(** The calls of the log other than those of the per-frame work
    (rendering and pacing). *)
Definition is_power_call (c : App.call) : bool :=
  match c with
  | App.Render _ | App.Delay _ => false
  | _ => true
  end.

Definition power_calls (cs : list App.call) : list App.call :=
  List.filter is_power_call cs.

(** The frames rendered. *)
Definition is_render (c : App.call) : bool :=
  match c with App.Render _ => true | _ => false end.

Definition renders (cs : list App.call) : list App.call := List.filter is_render cs.

(** Power state, flags of the collaborators, and what was called for
    it. *)
Definition power_view (st : App.state)
    : App.ControlState * bool * bool * Z * list App.call :=
  (App.ctl st, Audio.is_sleeping (App.audio st), MPD.is_sleeping (App.mpd_client st),
   App.local_current_viz st, power_calls (App.calls st)).

(** The calls of the "Wake up" branch. *)
Definition wake_calls : list App.call :=
  [App.SetSPISpeedNormal; App.AudioSetSleepState false; App.MpdSetSleepState false;
   App.DisplayWake App.LeftDisplay; App.DisplayWake App.RightDisplay;
   App.SetPowerLED true;
   App.DisplayClear App.LeftDisplay; App.DisplayClear App.RightDisplay;
   App.DisplayDisplay App.LeftDisplay; App.DisplayDisplay App.RightDisplay].

(** An iteration in which audio is present and the button of rotary 2
    goes down, nothing else being pressed. *)
Definition reset_as_audio_returns (i : App.loop_input) (st : App.state) : Prop :=
  App.has_audio i = true /\
  App.btn2_last st = true /\ App.rot2_sw (App.gpio_top i) = false /\
  App.rot1_sw (App.gpio_top i) = true /\ App.power_sw (App.gpio_top i) = true.

(** *** Example data for the main loop, continued *)

(** An iteration with audio present and no button pressed. *)
Definition example_audible : App.loop_input :=
  {| App.gpio_top := example_gpio; App.has_audio := true;
     App.gpio_asleep := example_gpio |}.

(** The application after one quiet iteration: asleep. *)
Definition example_app_asleep : App.state :=
  App.run_iteration (fun _ => 0) example_quiet example_app.

(** An iteration at whose top the power button is held down. *)
Definition example_power_press : App.loop_input :=
  {| App.gpio_top :=
       {| App.rot1 := 0; App.rot2 := 0;
          App.rot1_sw := true; App.rot2_sw := true; App.power_sw := false |};
     App.has_audio := true;
     App.gpio_asleep := example_gpio |}.

(** An iteration with audio present at whose top the button of rotary 2
    is held down. *)
Definition example_reset_press : App.loop_input :=
  {| App.gpio_top :=
       {| App.rot1 := 0; App.rot2 := 0;
          App.rot1_sw := true; App.rot2_sw := false; App.power_sw := true |};
     App.has_audio := true;
     App.gpio_asleep := example_gpio |}.

(** A reading with both encoders turned and one with the button of
    rotary 1 held down. *)
Definition example_turn : App.gpio :=
  {| App.rot1 := 1; App.rot2 := 2;
     App.rot1_sw := true; App.rot2_sw := true; App.power_sw := true |}.

Definition example_press1 : App.gpio :=
  {| App.rot1 := 0; App.rot2 := 0;
     App.rot1_sw := false; App.rot2_sw := true; App.power_sw := true |}.

(** *** Example data for the displays *)

Definition blank : list Z := replicate 1024%nat 0.

Definition example_pins : Display.pins :=
  {| Display._cs := 8; Display._dc := 24; Display._rst := 25 |}.

(** A font whose every glyph is a bar one pixel wide and two high,
    standing on the baseline, with an advance of six pixels. *)
Definition example_glyph : Font.glyph :=
  {| Font.rows := 2; Font.width := 1; Font.pitch := 1; Font.bitmap := [255; 255];
     Font.bitmap_left := 0; Font.bitmap_top := 2; Font.advance_x := 6 * 64 |}.

Definition example_FT (face : Z) (c : ascii) (render : bool) : option Font.glyph :=
  Some example_glyph.

Definition example_font : Font.FontManager :=
  {| Font.initialized := true; Font.face_regular := 0;
     Font.face_small := Some 1; Font.face_large := Some 2 |}.

Definition example_display : Viz.Display :=
  {| Viz.pins_of := example_pins; Viz.display_font := Some example_font;
     Viz.buffer := blank |}.

Definition example_viz : Viz.Visualization := Viz.Visualization_mpd (Some example_font) 0.

(** A text of 31 characters, 186 pixels wide in the example font. *)
Definition example_long_text : string := "Kind of Blue - Miles Davis 1959".

(** *** Predicates on the client and the scroller *)

(** The text handed out is the one formatted from the current fields. *)
Definition text_in_step (st : MPD.state) : Prop :=
  MPD.formatted_text st = MPD.format_text st.

(** A scroller showing [text], which fits: at rest. *)
Definition at_rest (FT_Load_Char : Z -> ascii -> bool -> option Font.glyph)
    (fm : Font.FontManager) (size : Font.FontSize)
    (text : string) (st : TextScroller.state) : Prop :=
  TextScroller.current_text st = text /\
  TextScroller.scroll_state st = TextScroller.PAUSED_AT_START /\
  TextScroller.scroll_position st = F32.zero /\
  TextScroller.pause_counter st = TextScroller.SCROLL_PAUSE_MS /\
  TextScroller.needs_scrolling st = false /\
  (TextScroller.text_width_pixels st = 0 \/
   TextScroller.text_width_pixels st = Font.getTextWidth FT_Load_Char fm text size).

(** A scroller showing [text], which does not fit, before it moves. *)
Definition waiting (text : string) (st : TextScroller.state) : Prop :=
  TextScroller.current_text st = text /\
  TextScroller.scroll_state st = TextScroller.PAUSED_AT_START /\
  TextScroller.scroll_position st = F32.zero /\
  0 < TextScroller.pause_counter st <= TextScroller.SCROLL_PAUSE_MS /\
  (TextScroller.text_width_pixels st = 0 \/ TextScroller.needs_scrolling st = true).

(** The needle position computed in binary32 is the integer quotient,
    and the conversion to [int] is defined. *)
Definition needle_pos_ok (n : Z) : bool :=
  let x := F32.mul (F32.div (F32.of_int n) (F32.of_int 255)) (F32.of_int 127) in
  (F32.to_int (fun _ => 0) x =? F32.to_int (fun _ => 1) x)
  && (F32.to_int (fun _ => 0) x =? n * 127 / 255).

End Spec.

(* ================================================================== *)
(** ** Facts about binary32 *)
(* ================================================================== *)

Section F32_facts.

Import Spec.
Local Open Scope Z_scope.

Lemma lt_le (a b : float) : F32.lt a b = true -> F32.le a b = true.
Proof.
  unfold F32.lt, F32.le, SFltb, SFleb.
  destruct (SFcompare a b) as [[]|]; congruence.
Qed.

(** [std::max(lo, std::min(hi, x))] lands between [lo] and [hi] for every
    [x], NaN included. *)
Lemma clamp_range (lo hi x : float) :
  F32.lt lo hi = true -> F32.le lo lo = true -> F32.le hi hi = true ->
  F32.le lo (F32.fmax lo (F32.fmin hi x)) = true /\
  F32.le (F32.fmax lo (F32.fmin hi x)) hi = true.
Proof.
  intros Hlh Hlo Hhi. unfold F32.fmax, F32.fmin.
  destruct (F32.lt x hi) eqn:Hx.
  - destruct (F32.lt lo x) eqn:Hl; auto using lt_le.
  - rewrite Hlh. auto using lt_le.
Qed.

Lemma digits2_pos_size (p : positive) : digits2_pos p = Pos.size p.
Proof. induction p; simpl; congruence. Qed.

Lemma digits2_pos_ge (p : positive) (k : Z) :
  0 <= k -> 2 ^ k <= Zpos p -> k + 1 <= Zpos (digits2_pos p).
Proof.
  intros Hk Hp. rewrite digits2_pos_size.
  pose proof (Pos.size_gt p) as Hgt.
  apply Pos2Z.pos_lt_pos in Hgt. rewrite Pos2Z.inj_pow in Hgt.
  destruct (Z_lt_le_dec (Zpos (Pos.size p)) (k + 1)) as [Hlt|]; [|assumption].
  exfalso.
  assert (2 ^ Zpos (Pos.size p) <= 2 ^ k) by (apply Z.pow_le_mono_r; lia).
  change (Z.pos 2) with 2 in Hgt. lia.
Qed.

Lemma shr_m_of_loc (m : Z) (l : location) : shr_m (shr_record_of_loc m l) = m.
Proof. destruct l as [|[]]; reflexivity. Qed.

Lemma shr_1_m (r : shr_record) : 0 <= shr_m r -> shr_m (shr_1 r) = shr_m r / 2.
Proof.
  destruct r as [m rb sb]. cbn [shr_m shr_1].
  destruct m as [|[p|p|]|p]; intros H; cbn [shr_m]; try reflexivity; try lia.
  - rewrite (Pos2Z.inj_xI p). Z.div_mod_to_equations. lia.
  - rewrite (Pos2Z.inj_xO p). Z.div_mod_to_equations. lia.
Qed.

Lemma div_pow2_twice (m a b : Z) :
  0 < a -> 0 < b -> m / 2 ^ a / 2 ^ b = m / 2 ^ (a + b).
Proof.
  intros Ha Hb. rewrite Z.pow_add_r by lia.
  assert (0 < 2 ^ a) by (apply Z.pow_pos_nonneg; lia).
  assert (0 < 2 ^ b) by (apply Z.pow_pos_nonneg; lia).
  apply Z.div_div; lia.
Qed.

Lemma iter_shr_1_m (n : positive) (r : shr_record) :
  0 <= shr_m r -> shr_m (SpecFloat.iter_pos shr_1 n r) = shr_m r / 2 ^ Zpos n.
Proof.
  revert r. induction n as [n IH|n IH|]; intros r Hr; cbn [SpecFloat.iter_pos].
  - assert (0 <= shr_m (shr_1 r)) as H1 by (rewrite shr_1_m by assumption; apply Z.div_pos; lia).
    assert (0 <= shr_m (SpecFloat.iter_pos shr_1 n (shr_1 r))) as H2
      by (rewrite IH by assumption; apply Z.div_pos; [assumption|apply Z.pow_pos_nonneg; lia]).
    rewrite IH, IH, shr_1_m by assumption.
    change 2 with (2 ^ 1) at 1.
    rewrite !div_pow2_twice by lia.
    f_equal. f_equal. lia.
  - assert (0 <= shr_m (SpecFloat.iter_pos shr_1 n r)) as H2
      by (rewrite IH by assumption; apply Z.div_pos; [assumption|apply Z.pow_pos_nonneg; lia]).
    rewrite IH, IH by assumption.
    rewrite !div_pow2_twice by lia.
    f_equal. f_equal. lia.
  - rewrite shr_1_m by assumption. reflexivity.
Qed.

Lemma digits2_pos_le (q : positive) : 2 ^ (Zpos (digits2_pos q) - 1) <= Zpos q.
Proof.
  rewrite digits2_pos_size.
  pose proof (Pos.size_le q) as H. apply Pos2Z.pos_le_pos in H.
  rewrite Pos2Z.inj_pow, (Pos2Z.inj_xO q) in H.
  replace (Z.pos (Pos.size q)) with (1 + (Z.pos (Pos.size q) - 1)) in H by lia.
  rewrite Z.pow_add_r in H by lia. change (2 ^ 1) with 2 in H. lia.
Qed.

(** Rounding a positive mantissa whose exponent is not below the smallest
    one never reaches zero. *)
Lemma shr_fexp_positive (M E : Z) (l : location) (r : shr_record) (E' : Z) :
  0 < M -> -149 <= E ->
  shr_fexp F32.prec F32.emax M E l = (r, E') -> 0 < shr_m r /\ E <= E'.
Proof.
  intros HM HE. unfold shr_fexp, shr.
  destruct M as [|q|q]; try lia. cbn [Zdigits2].
  destruct (fexp F32.prec F32.emax (Z.pos (digits2_pos q) + E) - E) as [|n|n] eqn:Hn;
    intros [= <- <-]; rewrite ?shr_m_of_loc; try lia.
  rewrite iter_shr_1_m, shr_m_of_loc by (rewrite shr_m_of_loc; lia).
  split; [|lia].
  pose proof (digits2_pos_le q) as Hq.
  assert (Zpos n <= Zpos (digits2_pos q) - 1) as Hle.
  { revert Hn. unfold fexp, emin, F32.prec, F32.emax. lia. }
  apply Z.div_str_pos. split; [apply Z.pow_pos_nonneg; lia|].
  etransitivity; [|exact Hq]. apply Z.pow_le_mono_r; lia.
Qed.

Lemma round_nearest_even_ge (m : Z) (l : location) : m <= round_nearest_even m l.
Proof. destruct l as [|[]]; cbn; try destruct (Z.even m); lia. Qed.

Lemma binary_round_aux_positive (s : bool) (M E : Z) (l : location) :
  0 < M -> -149 <= E ->
  (exists m e, binary_round_aux F32.prec F32.emax s M E l = S754_finite s m e /\ E <= e)
  \/ binary_round_aux F32.prec F32.emax s M E l = S754_infinity s.
Proof.
  intros HM HE. unfold binary_round_aux.
  destruct (shr_fexp F32.prec F32.emax M E l) as [r1 e1] eqn:H1.
  apply shr_fexp_positive in H1 as [Hm1 He1]; [|assumption..].
  destruct (shr_fexp F32.prec F32.emax
              (round_nearest_even (shr_m r1) (loc_of_shr_record r1)) e1 loc_Exact)
    as [r2 e2] eqn:H2.
  apply shr_fexp_positive in H2 as [Hm2 He2];
    [|pose proof (round_nearest_even_ge (shr_m r1) (loc_of_shr_record r1)); lia|lia].
  destruct (shr_m r2) as [|m2|m2]; try lia.
  destruct (e2 <=? F32.emax - F32.prec); [left|right; reflexivity].
  exists m2, e2. split; [reflexivity|lia].
Qed.

(** Converting a positive integer of at least [k + 1] bits gives a positive
    number, or +infinity, never zero or NaN; the exponent of the result is
    bounded below. *)
Lemma of_int_positive (p : positive) (k : Z) :
  0 <= k -> 2 ^ k <= Zpos p ->
  (exists m e, F32.of_int (Zpos p) = S754_finite false m e /\ Z.min (k + 1 - 24) 0 <= e)
  \/ F32.of_int (Zpos p) = S754_infinity false.
Proof.
  intros Hk Hp. pose proof (digits2_pos_ge p k Hk Hp) as Hd.
  unfold F32.of_int, binary_normalize, binary_round.
  destruct (shl_align p 0 (fexp F32.prec F32.emax (Zpos (digits2_pos p) + 0)))
    as [mz ez] eqn:Hs.
  assert (Z.min (k + 1 - 24) 0 <= ez) as Hez.
  { revert Hs. unfold shl_align, fexp, emin, F32.prec, F32.emax.
    destruct (Z.max _ _ - 0) eqn:Hn; intros [= _ <-]; lia. }
  destruct (binary_round_aux_positive false (Zpos mz) ez loc_Exact)
    as [(m & e & -> & He)| ->]; [lia|lia| |right; reflexivity].
  left. exists m, e. split; [reflexivity|lia].
Qed.

(** Converting a negative integer gives a negative number or -infinity. *)
Lemma of_int_negative (p : positive) :
  (exists m e, F32.of_int (Zneg p) = S754_finite true m e)
  \/ F32.of_int (Zneg p) = S754_infinity true.
Proof.
  unfold F32.of_int, binary_normalize, binary_round.
  destruct (shl_align p 0 (fexp F32.prec F32.emax (Zpos (digits2_pos p) + 0)))
    as [mz ez] eqn:Hs.
  assert (-149 <= ez) as Hez.
  { revert Hs. unfold shl_align, fexp, emin, F32.prec, F32.emax.
    destruct (Z.max _ _ - 0) eqn:Hn; intros [= _ <-]; lia. }
  destruct (binary_round_aux_positive true (Zpos mz) ez loc_Exact)
    as [(m & e & -> & He)| ->]; [lia|lia| |right; reflexivity].
  left. exists m, e. reflexivity.
Qed.

Lemma forallb_seqZ (P : Z -> bool) (m n : Z) :
  forallb P (seqZ m n) = true -> forall k, m <= k < m + n -> P k = true.
Proof.
  intros H k Hk. rewrite forallb_forall in H. apply H.
  apply list_elem_of_In, elem_of_seqZ. lia.
Qed.

End F32_facts.

(* ================================================================== *)
(** ** Parameters: clamping and the range of the derived factors *)
(* ================================================================== *)

Section Parameters.

Import Spec.
Local Open Scope Z_scope.

Lemma of_int_10 : F32.of_int 10 = S754_finite false 10485760 (-20).
Proof. reflexivity. Qed.
Lemma of_int_300 : F32.of_int 300 = S754_finite false 9830400 (-15).
Proof. reflexivity. Qed.
Lemma of_int_0 : F32.of_int 0 = S754_zero false.
Proof. reflexivity. Qed.
Lemma of_int_100 : F32.of_int 100 = S754_finite false 13107200 (-17).
Proof. reflexivity. Qed.

Lemma float_same_eq (a b : float) : float_same a b = true -> a = b.
Proof.
  destruct a, b; simpl; try discriminate; try reflexivity.
  - intros ->%Bool.eqb_prop. reflexivity.
  - intros ->%Bool.eqb_prop. reflexivity.
  - intros [[->%Bool.eqb_prop ->%Pos.eqb_eq]%andb_prop ->%Z.eqb_eq]%andb_prop.
    reflexivity.
Qed.

Lemma sens_small : forallb (clamp_exact 10 300) (seqZ 0 512) = true.
Proof. vm_compute. reflexivity. Qed.
Lemma noise_small : forallb (clamp_exact 0 100) (seqZ 0 128) = true.
Proof. vm_compute. reflexivity. Qed.
Lemma scale_all : forallb scale_bounded (seqZ 10 291) = true.
Proof. vm_compute. reflexivity. Qed.
Lemma smoothing_all : forallb smoothing_bounded (seqZ 0 101) = true.
Proof. vm_compute. reflexivity. Qed.

(** What [setSensitivity] stores: the conversion of the argument clamped,
    as an integer, to [[10, 300]]. *)
Lemma clamp_sensitivity (v : Z) :
  clamp_int 10 300 v = F32.of_int (Z.max 10 (Z.min 300 v)).
Proof.
  destruct (Z_le_gt_dec v 0) as [Hneg|Hpos].
  - replace (Z.max 10 (Z.min 300 v)) with 10 by lia.
    destruct v as [|p|p]; [reflexivity|lia|]. unfold clamp_int.
    destruct (of_int_negative p) as [(m & e & ->)| ->]; reflexivity.
  - destruct (Z_lt_le_dec v 512) as [Hs|Hl].
    + apply float_same_eq, (forallb_seqZ _ _ _ sens_small). lia.
    + replace (Z.max 10 (Z.min 300 v)) with 300 by lia.
      destruct v as [|p|p]; try lia. unfold clamp_int.
      destruct (of_int_positive p 9 ltac:(lia) ltac:(simpl; lia))
        as [(m & e & -> & He)| ->]; [|reflexivity].
      rewrite of_int_300, of_int_10.
      unfold F32.fmax, F32.fmin, F32.lt, SFltb, SFcompare.
      assert ((e ?= -15) = Gt) as -> by (apply Z.compare_gt_iff; simpl in He; lia).
      reflexivity.
Qed.

(** What [setNoiseReduction] stores: the conversion of the argument
    clamped, as an integer, to [[0, 100]]. *)
Lemma clamp_noise_reduction (v : Z) :
  clamp_int 0 100 v = F32.of_int (Z.max 0 (Z.min 100 v)).
Proof.
  destruct (Z_le_gt_dec v 0) as [Hneg|Hpos].
  - replace (Z.max 0 (Z.min 100 v)) with 0 by lia.
    destruct v as [|p|p]; [reflexivity|lia|]. unfold clamp_int.
    destruct (of_int_negative p) as [(m & e & ->)| ->]; reflexivity.
  - destruct (Z_lt_le_dec v 128) as [Hs|Hl].
    + apply float_same_eq, (forallb_seqZ _ _ _ noise_small). lia.
    + replace (Z.max 0 (Z.min 100 v)) with 100 by lia.
      destruct v as [|p|p]; try lia. unfold clamp_int.
      destruct (of_int_positive p 7 ltac:(lia) ltac:(simpl; lia))
        as [(m & e & -> & He)| ->]; [|reflexivity].
      rewrite of_int_100, of_int_0.
      unfold F32.fmax, F32.fmin, F32.lt, SFltb, SFcompare.
      assert ((e ?= -17) = Gt) as -> by (apply Z.compare_gt_iff; simpl in He; lia).
      reflexivity.
Qed.

Lemma params_inv_constructed (hann : list float) (now : Z) :
  params_inv (Audio.AudioProcessor hann now).
Proof. exists 100, 77. repeat split; lia. Qed.

Lemma setSensitivity_fields (v : Z) (st : Audio.state) :
  let st' := Audio.setSensitivity v st in
  Audio.sensitivity st' = clamp_int 10 300 v /\
  Audio.noise_reduction st' = Audio.noise_reduction st /\
  Audio.integral_factor st' = integral_of (Audio.noise_reduction st) /\
  Audio.gravity_factor st' = gravity_of (Audio.noise_reduction st) /\
  Audio.scale_factor st' = scale_of (clamp_int 10 300 v).
Proof. repeat split. Qed.

Lemma setNoiseReduction_fields (v : Z) (st : Audio.state) :
  let st' := Audio.setNoiseReduction v st in
  Audio.sensitivity st' = Audio.sensitivity st /\
  Audio.noise_reduction st' = clamp_int 0 100 v /\
  Audio.integral_factor st' = integral_of (clamp_int 0 100 v) /\
  Audio.gravity_factor st' = gravity_of (clamp_int 0 100 v) /\
  Audio.scale_factor st' = scale_of (Audio.sensitivity st).
Proof. repeat split. Qed.

Lemma params_inv_apply (st : Audio.state) (op : param_op) :
  params_inv st -> params_inv (apply_op st op).
Proof.
  intros (k & n & Hk & Hn & Hs & Hnr & Hi & Hg & Hsc).
  destruct op as [v|v]; unfold apply_op, params_inv.
  - pose proof (setSensitivity_fields v st) as HF. cbv zeta in HF.
    destruct HF as (E1 & E2 & E3 & E4 & E5).
    exists (Z.max 10 (Z.min 300 v)), n.
    rewrite E1, E2, E3, E4, E5, clamp_sensitivity, Hnr. repeat split; lia.
  - pose proof (setNoiseReduction_fields v st) as HF. cbv zeta in HF.
    destruct HF as (E1 & E2 & E3 & E4 & E5).
    exists k, (Z.max 0 (Z.min 100 v)).
    rewrite E1, E2, E3, E4, E5, clamp_noise_reduction, Hs. repeat split; lia.
Qed.

Lemma params_inv_run_ops (ops : list param_op) (st : Audio.state) :
  params_inv st -> params_inv (run_ops ops st).
Proof.
  unfold run_ops. revert st.
  induction ops as [|op ops IH]; intros st Hst; simpl; auto using params_inv_apply.
Qed.

Lemma params_inv_bounds (st : Audio.state) :
  params_inv st ->
  F32.within 0 (95 # 100) (Audio.integral_factor st) = true /\
  F32.within (2 # 10) 1 (Audio.gravity_factor st) = true /\
  F32.within (22 # 100) SCALE_MAX (Audio.scale_factor st) = true.
Proof.
  intros (k & n & Hk & Hn & _ & _ & -> & -> & ->).
  pose proof (forallb_seqZ _ _ _ smoothing_all n ltac:(lia)) as [? ?]%andb_prop.
  pose proof (forallb_seqZ _ _ _ scale_all k ltac:(lia)).
  auto.
Qed.

(** C10, the claim as stated: at sensitivity 300 the scale factor is
    [3.0f * 2.2f], which rounds to 13841204 * 2^-21 > 6.6, so it is not in
    [[0.22, 6.6]]. *)
Lemma C10_scale_factor_above_6_6 :
  let st := Audio.setSensitivity 300 (Audio.AudioProcessor [] 0) in
  Audio.scale_factor st = S754_finite false 13841204 (-21) /\
  F32.within (22 # 100) (66 # 10) (Audio.scale_factor st) = false /\
  ~ (F32.toQ (Audio.scale_factor st) <= 66 # 10)%Q.
Proof.
  split; [reflexivity|]. split; [reflexivity|].
  vm_compute. intros H. apply H. reflexivity.
Qed.

(** C10, amended: for every integer argument [setSensitivity] stores the
    argument clamped to [[10, 300]] and [setNoiseReduction] the argument
    clamped to [[0, 100]]; after construction and any sequence of these two
    operations, [integral_factor] lies in [[0, 0.95]], [gravity_factor] in
    [[0.2, 1]] and [scale_factor] in [[0.22, 13841204 * 2^-21]], an upper
    end of about 6.6000004. *)
Theorem C10_parameters_clamped_factors_bounded :
  forall (hann : list float) (now : Z) (ops : list param_op) (value : Z),
    let st := run_ops ops (Audio.AudioProcessor hann now) in
    let s := Audio.sensitivity (Audio.setSensitivity value st) in
    let n := Audio.noise_reduction (Audio.setNoiseReduction value st) in
    (s = F32.of_int (Z.max 10 (Z.min 300 value)) /\
     F32.le (F32.of_int 10) s = true /\ F32.le s (F32.of_int 300) = true) /\
    (n = F32.of_int (Z.max 0 (Z.min 100 value)) /\
     F32.le (F32.of_int 0) n = true /\ F32.le n (F32.of_int 100) = true) /\
    F32.within 0 (95 # 100) (Audio.integral_factor st) = true /\
    F32.within (2 # 10) 1 (Audio.gravity_factor st) = true /\
    F32.within (22 # 100) SCALE_MAX (Audio.scale_factor st) = true.
Proof.
  intros hann now ops value st s n.
  split; [|split].
  - split; [apply clamp_sensitivity|apply clamp_range; reflexivity].
  - split; [apply clamp_noise_reduction|apply clamp_range; reflexivity].
  - apply params_inv_bounds, params_inv_run_ops, params_inv_constructed.
Qed.

End Parameters.

(* ================================================================== *)
(** ** The circular buffer *)
(* ================================================================== *)

Section Ring.

Import Spec.
Local Open Scope Z_scope.

Lemma capacity_val : CAPACITY = 16384.
Proof. reflexivity. Qed.

Lemma copy_loop_fmap {A : Type} (body : Z -> A) (p : Z) (n : nat) :
  0 <= p < CAPACITY ->
  Audio.copy_loop body p n =
  (fun i : nat => body ((p + Z.of_nat i) mod CAPACITY)) <$> seq 0 n.
Proof.
  revert p. induction n as [|n IH]; intros p Hp; [reflexivity|].
  cbn [Audio.copy_loop seq fmap list_fmap].
  fold CAPACITY.
  rewrite IH by (apply Z.mod_pos_bound; reflexivity).
  rewrite Z.add_0_r, (Z.mod_small p) by assumption.
  f_equal. rewrite <- fmap_S_seq, <- list_fmap_compose.
  apply list_fmap_ext. intros _ i _. cbn. f_equal.
  rewrite Zplus_mod_idemp_l. f_equal. lia.
Qed.

Lemma length_copy_loop {A : Type} (body : Z -> A) (p : Z) (n : nat) :
  length (Audio.copy_loop body p n) = n.
Proof. revert p. induction n; intros p; simpl; auto. Qed.

Lemma length_ring_store {A : Type} (xs b : list A) (pos : Z) :
  length (ring_store xs b pos) = length b.
Proof.
  revert b pos. induction xs as [|x xs IH]; intros b pos; simpl; [reflexivity|].
  rewrite IH. apply length_insert.
Qed.

Lemma ring_store_app {A : Type} (xs ys b : list A) (pos : Z) :
  0 <= pos < CAPACITY ->
  ring_store (xs ++ ys) b pos =
  ring_store ys (ring_store xs b pos) ((pos + Z.of_nat (length xs)) mod CAPACITY).
Proof.
  revert b pos. induction xs as [|x xs IH]; intros b pos Hp.
  - simpl. rewrite Z.add_0_r, Z.mod_small by assumption. reflexivity.
  - cbn [app ring_store length].
    rewrite IH by (apply Z.mod_pos_bound; reflexivity).
    rewrite Zplus_mod_idemp_l. do 2 f_equal. lia.
Qed.

(** Cells that the stored run does not reach keep their contents. *)
Lemma ring_store_other {A : Type} `{!Inhabited A} (xs b : list A) (pos : Z) (j : nat) :
  0 <= pos < CAPACITY ->
  (forall i : nat, (i < length xs)%nat -> j <> Z.to_nat ((pos + Z.of_nat i) mod CAPACITY)) ->
  ring_store xs b pos !!! j = b !!! j.
Proof.
  revert b pos. induction xs as [|x xs IH]; intros b pos Hp Hj; [reflexivity|].
  cbn [ring_store].
  rewrite IH.
  - apply list_lookup_total_insert_ne.
    specialize (Hj 0%nat ltac:(simpl; lia)).
    rewrite Z.add_0_r, Z.mod_small in Hj by assumption. congruence.
  - apply Z.mod_pos_bound. reflexivity.
  - intros i Hi. specialize (Hj (S i) ltac:(simpl; lia)).
    rewrite Zplus_mod_idemp_l.
    replace (pos + 1 + Z.of_nat i) with (pos + Z.of_nat (S i)) by lia. assumption.
Qed.

(** The [i]-th element stored is found [i] cells after [pos], provided the
    run does not lap itself. *)
Lemma ring_store_lookup {A : Type} `{!Inhabited A} (xs b : list A) (pos : Z) (i : nat) :
  length b = Z.to_nat CAPACITY -> 0 <= pos < CAPACITY ->
  Z.of_nat (length xs) <= CAPACITY -> (i < length xs)%nat ->
  ring_store xs b pos !!! Z.to_nat ((pos + Z.of_nat i) mod CAPACITY) = xs !!! i.
Proof.
  revert b pos i. induction xs as [|x xs IH]; intros b pos i Hb Hp Hn Hi;
    [simpl in Hi; lia|].
  cbn [ring_store]. cbn [length] in Hn, Hi.
  destruct i as [|i].
  - rewrite Z.add_0_r, Z.mod_small by assumption.
    rewrite ring_store_other.
    + apply list_lookup_total_insert_eq. rewrite Hb. lia.
    + apply Z.mod_pos_bound. reflexivity.
    + intros k Hk. rewrite Zplus_mod_idemp_l.
      rewrite capacity_val in *.
      intros Heq. apply Z2Nat.inj in Heq; [| lia | apply Z.mod_pos_bound; lia].
      revert Heq. Z.div_mod_to_equations. lia.
  - change ((x :: xs) !!! S i) with (xs !!! i).
    rewrite <- (IH (<[Z.to_nat pos := x]> b) ((pos + 1) mod CAPACITY) i).
    + rewrite Zplus_mod_idemp_l. do 3 f_equal. lia.
    + rewrite length_insert. assumption.
    + apply Z.mod_pos_bound. reflexivity.
    + lia.
    + lia.
Qed.

Lemma fmap_lookup_total_seq {A : Type} `{!Inhabited A} (xs : list A) :
  (fun i : nat => xs !!! i) <$> seq 0 (length xs) = xs.
Proof.
  apply list_eq. intros i. rewrite list_lookup_fmap.
  destruct (decide (i < length xs)%nat) as [Hi|Hi].
  - rewrite lookup_seq_lt by assumption. simpl.
    symmetry. apply list_lookup_lookup_total_lt. assumption.
  - rewrite lookup_seq_ge by lia. simpl. symmetry. apply lookup_ge_None. lia.
Qed.

(** Reading back, from [pos] on, as many cells as were just stored there
    returns what was stored. *)
Lemma copy_loop_ring_store {A : Type} `{!Inhabited A} (xs b : list A) (pos : Z) :
  length b = Z.to_nat CAPACITY -> 0 <= pos < CAPACITY ->
  Z.of_nat (length xs) <= CAPACITY ->
  Audio.copy_loop (fun p => ring_store xs b pos !!! Z.to_nat p) pos (length xs) = xs.
Proof.
  intros Hb Hp Hn. rewrite copy_loop_fmap by assumption.
  etransitivity; [|apply (fmap_lookup_total_seq xs)].
  apply list_fmap_ext. intros k i Hk.
  apply lookup_seq in Hk as [-> Hk]. simpl.
  apply ring_store_lookup; assumption.
Qed.

(** Where a reader of [n] cells starts once [n] cells have been written
    from [pos] on: at [pos]. *)
Lemma read_start_after (pos : Z) (n : Z) :
  0 <= pos < CAPACITY -> 0 <= n <= CAPACITY ->
  Audio.read_start ((pos + n) mod CAPACITY) n = pos.
Proof.
  intros Hp Hn. unfold Audio.read_start, Audio.size_t.
  rewrite capacity_val in *. change (Audio.FFT_SIZE_BASS * 2) with 16384.
  change (2 ^ 64) with 18446744073709551616.
  Z.div_mod_to_equations. lia.
Qed.

(** The start of a read does not depend on the width of [size_t], as long
    as it has at least 14 bits. *)
Lemma read_start_any_width (pos count w : Z) :
  14 <= w ->
  (((pos + Audio.FFT_SIZE_BASS * 2) mod 2 ^ w - count) mod 2 ^ w) mod (Audio.FFT_SIZE_BASS * 2)
  = (pos - count) mod (Audio.FFT_SIZE_BASS * 2).
Proof.
  intros Hw. change (Audio.FFT_SIZE_BASS * 2) with (2 ^ 14).
  assert ((2 ^ 14 | 2 ^ w)) as Hdiv.
  { exists (2 ^ (w - 14)). rewrite <- Z.pow_add_r by lia. f_equal. lia. }
  rewrite Z.mod_mod_divide by assumption.
  rewrite <- Zminus_mod_idemp_l.
  rewrite Z.mod_mod_divide by assumption.
  rewrite Zminus_mod_idemp_l.
  replace (pos + 2 ^ 14 - count) with (pos - count + 1 * 2 ^ 14) by lia.
  apply Z_mod_plus_full.
Qed.

(** The awake loop, over any list of frame indices: what it leaves in
    the two buffers, in the cursor and in [frame_max]. *)
Lemma fold_write_frame (buf : list Z) (idx : list Z) (w : Audio.write_loop) :
  length (Audio.wl_left w) = Z.to_nat CAPACITY ->
  length (Audio.wl_right w) = Z.to_nat CAPACITY ->
  0 <= Audio.wl_pos w < CAPACITY ->
  let fs := (fun i => (buf !!! Z.to_nat (i * 2), buf !!! Z.to_nat (i * 2 + 1))) <$> idx in
  fold_left (Audio.write_frame buf) idx w =
  {| Audio.wl_left := ring_store (left_samples fs) (Audio.wl_left w) (Audio.wl_pos w);
     Audio.wl_right := ring_store (right_samples fs) (Audio.wl_right w) (Audio.wl_pos w);
     Audio.wl_pos := (Audio.wl_pos w + Z.of_nat (length idx)) mod CAPACITY;
     Audio.wl_frame_max := fold_left F32.fmax (magnitudes fs) (Audio.wl_frame_max w) |}.
Proof.
  revert w. induction idx as [|i idx IH]; intros w Hl Hr Hp fs.
  - destruct w as [l r pos fm]. simpl in *.
    rewrite Z.add_0_r, Z.mod_small by assumption. reflexivity.
  - cbn [fold_left]. subst fs.
    assert (Z.to_nat (Audio.wl_pos w) < length (Audio.wl_left w))%nat as Hlt
      by (rewrite Hl; lia).
    assert (Z.to_nat (Audio.wl_pos w) < length (Audio.wl_right w))%nat as Hrt
      by (rewrite Hr; lia).
    rewrite IH; clear IH.
    + unfold Audio.write_frame; cbn [Audio.wl_left Audio.wl_right Audio.wl_pos
                                      Audio.wl_frame_max].
      change (1 <? Audio.CHANNELS) with true. cbv iota.
      change Audio.CHANNELS with 2. change (Audio.FFT_SIZE_BASS * 2) with CAPACITY.
      rewrite !list_lookup_total_insert_eq by assumption.
      rewrite Zplus_mod_idemp_l.
      f_equal. f_equal. cbn [length]. lia.
    + unfold Audio.write_frame; cbn [Audio.wl_left]. rewrite length_insert. assumption.
    + unfold Audio.write_frame; cbn [Audio.wl_right]. rewrite length_insert. assumption.
    + unfold Audio.write_frame; cbn [Audio.wl_pos]. apply Z.mod_pos_bound. reflexivity.
Qed.

Lemma write_frames_spec (buf : list Z) (frames : Z) (st : Audio.state) :
  well_formed st ->
  Audio.write_frames buf frames st =
  {| Audio.wl_left :=
       ring_store (left_samples (frames_of buf frames))
         (Audio.circular_buffer_left st) (Audio.write_pos st);
     Audio.wl_right :=
       ring_store (right_samples (frames_of buf frames))
         (Audio.circular_buffer_right st) (Audio.write_pos st);
     Audio.wl_pos :=
       (Audio.write_pos st + Z.of_nat (length (frames_of buf frames))) mod CAPACITY;
     Audio.wl_frame_max := block_peak (frames_of buf frames) |}.
Proof.
  intros (Hl & Hr & Hp). unfold Audio.write_frames.
  rewrite fold_write_frame by assumption.
  unfold frames_of, block_peak. cbn [Audio.wl_left Audio.wl_right Audio.wl_pos
                                      Audio.wl_frame_max].
  rewrite length_fmap. reflexivity.
Qed.

(** The asleep loop walks the same samples in the same order. *)
Lemma magnitudes_frames_of (buf : list Z) (n : nat) :
  magnitudes (frames_of buf (Z.of_nat n)) =
  (fun i => F32.fabs (Audio.normalize (buf !!! Z.to_nat i))) <$> seqZ 0 (Z.of_nat n * 2).
Proof.
  induction n as [|n IH]; [reflexivity|].
  unfold frames_of, magnitudes in *.
  replace (Z.of_nat (S n) * 2) with (Z.of_nat (S (S (n * 2)))) by lia.
  rewrite !seqZ_S, !fmap_app, bind_app, IH.
  replace (Z.of_nat (n * 2)) with (Z.of_nat n * 2) by lia.
  rewrite <- app_assoc. f_equal. simpl.
  replace (Z.of_nat (S (n * 2))) with (Z.of_nat n * 2 + 1) by lia.
  reflexivity.
Qed.

Lemma sleep_frame_max_spec (buf : list Z) (frames : Z) :
  Audio.sleep_frame_max buf frames = block_peak (frames_of buf frames).
Proof.
  unfold Audio.sleep_frame_max, block_peak. change Audio.CHANNELS with 2.
  destruct (Z_le_gt_dec frames 0) as [Hle|Hgt].
  - unfold frames_of. rewrite !seqZ_nil by lia. reflexivity.
  - rewrite <- (Z2Nat.id frames) by lia.
    rewrite magnitudes_frames_of.
    generalize (seqZ 0 (Z.of_nat (Z.to_nat frames) * 2)) F32.zero.
    intros l. induction l as [|i l IH]; intros a; simpl; auto.
Qed.

(** One iteration of the capture loop, according to the power state. *)
Lemma iteration_asleep (dev : Z -> Audio.pcm_read) (now : Z) (st : Audio.state) :
  Audio.is_sleeping st = true ->
  let r := dev 256 in
  Audio.audioThreadFunc_iteration dev now st =
  if effective_frames r <? 0 then st
  else
    Audio.set_capture (Audio.circular_buffer_left st) (Audio.circular_buffer_right st)
      (Audio.write_pos st) (block_peak (delivered r))
      (if F32.lt Audio.SILENCE_THRESHOLD (block_peak (delivered r)) then now
       else Audio.last_audio_time st) st.
Proof.
  intros Hs r. unfold Audio.audioThreadFunc_iteration, Audio.frames_to_read.
  rewrite Hs. fold r. fold (effective_frames r).
  rewrite sleep_frame_max_spec. reflexivity.
Qed.

Lemma iteration_awake (dev : Z -> Audio.pcm_read) (now : Z) (st : Audio.state) :
  Audio.is_sleeping st = false -> well_formed st ->
  let r := dev Audio.FRAMES_PER_BUFFER in
  Audio.audioThreadFunc_iteration dev now st =
  if effective_frames r <? 0 then st
  else
    Audio.set_capture
      (ring_store (left_samples (delivered r)) (Audio.circular_buffer_left st)
         (Audio.write_pos st))
      (ring_store (right_samples (delivered r)) (Audio.circular_buffer_right st)
         (Audio.write_pos st))
      ((Audio.write_pos st + Z.of_nat (length (delivered r))) mod CAPACITY)
      (block_peak (delivered r))
      (if F32.lt Audio.SILENCE_THRESHOLD (block_peak (delivered r)) then now
       else Audio.last_audio_time st) st.
Proof.
  intros Hs Hwf r. unfold Audio.audioThreadFunc_iteration, Audio.frames_to_read.
  rewrite Hs. fold r. fold (effective_frames r).
  rewrite write_frames_spec by assumption. reflexivity.
Qed.

Lemma capture_awake (its : list ((Z -> Audio.pcm_read) * Z)) (st : Audio.state) :
  Audio.is_sleeping st = false -> well_formed st ->
  let st' := capture its st in
  Audio.is_sleeping st' = false /\ well_formed st' /\
  Audio.circular_buffer_left st' =
    ring_store (left_samples (delivered_awake its)) (Audio.circular_buffer_left st)
      (Audio.write_pos st) /\
  Audio.circular_buffer_right st' =
    ring_store (right_samples (delivered_awake its)) (Audio.circular_buffer_right st)
      (Audio.write_pos st) /\
  Audio.write_pos st' =
    (Audio.write_pos st + Z.of_nat (length (delivered_awake its))) mod CAPACITY.
Proof.
  revert st. induction its as [|[dev now] its IH]; intros st Hs Hwf.
  - simpl. pose proof Hwf as (? & ? & ?).
    rewrite Z.add_0_r, Z.mod_small by assumption. auto.
  - cbn [capture fold_left fst snd].
    pose proof (iteration_awake dev now st Hs Hwf) as Hit. cbv zeta in Hit.
    set (st1 := Audio.audioThreadFunc_iteration dev now st) in *.
    set (fs := delivered (dev Audio.FRAMES_PER_BUFFER)) in *.
    assert (Audio.is_sleeping st1 = false /\ well_formed st1 /\
            Audio.circular_buffer_left st1 =
              ring_store (left_samples fs) (Audio.circular_buffer_left st)
                (Audio.write_pos st) /\
            Audio.circular_buffer_right st1 =
              ring_store (right_samples fs) (Audio.circular_buffer_right st)
                (Audio.write_pos st) /\
            Audio.write_pos st1 =
              (Audio.write_pos st + Z.of_nat (length fs)) mod CAPACITY)
      as (Hs1 & Hwf1 & Hl1 & Hr1 & Hp1).
    { destruct Hwf as (Hl & Hr & Hp).
      destruct (effective_frames (dev Audio.FRAMES_PER_BUFFER) <? 0) eqn:Heff.
      - assert (fs = []) as ->.
        { subst fs. unfold delivered, frames_of.
          rewrite seqZ_nil by (apply Z.ltb_lt in Heff; lia). reflexivity. }
        rewrite Hit. simpl. rewrite Z.add_0_r, Z.mod_small by assumption.
        unfold well_formed. auto.
      - rewrite Hit. unfold well_formed. simpl.
        rewrite !length_ring_store.
        pose proof (Z.mod_pos_bound (Audio.write_pos st + Z.of_nat (length fs)) CAPACITY
                      eq_refl).
        auto 10. }
    specialize (IH st1 Hs1 Hwf1). cbv zeta in IH.
    destruct IH as (Hs' & Hwf' & Hl' & Hr' & Hp').
    fold (capture its st1).
    change (delivered_awake ((dev, now) :: its)) with (fs ++ delivered_awake its).
    unfold left_samples, right_samples in *.
    rewrite !fmap_app, !ring_store_app, !length_fmap by (destruct Hwf as (_ & _ & ?); assumption).
    rewrite Hl', Hr', Hp', Hl1, Hr1, Hp1.
    do 4 (split; [assumption || reflexivity|]).
    rewrite Zplus_mod_idemp_l, length_app. f_equal. lia.
Qed.

(** C8: from any well-formed state, awake, after the capture loop has
    written a sequence of frames no longer than the capacity (in
    particular, shorter than it), [getWaveformData] asked for as many
    samples returns, for either channel, exactly the normalised samples
    written, oldest first. *)
Theorem C8_ring_buffer_round_trip :
  forall (its : list ((Z -> Audio.pcm_read) * Z)) (st : Audio.state),
    well_formed st -> Audio.is_sleeping st = false ->
    Z.of_nat (length (delivered_awake its)) <= CAPACITY ->
    let st' := capture its st in
    let n := Z.of_nat (length (delivered_awake its)) in
    Audio.getWaveformData n true st' = left_samples (delivered_awake its) /\
    Audio.getWaveformData n false st' = right_samples (delivered_awake its).
Proof.
  intros its st Hwf Hs Hn st' n.
  destruct (capture_awake its st Hs Hwf) as (_ & _ & Hl & Hr & Hp).
  fold st' in Hl, Hr, Hp. destruct Hwf as (Hll & Hlr & Hpos).
  unfold Audio.getWaveformData. rewrite Hl, Hr, Hp.
  fold n. rewrite read_start_after by (subst n; lia).
  subst n. rewrite Nat2Z.id.
  split.
  - rewrite <- (length_fmap (fun f => Audio.normalize (fst f)) (delivered_awake its)).
    apply copy_loop_ring_store; try assumption.
    unfold left_samples. rewrite length_fmap. assumption.
  - rewrite <- (length_fmap (fun f => Audio.normalize (snd f)) (delivered_awake its)).
    apply copy_loop_ring_store; try assumption.
    unfold right_samples. rewrite length_fmap. assumption.
Qed.

Lemma C8_ring_buffer_round_trip_witness :
  (well_formed example_awake /\ Audio.is_sleeping example_awake = false /\
   Z.of_nat (length (delivered_awake [(example_device, 5)])) <= CAPACITY) /\
  Audio.getWaveformData 3 true (capture [(example_device, 5)] example_awake)
    = left_samples (delivered_awake [(example_device, 5)]) /\
  Audio.getWaveformData 3 false (capture [(example_device, 5)] example_awake)
    = right_samples (delivered_awake [(example_device, 5)]).
Proof.
  assert (well_formed example_awake) as Hwf.
  { unfold well_formed. repeat split; try reflexivity; vm_compute; discriminate. }
  assert (Z.of_nat (length (delivered_awake [(example_device, 5)])) <= CAPACITY) as Hn.
  { vm_compute. discriminate. }
  split; [repeat split; assumption || reflexivity|].
  exact (C8_ring_buffer_round_trip [(example_device, 5)] example_awake Hwf eq_refl Hn).
Defined.

End Ring.

(* ================================================================== *)
(** ** The capture loop: silence detection and the asleep iteration *)
(* ================================================================== *)

Section Capture.

Import Spec.
Local Open Scope Z_scope.

Lemma checkForAudio_spec (now : Z) (st : Audio.state) :
  Audio.checkForAudio now st = true <->
  now - Audio.last_audio_time st < Audio.SLEEP_TIMEOUT_SEC * Audio.TICKS_PER_SECOND.
Proof.
  unfold Audio.checkForAudio, Audio.SLEEP_TIMEOUT_SEC, Audio.TICKS_PER_SECOND.
  rewrite Z.ltb_lt.
  generalize (now - Audio.last_audio_time st). intros d.
  Z.quot_rem_to_equations. lia.
Qed.

Lemma last_audio_time_iteration (dev : Z -> Audio.pcm_read) (now : Z) (st : Audio.state) :
  well_formed st ->
  let r := dev (Audio.frames_to_read st) in
  0 <= effective_frames r ->
  Audio.last_audio_time (Audio.audioThreadFunc_iteration dev now st) =
  if F32.lt Audio.SILENCE_THRESHOLD (block_peak (delivered r)) then now
  else Audio.last_audio_time st.
Proof.
  intros Hwf r Heff. subst r. unfold Audio.frames_to_read in *.
  destruct (Audio.is_sleeping st) eqn:Hs.
  - rewrite iteration_asleep by assumption.
    apply Z.ltb_ge in Heff. rewrite Heff. reflexivity.
  - rewrite iteration_awake by assumption.
    apply Z.ltb_ge in Heff. rewrite Heff. reflexivity.
Qed.

Lemma all_from_spec (P : Z -> bool) (n : nat) (k : Z) :
  all_from P n k = true -> forall j, k <= j < k + Z.of_nat n -> P j = true.
Proof.
  revert k. induction n as [|n IH]; intros k H j Hj; [lia|].
  cbn [all_from] in H. apply andb_prop in H as [Hk Hrest].
  destruct (Z.eq_dec j k) as [->|Hne]; [assumption|].
  apply (IH (k + 1)); [assumption|lia].
Qed.

Lemma normalized_from_In (n : nat) (k j : Z) :
  k <= j < k + Z.of_nat n -> In (Audio.normalize j) (normalized_from n k).
Proof.
  revert k. induction n as [|n IH]; intros k Hj; [lia|].
  cbn [normalized_from]. destruct (Z.eq_dec j k) as [->|Hne]; [left; reflexivity|].
  right. apply IH. lia.
Qed.

Lemma threshold_all : all_from threshold_agrees (Z.to_nat 32769) 0 = true.
Proof. vm_compute. reflexivity. Qed.

Lemma quiet_below_loud_all :
  (let qs := normalized_from 33 0 in all_from (above_all qs) (Z.to_nat 32736) 33) = true.
Proof. vm_compute. reflexivity. Qed.

(** For magnitudes up to 32768, exceeding the threshold is being 33 or
    more. *)
Lemma threshold_normalize (a : Z) :
  0 <= a <= 32768 -> F32.lt Audio.SILENCE_THRESHOLD (Audio.normalize a) = (33 <=? a).
Proof.
  intros Ha. apply Bool.eqb_prop.
  apply (all_from_spec _ _ _ threshold_all). lia.
Qed.

(** A quiet magnitude is below a loud one. *)
Lemma quiet_below_loud (q l : Z) :
  0 <= q <= 32 -> 33 <= l <= 32768 ->
  F32.lt (Audio.normalize q) (Audio.normalize l) = true /\
  F32.lt (Audio.normalize l) (Audio.normalize q) = false.
Proof.
  intros Hq Hl.
  pose proof (all_from_spec _ _ _ quiet_below_loud_all l ltac:(lia)) as H.
  unfold above_all in H. cbv zeta in H. rewrite forallb_forall in H.
  specialize (H (Audio.normalize q) (normalized_from_In 33 0 q ltac:(lia))).
  apply andb_prop in H as [H1 H2%negb_true_iff]. auto.
Qed.

Lemma SFabs_binary_round_aux (s : bool) (m e : Z) (l : location) :
  SFabs (binary_round_aux F32.prec F32.emax s m e l)
  = binary_round_aux F32.prec F32.emax false m e l.
Proof.
  unfold binary_round_aux.
  destruct (shr_fexp F32.prec F32.emax m e l) as [r1 e1].
  destruct (shr_fexp F32.prec F32.emax _ e1 loc_Exact) as [r2 e2].
  destruct (shr_m r2); [reflexivity| |reflexivity].
  destruct (e2 <=? F32.emax - F32.prec); reflexivity.
Qed.

Lemma fabs_of_int (k : Z) : F32.fabs (F32.of_int k) = F32.of_int (Z.abs k).
Proof.
  destruct k as [|p|p]; [reflexivity| |];
    [change (Z.abs (Z.pos p)) with (Z.pos p)|change (Z.abs (Z.neg p)) with (Z.pos p)];
    unfold F32.fabs, F32.of_int, binary_normalize, binary_round;
    destruct (shl_align p 0 _) as [mz ez]; apply SFabs_binary_round_aux.
Qed.

Lemma fabs_div_positive (x : float) (my : positive) (ey : Z) :
  F32.fabs (F32.div x (S754_finite false my ey))
  = F32.div (F32.fabs x) (S754_finite false my ey).
Proof.
  destruct x as [s|s| |s m e]; try reflexivity.
  unfold F32.fabs, F32.div. cbv beta iota delta [SFdiv].
  change (SFabs (S754_finite s m e)) with (S754_finite false m e). cbv beta iota.
  destruct (SFdiv_core_binary _ _ _ _ _ _) as [[mq eq] lq].
  apply SFabs_binary_round_aux.
Qed.

(** The magnitude of a normalised sample is the normalised magnitude. *)
Lemma fabs_normalize (k : Z) :
  F32.fabs (Audio.normalize k) = Audio.normalize (Z.abs k).
Proof.
  unfold Audio.normalize.
  change (F32.of_int 32768) with (S754_finite false 8388608 (-8)).
  rewrite fabs_div_positive, fabs_of_int. reflexivity.
Qed.

Lemma magnitudes_samples (fs : list (Z * Z)) :
  magnitudes fs = (fun k => F32.fabs (Audio.normalize k)) <$> samples_of fs.
Proof.
  unfold magnitudes, samples_of.
  induction fs as [|f fs IH]; [reflexivity|].
  cbn [mbind list_bind app fmap list_fmap] in *. rewrite IH. reflexivity.
Qed.

(** The running maximum of the magnitudes of 16-bit samples, started at a
    magnitude [a0], is the magnitude of one of them (or [a0]), loud exactly
    when [a0] or one of the samples is. *)
Lemma peak_fold (ms : list Z) (a0 : Z) :
  0 <= a0 <= 32768 -> Forall is_int16 ms ->
  exists a', 0 <= a' <= 32768 /\
    fold_left F32.fmax ((fun k => F32.fabs (Audio.normalize k)) <$> ms) (Audio.normalize a0)
      = Audio.normalize a' /\
    (33 <=? a') = (33 <=? a0) || existsb loud_sample ms.
Proof.
  revert a0. induction ms as [|k ms IH]; intros a0 Ha Hms.
  - exists a0. cbn [existsb]. rewrite orb_false_r. auto.
  - apply Forall_cons in Hms as [Hk Hms]. unfold is_int16 in Hk.
    cbn [fmap list_fmap fold_left existsb]. rewrite fabs_normalize.
    unfold loud_sample at 1.
    assert (0 <= Z.abs k <= 32768) as Hak by lia.
    unfold F32.fmax at 2.
    destruct (33 <=? a0) eqn:Ea, (33 <=? Z.abs k) eqn:Ek.
    + destruct (F32.lt (Audio.normalize a0) (Audio.normalize (Z.abs k)));
        [destruct (IH (Z.abs k) Hak Hms) as (a' & ? & ? & Hc); rewrite Ek in Hc
        |destruct (IH a0 Ha Hms) as (a' & ? & ? & Hc); rewrite Ea in Hc];
        exists a'; auto.
    + apply Z.leb_le in Ea. apply Z.leb_gt in Ek.
      destruct (quiet_below_loud (Z.abs k) a0 ltac:(lia) ltac:(lia)) as [_ ->].
      destruct (IH a0 Ha Hms) as (a' & ? & ? & Hc).
      exists a'. rewrite Hc. apply Z.leb_le in Ea. rewrite Ea. auto.
    + apply Z.leb_gt in Ea. apply Z.leb_le in Ek.
      destruct (quiet_below_loud a0 (Z.abs k) ltac:(lia) ltac:(lia)) as [-> _].
      destruct (IH (Z.abs k) Hak Hms) as (a' & ? & ? & Hc).
      exists a'. rewrite Hc. apply Z.leb_le in Ek. rewrite Ek. auto.
    + destruct (F32.lt (Audio.normalize a0) (Audio.normalize (Z.abs k)));
        [destruct (IH (Z.abs k) Hak Hms) as (a' & ? & ? & Hc); rewrite Ek in Hc
        |destruct (IH a0 Ha Hms) as (a' & ? & ? & Hc); rewrite Ea in Hc];
        exists a'; auto.
Qed.

(** The peak of a block of 16-bit samples exceeds the silence threshold
    exactly when one of its samples has a magnitude of 33 or more. *)
Lemma peak_exceeds_threshold (fs : list (Z * Z)) :
  Forall is_int16 (samples_of fs) ->
  F32.lt Audio.SILENCE_THRESHOLD (block_peak fs) = has_loud_sample fs.
Proof.
  intros Hfs. unfold block_peak, has_loud_sample. rewrite magnitudes_samples.
  destruct (peak_fold (samples_of fs) 0 ltac:(lia) Hfs) as (a' & Ha' & Hpeak & Hc).
  change (Audio.normalize 0) with F32.zero in Hpeak.
  rewrite Hpeak, threshold_normalize, Hc by assumption. reflexivity.
Qed.

Lemma lookup_total_int16 (buf : list Z) (i : nat) :
  Forall is_int16 buf -> is_int16 (buf !!! i).
Proof.
  intros H. rewrite list_lookup_total_alt.
  destruct (buf !! i) as [x|] eqn:Hx; simpl.
  - eapply Forall_lookup_1; eassumption.
  - unfold is_int16, inhabitant, Z.inhabited. lia.
Qed.

Lemma delivered_int16 (r : Audio.pcm_read) :
  Forall is_int16 (Audio.audio_buffer r) -> Forall is_int16 (samples_of (delivered r)).
Proof.
  intros H. unfold delivered, frames_of, samples_of.
  generalize (seqZ 0 (effective_frames r)). intros idx.
  induction idx as [|i idx IH]; [constructor|].
  cbn [fmap list_fmap mbind list_bind app fst snd] in *.
  constructor; [apply lookup_total_int16; assumption|].
  constructor; [apply lookup_total_int16; assumption|].
  exact IH.
Qed.

(** C7: [checkForAudio] answers true exactly when less than the 10-second
    timeout has elapsed since the last-active timestamp.  An iteration of the
    capture loop that has a block to process, asleep or awake alike, stores
    the peak amplitude of the block (the running maximum of the magnitudes of
    its samples), sets the last-active timestamp to the current time when
    that peak exceeds [SILENCE_THRESHOLD], which is when some 16-bit sample of
    the block is 33 or more in magnitude, and leaves the timestamp alone
    otherwise. *)
Theorem C7_silence_timer :
  forall (dev : Z -> Audio.pcm_read) (now t : Z) (st : Audio.state),
    well_formed st ->
    0 <= effective_frames (dev (Audio.frames_to_read st)) ->
    Forall is_int16 (Audio.audio_buffer (dev (Audio.frames_to_read st))) ->
    let block := delivered (dev (Audio.frames_to_read st)) in
    let st' := Audio.audioThreadFunc_iteration dev now st in
    (Audio.checkForAudio t st = true <->
     t - Audio.last_audio_time st < Audio.SLEEP_TIMEOUT_SEC * Audio.TICKS_PER_SECOND) /\
    Audio.SLEEP_TIMEOUT_SEC * Audio.TICKS_PER_SECOND = 10 * 1000000000 /\
    Audio.max_amplitude st' = block_peak block /\
    F32.lt Audio.SILENCE_THRESHOLD (block_peak block) = has_loud_sample block /\
    Audio.last_audio_time st' =
      (if F32.lt Audio.SILENCE_THRESHOLD (block_peak block) then now
       else Audio.last_audio_time st).
Proof.
  intros dev now t st Hwf Heff Hbuf block st'.
  split; [apply checkForAudio_spec|]. split; [reflexivity|].
  split; [|split].
  - subst st' block. unfold Audio.frames_to_read in *.
    apply Z.ltb_ge in Heff.
    destruct (Audio.is_sleeping st) eqn:Hs;
      [rewrite iteration_asleep by assumption|rewrite iteration_awake by assumption];
      cbv zeta; rewrite Heff; reflexivity.
  - apply peak_exceeds_threshold, delivered_int16. assumption.
  - apply last_audio_time_iteration; assumption.
Qed.

Lemma example_awake_well_formed : well_formed example_awake.
Proof. unfold well_formed. repeat split; try reflexivity; vm_compute; discriminate. Defined.

Lemma example_asleep_well_formed : well_formed example_asleep.
Proof. unfold well_formed. repeat split; try reflexivity; vm_compute; discriminate. Defined.

Lemma example_read_int16 : Forall is_int16 (Audio.audio_buffer example_read).
Proof. repeat constructor; vm_compute; discriminate. Defined.

Lemma C7_silence_timer_witness :
  (well_formed example_asleep /\
   0 <= effective_frames (example_device (Audio.frames_to_read example_asleep)) /\
   Forall is_int16 (Audio.audio_buffer (example_device (Audio.frames_to_read example_asleep)))) /\
  (Audio.checkForAudio 9999999999 example_asleep = true <->
   9999999999 - Audio.last_audio_time example_asleep
     < Audio.SLEEP_TIMEOUT_SEC * Audio.TICKS_PER_SECOND) /\
  has_loud_sample (delivered example_read) = true /\
  Audio.last_audio_time (Audio.audioThreadFunc_iteration example_device 42 example_asleep)
    = 42.
Proof.
  assert (0 <= effective_frames (example_device (Audio.frames_to_read example_asleep)))
    as Heff by (vm_compute; discriminate).
  pose proof (C7_silence_timer example_device 42 9999999999 example_asleep
                example_asleep_well_formed Heff example_read_int16) as H.
  cbv zeta in H. destruct H as (H1 & _ & _ & H4 & H5).
  split; [split; [exact example_asleep_well_formed | split; [exact Heff|exact example_read_int16]]|].
  split; [exact H1|]. split; [reflexivity|].
  rewrite H5, H4. reflexivity.
Defined.

(** C9: an iteration of the capture loop made asleep asks the device for
    256 frames (2048 when awake) and depends on the device through that
    request only; it leaves both circular buffers and the write cursor as
    they were, and no member other than [max_amplitude] and
    [last_audio_time] changes. *)
Theorem C9_asleep_iteration_frame :
  forall (dev : Z -> Audio.pcm_read) (now : Z) (st : Audio.state),
    Audio.is_sleeping st = true ->
    let st' := Audio.audioThreadFunc_iteration dev now st in
    (Audio.frames_to_read st = 256 /\
     Audio.frames_to_read (Audio.setSleepState false st) = 2048 /\
     forall dev' : Z -> Audio.pcm_read,
       dev' 256 = dev 256 -> Audio.audioThreadFunc_iteration dev' now st = st') /\
    (Audio.circular_buffer_left st' = Audio.circular_buffer_left st /\
     Audio.circular_buffer_right st' = Audio.circular_buffer_right st /\
     Audio.write_pos st' = Audio.write_pos st) /\
    st' = Audio.set_capture (Audio.circular_buffer_left st) (Audio.circular_buffer_right st)
            (Audio.write_pos st) (Audio.max_amplitude st') (Audio.last_audio_time st') st.
Proof.
  intros dev now st Hs st'. subst st'.
  split; [|split].
  - unfold Audio.frames_to_read. rewrite Hs. split; [reflexivity|].
    split; [reflexivity|].
    intros dev' Hdev. rewrite !iteration_asleep by assumption. cbv zeta.
    rewrite Hdev. reflexivity.
  - rewrite iteration_asleep by assumption. cbv zeta.
    destruct (effective_frames (dev 256) <? 0); repeat split.
  - rewrite iteration_asleep by assumption. cbv zeta.
    destruct (effective_frames (dev 256) <? 0); [|reflexivity].
    destruct st; reflexivity.
Qed.

Lemma C9_asleep_iteration_frame_witness :
  Audio.is_sleeping example_asleep = true /\
  Audio.circular_buffer_left (Audio.audioThreadFunc_iteration example_device 42 example_asleep)
    = Audio.circular_buffer_left example_asleep /\
  Audio.max_amplitude (Audio.audioThreadFunc_iteration example_device 42 example_asleep)
    <> Audio.max_amplitude example_asleep.
Proof.
  split; [reflexivity|].
  split.
  - exact (proj1 (proj1 (proj2 (C9_asleep_iteration_frame example_device 42 example_asleep
                                  eq_refl)))).
  - vm_compute. discriminate.
Defined.

End Capture.

(* ================================================================== *)
(** ** The main loop: power-state transitions *)
(* ================================================================== *)

Section PowerState.

Import Spec.
Local Open Scope Z_scope.

Variable indef : float -> Z.

Ltac app_simpl :=
  cbn [App.ctl App.audio App.mpd_client App.encoder1_state App.encoder2_state
       App.btn1_last App.btn2_last App.pwr_last App.local_current_viz
       App.sleep_counter App.calls
       App.set_ctl App.set_audio App.set_mpd App.set_encoders App.set_buttons
       App.set_local_viz App.set_sleep_counter App.log App.set_sleeping
       App.set_running App.set_current_viz
       App.running App.current_viz App.is_sleeping
       App.rot1 App.rot2 App.rot1_sw App.rot2_sw App.power_sw
       App.gpio_top App.has_audio App.gpio_asleep
       negb andb] in *.

Lemma is_sleeping_setSensitivity (v : Z) (a : Audio.state) :
  Audio.is_sleeping (Audio.setSensitivity v a) = Audio.is_sleeping a.
Proof. reflexivity. Qed.

Lemma is_sleeping_setNoiseReduction (v : Z) (a : Audio.state) :
  Audio.is_sleeping (Audio.setNoiseReduction v a) = Audio.is_sleeping a.
Proof. reflexivity. Qed.

Lemma same_power_refl (st : App.state) : same_power st st.
Proof. unfold same_power. auto 10. Qed.

Lemma same_power_trans (st1 st2 st3 : App.state) :
  same_power st1 st2 -> same_power st2 st3 -> same_power st1 st3.
Proof.
  unfold same_power. intros (? & ? & ? & ? & ? & ?) (? & ? & ? & ? & ? & ?).
  repeat split; congruence.
Qed.

Lemma poll_encoder1_same (g : App.gpio) (st : App.state) :
  same_power st (App.poll_encoder1 indef g st).
Proof.
  unfold App.poll_encoder1, same_power.
  destruct (negb (App.rot1 g =? App.encoder1_state st)); [|auto 10].
  destruct (negb (App.getDirection (App.encoder1_state st) (App.rot1 g) =? 0));
    app_simpl; rewrite ?is_sleeping_setSensitivity; auto 10.
Qed.

Lemma poll_encoder2_same (g : App.gpio) (st : App.state) :
  same_power st (App.poll_encoder2 indef g st).
Proof.
  unfold App.poll_encoder2, same_power.
  destruct (negb (App.rot2 g =? App.encoder2_state st)); [|auto 10].
  destruct (negb (App.getDirection (App.encoder2_state st) (App.rot2 g) =? 0));
    app_simpl; rewrite ?is_sleeping_setNoiseReduction; auto 10.
Qed.

(** A poll that sees no button pressed touches the analysis parameters and
    its own bookkeeping only. *)
Lemma poll_released (g : App.gpio) (st : App.state) :
  released g = true -> same_power st (App.poll indef g st).
Proof.
  unfold released. intros [[H1 H2]%andb_prop H3]%andb_prop.
  unfold App.poll.
  eapply same_power_trans; [apply (poll_encoder1_same g)|].
  eapply same_power_trans; [apply (poll_encoder2_same g)|].
  generalize (App.poll_encoder2 indef g (App.poll_encoder1 indef g st)). intros s0.
  unfold App.poll_power, App.poll_button2, App.poll_button1, same_power.
  rewrite H1, H2, H3. app_simpl. auto 10.
Qed.

Lemma same_power_view (st st' : App.state) : same_power st st' -> view st' = view st.
Proof. unfold same_power, view. intros (-> & -> & -> & -> & _ & ->). reflexivity. Qed.

Lemma mode_switches_app (cs cs' : list App.call) :
  mode_switches (cs ++ cs') = mode_switches cs ++ mode_switches cs'.
Proof. apply List.filter_app. Qed.

Lemma view_enter_sleep (st : App.state) :
  view (App.enter_sleep st) =
  ({| App.running := App.running (App.ctl st);
      App.current_viz := App.current_viz (App.ctl st);
      App.is_sleeping := true |},
   true, true, App.local_current_viz st,
   mode_switches (App.calls st) ++ [App.AudioSetSleepState true; App.MpdSetSleepState true]).
Proof.
  unfold view, App.enter_sleep. app_simpl.
  rewrite !mode_switches_app. cbn [mode_switches List.filter is_mode_switch].
  rewrite app_nil_r, <- app_assoc. reflexivity.
Qed.

Lemma switch_viz_same (st : App.state) :
  App.local_current_viz st = App.current_viz (App.ctl st) -> App.switch_viz st = st.
Proof. unfold App.switch_viz. intros ->. rewrite Z.eqb_refl. reflexivity. Qed.

Lemma view_idle (g : App.gpio) (st : App.state) :
  released g = true -> App.is_sleeping (App.ctl st) = true ->
  view (App.render_or_idle indef g st) = view st.
Proof.
  intros Hg Hs. unfold App.render_or_idle. rewrite Hs. cbn [negb].
  destruct (10 <=? App.sleep_counter st + 1).
  - pose proof (poll_released g (App.set_sleep_counter (App.sleep_counter st + 1) st) Hg)
      as Hv%same_power_view.
    revert Hv. generalize (App.poll indef g
                             (App.set_sleep_counter (App.sleep_counter st + 1) st)).
    intros s0. unfold view. app_simpl.
    rewrite mode_switches_app. cbn [mode_switches List.filter is_mode_switch].
    rewrite app_nil_r. intros [= -> -> -> -> ->]. reflexivity.
  - unfold view. app_simpl.
    rewrite mode_switches_app. cbn [mode_switches List.filter is_mode_switch].
    rewrite app_nil_r. reflexivity.
Qed.

(** A quiet iteration that starts awake ends asleep, after one call of
    each sleep-mode switch. *)
Lemma quiet_iteration_awake (i : App.loop_input) (st : App.state) :
  quiet i = true -> between_iterations st -> App.is_sleeping (App.ctl st) = false ->
  view (App.run_iteration indef i st) =
  ({| App.running := true;
      App.current_viz := App.current_viz (App.ctl st);
      App.is_sleeping := true |},
   true, true, App.current_viz (App.ctl st),
   mode_switches (App.calls st) ++ [App.AudioSetSleepState true; App.MpdSetSleepState true]).
Proof.
  unfold quiet. intros [[Ha%negb_true_iff Hg1]%andb_prop Hg2]%andb_prop (Hrun & Hviz) Hs.
  unfold App.run_iteration. rewrite Ha.
  pose proof (poll_released (App.gpio_top i) st Hg1) as Hp.
  pose proof (same_power_view _ _ Hp) as Hv.
  destruct Hp as (Hctl & _ & _ & Hloc & _ & _).
  revert Hv Hctl Hloc. generalize (App.poll indef (App.gpio_top i) st). intros s1 Hv Hctl Hloc.
  unfold App.coordinator. rewrite Hctl, Hs. cbn [negb andb].
  pose proof (view_enter_sleep s1) as He.
  assert (App.switch_viz (App.enter_sleep s1) = App.enter_sleep s1) as ->.
  { apply switch_viz_same. unfold App.enter_sleep. app_simpl. congruence. }
  rewrite view_idle; [|assumption|].
  - rewrite He. unfold view in Hv. injection Hv as -> _ _ -> ->.
    rewrite Hrun, Hviz. reflexivity.
  - unfold App.enter_sleep. app_simpl. reflexivity.
Qed.

(** A quiet iteration that starts asleep changes nothing of this. *)
Lemma quiet_iteration_asleep (i : App.loop_input) (st : App.state) :
  quiet i = true -> between_iterations st -> App.is_sleeping (App.ctl st) = true ->
  view (App.run_iteration indef i st) = view st.
Proof.
  unfold quiet. intros [[Ha%negb_true_iff Hg1]%andb_prop Hg2]%andb_prop (Hrun & Hviz) Hs.
  unfold App.run_iteration. rewrite Ha.
  pose proof (poll_released (App.gpio_top i) st Hg1) as Hp.
  pose proof (same_power_view _ _ Hp) as Hv.
  destruct Hp as (Hctl & _ & _ & Hloc & _ & _).
  revert Hv Hctl Hloc. generalize (App.poll indef (App.gpio_top i) st). intros s1 Hv Hctl Hloc.
  unfold App.coordinator. rewrite Hctl, Hs. cbn [negb andb].
  rewrite switch_viz_same by congruence.
  rewrite view_idle; [assumption|assumption|congruence].
Qed.

Lemma run_quiet_asleep (inputs : list App.loop_input) (st : App.state) :
  forallb quiet inputs = true -> between_iterations st ->
  App.is_sleeping (App.ctl st) = true ->
  view (App.run indef inputs st) = view st /\
  power_states indef inputs st = replicate (length inputs) true.
Proof.
  revert st. induction inputs as [|i rest IH]; intros st Hq Hb Hs; [split; reflexivity|].
  cbn [forallb] in Hq. apply andb_prop in Hq as [Hi Hrest].
  cbn [App.run power_states length replicate].
  pose proof Hb as (Hrun & Hviz). rewrite Hrun.
  pose proof (quiet_iteration_asleep i st Hi Hb Hs) as Hv.
  assert (App.ctl (App.run_iteration indef i st) = App.ctl st /\
          App.local_current_viz (App.run_iteration indef i st) = App.local_current_viz st)
    as [Hc Hl] by (unfold view in Hv; injection Hv; auto).
  destruct (IH (App.run_iteration indef i st) Hrest) as [Hv' Hp'].
  - unfold between_iterations. rewrite Hc, Hl. auto.
  - rewrite Hc. assumption.
  - rewrite Hv', Hv, Hp', Hc, Hs. auto.
Qed.

(** C6: starting awake, between two iterations of the main loop, any
    positive number of iterations in which [checkForAudio] answers false and
    no button is pressed: the power state is asleep after the first
    iteration and after every later one (one Awake-to-Asleep transition, no
    other), the capture engine and the metadata client are asleep, and over
    the whole run the sleep-mode switch of each was called exactly once,
    with [true]. *)
Theorem C6_one_transition_to_sleep :
  forall (inputs : list App.loop_input) (st : App.state),
    between_iterations st -> App.is_sleeping (App.ctl st) = false ->
    inputs <> [] -> forallb quiet inputs = true ->
    let st' := App.run indef inputs st in
    power_states indef inputs st = replicate (length inputs) true /\
    all_asleep st' /\
    mode_switches (App.calls st') =
      mode_switches (App.calls st)
        ++ [App.AudioSetSleepState true; App.MpdSetSleepState true].
Proof.
  intros [|i rest] st Hb Hs Hne Hq st'; [congruence|]. subst st'.
  cbn [forallb] in Hq. apply andb_prop in Hq as [Hi Hrest].
  cbn [App.run power_states length replicate].
  pose proof Hb as (Hrun & Hviz). rewrite Hrun.
  pose proof (quiet_iteration_awake i st Hi Hb Hs) as Hv.
  set (st1 := App.run_iteration indef i st) in *.
  unfold view in Hv. injection Hv as Hc Ha Hm Hl Hms.
  destruct (run_quiet_asleep rest st1 Hrest) as [Hv' Hp'].
  - unfold between_iterations. rewrite Hc, Hl. auto.
  - rewrite Hc. reflexivity.
  - unfold view in Hv'. injection Hv' as Hc' Ha' Hm' Hl' Hms'.
    unfold all_asleep. rewrite Hp', Hc', Ha', Hm', Hms', Hc, Ha, Hm, Hms. auto.
Qed.

End PowerState.

(** Outside the scope of C6: a button press is a wake request.  [poll]
    clears [state.is_sleeping] on the press, and as audio is still absent the
    same iteration enters sleep again, calling both switches once more. *)
Lemma button_press_while_asleep :
  Spec.mode_switches
    (App.calls (App.run (fun _ => 0%Z) [Spec.example_quiet; Spec.example_button2]
                  Spec.example_app))
  = [App.AudioSetSleepState true; App.MpdSetSleepState true;
     App.AudioSetSleepState true; App.MpdSetSleepState true] /\
  Spec.power_states (fun _ => 0%Z) [Spec.example_quiet; Spec.example_button2]
    Spec.example_app = [true; true].
Proof. split; vm_compute; reflexivity. Qed.

Lemma C6_one_transition_to_sleep_witness :
  (Spec.between_iterations Spec.example_app /\
   App.is_sleeping (App.ctl Spec.example_app) = false /\
   [Spec.example_quiet; Spec.example_quiet; Spec.example_quiet] <> [] /\
   forallb Spec.quiet [Spec.example_quiet; Spec.example_quiet; Spec.example_quiet] = true) /\
  Spec.mode_switches
    (App.calls
       (App.run (fun _ => 0%Z) [Spec.example_quiet; Spec.example_quiet; Spec.example_quiet]
          Spec.example_app))
  = [App.AudioSetSleepState true; App.MpdSetSleepState true].
Proof.
  assert (Spec.between_iterations Spec.example_app) as Hb by (split; reflexivity).
  assert ([Spec.example_quiet; Spec.example_quiet; Spec.example_quiet] <> []) as Hne
    by discriminate.
  split; [repeat split; assumption || reflexivity|].
  exact (proj2 (proj2 (C6_one_transition_to_sleep (fun _ => 0%Z)
                         [Spec.example_quiet; Spec.example_quiet; Spec.example_quiet]
                         Spec.example_app Hb eq_refl Hne eq_refl))).
Defined.

(* ================================================================== *)
(** ** The track text *)
(* ================================================================== *)

Section TrackText.

Import Spec.
Local Open Scope string_scope.

Lemma append_nil_r (s : string) : s ++ "" = s.
Proof. induction s; simpl; congruence. Qed.

Lemma append_assoc (a b c : string) : (a ++ b) ++ c = a ++ b ++ c.
Proof. induction a; simpl; congruence. Qed.

Lemma to_string_nonempty (n : Z) : MPD.empty (MPD.to_string n) = false.
Proof.
  unfold MPD.to_string.
  destruct (Z.to_N n) as [|p]; [reflexivity|].
  simpl. pose proof (DecimalPos.Unsigned.to_uint_nonnil p) as H.
  destruct (Pos.to_uint p); try reflexivity. congruence.
Qed.

Lemma put_plain (s : string) (ss : MPD.stringstream) :
  MPD.ss_width ss = 0%nat ->
  MPD.put s ss = {| MPD.ss_str := MPD.ss_str ss ++ s; MPD.ss_fill := MPD.ss_fill ss;
                    MPD.ss_width := 0 |}.
Proof. unfold MPD.put. intros ->. reflexivity. Qed.

Lemma put_track_number (s : string) :
  MPD.empty s = false ->
  MPD.ss_str (MPD.put s (MPD.setw 2 (MPD.setfill "0"%char MPD.ss_empty))) = pad2 s.
Proof. destruct s as [|c [|c' s]]; [discriminate|reflexivity|reflexivity]. Qed.

(** The text built from the four stored fields. *)
Lemma format_text_fields (st : MPD.state) :
  MPD.format_text st =
  (if MPD.empty (MPD.track_number st) then "" else pad2 (MPD.track_number st) ++ ". ")
  ++ (if MPD.empty (MPD.title st) then "Unknown Title" else MPD.title st)
  ++ (if MPD.empty (MPD.artist st) then "" else " - " ++ MPD.artist st)
  ++ (if MPD.empty (MPD.year st) then "" else " (" ++ MPD.year st ++ ")").
Proof.
  unfold MPD.format_text.
  destruct (MPD.empty (MPD.track_number st)) eqn:Htn; cbn [negb].
  - destruct (MPD.empty (MPD.title st)), (MPD.empty (MPD.artist st)),
      (MPD.empty (MPD.year st)); cbn [negb];
      unfold MPD.put, MPD.ss_empty;
      cbn [MPD.ss_str MPD.ss_fill MPD.ss_width Nat.sub repeat string_of_list_ascii
           String.append];
      rewrite ?append_assoc, ?append_nil_r; reflexivity.
  - pose proof (put_track_number _ Htn) as Hstr.
    assert (MPD.ss_width
              (MPD.put (MPD.track_number st)
                 (MPD.setw 2 (MPD.setfill "0"%char MPD.ss_empty))) = 0%nat) as Hw
      by reflexivity.
    revert Hstr Hw.
    generalize (MPD.put (MPD.track_number st)
                  (MPD.setw 2 (MPD.setfill "0"%char MPD.ss_empty))).
    intros [str fill w]. cbn [MPD.ss_str MPD.ss_width]. intros -> ->.
    destruct (MPD.empty (MPD.title st)), (MPD.empty (MPD.artist st)),
      (MPD.empty (MPD.year st)); cbn [negb];
      unfold MPD.put;
      cbn [MPD.ss_str MPD.ss_fill MPD.ss_width Nat.sub repeat string_of_list_ascii
           String.append];
      rewrite ?append_assoc, ?append_nil_r; reflexivity.
Qed.

Lemma updateCurrentSong_success (reply : MPD.current_song) (st : MPD.state) :
  fetch_succeeds reply st = true ->
  MPD.getFormattedText (MPD.updateCurrentSong reply st) =
  match MPD.cs_song reply with
  | Some song => display song
  | None => "No song playing"
  end.
Proof.
  unfold fetch_succeeds.
  intros [[[Hc Hsd%negb_true_iff]%andb_prop Hsl%negb_true_iff]%andb_prop
            He%negb_true_iff]%andb_prop.
  unfold MPD.updateCurrentSong. rewrite Hc, Hsd, Hsl, He. cbn [negb orb].
  destruct (MPD.cs_song reply) as [song|]; [|reflexivity].
  unfold MPD.getFormattedText, MPD.updateFormattedText. cbn [MPD.formatted_text].
  rewrite format_text_fields.
  unfold MPD.set_song.
  cbn [MPD.track_number MPD.title MPD.artist MPD.year].
  rewrite to_string_nonempty.
  unfold display, track_part, title_part, artist_part, year_part, MPD.tag_or_empty.
  destruct (MPD.tag_date song) as [d|].
  - destruct (4 <=? String.length d)%nat eqn:Hd.
    + destruct d as [|c1 [|c2 [|c3 [|c4 d]]]]; try discriminate Hd.
      destruct (MPD.tag_title song), (MPD.tag_artist song); reflexivity.
    + destruct (MPD.tag_title song), (MPD.tag_artist song); reflexivity.
  - destruct (MPD.tag_title song), (MPD.tag_artist song); reflexivity.
Qed.

Lemma updateCurrentSong_failure (reply : MPD.current_song) (st : MPD.state) :
  fetch_succeeds reply st = false ->
  MPD.getFormattedText (MPD.updateCurrentSong reply st) = MPD.getFormattedText st.
Proof.
  unfold fetch_succeeds, MPD.updateCurrentSong.
  destruct (MPD.conn st), (MPD.shutdown_requested st), (MPD.is_sleeping st),
    (MPD.cs_error reply); cbn [negb orb andb]; try reflexivity.
  discriminate.
Qed.

Lemma text_before_first_fetch (ops : list client_op) (st : MPD.state) :
  some_fetch_succeeds ops st = false ->
  MPD.getFormattedText (fold_left client_step ops st) = MPD.getFormattedText st.
Proof.
  revert st. induction ops as [|op ops IH]; intros st H; [reflexivity|].
  cbn [some_fetch_succeeds] in H. apply orb_false_elim in H as [Hop Hrest].
  cbn [fold_left]. rewrite IH by assumption.
  destruct op as [c|b|reply]; try reflexivity.
  apply updateCurrentSong_failure. assumption.
Qed.

(** The track number: one more than the position, at least two digits. *)
Lemma track_part_examples :
  track_part example_untitled = "01. " /\
  track_part example_song = "05. " /\
  track_part {| MPD.song_pos := 9; MPD.tag_title := None; MPD.tag_artist := None;
                MPD.tag_date := None |} = "10. " /\
  track_part {| MPD.song_pos := 122; MPD.tag_title := None; MPD.tag_artist := None;
                MPD.tag_date := None |} = "123. ".
Proof. repeat split. Qed.

(** C2, the claim as stated: a song without a title tag is shown with the
    placeholder "Unknown Title", not with its title left out; and a date of
    fewer than four characters is left out, not shown. *)
Lemma C2_untitled_song_and_short_date :
  (MPD.getFormattedText (MPD.updateCurrentSong (fetched (Some example_untitled)) example_client)
     = "01. Unknown Title - A" /\
   display_as_specified example_untitled = "01.  - A" /\
   MPD.getFormattedText (MPD.updateCurrentSong (fetched (Some example_untitled)) example_client)
     <> display_as_specified example_untitled) /\
  (MPD.getFormattedText (MPD.updateCurrentSong (fetched (Some example_short_date)) example_client)
     = "01. T" /\
   display_as_specified example_short_date = "01. T (99)" /\
   MPD.getFormattedText (MPD.updateCurrentSong (fetched (Some example_short_date)) example_client)
     <> display_as_specified example_short_date).
Proof. repeat split; try reflexivity; vm_compute; discriminate. Qed.

(** C2, amended: after a fetch that goes through, the text is
    "NN. Title - Artist (Year)", where NN is the 1-based position in decimal,
    zero-padded to two digits, the title is replaced by "Unknown Title" when
    the song has none, the artist is left out with its " - " when the song
    has none, and the year is the first four characters of the date, left out
    with its parentheses when the date is absent or shorter than four
    characters; the text is "No song playing" when no track is active; a
    fetch that does not go through leaves the text as it was; and from
    construction until the first fetch that goes through the text is
    "Waiting for MPD...". *)
Theorem C2_track_text :
  forall (reply : MPD.current_song) (st : MPD.state) (ops : list client_op),
    MPD.getFormattedText (MPD.updateCurrentSong reply st) =
      (if fetch_succeeds reply st then
         match MPD.cs_song reply with
         | Some song =>
             track_part song ++ title_part song ++ artist_part song ++ year_part song
         | None => "No song playing"
         end
       else MPD.getFormattedText st) /\
    (some_fetch_succeeds ops MPD.MPDClient = false ->
     MPD.getFormattedText (fold_left client_step ops MPD.MPDClient) = "Waiting for MPD...").
Proof.
  intros reply st ops. split.
  - destruct (fetch_succeeds reply st) eqn:H.
    + apply updateCurrentSong_success. assumption.
    + apply updateCurrentSong_failure. assumption.
  - intros H. rewrite text_before_first_fetch by assumption. reflexivity.
Qed.

Lemma C2_track_text_witness :
  some_fetch_succeeds
    [UpdateCurrentSong (fetched (Some example_song)); SetConn true; SetSleepState true;
     UpdateCurrentSong (fetched None)] MPD.MPDClient = false /\
  MPD.getFormattedText
    (fold_left client_step
       [UpdateCurrentSong (fetched (Some example_song)); SetConn true; SetSleepState true;
        UpdateCurrentSong (fetched None)] MPD.MPDClient) = "Waiting for MPD..." /\
  MPD.getFormattedText (MPD.updateCurrentSong (fetched (Some example_song)) example_client)
    = "05. Blue in Green - Miles Davis (1959)".
Proof.
  split; [reflexivity|]. split.
  - exact (proj2 (C2_track_text (fetched None) MPD.MPDClient
                    [UpdateCurrentSong (fetched (Some example_song)); SetConn true;
                     SetSleepState true; UpdateCurrentSong (fetched None)]) eq_refl).
  - exact (proj1 (C2_track_text (fetched (Some example_song)) example_client [])).
Defined.

End TrackText.

(* ================================================================== *)
(** ** Spectrum bands and levels *)
(* ================================================================== *)

Section SpectrumLevels.

Import Spec.
Local Open Scope Z_scope.

(** C3: none of the seven configured bands maps to zero bins.  For each
    of them the divisor [high_idx - low_idx] of [getSpectrumData] is
    positive, it is the number of bins the inner loop adds up, its
    conversion to [float] is greater than zero, and the index computation
    stays within [int].  The division is therefore never by zero, and "a
    band with zero bins" does not arise. *)
Theorem C3_band_divisor_nonzero :
  length Audio.FREQ_BANDS = 7%nat /\
  Forall
    (fun b =>
       0 < Audio.band_divisor b /\
       Z.of_nat (length (Audio.band_bins b)) = Audio.band_divisor b /\
       F32.lt F32.zero (F32.of_int (Audio.band_divisor b)) = true /\
       band_fits_int b)
    Audio.FREQ_BANDS.
Proof.
  split; [reflexivity|].
  repeat constructor; vm_compute; congruence.
Qed.

(** The divisors themselves. *)
Lemma band_divisors :
  Audio.band_divisor <$> Audio.FREQ_BANDS = [11; 43; 102; 204; 557; 929; 1115].
Proof. reflexivity. Qed.

(** The division itself carries no guard: a band with equal ends would
    divide 0 by 0 and get a NaN level. *)
Lemma band_level_unguarded (fft_out : list (float * float)) (scale : float) :
  Audio.band_level fft_out scale
    {| Audio.low := 100; Audio.high := 100; Audio.correction := F32.one |} = S754_nan.
Proof. reflexivity. Qed.

Lemma level_of_range (indef : float -> Z) (x : float) : is_level (Audio.level_of indef x).
Proof. unfold is_level, Audio.level_of. lia. Qed.


End SpectrumLevels.

(* ================================================================== *)
(** ** Stereo analysis: phase and correlation *)
(* ================================================================== *)

Section StereoAnalysis.

Import Spec.
Local Open Scope Z_scope.

Lemma length_stereo_window (st : Audio.state) :
  length (Audio.stereo_window st) = 512%nat.
Proof. unfold Audio.stereo_window. apply length_copy_loop. Qed.

(** The phase loop adds up the phase angles of the qualifying samples. *)
Lemma phase_loop_fsum (atan2f : float -> float -> float) (w : list (float * float))
    (acc : float) :
  fold_left
    (fun sum_phase '(l, r) =>
       if F32.lt (F32.literal 1 100) (F32.fabs l)
          && F32.lt (F32.literal 1 100) (F32.fabs r)
       then F32.add sum_phase (atan2f r l)
       else sum_phase) w acc
  = fold_left F32.add (phases atan2f w) acc.
Proof.
  revert acc. unfold phases.
  induction w as [|[l r] w IH]; intros acc; [reflexivity|].
  cbn [fold_left List.filter]. rewrite IH.
  change (F32.lt (F32.literal 1 100) (F32.fabs l)
          && F32.lt (F32.literal 1 100) (F32.fabs r)) with (qualifies (l, r)).
  destruct (qualifies (l, r)); reflexivity.
Qed.

Lemma stereo_phase_spec (atan2f : float -> float -> float) (w : list (float * float)) :
  Audio.stereo_phase atan2f w = F32.div (fsum (phases atan2f w)) (F32.of_int 512).
Proof. unfold Audio.stereo_phase. rewrite phase_loop_fsum. reflexivity. Qed.

(** C1, the claim as stated: in a window whose only qualifying sample is
    (1.0, 1.0), the mean of the phase angles of the qualifying samples is
    [atan2f(1, 1)], about 0.7853982, but the phase returned is that sum
    divided by 512, about 0.0015339808. *)
Lemma C1_phase_not_mean_of_qualifying :
  length (List.filter qualifies (Audio.stereo_window example_stereo)) = 1%nat /\
  mean_phase atan2f_at_1_1 (Audio.stereo_window example_stereo) = quarter_pi /\
  fst (Audio.getStereoAnalysis atan2f_at_1_1 example_stereo)
    = S754_finite false 13176795 (-33) /\
  fst (Audio.getStereoAnalysis atan2f_at_1_1 example_stereo)
    <> mean_phase atan2f_at_1_1 (Audio.stereo_window example_stereo).
Proof.
  assert (fst (Audio.getStereoAnalysis atan2f_at_1_1 example_stereo)
          = S754_finite false 13176795 (-33)) as H1 by (vm_compute; reflexivity).
  assert (mean_phase atan2f_at_1_1 (Audio.stereo_window example_stereo) = quarter_pi)
    as H2 by (vm_compute; reflexivity).
  split; [vm_compute; reflexivity|]. split; [assumption|]. split; [assumption|].
  rewrite H1, H2. discriminate.
Qed.

(** C1, amended: the phase returned by [getStereoAnalysis] is the sum of
    [atan2f(right[i], left[i])] over the samples [i] of the 512-sample window
    where both [|left[i]|] and [|right[i]|] exceed 0.01, divided by the
    window length 512 (not by the number of such samples); it is 0 when no
    sample qualifies. *)
Theorem C1_phase_sum_over_window_length :
  forall (atan2f : float -> float -> float) (st : Audio.state),
    let w := Audio.stereo_window st in
    length w = 512%nat /\
    fst (Audio.getStereoAnalysis atan2f st) =
      match phases atan2f w with
      | [] => F32.zero
      | ps => F32.div (fsum ps) (F32.of_int 512)
      end.
Proof.
  intros atan2f st w. split; [apply length_stereo_window|].
  unfold Audio.getStereoAnalysis. cbn [fst]. fold w.
  rewrite stereo_phase_spec.
  destruct (phases atan2f w); reflexivity.
Qed.



(** Strictly inside the interval, and at its ends, clamping changes
    nothing. *)
Lemma clamp_unit_inside (x : float) :
  F32.lt (F32.of_int (-1)) x = true -> F32.lt x F32.one = true -> clamp_unit x = x.
Proof. unfold clamp_unit, F32.fmax, F32.fmin. intros H1 H2. rewrite H2, H1. reflexivity. Qed.




End StereoAnalysis.

(* ================================================================== *)
(** ** The frame buffer: pixels and lines *)
(* ================================================================== *)

Section Pixels.

Import Spec.
Local Open Scope Z_scope.





Lemma int_small (z : Z) : - 2 ^ 31 <= z < 2 ^ 31 -> C.int z = z.
Proof.
  intros H. unfold C.int.
  rewrite Z.mod_small by lia. lia.
Qed.

Lemma uint8_small (z : Z) : 0 <= z < 256 -> C.uint8_t z = z.
Proof. intros H. unfold C.uint8_t. apply Z.mod_small. lia. Qed.

Lemma uint8_range (z : Z) : 0 <= C.uint8_t z < 256.
Proof. unfold C.uint8_t. apply Z.mod_pos_bound. lia. Qed.

Lemma pixel_index (x y px py : Z) :
  0 <= x < 128 -> 0 <= y -> 0 <= px < 128 -> 0 <= py ->
  Z.to_nat (py / 8 * 128 + px) = Z.to_nat (y / 8 * 128 + x) ->
  px = x /\ py / 8 = y / 8.
Proof.
  intros Hx Hy Hpx Hpy H.
  assert (0 <= py / 8) by (apply Z.div_pos; lia).
  assert (0 <= y / 8) by (apply Z.div_pos; lia).
  apply Z2Nat.inj in H; lia.
Qed.

Lemma frame_drawPixel (px py : Z) (b : list Z) : frame b -> frame (Display.drawPixel px py b).
Proof.
  intros [Hl Hb]. unfold Display.drawPixel.
  destruct ((128 <=? px) || (64 <=? py)); [split; assumption|].
  split.
  - rewrite length_insert. exact Hl.
  - apply Forall_insert; [exact Hb|]. apply uint8_range.
Qed.

Lemma pixel_drawPixel (px py x y : Z) (b : list Z) :
  frame b -> on_screen x y -> 0 <= px < 256 -> 0 <= py < 256 ->
  pixel (Display.drawPixel px py b) x y = pixel b x y || ((px =? x) && (py =? y)).
Proof.
  intros [Hl Hb] [Hx Hy] Hpx Hpy. unfold Display.drawPixel.
  destruct (128 <=? px) eqn:E1; cbn [orb].
  { apply Z.leb_le in E1.
    replace (px =? x) with false by (symmetry; apply Z.eqb_neq; lia).
    cbn. now rewrite orb_false_r. }
  destruct (64 <=? py) eqn:E2.
  { apply Z.leb_le in E2.
    replace (py =? y) with false by (symmetry; apply Z.eqb_neq; lia).
    now rewrite andb_false_r, orb_false_r. }
  apply Z.leb_gt in E1, E2. unfold pixel.
  assert (Hq : 0 <= py / 8 < 8) by (split; [apply Z.div_pos|apply Z.div_lt_upper_bound]; lia).
  assert (Hq' : 0 <= y / 8 < 8) by (split; [apply Z.div_pos|apply Z.div_lt_upper_bound]; lia).
  destruct (decide (Z.to_nat (py / 8 * 128 + px) = Z.to_nat (y / 8 * 128 + x))) as [e|n].
  - destruct (pixel_index x y px py ltac:(lia) ltac:(lia) ltac:(lia) ltac:(lia) e) as [-> Hd].
    rewrite <- e. rewrite list_lookup_total_insert_eq by (rewrite Hl; lia).
    unfold C.uint8_t. change 256 with (2 ^ 8).
    assert (0 <= y mod 8 < 8) by (apply Z.mod_pos_bound; lia).
    assert (0 <= py mod 8 < 8) by (apply Z.mod_pos_bound; lia).
    rewrite Z.mod_pow2_bits_low by lia.
    rewrite Z.lor_spec, Z.shiftl_spec by lia.
    rewrite Z.eqb_refl. cbn [andb]. f_equal.
    destruct (py =? y) eqn:E.
    + apply Z.eqb_eq in E. subst py. now rewrite Z.sub_diag.
    + apply Z.eqb_neq in E.
      assert (y mod 8 <> py mod 8).
      { intros Hm. apply E. rewrite (Z.div_mod py 8), (Z.div_mod y 8) by lia. lia. }
      destruct (Z.lt_ge_cases (y mod 8) (py mod 8)).
      * apply Z.testbit_neg_r. lia.
      * change 1 with (2 ^ 0). apply Z.pow2_bits_false. lia.
  - rewrite list_lookup_total_insert_ne by exact n.
    destruct ((px =? x) && (py =? y)) eqn:E; [|now rewrite orb_false_r].
    apply andb_true_iff in E. destruct E as [->%Z.eqb_eq ->%Z.eqb_eq]. contradiction.
Qed.

Lemma frame_plot (pts : list (Z * Z)) (b : list Z) : frame b -> frame (plot pts b).
Proof.
  revert b. induction pts as [|p pts IH]; intros b Hb; [exact Hb|].
  apply IH, frame_drawPixel, Hb.
Qed.

Lemma pixel_plot (pts : list (Z * Z)) (b : list Z) (x y : Z) :
  frame b -> on_screen x y ->
  pixel (plot pts b) x y = pixel b x y || existsb (hits x y) pts.
Proof.
  revert b. induction pts as [|p pts IH]; intros b Hb Hxy; cbn.
  - now rewrite orb_false_r.
  - unfold plot in IH. rewrite IH by (try apply frame_drawPixel; assumption).
    rewrite pixel_drawPixel by (try apply uint8_range; assumption).
    unfold hits. now rewrite orb_assoc.
Qed.

Lemma plot_app (ps qs : list (Z * Z)) (b : list Z) : plot (ps ++ qs) b = plot qs (plot ps b).
Proof. apply fold_left_app. Qed.

Lemma drawLine_loop_step (fuel : nat) (dx dy sx sy x1 y1 x0 y0 err : Z) (b : list Z) :
  (x0 =? x1) && (y0 =? y1) = false ->
  small dx -> small dy -> small x0 -> small y0 -> small err ->
  -1 <= sx <= 1 -> -1 <= sy <= 1 ->
  Display.drawLine_loop (S fuel) dx dy sx sy x1 y1 x0 y0 err b =
  Display.drawLine_loop fuel dx dy sx sy x1 y1
    (if - dy <? 2 * err then x0 + sx else x0)
    (if 2 * err <? dx then y0 + sy else y0)
    ((if - dy <? 2 * err then err - dy else err) + (if 2 * err <? dx then dx else 0))
    (Display.drawPixel (C.uint8_t x0) (C.uint8_t y0) b).
Proof.
  unfold small. intros Hne Hdx Hdy Hx Hy He Hsx Hsy.
  cbn [Display.drawLine_loop]. rewrite Hne.
  rewrite (int_small (2 * err)), (int_small (- dy)) by lia.
  destruct (- dy <? 2 * err), (2 * err <? dx);
    rewrite ?(int_small (err - dy)), ?(int_small (x0 + sx)), ?(int_small (y0 + sy)),
      ?(int_small (err - dy + dx)), ?(int_small (err + dx)) by lia;
    rewrite ?Z.add_0_r; reflexivity.
Qed.

Lemma round_half_down_bounds (n d : Z) :
  0 < d -> 2 * n - d <= 2 * d * round_half_down n d < 2 * n + d.
Proof.
  intros Hd. unfold round_half_down.
  pose proof (Z.mul_div_le (2 * n + d - 1) (2 * d) ltac:(lia)).
  pose proof (Z.mul_succ_div_gt (2 * n + d - 1) (2 * d) ltac:(lia)).
  lia.
Qed.

Lemma round_half_down_unique (n d q : Z) :
  0 < d -> 2 * n - d <= 2 * d * q < 2 * n + d -> round_half_down n d = q.
Proof.
  intros Hd H. unfold round_half_down. symmetry.
  apply (Z.div_unique _ _ q (2 * n + d - 1 - 2 * d * q)); lia.
Qed.

Lemma round_half_down_range (k dy dx : Z) :
  0 < dx -> 0 <= dy -> 0 <= k <= dx -> 0 <= round_half_down (k * dy) dx <= dy.
Proof.
  intros Hdx Hdy Hk.
  pose proof (round_half_down_bounds (k * dy) dx Hdx) as Hb.
  set (j := round_half_down (k * dy) dx) in *.
  assert (k * dy <= dx * dy) by nia.
  split.
  - assert (-1 < j) by nia. lia.
  - assert (j < dy + 1) by nia. lia.
Qed.

Lemma round_half_down_end (dx dy : Z) : 0 < dx -> round_half_down (dx * dy) dx = dy.
Proof. intros H. apply round_half_down_unique; [exact H|]. nia. Qed.

Lemma round_half_down_diag (k d : Z) : 0 < d -> round_half_down (k * d) d = k.
Proof. intros H. apply round_half_down_unique; [exact H|]. nia. Qed.

Lemma x_major_step (dx dy k : Z) :
  0 < dx -> 0 <= dy <= dx -> 0 <= k < dx ->
  let j := round_half_down (k * dy) dx in
  let err := dx - dy + j * dx - k * dy in
  (- dy <? 2 * err) = true /\
  round_half_down ((k + 1) * dy) dx = j + (if 2 * err <? dx then 1 else 0) /\
  - (2 * dx) <= err <= 2 * dx.
Proof.
  intros Hdx Hdy Hk j err.
  pose proof (round_half_down_bounds (k * dy) dx Hdx) as Hb. fold j in Hb.
  assert (Hx : - dy < 2 * err).
  { destruct (Z.eq_dec dy dx) as [->|Hne].
    - subst err j. rewrite round_half_down_diag by exact Hdx. lia.
    - subst err. lia. }
  split; [apply Z.ltb_lt, Hx|]. split; [|subst err; lia].
  apply round_half_down_unique; [exact Hdx|].
  destruct (2 * err <? dx) eqn:E; [apply Z.ltb_lt in E|apply Z.ltb_ge in E];
    subst err; lia.
Qed.

Lemma y_major_step (dx dy j : Z) :
  0 <= dx < dy -> 0 <= j < dy ->
  let k := round_half_down (j * dx) dy in
  let err := dx - dy + j * dx - k * dy in
  (2 * err <? dx) = true /\
  round_half_down ((j + 1) * dx) dy = k + (if - dy <? 2 * err then 1 else 0) /\
  - (2 * dy) <= err <= 2 * dy.
Proof.
  intros Hdx Hj k err.
  assert (Hdy : 0 < dy) by lia.
  pose proof (round_half_down_bounds (j * dx) dy Hdy) as Hb. fold k in Hb.
  split; [apply Z.ltb_lt; subst err; lia|]. split; [|subst err; lia].
  apply round_half_down_unique; [exact Hdy|].
  destruct (- dy <? 2 * err) eqn:E; [apply Z.ltb_lt in E|apply Z.ltb_ge in E];
    subst err; lia.
Qed.

Section Line.

Variables dx dy sx sy xs ys : Z.
Hypothesis Hsx : sx = 1 \/ sx = -1.
Hypothesis Hsy : sy = 1 \/ sy = -1.
Hypothesis Hdx : 0 <= dx <= 2 * COORD_MAX.
Hypothesis Hdy : 0 <= dy <= 2 * COORD_MAX.
Hypothesis Hxs : coord xs.
Hypothesis Hys : coord ys.
Hypothesis Hx1 : coord (xs + sx * dx).
Hypothesis Hy1 : coord (ys + sy * dy).

Lemma loop_x_major (n : nat) :
  forall (k : Z) (fuel : nat) (b : list Z) (x0 y0 err : Z),
  dy <= dx -> 0 <= k -> k + Z.of_nat n = dx -> (n < fuel)%nat ->
  x0 = xs + sx * k ->
  y0 = ys + sy * round_half_down (k * dy) dx ->
  err = dx - dy + round_half_down (k * dy) dx * dx - k * dy ->
  Display.drawLine_loop fuel dx dy sx sy (xs + sx * dx) (ys + sy * dy) x0 y0 err b =
  Some (plot ((fun k => (xs + sx * k, ys + sy * round_half_down (k * dy) dx))
                <$> seqZ k (Z.of_nat n + 1)) b).
Proof using Hsx Hsy Hdx Hdy Hxs Hys Hx1 Hy1.
  unfold coord, COORD_MAX in *.
  induction n as [|n IH]; intros k fuel b x0 y0 err Hm Hk Hn Hf -> -> ->;
    (destruct fuel as [|fuel]; [lia|]).
  - assert (k = dx) by lia. subst k.
    change (seqZ dx (Z.of_nat 0 + 1)) with [dx]. cbn [fmap list_fmap plot fold_left fst snd].
    assert (round_half_down (dx * dy) dx = dy) as ->.
    { destruct (Z.eq_dec dx 0) as [->|]; [|apply round_half_down_end; lia].
      assert (dy = 0) by lia. subst dy. reflexivity. }
    cbn [Display.drawLine_loop]. rewrite !Z.eqb_refl. reflexivity.
  - assert (Hpos : 0 < dx) by lia.
    destruct (x_major_step dx dy k Hpos ltac:(lia) ltac:(lia)) as (Cx & Hj & He).
    pose proof (round_half_down_range k dy dx Hpos ltac:(lia) ltac:(lia)) as Hr.
    set (j := round_half_down (k * dy) dx) in *.
    rewrite drawLine_loop_step; unfold small.
    2:{ apply andb_false_intro1, Z.eqb_neq. nia. }
    2-8: nia.
    rewrite Cx.
    rewrite (IH (k + 1)) by
      (try (destruct (2 * (dx - dy + j * dx - k * dy) <? dx); rewrite ?Hj; nia); lia).
    rewrite (seqZ_cons k (Z.of_nat (S n) + 1)) by lia.
    replace (Z.succ k) with (k + 1) by lia.
    replace (Z.pred (Z.of_nat (S n) + 1)) with (Z.of_nat n + 1) by lia.
    reflexivity.
Qed.

Lemma loop_y_major (n : nat) :
  forall (j : Z) (fuel : nat) (b : list Z) (x0 y0 err : Z),
  dx < dy -> 0 <= j -> j + Z.of_nat n = dy -> (n < fuel)%nat ->
  x0 = xs + sx * round_half_down (j * dx) dy ->
  y0 = ys + sy * j ->
  err = dx - dy + j * dx - round_half_down (j * dx) dy * dy ->
  Display.drawLine_loop fuel dx dy sx sy (xs + sx * dx) (ys + sy * dy) x0 y0 err b =
  Some (plot ((fun j => (xs + sx * round_half_down (j * dx) dy, ys + sy * j))
                <$> seqZ j (Z.of_nat n + 1)) b).
Proof using Hsx Hsy Hdx Hdy Hxs Hys Hx1 Hy1.
  unfold coord, COORD_MAX in *.
  induction n as [|n IH]; intros j fuel b x0 y0 err Hm Hj Hn Hf -> -> ->;
    (destruct fuel as [|fuel]; [lia|]).
  - assert (j = dy) by lia. subst j.
    change (seqZ dy (Z.of_nat 0 + 1)) with [dy]. cbn [fmap list_fmap plot fold_left fst snd].
    rewrite round_half_down_end by lia.
    cbn [Display.drawLine_loop]. rewrite !Z.eqb_refl. reflexivity.
  - destruct (y_major_step dx dy j ltac:(lia) ltac:(lia)) as (Cy & Hk & He).
    pose proof (round_half_down_range j dx dy ltac:(lia) ltac:(lia) ltac:(lia)) as Hr.
    set (k := round_half_down (j * dx) dy) in *.
    rewrite drawLine_loop_step; unfold small.
    2:{ apply andb_false_intro2, Z.eqb_neq. nia. }
    2-8: nia.
    rewrite Cy.
    rewrite (IH (j + 1)) by
      (try (destruct (- dy <? 2 * (dx - dy + j * dx - k * dy)); rewrite ?Hk; nia); lia).
    rewrite (seqZ_cons j (Z.of_nat (S n) + 1)) by lia.
    replace (Z.succ j) with (j + 1) by lia.
    replace (Z.pred (Z.of_nat (S n) + 1)) with (Z.of_nat n + 1) by lia.
    reflexivity.
Qed.

End Line.

Lemma drawLine_points (fuel : nat) (x0 y0 x1 y1 : Z) (b : list Z) :
  coord x0 -> coord y0 -> coord x1 -> coord y1 ->
  Z.max (Z.abs (x1 - x0)) (Z.abs (y1 - y0)) < Z.of_nat fuel ->
  Display.drawLine fuel x0 y0 x1 y1 b = Some (plot (line_points x0 y0 x1 y1) b).
Proof.
  unfold coord, COORD_MAX. intros Hx0 Hy0 Hx1 Hy1 Hf.
  unfold Display.drawLine, Display.abs, line_points.
  rewrite (int_small (x1 - x0)), (int_small (y1 - y0)) by lia.
  rewrite (int_small (Z.abs (x1 - x0))), (int_small (Z.abs (y1 - y0))) by lia.
  rewrite int_small by lia.
  set (dx := Z.abs (x1 - x0)) in *. set (dy := Z.abs (y1 - y0)) in *.
  set (sx := if x0 <? x1 then 1 else -1). set (sy := if y0 <? y1 then 1 else -1).
  assert (Hsx : sx = 1 \/ sx = -1) by (subst sx; destruct (x0 <? x1); auto).
  assert (Hsy : sy = 1 \/ sy = -1) by (subst sy; destruct (y0 <? y1); auto).
  assert (Ex : x1 = x0 + sx * dx).
  { subst sx dx. destruct (x0 <? x1) eqn:E; [apply Z.ltb_lt in E|apply Z.ltb_ge in E]; lia. }
  assert (Ey : y1 = y0 + sy * dy).
  { subst sy dy. destruct (y0 <? y1) eqn:E; [apply Z.ltb_lt in E|apply Z.ltb_ge in E]; lia. }
  assert (Hdx : 0 <= dx <= 2 * COORD_MAX) by (unfold COORD_MAX; lia).
  assert (Hdy : 0 <= dy <= 2 * COORD_MAX) by (unfold COORD_MAX; lia).
  rewrite Ex, Ey at 1.
  destruct (dy <=? dx) eqn:E; [apply Z.leb_le in E|apply Z.leb_gt in E].
  - rewrite (loop_x_major dx dy sx sy x0 y0 Hsx Hsy Hdx Hdy) with (n := Z.to_nat dx) (k := 0);
      unfold coord, COORD_MAX; rewrite ?Z2Nat.id; try lia.
    + reflexivity.
    + rewrite Z.mul_0_l. unfold round_half_down.
      destruct (Z.eq_dec dx 0) as [e|]; [rewrite e; change ((2 * 0 + 0 - 1) / (2 * 0)) with 0; lia|].
      rewrite Z.div_small by lia. lia.
    + rewrite Z.mul_0_l. unfold round_half_down.
      destruct (Z.eq_dec dx 0) as [e|]; [rewrite e; change ((2 * 0 + 0 - 1) / (2 * 0)) with 0; lia|].
      rewrite Z.div_small by lia. lia.
  - rewrite (loop_y_major dx dy sx sy x0 y0 Hsx Hsy Hdx Hdy) with (n := Z.to_nat dy) (j := 0);
      unfold coord, COORD_MAX; rewrite ?Z2Nat.id; try lia.
    + reflexivity.
    + rewrite Z.mul_0_l. unfold round_half_down. rewrite Z.div_small by lia. lia.
    + rewrite Z.mul_0_l. unfold round_half_down. rewrite Z.div_small by lia. lia.
Qed.

Lemma line_points_box (x0 y0 x1 y1 : Z) (p : Z * Z) :
  p ∈ line_points x0 y0 x1 y1 ->
  Z.min x0 x1 <= p.1 <= Z.max x0 x1 /\ Z.min y0 y1 <= p.2 <= Z.max y0 y1.
Proof.
  unfold line_points.
  set (dx := Z.abs (x1 - x0)). set (dy := Z.abs (y1 - y0)).
  destruct (dy <=? dx) eqn:E; [apply Z.leb_le in E|apply Z.leb_gt in E];
    intros (k & -> & Hk)%list_elem_of_fmap; apply elem_of_seqZ in Hk; cbn [fst snd].
  - destruct (Z.eq_dec dx 0) as [e|n].
    + assert (k = 0) by lia. subst k. rewrite e. unfold round_half_down.
      change ((2 * (0 * dy) + 0 - 1) / (2 * 0)) with 0.
      destruct (x0 <? x1), (y0 <? y1); lia.
    + pose proof (round_half_down_range k dy dx ltac:(lia) ltac:(lia) ltac:(lia)).
      destruct (x0 <? x1) eqn:Ex, (y0 <? y1) eqn:Ey;
        rewrite ?Z.ltb_lt, ?Z.ltb_ge in *; lia.
  - pose proof (round_half_down_range k dx dy ltac:(lia) ltac:(lia) ltac:(lia)).
    destruct (x0 <? x1) eqn:Ex, (y0 <? y1) eqn:Ey;
      rewrite ?Z.ltb_lt, ?Z.ltb_ge in *; lia.
Qed.

Lemma length_line_points (x0 y0 x1 y1 : Z) :
  Z.of_nat (length (line_points x0 y0 x1 y1)) = Z.max (Z.abs (x1 - x0)) (Z.abs (y1 - y0)) + 1.
Proof.
  unfold line_points.
  destruct (Z.abs (y1 - y0) <=? Z.abs (x1 - x0)) eqn:E;
    [apply Z.leb_le in E|apply Z.leb_gt in E];
    rewrite length_fmap, length_seqZ; lia.
Qed.

Lemma existsb_hits (x y : Z) (pts : list (Z * Z)) :
  Forall (fun p => 0 <= p.1 < 256 /\ 0 <= p.2 < 256) pts ->
  existsb (hits x y) pts = true <-> (x, y) ∈ pts.
Proof.
  intros Hp. rewrite existsb_exists. split.
  - intros (p & Hin & Hh). apply list_elem_of_In in Hin.
    rewrite Forall_forall in Hp. specialize (Hp p Hin). unfold hits in Hh.
    rewrite !uint8_small in Hh by lia. destruct p as [px py]. cbn [fst snd] in Hh.
    apply andb_true_iff in Hh. destruct Hh as [->%Z.eqb_eq ->%Z.eqb_eq].
    exact Hin.
  - intros Hin. exists (x, y). split; [apply list_elem_of_In, Hin|].
    rewrite Forall_forall in Hp. specialize (Hp _ Hin). cbn in Hp.
    unfold hits. cbn [fst snd]. rewrite !uint8_small by lia. now rewrite !Z.eqb_refl.
Qed.

Lemma drawLine_pixels (fuel : nat) (x0 y0 x1 y1 : Z) (b : list Z) :
  byte x0 -> byte y0 -> byte x1 -> byte y1 ->
  Z.max (Z.abs (x1 - x0)) (Z.abs (y1 - y0)) < Z.of_nat fuel -> frame b ->
  exists b',
    Display.drawLine fuel x0 y0 x1 y1 b = Some b' /\ frame b' /\
    forall x y, on_screen x y ->
      (pixel b' x y = true <-> pixel b x y = true \/ (x, y) ∈ line_points x0 y0 x1 y1).
Proof.
  unfold byte. intros Hx0 Hy0 Hx1 Hy1 Hf Hb.
  exists (plot (line_points x0 y0 x1 y1) b). split; [|split].
  - apply drawLine_points; unfold coord, COORD_MAX; lia.
  - apply frame_plot, Hb.
  - intros x y Hxy. rewrite pixel_plot by assumption.
    rewrite orb_true_iff, existsb_hits; [reflexivity|].
    apply Forall_forall. intros p Hp%line_points_box. lia.
Qed.

End Pixels.

(* ================================================================== *)
(** ** Rectangles, circles and the transfer to the display *)
(* ================================================================== *)

Section Shapes.

Import Spec.
Local Open Scope Z_scope.

Lemma frame_clearPixel (px py : Z) (b : list Z) : frame b -> frame (Display.clearPixel px py b).
Proof.
  intros [Hl Hb]. unfold Display.clearPixel.
  destruct ((128 <=? px) || (64 <=? py)); [split; assumption|].
  split.
  - rewrite length_insert. exact Hl.
  - apply Forall_insert; [exact Hb|]. apply uint8_range.
Qed.

Lemma testbit_one_shiftl (k n : Z) : 0 <= k -> 0 <= n -> Z.testbit (Z.shiftl 1 k) n = (n =? k).
Proof.
  intros Hk Hn. rewrite Z.shiftl_spec by exact Hn.
  destruct (n =? k) eqn:E.
  - apply Z.eqb_eq in E. subst n. now rewrite Z.sub_diag.
  - apply Z.eqb_neq in E. destruct (Z.lt_ge_cases n k).
    + apply Z.testbit_neg_r. lia.
    + change 1 with (2 ^ 0). apply Z.pow2_bits_false. lia.
Qed.

Lemma same_row (y py : Z) : py / 8 = y / 8 -> (y mod 8 =? py mod 8) = (py =? y).
Proof.
  intros Hd. destruct (py =? y) eqn:E.
  - apply Z.eqb_eq in E. subst. apply Z.eqb_refl.
  - apply Z.eqb_neq in E. apply Z.eqb_neq. intros Hm. apply E.
    rewrite (Z.div_mod py 8), (Z.div_mod y 8) by lia. lia.
Qed.

Lemma pixel_clearPixel (px py x y : Z) (b : list Z) :
  frame b -> on_screen x y -> byte px -> byte py ->
  pixel (Display.clearPixel px py b) x y = pixel b x y && negb ((px =? x) && (py =? y)).
Proof.
  intros [Hl Hb] [Hx Hy] Hpx Hpy. unfold byte in *. unfold Display.clearPixel.
  destruct (128 <=? px) eqn:E1; cbn [orb].
  { apply Z.leb_le in E1.
    replace (px =? x) with false by (symmetry; apply Z.eqb_neq; lia).
    cbn. now rewrite andb_true_r. }
  destruct (64 <=? py) eqn:E2.
  { apply Z.leb_le in E2.
    replace (py =? y) with false by (symmetry; apply Z.eqb_neq; lia).
    now rewrite andb_false_r, andb_true_r. }
  apply Z.leb_gt in E1, E2. unfold pixel.
  assert (Hq : 0 <= py / 8 < 8) by (split; [apply Z.div_pos|apply Z.div_lt_upper_bound]; lia).
  assert (Hq' : 0 <= y / 8 < 8) by (split; [apply Z.div_pos|apply Z.div_lt_upper_bound]; lia).
  assert (0 <= y mod 8 < 8) by (apply Z.mod_pos_bound; lia).
  assert (0 <= py mod 8 < 8) by (apply Z.mod_pos_bound; lia).
  destruct (decide (Z.to_nat (py / 8 * 128 + px) = Z.to_nat (y / 8 * 128 + x))) as [e|n].
  - destruct (pixel_index x y px py ltac:(lia) ltac:(lia) ltac:(lia) ltac:(lia) e) as [-> Hd].
    rewrite <- e. rewrite list_lookup_total_insert_eq by (rewrite Hl; lia).
    unfold C.uint8_t. change 256 with (2 ^ 8).
    rewrite Z.mod_pow2_bits_low by lia.
    rewrite Z.land_spec, Z.lnot_spec, testbit_one_shiftl by lia.
    rewrite Z.eqb_refl. cbn [andb]. now rewrite same_row.
  - rewrite list_lookup_total_insert_ne by exact n.
    destruct ((px =? x) && (py =? y)) eqn:E; [|now rewrite andb_true_r].
    apply andb_true_iff in E. destruct E as [->%Z.eqb_eq ->%Z.eqb_eq]. contradiction.
Qed.

Lemma clearPixel_drawPixel (px py : Z) (b : list Z) :
  frame b -> byte px -> byte py -> pixel b px py = false ->
  Display.clearPixel px py (Display.drawPixel px py b) = b.
Proof.
  intros [Hl Hb] Hpx Hpy Hoff. unfold byte in *.
  unfold Display.clearPixel, Display.drawPixel.
  destruct ((128 <=? px) || (64 <=? py)) eqn:E; [reflexivity|].
  apply orb_false_iff in E. destruct E as [E1%Z.leb_gt E2%Z.leb_gt].
  assert (Hq : 0 <= py / 8 < 8) by (split; [apply Z.div_pos|apply Z.div_lt_upper_bound]; lia).
  assert (Hm : 0 <= py mod 8 < 8) by (apply Z.mod_pos_bound; lia).
  set (i := Z.to_nat (py / 8 * 128 + px)) in *.
  assert (Hi : (i < length b)%nat) by (rewrite Hl; subst i; lia).
  rewrite list_lookup_total_insert_eq by exact Hi.
  rewrite list_insert_insert_eq.
  apply list_insert_id'. intros _.
  unfold pixel in Hoff. fold i in Hoff.
  assert (Hv : 0 <= b !!! i < 2 ^ 8).
  { rewrite Forall_forall in Hb. apply Hb, list_elem_of_lookup_total_2, Hi. }
  set (v := b !!! i) in *.
  rewrite list_lookup_lookup_total_lt by exact Hi. fold v. f_equal.
  unfold C.uint8_t. change 256 with (2 ^ 8).
  apply Z.bits_inj'. intros n Hn.
  destruct (Z.lt_ge_cases n 8) as [Hlt|Hge].
  - rewrite Z.mod_pow2_bits_low by lia.
    rewrite Z.land_spec, Z.lnot_spec, testbit_one_shiftl by lia.
    rewrite Z.mod_pow2_bits_low by lia.
    rewrite Z.lor_spec, testbit_one_shiftl by lia.
    destruct (n =? py mod 8) eqn:En.
    + apply Z.eqb_eq in En. subst n. rewrite Hoff. reflexivity.
    + now rewrite orb_false_r, andb_true_r.
  - rewrite Z.mod_pow2_bits_high by lia.
    rewrite <- (Z.mod_small v (2 ^ 8)) by lia.
    now rewrite Z.mod_pow2_bits_high by lia.
Qed.

Lemma round_half_down_0 (d : Z) : 0 <= d -> round_half_down 0 d = 0.
Proof.
  intros Hd. unfold round_half_down. destruct (Z.eq_dec d 0) as [->|]; [reflexivity|].
  apply Z.div_small. lia.
Qed.

(** A horizontal line covers exactly the pixels between its ends. *)
Lemma hline_points (x0 x1 y0 x y : Z) :
  (x, y) ∈ line_points x0 y0 x1 y0 <-> y = y0 /\ Z.min x0 x1 <= x <= Z.max x0 x1.
Proof.
  unfold line_points. rewrite Z.sub_diag. change (Z.abs 0) with 0.
  set (dx := Z.abs (x1 - x0)).
  replace (0 <=? dx) with true by (symmetry; apply Z.leb_le; lia).
  rewrite list_elem_of_fmap. setoid_rewrite elem_of_seqZ. split.
  - intros (k & [= -> ->] & Hk). rewrite Z.mul_0_r, round_half_down_0 by lia.
    destruct (x0 <? x1) eqn:E; [apply Z.ltb_lt in E|apply Z.ltb_ge in E]; lia.
  - intros [-> Hx]. exists (Z.abs (x - x0)).
    rewrite Z.mul_0_r, round_half_down_0 by lia. split; [|lia].
    f_equal; [|lia].
    destruct (x0 <? x1) eqn:E; [apply Z.ltb_lt in E|apply Z.ltb_ge in E]; lia.
Qed.

(** So does a vertical one. *)
Lemma vline_points (x0 y0 y1 x y : Z) :
  (x, y) ∈ line_points x0 y0 x0 y1 <-> x = x0 /\ Z.min y0 y1 <= y <= Z.max y0 y1.
Proof.
  unfold line_points. rewrite Z.sub_diag. change (Z.abs 0) with 0.
  set (dy := Z.abs (y1 - y0)).
  destruct (dy <=? 0) eqn:Ed; [apply Z.leb_le in Ed|apply Z.leb_gt in Ed];
    rewrite list_elem_of_fmap; setoid_rewrite elem_of_seqZ.
  - assert (y1 = y0) by lia. subst y1. split.
    + intros (k & [= -> ->] & Hk). assert (k = 0) by lia. subst k.
      rewrite Z.mul_0_l, round_half_down_0 by lia. lia.
    + intros [-> Hy]. exists 0. split; [|lia].
      rewrite Z.mul_0_l, round_half_down_0 by lia. f_equal; lia.
  - split.
    + intros (j & [= -> ->] & Hj). rewrite Z.mul_0_r, round_half_down_0 by lia.
      destruct (y0 <? y1) eqn:E; [apply Z.ltb_lt in E|apply Z.ltb_ge in E]; lia.
    + intros [-> Hy]. exists (Z.abs (y - y0)).
      rewrite Z.mul_0_r, round_half_down_0 by lia. split; [|lia].
      f_equal; [lia|].
      destruct (y0 <? y1) eqn:E; [apply Z.ltb_lt in E|apply Z.ltb_ge in E]; lia.
Qed.

Lemma drawRect_row_plot (x w i : Z) (b : list Z) :
  Display.drawRect_row x w i b =
  plot ((fun j => (j, i)) <$> seqZ x (Z.min (C.int (x + w)) 128 - x)) b.
Proof.
  unfold Display.drawRect_row, plot.
  generalize (seqZ x (Z.min (C.int (x + w)) 128 - x)). intros l. revert b.
  induction l as [|j l IH]; intros b; [reflexivity|]. cbn. apply IH.
Qed.

Lemma drawRect_filled_plot (fuel : nat) (x y w h : Z) (b : list Z) :
  Display.drawRect fuel x y w h true b =
  Some (plot (seqZ y (Z.min (C.int (y + h)) 64 - y) ≫= (fun i =>
                (fun j => (j, i)) <$> seqZ x (Z.min (C.int (x + w)) 128 - x))) b).
Proof.
  unfold Display.drawRect. f_equal.
  generalize (seqZ y (Z.min (C.int (y + h)) 64 - y)). intros l. revert b.
  induction l as [|i l IH]; intros b; [reflexivity|].
  cbn [fold_left]. rewrite IH, drawRect_row_plot.
  change ((i :: l) ≫= ?f) with (f i ++ (l ≫= f)).
  now rewrite plot_app.
Qed.

Lemma drawRect_filled_pixels (fuel : nat) (x y w h : Z) (b : list Z) :
  frame b -> -128 <= x -> -192 <= y -> small x -> small y -> small w -> small h ->
  exists b',
    Display.drawRect fuel x y w h true b = Some b' /\ frame b' /\
    forall px py, on_screen px py ->
      (pixel b' px py = true <-> pixel b px py = true \/ in_rect x y w h px py).
Proof.
  unfold small. intros Hb Hx Hy Sx Sy Sw Sh.
  eexists. split; [apply drawRect_filled_plot|]. split; [apply frame_plot, Hb|].
  intros px py Hp. rewrite pixel_plot by assumption.
  rewrite orb_true_iff, existsb_exists.
  rewrite !int_small by lia. unfold in_rect. destruct Hp as [Hpx Hpy].
  apply or_iff_compat_l. split.
  - intros ([j i] & Hin & Hh). apply list_elem_of_In, list_elem_of_bind in Hin.
    destruct Hin as (i' & Hj & Hi). apply list_elem_of_fmap in Hj.
    destruct Hj as (j' & [= -> ->] & Hj). apply elem_of_seqZ in Hi, Hj.
    unfold hits, C.uint8_t in Hh. cbn [fst snd] in Hh.
    apply andb_true_iff in Hh. destruct Hh as [Hhx%Z.eqb_eq Hhy%Z.eqb_eq].
    assert (j' = px).
    { destruct (Z.lt_ge_cases j' 0).
      - replace j' with ((j' + 256) + (-1) * 256) in Hhx by lia.
        rewrite Z.mod_add, Z.mod_small in Hhx by lia. lia.
      - rewrite Z.mod_small in Hhx by lia. lia. }
    assert (i' = py).
    { destruct (Z.lt_ge_cases i' 0).
      - replace i' with ((i' + 256) + (-1) * 256) in Hhy by lia.
        rewrite Z.mod_add, Z.mod_small in Hhy by lia. lia.
      - rewrite Z.mod_small in Hhy by lia. lia. }
    lia.
  - intros [Hrx Hry]. exists (px, py). split.
    + apply list_elem_of_In, list_elem_of_bind. exists py. split.
      * apply list_elem_of_fmap. exists px. split; [reflexivity|]. apply elem_of_seqZ. lia.
      * apply elem_of_seqZ. lia.
    + unfold hits. cbn [fst snd]. rewrite !uint8_small by lia. now rewrite !Z.eqb_refl.
Qed.

(** X5: the outline of a rectangle at least one pixel wide and high, with
    its corners at byte coordinates, lights the pixels of the screen on its
    border and no other. *)
Theorem drawRect_outline_picture (fuel : nat) (x y w h : Z) (b : list Z) :
  frame b -> 0 <= x -> 0 <= y -> 1 <= w -> 1 <= h -> x + w <= 256 -> y + h <= 256 ->
  Z.max w h <= Z.of_nat fuel ->
  exists b',
    Display.drawRect fuel x y w h false b = Some b' /\ frame b' /\
    forall px py, on_screen px py ->
      (pixel b' px py = true <-> pixel b px py = true \/ on_border x y w h px py).
Proof.
  intros Hb Hx Hy Hw Hh Hxw Hyh Hf. unfold Display.drawRect.
  rewrite (int_small (x + w)), (int_small (y + h)) by lia.
  rewrite (int_small (x + w - 1)), (int_small (y + h - 1)) by lia.
  destruct (drawLine_pixels fuel x y (x + w - 1) y b) as (b1 & -> & Hb1 & P1);
    unfold byte; try lia; try exact Hb.
  destruct (drawLine_pixels fuel (x + w - 1) y (x + w - 1) (y + h - 1) b1) as (b2 & E2 & Hb2 & P2);
    unfold byte; try lia; try exact Hb1.
  destruct (drawLine_pixels fuel (x + w - 1) (y + h - 1) x (y + h - 1) b2) as (b3 & E3 & Hb3 & P3);
    unfold byte; try lia; try exact Hb2.
  destruct (drawLine_pixels fuel x (y + h - 1) x y b3) as (b4 & E4 & Hb4 & P4);
    unfold byte; try lia; try exact Hb3.
  cbn [mbind option_bind]. rewrite E2. cbn [mbind option_bind]. rewrite E3.
  cbn [mbind option_bind]. rewrite E4.
  exists b4. split; [reflexivity|]. split; [exact Hb4|].
  intros px py Hp.
  rewrite (P4 px py Hp), (P3 px py Hp), (P2 px py Hp), (P1 px py Hp).
  rewrite !hline_points, !vline_points. unfold on_border, in_rect.
  rewrite !Corelib.Init.Logic.or_assoc. apply or_iff_compat_l. lia.
Qed.

Section Bus.

Variable d : Display.pins.
Hypothesis Hpins : Display._cs d <> Display._dc d.

Lemma received_sendCommand (data cs dc : bool) (cmd : Z) (t : list Display.bus) :
  received d data cs dc (Display.sendCommand d cmd ++ t) =
  (if data then [] else [cmd]) ++ received d data true false t.
Proof using Hpins.
  cbn. rewrite !Z.eqb_refl.
  replace (Display._dc d =? Display._cs d) with false by (symmetry; apply Z.eqb_neq; auto).
  replace (Display._cs d =? Display._dc d) with false by (symmetry; apply Z.eqb_neq; auto).
  destruct data; reflexivity.
Qed.

Lemma received_sendData (data cs dc : bool) (v : Z) (t : list Display.bus) :
  received d data cs dc (Display.sendData d v ++ t) =
  (if data then [v] else []) ++ received d data true true t.
Proof using Hpins.
  cbn. rewrite !Z.eqb_refl.
  replace (Display._dc d =? Display._cs d) with false by (symmetry; apply Z.eqb_neq; auto).
  replace (Display._cs d =? Display._dc d) with false by (symmetry; apply Z.eqb_neq; auto).
  destruct data; reflexivity.
Qed.

(** The columns of a page, followed by something that does not depend
    on the levels of the lines. *)
Lemma received_columns (f : Z -> Z) (data : bool) (cols : list Z) (t : list Display.bus) :
  (forall cs dc cs' dc', received d data cs dc t = received d data cs' dc' t) ->
  forall cs dc,
  received d data cs dc ((cols ≫= (fun col => Display.sendData d (f col))) ++ t) =
  (if data then f <$> cols else []) ++ received d data cs dc t.
Proof using Hpins.
  intros Ht. induction cols as [|c cols IH]; intros cs dc.
  - destruct data; reflexivity.
  - rewrite bind_cons, <- app_assoc, received_sendData, IH.
    rewrite (Ht true true cs dc). destruct data; reflexivity.
Qed.

Lemma received_pages (b : list Z) (data : bool) (pages : list Z) :
  forall cs dc,
  received d data cs dc
    (pages ≫= (fun page =>
       Display.sendCommand d (C.uint8_t (0xB0 + page)) ++
       Display.sendCommand d 0x00 ++ Display.sendCommand d 0x10 ++
       (seqZ 0 128 ≫= (fun col => Display.sendData d (b !!! Z.to_nat (page * 128 + col)))))) =
  pages ≫= (fun page =>
    if data then (fun col => b !!! Z.to_nat (page * 128 + col)) <$> seqZ 0 128
    else [C.uint8_t (0xB0 + page); 0x00; 0x10]).
Proof using Hpins.
  induction pages as [|p pages IH]; intros cs dc; [reflexivity|].
  rewrite !bind_cons, <- !app_assoc.
  rewrite !received_sendCommand.
  rewrite (received_columns (fun col => b !!! Z.to_nat (p * 128 + col)))
    by (intros; rewrite !IH; reflexivity).
  rewrite IH. destruct data; cbn [app]; rewrite ?app_nil_r; reflexivity.
Qed.

End Bus.

Lemma pages_cover :
  Z.to_nat <$> (seqZ 0 8 ≫= (fun page => (fun col => page * 128 + col) <$> seqZ 0 128)) =
  seq 0 1024.
Proof. vm_compute. reflexivity. Qed.

Lemma display_received (d : Display.pins) (b : list Z) (cs dc : bool) :
  Display._cs d <> Display._dc d -> length b = 1024%nat ->
  received d true cs dc (Display.display d b) = b /\
  received d false cs dc (Display.display d b) =
    seqZ 0 8 ≫= (fun page => [0xB0 + page; 0x00; 0x10]).
Proof.
  intros Hp Hl. unfold Display.display. rewrite !received_pages by exact Hp. split.
  - transitivity ((fun i : nat => b !!! i) <$> seq 0 (length b));
      [|apply fmap_lookup_total_seq].
    rewrite Hl, <- pages_cover.
    generalize (seqZ 0 8). intros pages.
    induction pages as [|p pages IH]; [reflexivity|].
    rewrite !bind_cons, !fmap_app, <- IH. f_equal.
  - vm_compute. reflexivity.
Qed.

Lemma drawCircle_octants_plot (x0 y0 x y : Z) (b : list Z) :
  small x0 -> small y0 -> small x -> small y ->
  Display.drawCircle_octants x0 y0 x y b =
  plot [(x0 + x, y0 + y); (x0 + y, y0 + x); (x0 - y, y0 + x); (x0 - x, y0 + y);
        (x0 - x, y0 - y); (x0 - y, y0 - x); (x0 + y, y0 - x); (x0 + x, y0 - y)] b.
Proof.
  unfold small. intros. unfold Display.drawCircle_octants, plot. cbn [fold_left fst snd].
  rewrite !int_small by lia. reflexivity.
Qed.

Lemma drawCircle_loop_points (x0 y0 r : Z) (n : nat) :
  coord x0 -> coord y0 -> r <= 2 ^ 12 ->
  forall (x y err : Z) (fuel : nat) (b : list Z),
  x - y < Z.of_nat n -> (n <= fuel)%nat ->
  (y <= x -> 0 <= y /\ x <= r /\ err = x * x + y * y + 2 * y - r * r /\ - (2 * x) <= err <= 0) ->
  exists pts,
    Display.drawCircle_loop fuel x0 y0 x y err b = Some (plot pts b) /\
    Forall (near_circle x0 y0 r) pts /\
    (y <= x -> (x0 + x, y0 + y) ∈ pts /\ (x0 + y, y0 + x) ∈ pts /\
               (x0 - x, y0 + y) ∈ pts /\ (x0 + y, y0 - x) ∈ pts).
Proof.
  unfold coord, COORD_MAX. intros Hx0 Hy0 Hr.
  induction n as [|n IH]; intros x y err fuel b Hn Hf Hinv.
  - exists []. split; [|split; [constructor|lia]].
    destruct fuel; cbn; replace (x <? y) with true by (symmetry; apply Z.ltb_lt; lia);
      reflexivity.
  - destruct (Z.lt_ge_cases x y) as [Hlt|Hge].
    { exists []. split; [|split; [constructor|lia]].
      destruct fuel; cbn; replace (x <? y) with true by (symmetry; apply Z.ltb_lt; lia);
        reflexivity. }
    destruct fuel as [|fuel]; [lia|].
    destruct (Hinv ltac:(lia)) as (Hy & Hxr & He & Hlo & Hhi).
    cbn [Display.drawCircle_loop].
    replace (x <? y) with false by (symmetry; apply Z.ltb_ge; lia).
    replace (err <=? 0) with true by (symmetry; apply Z.leb_le; lia).
    rewrite drawCircle_octants_plot by (unfold small; lia).
    rewrite (int_small (y + 1)), (int_small (2 * (y + 1))), (int_small (2 * (y + 1) + 1)),
      (int_small (err + (2 * (y + 1) + 1))) by lia.
    set (pts0 := [(x0 + x, y0 + y); _; _; _; _; _; _; _]).
    assert (Hpts0 : Forall (near_circle x0 y0 r) pts0).
    { subst pts0. repeat constructor; unfold near_circle; cbn [fst snd]; nia. }
    destruct (0 <? err + (2 * (y + 1) + 1)) eqn:E;
      [apply Z.ltb_lt in E|apply Z.ltb_ge in E].
    + rewrite (int_small (x - 1)), (int_small (2 * (x - 1))), (int_small (2 * (x - 1) + 1)),
        (int_small (err + (2 * (y + 1) + 1) - (2 * (x - 1) + 1))) by lia.
      destruct (IH (x - 1) (y + 1) (err + (2 * (y + 1) + 1) - (2 * (x - 1) + 1)) fuel
                  (plot pts0 b) ltac:(lia) ltac:(lia)) as (pts & Hrun & Hpts & _).
      { intros H. repeat split; nia. }
      exists (pts0 ++ pts). rewrite plot_app. split; [exact Hrun|].
      split; [apply Forall_app; auto|].
      intros _. subst pts0. rewrite !elem_of_app, !elem_of_cons.
      repeat split; left; auto 10.
    + destruct (IH x (y + 1) (err + (2 * (y + 1) + 1)) fuel
                  (plot pts0 b) ltac:(lia) ltac:(lia)) as (pts & Hrun & Hpts & _).
      { intros H. repeat split; nia. }
      exists (pts0 ++ pts). rewrite plot_app. split; [exact Hrun|].
      split; [apply Forall_app; auto|].
      intros _. subst pts0. rewrite !elem_of_app, !elem_of_cons.
      repeat split; left; auto 10.
Qed.

End Shapes.

(* ================================================================== *)
(** ** Text: glyphs and widths *)
(* ================================================================== *)

Section Text.

Import Spec.
Local Open Scope Z_scope.

Variable FT_Load_Char : Z -> ascii -> bool -> option Font.glyph.

Lemma set_bit_drawPixel (px py : Z) (b : list Z) :
  0 <= px < 128 -> 0 <= py < 64 ->
  Font.set_bit 128 px py b = Display.drawPixel px py b.
Proof.
  intros Hx Hy. unfold Font.set_bit, Display.drawPixel.
  replace (128 <=? px) with false by (symmetry; apply Z.leb_gt; lia).
  replace (64 <=? py) with false by (symmetry; apply Z.leb_gt; lia).
  cbn [orb]. rewrite Z.quot_div_nonneg, Z.rem_mod_nonneg by lia.
  assert (0 <= py / 8 < 8) by (split; [apply Z.div_pos|apply Z.div_lt_upper_bound]; lia).
  rewrite (int_small (py / 8 * 128)), int_small by lia. reflexivity.
Qed.

Lemma uint8_on_screen (px py : Z) :
  0 <= px < 128 -> 0 <= py < 64 -> C.uint8_t px = px /\ C.uint8_t py = py.
Proof. intros. split; apply uint8_small; lia. Qed.

Lemma render_glyph_plot (g : Font.glyph) (start_x start_y : Z) (invert : bool) (b : list Z) :
  Font.render_glyph g 128 64 start_x start_y invert b =
  plot (glyph_points g start_x start_y invert) b.
Proof.
  unfold Font.render_glyph, glyph_points.
  generalize (seqZ 0 (Font.rows g)). intros rows. revert b.
  induction rows as [|row rows IH]; intros b; [reflexivity|].
  cbn [fold_left]. rewrite IH, bind_cons, plot_app. f_equal.
  generalize (seqZ 0 (Font.width g)). intros cols. revert b.
  induction cols as [|col cols IHc]; intros b; [reflexivity|].
  cbn [fold_left]. rewrite IHc, bind_cons, plot_app. f_equal.
  unfold Font.render_pixel.
  destruct (0 <=? C.int (start_x + col)) eqn:E1; [|reflexivity].
  destruct (C.int (start_x + col) <? 128) eqn:E2; [|reflexivity].
  destruct (0 <=? C.int (start_y + row)) eqn:E3; [|reflexivity].
  destruct (C.int (start_y + row) <? 64) eqn:E4; [|reflexivity].
  cbn [andb].
  apply Z.leb_le in E1, E3. apply Z.ltb_lt in E2, E4.
  destruct invert;
    destruct (128 <? Font.bitmap g !!! Z.to_nat (C.uint32_t (row * Font.pitch g + col)));
    cbn [negb]; try reflexivity;
    cbn [plot fold_left fst snd]; rewrite !uint8_small, set_bit_drawPixel by lia;
    reflexivity.
Qed.

Lemma renderText_loop_plot (face : Z) (text : string) (x y : Z) (invert : bool)
    (b : list Z) :
  Font.renderText_loop FT_Load_Char face text 128 64 x y invert b =
  plot (text_points FT_Load_Char face text x y invert) b.
Proof.
  revert x b. induction text as [|c text IH]; intros x b; [reflexivity|].
  cbn [Font.renderText_loop text_points].
  destruct (Ascii.eqb c Font.NUL); [reflexivity|].
  destruct (FT_Load_Char face c true) as [g|]; [|apply IH].
  rewrite IH, render_glyph_plot, plot_app. reflexivity.
Qed.

Lemma glyph_points_on_screen (g : Font.glyph) (start_x start_y : Z) (invert : bool)
    (p : Z * Z) :
  p ∈ glyph_points g start_x start_y invert -> on_screen p.1 p.2.
Proof.
  unfold glyph_points. intros (row & Hp & _)%list_elem_of_bind.
  apply list_elem_of_bind in Hp as (col & Hp & _).
  destruct (0 <=? C.int (start_x + col)) eqn:E1; [|apply elem_of_nil in Hp; destruct Hp].
  destruct (C.int (start_x + col) <? 128) eqn:E2; [|apply elem_of_nil in Hp; destruct Hp].
  destruct (0 <=? C.int (start_y + row)) eqn:E3; [|apply elem_of_nil in Hp; destruct Hp].
  destruct (C.int (start_y + row) <? 64) eqn:E4; [|apply elem_of_nil in Hp; destruct Hp].
  cbn [andb] in Hp.
  destruct (if invert then _ else _); [|apply elem_of_nil in Hp; destruct Hp].
  apply list_elem_of_singleton in Hp. subst p. cbn [fst snd].
  apply Z.leb_le in E1, E3. apply Z.ltb_lt in E2, E4. unfold on_screen. lia.
Qed.

Lemma text_points_on_screen (face : Z) (text : string) (x y : Z) (invert : bool) :
  Forall (fun p => on_screen p.1 p.2) (text_points FT_Load_Char face text x y invert).
Proof.
  revert x. induction text as [|c text IH]; intros x; [constructor|].
  cbn [text_points]. destruct (Ascii.eqb c Font.NUL); [constructor|].
  destruct (FT_Load_Char face c true) as [g|]; [|apply IH].
  apply Forall_app. split; [|apply IH].
  apply Forall_forall. intros p. apply glyph_points_on_screen.
Qed.

Lemma existsb_hits_on_screen (x y : Z) (pts : list (Z * Z)) :
  Forall (fun p => on_screen p.1 p.2) pts ->
  existsb (hits x y) pts = true <-> (x, y) ∈ pts.
Proof.
  intros H. apply existsb_hits. eapply Forall_impl; [exact H|].
  unfold on_screen. intros p Hp. cbn in Hp. lia.
Qed.

(** [renderText] on a display buffer: a set of pixels that depends on
    the text, the font and the position only, added to the buffer. *)
Lemma renderText_pixels (fm : Font.FontManager) (text : string) (x y : Z)
    (size : Font.FontSize) (invert : bool) (b : list Z) :
  frame b ->
  let r := Font.renderText FT_Load_Char fm text b 128 64 x y size invert in
  let pts := text_points FT_Load_Char (Font.select_face fm size) text x y invert in
  snd r = Font.initialized fm /\ frame (fst r) /\
  (Font.initialized fm = false -> fst r = b) /\
  (Font.initialized fm = true ->
   forall px py, on_screen px py ->
     (pixel (fst r) px py = true <-> pixel b px py = true \/ (px, py) ∈ pts)).
Proof.
  intros Hb. cbv zeta. unfold Font.renderText.
  destruct (Font.initialized fm); cbn [negb fst snd].
  - rewrite renderText_loop_plot. repeat split; try discriminate.
    + apply frame_plot, Hb.
    + apply frame_plot, Hb.
    + rewrite pixel_plot, orb_true_iff, existsb_hits_on_screen
        by auto using text_points_on_screen. tauto.
    + rewrite pixel_plot, orb_true_iff, existsb_hits_on_screen
        by auto using text_points_on_screen. tauto.
  - repeat split; try discriminate; try apply Hb.
Qed.

(** *** Widths *)

Lemma int_int_add (a b : Z) : C.int (C.int a + b) = C.int (a + b).
Proof.
  unfold C.int. f_equal.
  replace ((a + 2 ^ 31) mod 2 ^ 32 - 2 ^ 31 + b + 2 ^ 31)
    with ((a + 2 ^ 31) mod 2 ^ 32 + b) by lia.
  rewrite Zplus_mod_idemp_l. f_equal. lia.
Qed.

Lemma getTextWidth_loop_sum (face : Z) (text : string) (w : Z) :
  C.int (Font.getTextWidth_loop FT_Load_Char face text w) =
  C.int (w + sum (advances FT_Load_Char face text)).
Proof.
  revert w. induction text as [|c text IH]; intros w.
  - cbn. now rewrite Z.add_0_r.
  - cbn [Font.getTextWidth_loop advances].
    destruct (Ascii.eqb c Font.NUL); [cbn; now rewrite Z.add_0_r|].
    destruct (FT_Load_Char face c false) as [g|]; [|apply IH].
    rewrite IH, int_int_add. cbn [sum fold_right]. f_equal. unfold sum. lia.
Qed.

Lemma int_range (a : Z) : - 2 ^ 31 <= C.int a < 2 ^ 31.
Proof.
  unfold C.int. pose proof (Z.mod_pos_bound (a + 2 ^ 31) (2 ^ 32) eq_refl). lia.
Qed.

Lemma int_idem (a : Z) : C.int (C.int a) = C.int a.
Proof. apply int_small, int_range. Qed.

Lemma getTextWidth_loop_int (face : Z) (text : string) (w : Z) :
  C.int w = w ->
  C.int (Font.getTextWidth_loop FT_Load_Char face text w) =
  Font.getTextWidth_loop FT_Load_Char face text w.
Proof.
  revert w. induction text as [|c text IH]; intros w Hw; [exact Hw|].
  cbn [Font.getTextWidth_loop].
  destruct (Ascii.eqb c Font.NUL); [exact Hw|].
  destruct (FT_Load_Char face c false) as [g|]; apply IH; [apply int_idem|exact Hw].
Qed.

Lemma getTextWidth_sum (fm : Font.FontManager) (text : string) (size : Font.FontSize) :
  Font.getTextWidth FT_Load_Char fm text size =
  if Font.initialized fm
  then C.int (sum (advances FT_Load_Char (Font.select_face fm size) text))
  else 0.
Proof.
  unfold Font.getTextWidth. destruct (Font.initialized fm); cbn [negb]; [|reflexivity].
  rewrite <- getTextWidth_loop_int by reflexivity.
  rewrite getTextWidth_loop_sum. reflexivity.
Qed.

Lemma advances_app (face : Z) (a b : string) :
  no_NUL a ->
  advances FT_Load_Char face (a ++ b) =
  advances FT_Load_Char face a ++ advances FT_Load_Char face b.
Proof.
  unfold no_NUL. induction a as [|c a IH]; intros H; [reflexivity|].
  cbn [list_ascii_of_string] in H. apply Forall_cons in H as [Hc Ha].
  cbn [String.append advances].
  replace (Ascii.eqb c Font.NUL) with false
    by (symmetry; apply Ascii.eqb_neq; exact Hc).
  destruct (FT_Load_Char face c false); rewrite IH by exact Ha; reflexivity.
Qed.

Lemma sum_app (l k : list Z) : sum (l ++ k) = sum l + sum k.
Proof. unfold sum. induction l as [|a l IH]; cbn; lia. Qed.

End Text.

(* ================================================================== *)
(** ** Clipped text *)
(* ================================================================== *)

Section Clipped.

Import Spec.
Local Open Scope Z_scope.

Variable FT_Load_Char : Z -> ascii -> bool -> option Font.glyph.

Lemma seqZ_max (s n : Z) : seqZ s n = seqZ s (Z.max 0 n).
Proof. unfold seqZ. f_equal. f_equal. lia. Qed.

(** One row of the copy loop of [renderClippedText]. *)
Lemma or_row (t : list Z) (page x : Z) (m : nat) :
  forall (s : Z) (b : list Z),
  0 <= page * 128 + x + s -> page * 128 + x + s + Z.of_nat m <= Z.of_nat (length b) ->
  let R := fold_left
    (fun b col =>
       let i := Z.to_nat (page * 128 + x + col) in
       <[ i := C.uint8_t (Z.lor (b !!! i) (t !!! Z.to_nat (page * 128 + col))) ]> b)
    (seqZ s (Z.of_nat m)) b in
  length R = length b /\
  forall k, 0 <= k ->
    R !!! Z.to_nat k =
    if (page * 128 + x + s <=? k) && (k <? page * 128 + x + s + Z.of_nat m)
    then C.uint8_t (Z.lor (b !!! Z.to_nat k) (t !!! Z.to_nat (k - x)))
    else b !!! Z.to_nat k.
Proof.
  set (F := fun (b : list Z) (col : Z) =>
              let i := Z.to_nat (page * 128 + x + col) in
              <[ i := C.uint8_t (Z.lor (b !!! i) (t !!! Z.to_nat (page * 128 + col))) ]> b).
  induction m as [|m IH]; intros s b H0 H1 R; subst R.
  - change (seqZ s (Z.of_nat 0)) with (@nil Z). cbn [fold_left].
    split; [reflexivity|]. intros k Hk.
    replace ((page * 128 + x + s <=? k) && (k <? page * 128 + x + s + Z.of_nat 0))
      with false; [reflexivity|].
    symmetry. apply andb_false_iff. rewrite Z.leb_gt, Z.ltb_ge. lia.
  - rewrite (seqZ_cons s) by lia. cbn [fold_left].
    replace (Z.pred (Z.of_nat (S m))) with (Z.of_nat m) by lia.
    set (b' := F b s).
    assert (Lb : length b' = length b) by (subst b' F; apply length_insert).
    destruct (IH (Z.succ s) b' ltac:(lia) ltac:(rewrite Lb; lia)) as [L E].
    split; [congruence|]. intros k Hk. rewrite (E k Hk).
    destruct (Z.eq_dec k (page * 128 + x + s)) as [->|Hne].
    + replace ((page * 128 + x + Z.succ s <=? page * 128 + x + s) && _) with false
        by (symmetry; apply andb_false_iff; rewrite Z.leb_gt; lia).
      replace ((page * 128 + x + s <=? page * 128 + x + s) && _) with true
        by (symmetry; apply andb_true_iff; rewrite Z.leb_le, Z.ltb_lt; lia).
      subst b' F. cbv beta zeta. rewrite list_lookup_total_insert_eq by lia.
      do 3 f_equal. lia.
    + assert (Hb' : b' !!! Z.to_nat k = b !!! Z.to_nat k)
        by (subst b' F; apply list_lookup_total_insert_ne; lia).
      rewrite Hb'.
      replace ((page * 128 + x + Z.succ s <=? k)
               && (k <? page * 128 + x + Z.succ s + Z.of_nat m))
        with ((page * 128 + x + s <=? k)
              && (k <? page * 128 + x + s + Z.of_nat (S m))); [reflexivity|].
      apply eq_true_iff_eq. rewrite !andb_true_iff, !Z.leb_le, !Z.ltb_lt. lia.
Qed.

(** The rows of the copy loop. *)
Lemma or_rows (t : list Z) (x n : Z) (m : nat) :
  forall (ps : Z) (b : list Z),
  0 <= x -> 0 <= n -> x + n <= 128 -> 0 <= ps ->
  (m = 0%nat \/ ps + Z.of_nat m <= 8) ->
  length b = 1024%nat ->
  let R := fold_left
    (fun b page =>
       fold_left
         (fun b col =>
            let i := Z.to_nat (page * 128 + x + col) in
            <[ i := C.uint8_t (Z.lor (b !!! i) (t !!! Z.to_nat (page * 128 + col))) ]> b)
         (seqZ 0 n) b)
    (seqZ ps (Z.of_nat m)) b in
  length R = 1024%nat /\
  forall k, 0 <= k < 1024 ->
    R !!! Z.to_nat k =
    if (ps <=? k / 128) && (k / 128 <? ps + Z.of_nat m)
       && (x <=? k mod 128) && (k mod 128 <? x + n)
    then C.uint8_t (Z.lor (b !!! Z.to_nat k) (t !!! Z.to_nat (k - x)))
    else b !!! Z.to_nat k.
Proof.
  set (G := fun (b : list Z) (page : Z) =>
              fold_left
                (fun b col =>
                   let i := Z.to_nat (page * 128 + x + col) in
                   <[ i := C.uint8_t (Z.lor (b !!! i) (t !!! Z.to_nat (page * 128 + col))) ]> b)
                (seqZ 0 n) b).
  induction m as [|m IH]; intros ps b Hx Hn Hxn Hps Hm Hb R; subst R.
  - change (seqZ ps (Z.of_nat 0)) with (@nil Z). cbn [fold_left].
    split; [exact Hb|]. intros k Hk.
    replace ((ps <=? k / 128) && (k / 128 <? ps + Z.of_nat 0)) with false; [reflexivity|].
    symmetry. apply andb_false_iff. rewrite Z.leb_gt, Z.ltb_ge. lia.
  - rewrite (seqZ_cons ps) by lia. cbn [fold_left].
    replace (Z.pred (Z.of_nat (S m))) with (Z.of_nat m) by lia.
    pose proof (or_row t ps x (Z.to_nat n) 0 b) as Hrow.
    rewrite Z2Nat.id in Hrow by lia.
    destruct Hrow as [Lb E0]; [lia|rewrite Hb; lia|].
    change (fold_left _ (seqZ 0 n) b) with (G b ps) in Lb, E0.
    set (b' := G b ps) in *.
    destruct (IH (Z.succ ps) b' Hx Hn Hxn ltac:(lia) ltac:(lia) ltac:(congruence)) as [L E].
    split; [exact L|]. intros k Hk. rewrite (E k Hk), (E0 k) by lia.
    pose proof (Z.div_mod k 128 ltac:(lia)) as Hdm.
    pose proof (Z.mod_pos_bound k 128 ltac:(lia)) as Hmb.
    destruct (Z.eq_dec (k / 128) ps) as [Hp|Hp].
    + replace ((Z.succ ps <=? k / 128) && _ && _ && _) with false
        by (symmetry; rewrite !andb_false_iff, Z.leb_gt; lia).
      replace ((ps * 128 + x + 0 <=? k) && (k <? ps * 128 + x + 0 + n))
        with ((ps <=? k / 128) && (k / 128 <? ps + Z.of_nat (S m))
              && (x <=? k mod 128) && (k mod 128 <? x + n)).
      2:{ apply eq_true_iff_eq. rewrite !andb_true_iff, !Z.leb_le, !Z.ltb_lt. lia. }
      reflexivity.
    + replace ((ps * 128 + x + 0 <=? k) && (k <? ps * 128 + x + 0 + n)) with false
        by (symmetry; rewrite andb_false_iff, Z.leb_gt, Z.ltb_ge; lia).
      replace ((Z.succ ps <=? k / 128) && (k / 128 <? Z.succ ps + Z.of_nat m))
        with ((ps <=? k / 128) && (k / 128 <? ps + Z.of_nat (S m))); [reflexivity|].
      apply eq_true_iff_eq. rewrite !andb_true_iff, !Z.leb_le, !Z.ltb_lt. lia.
Qed.

Lemma frame_zero : frame (replicate 1024 0).
Proof.
  split; [apply length_replicate|].
  apply Forall_forall. intros v Hv. apply elem_of_replicate in Hv.
  destruct Hv as [-> _]. lia.
Qed.

Lemma pixel_zero (px py : Z) : on_screen px py -> pixel (replicate 1024 0) px py = false.
Proof.
  intros [Hx Hy]. unfold pixel.
  rewrite lookup_total_replicate_2; [apply Z.bits_0|].
  assert (0 <= py / 8 < 8) by (split; [apply Z.div_pos|apply Z.div_lt_upper_bound]; lia).
  lia.
Qed.

Lemma renderClippedText_pixels (fm : Font.FontManager) (x y : Z) (text : string)
    (clip_width : Z) (size : Font.FontSize) (b : list Z) :
  Font.initialized fm = true ->
  frame b -> 0 <= x -> 1 <= y <= 1000 ->
  let R := Viz.renderClippedText FT_Load_Char fm x y text clip_width size b in
  frame R /\
  forall px py, on_screen px py ->
    (pixel R px py = true <->
     pixel b px py = true \/
     (x <= px < x + clip_width /\ (y - 8) ÷ 8 <= py / 8 <= (y + 8) ÷ 8 /\
      (px - x, py) ∈ text_points FT_Load_Char (Font.select_face fm size) text 0 y false)).
Proof.
  intros Hi Hb Hx Hy. cbv zeta. unfold Viz.renderClippedText.
  destruct (renderText_pixels FT_Load_Char fm text 0 y size false _ frame_zero)
    as (_ & Ft & _ & Pt). specialize (Pt Hi).
  set (t := fst _) in *. cbv zeta.
  rewrite !int_small by lia.
  assert (Hps : 0 <= (y - 8) ÷ 8).
  { Z.to_euclidean_division_equations. lia. }
  assert (Hpe : (y - 8) ÷ 8 <= (y + 8) ÷ 8) by (Z.to_euclidean_division_equations; lia).
  set (ps := (y - 8) ÷ 8) in *. set (pe := (y + 8) ÷ 8) in *.
  rewrite (seqZ_max ps), (seqZ_max 0).
  set (n := Z.max 0 (Z.min clip_width (128 - x))).
  set (m := Z.max 0 (Z.min pe 7 - ps + 1)).
  destruct Hb as [Lb Fb].
  destruct (Z_lt_le_dec 128 x) as [Hbig|Hsm].
  { (* nothing to copy *)
    assert (E : forall (l : list Z) (b0 : list Z),
               fold_left (fun (b1 : list Z) (_ : Z) => b1) l b0 = b0)
      by (induction l; intros; cbn; auto).
    subst n. replace (Z.max 0 (Z.min clip_width (128 - x))) with 0 by lia.
    change (seqZ 0 0) with (@nil Z). cbn [fold_left]. rewrite E.
    split; [split; assumption|]. intros px py [Hpx Hpy]. split; [auto|].
    intros [H|(H & _)]; [exact H|lia]. }
  assert (Hn : 0 <= n /\ x + n <= 128 /\
               forall px, x <= px < 128 -> (px < x + n <-> px < x + clip_width))
    by (subst n; repeat split; intros; lia).
  assert (Hm : 0 <= m /\ (m = 0 \/ ps + m <= 8) /\
               forall pg, pg < 8 -> (pg < ps + m <-> pg <= pe))
    by (subst m; repeat split; intros; lia).
  clearbody n m. destruct Hn as (Hn0 & Hn1 & Hn2). destruct Hm as (Hm0 & Hm1 & Hm2).
  pose proof (or_rows t x n (Z.to_nat m) ps b Hx ltac:(lia) ltac:(lia) Hps) as H.
  rewrite Z2Nat.id in H by lia. cbv zeta in H.
  destruct H as [L E]; [lia|exact Lb|].
  set (R := fold_left _ (seqZ ps m) b) in *.
  assert (Hbyte : forall k, 0 <= k < 1024 -> 0 <= b !!! Z.to_nat k < 256).
  { intros k Hk. apply (@Forall_lookup_total_1 Z (fun v => 0 <= v < 256) _ b (Z.to_nat k) Fb). lia. }
  split.
  - split; [exact L|]. apply (@Forall_lookup_total_2 Z _ _). intros i Hi'.
    rewrite <- (Nat2Z.id i). rewrite E by lia.
    destruct (_ && _); [apply uint8_range|apply Hbyte; lia].
  - intros px py [Hpx Hpy].
    assert (Hpg : 0 <= py / 8 < 8)
      by (split; [apply Z.div_pos|apply Z.div_lt_upper_bound]; lia).
    unfold pixel at 1. rewrite E by lia.
    replace ((py / 8 * 128 + px) / 128) with (py / 8)
      by (apply Z.div_unique with px; lia).
    replace ((py / 8 * 128 + px) mod 128) with px
      by (apply Z.mod_unique with (py / 8); lia).
    pose proof (Z.mod_pos_bound py 8 ltac:(lia)) as Hbit.
    destruct ((ps <=? py / 8) && (py / 8 <? ps + m) && (x <=? px) && (px <? x + n)) eqn:C.
    + rewrite !andb_true_iff, !Z.leb_le, !Z.ltb_lt in C.
      unfold C.uint8_t. change 256 with (2 ^ 8).
      rewrite Z.mod_pow2_bits_low, Z.lor_spec, orb_true_iff by lia.
      fold (pixel b px py).
      replace (py / 8 * 128 + px - x) with (py / 8 * 128 + (px - x)) by lia.
      fold (pixel t (px - x) py).
      rewrite (Pt (px - x) py) by (split; lia).
      rewrite pixel_zero by (split; lia). split.
      * intros [H|[H|H]]; [left; exact H|discriminate|right].
        pose proof (Hn2 px). pose proof (Hm2 (py / 8)).
        repeat split; try lia. exact H.
      * intros [H|(H1 & H2 & H3)]; [left; exact H|right; right; exact H3].
    + fold (pixel b px py). split; [auto|]. intros [H|(H1 & H2 & H3)]; [exact H|].
      exfalso. apply not_true_iff_false in C. apply C.
      rewrite !andb_true_iff, !Z.leb_le, !Z.ltb_lt.
      apply (proj1 (Forall_forall _ _)
        (text_points_on_screen FT_Load_Char _ text 0 y false)) in H3.
      destruct H3 as [H3 _]. cbn [fst] in H3.
      pose proof (Hn2 px). pose proof (Hm2 (py / 8)). lia.
Qed.

End Clipped.

(* ================================================================== *)
(** ** Properties of the drawing primitives *)
(* ================================================================== *)

Section Drawing.

Import Spec.
Local Open Scope Z_scope.

Lemma frame_blank : frame blank.
Proof. exact frame_zero. Qed.

(** X1: [drawPixel] turns on the pixel at its coordinates and no other,
    and leaves the buffer alone when they are off the screen;
    [clearPixel] turns off that pixel and no other; clearing a pixel just
    drawn gives back the buffer it was drawn in when the pixel was off
    there. *)
Theorem drawPixel_clearPixel_pixels (px py : Z) (b : list Z) :
  frame b -> byte px -> byte py ->
  frame (Display.drawPixel px py b) /\
  frame (Display.clearPixel px py b) /\
  (forall x y, on_screen x y ->
     pixel (Display.drawPixel px py b) x y = pixel b x y || ((px =? x) && (py =? y))) /\
  (forall x y, on_screen x y ->
     pixel (Display.clearPixel px py b) x y
     = pixel b x y && negb ((px =? x) && (py =? y))) /\
  ((128 <=? px) || (64 <=? py) = true -> Display.drawPixel px py b = b) /\
  (pixel b px py = false -> Display.clearPixel px py (Display.drawPixel px py b) = b).
Proof.
  intros Hb Hx Hy. split; [apply frame_drawPixel, Hb|].
  split; [apply frame_clearPixel, Hb|]. split; [|split; [|split]].
  - intros x y Hxy. apply pixel_drawPixel; assumption.
  - intros x y Hxy. apply pixel_clearPixel; assumption.
  - intros E. unfold Display.drawPixel. now rewrite E.
  - intros Hoff. apply clearPixel_drawPixel; assumption.
Qed.

Lemma drawPixel_clearPixel_pixels_witness :
  (frame blank /\ byte 3 /\ byte 10) /\
  (forall x y, on_screen x y ->
     pixel (Display.drawPixel 3 10 blank) x y = pixel blank x y || ((3 =? x) && (10 =? y))) /\
  (pixel blank 3 10 = false ->
   Display.clearPixel 3 10 (Display.drawPixel 3 10 blank) = blank).
Proof.
  assert (Hb : byte 3 /\ byte 10) by (unfold byte; lia).
  split; [split; [exact frame_blank|exact Hb]|].
  pose proof (drawPixel_clearPixel_pixels 3 10 blank frame_blank (proj1 Hb) (proj2 Hb)) as H.
  exact (conj (proj1 (proj2 (proj2 H))) (proj2 (proj2 (proj2 (proj2 (proj2 H)))))).
Defined.

(** X2: for end points within 2^26 of the origin, [drawLine] ends after
    one pass per step along the longer axis plus one, and what it draws, in
    order, are the points of the ideal segment sampled along that axis and
    rounded to the nearest pixel on the other, halves towards the start. *)
Theorem drawLine_is_line_points (fuel : nat) (x0 y0 x1 y1 : Z) (b : list Z) :
  coord x0 -> coord y0 -> coord x1 -> coord y1 ->
  Z.max (Z.abs (x1 - x0)) (Z.abs (y1 - y0)) < Z.of_nat fuel ->
  Display.drawLine fuel x0 y0 x1 y1 b = Some (plot (line_points x0 y0 x1 y1) b) /\
  Z.of_nat (length (line_points x0 y0 x1 y1)) = Z.max (Z.abs (x1 - x0)) (Z.abs (y1 - y0)) + 1.
Proof.
  intros Hx0 Hy0 Hx1 Hy1 Hf. split; [apply drawLine_points; assumption|].
  apply length_line_points.
Qed.

Lemma drawLine_is_line_points_witness :
  (coord 0 /\ coord 0 /\ coord 5 /\ coord 2 /\
   Z.max (Z.abs (5 - 0)) (Z.abs (2 - 0)) < Z.of_nat 6) /\
  Display.drawLine 6 0 0 5 2 blank = Some (plot (line_points 0 0 5 2) blank) /\
  Z.of_nat (length (line_points 0 0 5 2)) = Z.max (Z.abs (5 - 0)) (Z.abs (2 - 0)) + 1.
Proof.
  assert (H0 : coord 0) by (unfold coord, COORD_MAX; lia).
  assert (H5 : coord 5) by (unfold coord, COORD_MAX; lia).
  assert (H2 : coord 2) by (unfold coord, COORD_MAX; lia).
  assert (Hf : Z.max (Z.abs (5 - 0)) (Z.abs (2 - 0)) < Z.of_nat 6) by (vm_compute; reflexivity).
  split; [repeat split; assumption || apply H0 || apply H5 || apply H2|].
  exact (drawLine_is_line_points 6 0 0 5 2 blank H0 H0 H5 H2 Hf).
Defined.

(** X3: on the screen, a line between end points that are bytes lights
    the pixels of its ideal segment and leaves every other pixel as it
    was. *)
Theorem drawLine_picture (fuel : nat) (x0 y0 x1 y1 : Z) (b : list Z) :
  byte x0 -> byte y0 -> byte x1 -> byte y1 ->
  Z.max (Z.abs (x1 - x0)) (Z.abs (y1 - y0)) < Z.of_nat fuel -> frame b ->
  exists b',
    Display.drawLine fuel x0 y0 x1 y1 b = Some b' /\ frame b' /\
    forall x y, on_screen x y ->
      (pixel b' x y = true <-> pixel b x y = true \/ (x, y) ∈ line_points x0 y0 x1 y1).
Proof. apply drawLine_pixels. Qed.

Lemma drawLine_picture_witness :
  (byte 0 /\ byte 37 /\ byte 127 /\ byte 37 /\
   Z.max (Z.abs (127 - 0)) (Z.abs (37 - 37)) < Z.of_nat 128 /\ frame blank) /\
  exists b',
    Display.drawLine 128 0 37 127 37 blank = Some b' /\ frame b' /\
    forall x y, on_screen x y ->
      (pixel b' x y = true <->
       pixel blank x y = true \/ (x, y) ∈ line_points 0 37 127 37).
Proof.
  assert (H0 : byte 0) by (unfold byte; lia).
  assert (H37 : byte 37) by (unfold byte; lia).
  assert (H127 : byte 127) by (unfold byte; lia).
  assert (Hf : Z.max (Z.abs (127 - 0)) (Z.abs (37 - 37)) < Z.of_nat 128)
    by (vm_compute; reflexivity).
  split; [repeat split; assumption || apply H0 || apply H37 || apply H127 || apply frame_blank|].
  exact (drawLine_picture 128 0 37 127 37 blank H0 H37 H127 H37 Hf frame_blank).
Defined.

(** X4: a filled rectangle lights the pixels of the screen inside it and
    no other, also when it sticks out of the screen to the right or below;
    to the left and above this holds as long as its corner is no further
    out than the wrap-around of the byte coordinates of [drawPixel]. *)
Theorem drawRect_filled_picture (fuel : nat) (x y w h : Z) (b : list Z) :
  frame b -> -128 <= x -> -192 <= y -> small x -> small y -> small w -> small h ->
  exists b',
    Display.drawRect fuel x y w h true b = Some b' /\ frame b' /\
    forall px py, on_screen px py ->
      (pixel b' px py = true <-> pixel b px py = true \/ in_rect x y w h px py).
Proof. apply drawRect_filled_pixels. Qed.

Lemma drawRect_filled_picture_witness :
  (frame blank /\ -128 <= 120 /\ -192 <= 60 /\ small 120 /\ small 60 /\ small 12 /\ small 9) /\
  exists b',
    Display.drawRect 0 120 60 12 9 true blank = Some b' /\ frame b' /\
    forall px py, on_screen px py ->
      (pixel b' px py = true <-> pixel blank px py = true \/ in_rect 120 60 12 9 px py).
Proof.
  assert (S120 : small 120) by (unfold small; lia).
  assert (S60 : small 60) by (unfold small; lia).
  assert (S12 : small 12) by (unfold small; lia).
  assert (S9 : small 9) by (unfold small; lia).
  assert (Hx : -128 <= 120) by lia.
  assert (Hy : -192 <= 60) by lia.
  split; [repeat split; try assumption; try apply frame_blank;
          apply S120 || apply S60 || apply S12 || apply S9|].
  exact (drawRect_filled_picture 0 120 60 12 9 blank frame_blank Hx Hy S120 S60 S12 S9).
Defined.

Lemma drawRect_outline_picture_witness :
  (frame blank /\ 0 <= 1 /\ 0 <= 8 /\ 1 <= 12 /\ 1 <= 49 /\ 1 + 12 <= 256 /\ 8 + 49 <= 256 /\
   Z.max 12 49 <= Z.of_nat 49) /\
  exists b',
    Display.drawRect 49 1 8 12 49 false blank = Some b' /\ frame b' /\
    forall px py, on_screen px py ->
      (pixel b' px py = true <-> pixel blank px py = true \/ on_border 1 8 12 49 px py).
Proof.
  assert (Hf : Z.max 12 49 <= Z.of_nat 49) by (vm_compute; discriminate).
  split; [repeat split; try lia; try exact Hf; apply frame_blank|].
  exact (drawRect_outline_picture 49 1 8 12 49 blank frame_blank
           ltac:(lia) ltac:(lia) ltac:(lia) ltac:(lia) ltac:(lia) ltac:(lia) Hf).
Defined.

(** X6: the outline of a circle of radius up to 4096 ends within one
    pass per unit of radius plus one; every point it draws is within the
    radius of the centre while its outer diagonal neighbour is not, and the
    four points of the circle on the axes are drawn.  With a negative
    radius nothing is drawn. *)
Theorem drawCircle_outline_points (sqrt : Z -> Z) (fuel : nat) (x0 y0 r : Z) (b : list Z) :
  coord x0 -> coord y0 -> r <= 2 ^ 12 -> r < Z.of_nat fuel ->
  (r < 0 -> Display.drawCircle sqrt fuel x0 y0 r false b = Some b) /\
  (0 <= r ->
   exists pts,
     Display.drawCircle sqrt fuel x0 y0 r false b = Some (plot pts b) /\
     Forall (near_circle x0 y0 r) pts /\
     (x0 + r, y0) ∈ pts /\ (x0, y0 + r) ∈ pts /\ (x0 - r, y0) ∈ pts /\ (x0, y0 - r) ∈ pts).
Proof.
  intros Hx0 Hy0 Hr Hf. unfold Display.drawCircle. split.
  - intros Hneg. destruct fuel; cbn;
      replace (r <? 0) with true by (symmetry; apply Z.ltb_lt; lia); reflexivity.
  - intros Hpos.
    destruct (drawCircle_loop_points x0 y0 r (Z.to_nat (r + 1)) Hx0 Hy0 Hr r 0 0 fuel b)
      as (pts & E & F & P); [lia|lia| |].
    { intros _. repeat split; lia. }
    exists pts. split; [exact E|]. split; [exact F|].
    destruct (P Hpos) as (P1 & P2 & P3 & P4).
    rewrite !Z.add_0_r in P1, P2, P3, P4. auto.
Qed.

Lemma drawCircle_outline_points_witness :
  (coord 64 /\ coord 32 /\ 5 <= 2 ^ 12 /\ 5 < Z.of_nat 6) /\
  (0 <= 5 ->
   exists pts,
     Display.drawCircle (fun _ => 0) 6 64 32 5 false blank = Some (plot pts blank) /\
     Forall (near_circle 64 32 5) pts /\
     (64 + 5, 32) ∈ pts /\ (64, 32 + 5) ∈ pts /\ (64 - 5, 32) ∈ pts /\ (64, 32 - 5) ∈ pts).
Proof.
  assert (H64 : coord 64) by (unfold coord, COORD_MAX; lia).
  assert (H32 : coord 32) by (unfold coord, COORD_MAX; lia).
  assert (Hr : 5 <= 2 ^ 12) by lia.
  assert (Hf : 5 < Z.of_nat 6) by lia.
  split; [repeat split; try lia; apply H64 || apply H32|].
  exact (proj2 (drawCircle_outline_points (fun _ => 0) 6 64 32 5 blank H64 H32 Hr Hf)).
Defined.

(** X7: what [display] puts on the bus is taken in by the display whose
    pins differ for chip select and data/command as eight page addresses
    (page, column 0) on the command side and, on the data side, the 1024
    bytes of the frame buffer in order, whatever the levels of the two
    lines before. *)
Theorem display_sends_frame (d : Display.pins) (b : list Z) (cs dc : bool) :
  Display._cs d <> Display._dc d -> length b = 1024%nat ->
  received d true cs dc (Display.display d b) = b /\
  received d false cs dc (Display.display d b) =
    seqZ 0 8 ≫= (fun page => [0xB0 + page; 0x00; 0x10]).
Proof. apply display_received. Qed.

Lemma display_sends_frame_witness :
  (Display._cs example_pins <> Display._dc example_pins /\ length blank = 1024%nat) /\
  received example_pins true false false (Display.display example_pins blank) = blank /\
  received example_pins false false false (Display.display example_pins blank) =
    seqZ 0 8 ≫= (fun page => [0xB0 + page; 0x00; 0x10]).
Proof.
  assert (Hp : Display._cs example_pins <> Display._dc example_pins) by (cbn; lia).
  assert (Hl : length blank = 1024%nat) by apply length_replicate.
  split; [split; [exact Hp|exact Hl]|].
  exact (display_sends_frame example_pins blank false false Hp Hl).
Defined.

End Drawing.

(* ================================================================== *)
(** ** The title scroller *)
(* ================================================================== *)

Section Scroller.

Import Spec.
Local Open Scope Z_scope.

Variable FT_Load_Char : Z -> ascii -> bool -> option Font.glyph.
Variable fm : Font.FontManager.
Variable size : Font.FontSize.
Variable max_width : Z.
Hypothesis Hinit : Font.initialized fm = true.

Lemma at_rest_call (text : string) (now : Z) (st : TextScroller.state) :
  Font.getTextWidth FT_Load_Char fm text size <= max_width ->
  at_rest FT_Load_Char fm size text st ->
  let r := TextScroller.getScrollingText FT_Load_Char now max_width (Some fm) size st in
  at_rest FT_Load_Char fm size text (fst r) /\ snd r = text.
Proof using Hinit.
  intros Hw (Ht & Hs & Hp & Hc & Hn & Hwd). cbv zeta.
  unfold TextScroller.getScrollingText, Font.isInitialized. rewrite Hinit. cbn [negb orb].
  destruct (TextScroller.empty (TextScroller.current_text st)).
  { cbn [fst snd]. unfold at_rest. auto 10. }
  destruct (TextScroller.text_width_pixels st =? 0) eqn:E.
  - rewrite Ht. 
    replace (max_width <? Font.getTextWidth FT_Load_Char fm text size) with false
      by (symmetry; apply Z.ltb_ge; exact Hw).
    cbn. unfold at_rest. cbn. auto 10.
  - rewrite Hn. cbn. unfold at_rest. auto 10.
Qed.

(** X11: with an initialised font manager, a scroller given a new text
    that is no wider than the room returns the whole text at every call,
    whatever the clock shows, and stays paused at the start: position 0,
    the full pause left. *)
Theorem scroller_fitting_text (text : string) (nows : list Z) (st : TextScroller.state) :
  Font.getTextWidth FT_Load_Char fm text size <= max_width ->
  String.eqb text (TextScroller.current_text st) = false ->
  let r := scroll_calls FT_Load_Char nows max_width fm size (TextScroller.setText text st) in
  Forall (eq text) (snd r) /\ length (snd r) = length nows /\
  TextScroller.current_text (fst r) = text /\
  TextScroller.scroll_state (fst r) = TextScroller.PAUSED_AT_START /\
  TextScroller.scroll_position (fst r) = F32.zero /\
  TextScroller.pause_counter (fst r) = TextScroller.SCROLL_PAUSE_MS.
Proof using Hinit.
  intros Hw Hne. cbv zeta.
  assert (H0 : at_rest FT_Load_Char fm size text (TextScroller.setText text st)).
  { unfold TextScroller.setText. rewrite Hne. cbn. unfold at_rest. cbn. auto 10. }
  revert H0. generalize (TextScroller.setText text st). clear st Hne.
  induction nows as [|now rest IH]; intros st H0.
  - cbn. destruct H0 as (? & ? & ? & ? & _). auto 10.
  - cbn [scroll_calls].
    destruct (at_rest_call text now st Hw H0) as [H1 Hs].
    destruct (TextScroller.getScrollingText FT_Load_Char now max_width (Some fm) size st)
      as [st1 s]. cbn [fst snd] in H1, Hs.
    specialize (IH st1 H1).
    destruct (scroll_calls FT_Load_Char rest max_width fm size st1) as [st2 ss].
    cbn [fst snd] in *. destruct IH as (F & L & R). subst s.
    split; [constructor; auto|]. split; [cbn [length]; congruence|exact R].
Qed.

Lemma createVisibleText_ext (st1 st2 : TextScroller.state) :
  TextScroller.current_text st1 = TextScroller.current_text st2 ->
  TextScroller.scroll_position st1 = TextScroller.scroll_position st2 ->
  TextScroller.createVisibleText FT_Load_Char max_width fm size st1 =
  TextScroller.createVisibleText FT_Load_Char max_width fm size st2.
Proof. intros H1 H2. unfold TextScroller.createVisibleText. now rewrite H1, H2. Qed.

Lemma getTextWidth_empty : Font.getTextWidth FT_Load_Char fm "" size = 0.
Proof. clear Hinit. unfold Font.getTextWidth. destruct (Font.initialized fm); reflexivity. Qed.

Lemma wide_nonempty (text : string) :
  0 <= max_width ->
  max_width < Font.getTextWidth FT_Load_Char fm text size ->
  TextScroller.empty text = false.
Proof.
  intros H0 Hw. destruct text; [|reflexivity].
  rewrite getTextWidth_empty in Hw. lia.
Qed.

Lemma waiting_call (text : string) (now : Z) (st : TextScroller.state) :
  0 <= max_width ->
  max_width < Font.getTextWidth FT_Load_Char fm text size ->
  waiting text st ->
  TextScroller.last_scroll_time st <= now ->
  let e := Z.quot (now - TextScroller.last_scroll_time st) 1000000 in
  let r := TextScroller.getScrollingText FT_Load_Char now max_width (Some fm) size st in
  e < 2 ^ 31 ->
  TextScroller.current_text (fst r) = text /\
  TextScroller.scroll_position (fst r) = F32.zero /\
  TextScroller.last_scroll_time (fst r) = now /\
  TextScroller.needs_scrolling (fst r) = true /\
  snd r = TextScroller.createVisibleText FT_Load_Char max_width fm size st /\
  (if TextScroller.pause_counter st <=? e
   then TextScroller.scroll_state (fst r) = TextScroller.SCROLLING /\
        TextScroller.pause_counter (fst r) = 0
   else TextScroller.scroll_state (fst r) = TextScroller.PAUSED_AT_START /\
        TextScroller.pause_counter (fst r) = TextScroller.pause_counter st - e).
Proof using Hinit.
  intros H0 Hw (Ht & Hs & Hp & Hc & Hn) Hl e r He.
  assert (E0 : 0 <= e) by (apply Z.quot_pos; lia).
  subst r. unfold TextScroller.getScrollingText, Font.isInitialized.
  rewrite Hinit, Ht, (wide_nonempty text H0 Hw). cbn [negb orb].
  set (st1 := if TextScroller.text_width_pixels st =? 0 then _ else st).
  assert (H1 : TextScroller.current_text st1 = text /\
               TextScroller.scroll_state st1 = TextScroller.PAUSED_AT_START /\
               TextScroller.scroll_position st1 = F32.zero /\
               TextScroller.pause_counter st1 = TextScroller.pause_counter st /\
               TextScroller.last_scroll_time st1 = TextScroller.last_scroll_time st /\
               TextScroller.needs_scrolling st1 = true).
  { subst st1. destruct (TextScroller.text_width_pixels st =? 0) eqn:E.
    - cbn. repeat split; auto. apply Z.ltb_lt. exact Hw.
    - destruct Hn as [Hn|Hn]; [apply Z.eqb_neq in E; lia|]. repeat split; auto. }
  clearbody st1. destruct H1 as (T1 & S1 & P1 & C1 & L1 & N1).
  rewrite N1, S1, L1, C1. cbn [negb]. fold e.
  unfold TextScroller.SCROLL_PAUSE_MS in Hc.
  rewrite int_small by lia.
  destruct (TextScroller.pause_counter st <=? e) eqn:E.
  - replace (TextScroller.pause_counter st - e <=? 0) with true
      by (symmetry; apply Z.leb_le; apply Z.leb_le in E; lia).
    cbn. repeat split; auto.
    apply createVisibleText_ext; cbn; congruence.
  - replace (TextScroller.pause_counter st - e <=? 0) with false
      by (symmetry; apply Z.leb_gt; apply Z.leb_gt in E; lia).
    cbn. repeat split; auto.
    apply createVisibleText_ext; cbn; congruence.
Qed.

Lemma last_cons (a d : Z) (l : list Z) : List.last (a :: l) d = List.last l a.
Proof.
  revert a d. induction l as [|b l IH]; intros a d; [reflexivity|].
  change (List.last (a :: b :: l) d) with (List.last (b :: l) d).
  rewrite !IH. reflexivity.
Qed.

Lemma waiting_calls (text : string) (nows : list Z) (st : TextScroller.state) :
  0 <= max_width ->
  max_width < Font.getTextWidth FT_Load_Char fm text size ->
  waiting text st ->
  monotone (TextScroller.last_scroll_time st) nows ->
  whole_ms (TextScroller.last_scroll_time st) nows < TextScroller.pause_counter st ->
  let r := scroll_calls FT_Load_Char nows max_width fm size st in
  waiting text (fst r) /\
  TextScroller.pause_counter (fst r) =
    TextScroller.pause_counter st - whole_ms (TextScroller.last_scroll_time st) nows /\
  TextScroller.last_scroll_time (fst r) = List.last nows (TextScroller.last_scroll_time st) /\
  Forall (eq (TextScroller.createVisibleText FT_Load_Char max_width fm size st)) (snd r) /\
  length (snd r) = length nows.
Proof using Hinit.
  intros H0 Hw. revert st.
  induction nows as [|now rest IH]; intros st Hst Hm Hms; cbv zeta.
  - cbn. split; [exact Hst|]. repeat split; auto. lia.
  - cbn [scroll_calls]. cbn [monotone] in Hm. destruct Hm as [Hl Hm].
    cbn [whole_ms] in Hms.
    assert (Hr : 0 <= whole_ms now rest).
    { clear -Hm. revert now Hm. induction rest as [|a rest IH]; intros now Hm; cbn; [lia|].
      destruct Hm as [Hl Hm]. specialize (IH a Hm).
      assert (0 <= (a - now) ÷ 1000000) by (apply Z.quot_pos; lia). lia. }
    pose proof Hst as (Ht & Hs & Hp & Hc & Hn).
    unfold TextScroller.SCROLL_PAUSE_MS in Hc.
    assert (E0 : 0 <= (now - TextScroller.last_scroll_time st) ÷ 1000000)
      by (apply Z.quot_pos; lia).
    assert (He : (now - TextScroller.last_scroll_time st) ÷ 1000000 < 2 ^ 31) by lia.
    pose proof (waiting_call text now st H0 Hw Hst Hl He) as H1. cbv zeta in H1.
    destruct (TextScroller.getScrollingText FT_Load_Char now max_width (Some fm) size st)
      as [st1 s]. cbn [fst snd] in H1.
    destruct H1 as (T1 & P1 & L1 & N1 & S1 & H1).
    replace (TextScroller.pause_counter st <=?
             (now - TextScroller.last_scroll_time st) ÷ 1000000) with false in H1
      by (symmetry; apply Z.leb_gt; lia).
    destruct H1 as [SS1 C1].
    assert (W1 : waiting text st1).
    { unfold waiting, TextScroller.SCROLL_PAUSE_MS. repeat split; auto; lia. }
    rewrite <- L1 in Hm.
    assert (Hms1 : whole_ms (TextScroller.last_scroll_time st1) rest
                   < TextScroller.pause_counter st1) by (rewrite L1, C1; lia).
    specialize (IH st1 W1 Hm Hms1). cbv zeta in IH.
    destruct (scroll_calls FT_Load_Char rest max_width fm size st1) as [st2 ss].
    cbn [fst snd] in *. destruct IH as (W2 & C2 & L2 & F2 & N2).
    split; [exact W2|]. split; [cbn [whole_ms]; rewrite C2, C1, L1; lia|].
    split; [rewrite L2, L1; symmetry; apply last_cons|].
    split; [|cbn [length]; congruence].
    constructor; [now symmetry|].
    eapply Forall_impl; [exact F2|]. intros x <-.
    apply createVisibleText_ext; congruence.
Qed.

End Scroller.

(* ================================================================== *)
(** ** The title line *)
(* ================================================================== *)

Section Title.

Import Spec.
Local Open Scope Z_scope.

Variable FT_Load_Char : Z -> ascii -> bool -> option Font.glyph.

Lemma drawText_pixels (font : option Font.FontManager) (x y : Z) (text : string)
    (size : Font.FontSize) (b : list Z) :
  frame b ->
  let b' := Display.drawText FT_Load_Char font x y text size b in
  frame b' /\
  forall px py, on_screen px py ->
    (pixel b' px py = true <->
     pixel b px py = true \/ (px, py) ∈ drawn_text FT_Load_Char font text x y size).
Proof.
  intros Hb. cbv zeta. unfold Display.drawText, drawn_text, Font.isInitialized.
  destruct font as [fm|].
  2:{ split; [exact Hb|]. intros px py _. rewrite elem_of_nil. tauto. }
  destruct (renderText_pixels FT_Load_Char fm text x y size false b Hb) as (_ & F & _ & P).
  destruct (Font.initialized fm); cbn [negb].
  - split; [exact F|]. apply P. reflexivity.
  - split; [exact Hb|]. intros px py _. rewrite elem_of_nil. tauto.
Qed.

(** Drawing the title keeps the frame buffer well formed and clears no
    pixel. *)
Lemma drawTitleWithMPD_frame (now : Z) (mpd : MPD.state) (name : string) (y : Z)
    (is_left : bool) (d : Viz.Display) (v : Viz.Visualization) :
  frame (Viz.buffer d) -> 1 <= y <= 255 ->
  (forall fm, Viz.font_manager v = Some fm ->
     0 <= Font.getTextWidth FT_Load_Char fm name Font.SMALL) ->
  let r := Viz.drawTitleWithMPD FT_Load_Char now mpd name y is_left (d, v) in
  frame (Viz.buffer (fst r)) /\
  Viz.pins_of (fst r) = Viz.pins_of d /\
  Viz.display_font (fst r) = Viz.display_font d /\
  forall px py, on_screen px py ->
    pixel (Viz.buffer d) px py = true -> pixel (Viz.buffer (fst r)) px py = true.
Proof.
  intros Hb Hy Hw. cbv zeta. unfold Viz.drawTitleWithMPD.
  rewrite (uint8_small y) by lia.
  destruct (drawText_pixels (Viz.display_font d) 0 y name Font.SMALL _ Hb) as [F1 P1].
  set (b1 := Display.drawText _ _ 0 y name _ _) in *.
  destruct (Viz.mpd_client v); cbn [negb].
  2:{ cbn. split; [exact F1|]. do 2 (split; [reflexivity|]).
      intros px py Hp H. apply P1; auto. }
  destruct (Viz.font_manager v) as [fm|] eqn:Efm.
  2:{ cbn. split; [exact F1|]. do 2 (split; [reflexivity|]).
      intros px py Hp H. apply P1; auto. }
  specialize (Hw fm eq_refl).
  set (w := Font.getTextWidth FT_Load_Char fm name Font.SMALL) in *.
  destruct (negb _ && (20 <? _)) eqn:C.
  2:{ cbn. split; [exact F1|]. do 2 (split; [reflexivity|]).
      intros px py Hp H. apply P1; auto. }
  apply andb_true_iff in C. destruct C as [_ C]. apply Z.ltb_lt in C.
  pose proof (int_range (w + 8)) as Hr.
  destruct (TextScroller.getScrollingText _ _ _ _ _ _) as [sc scrolled].
  cbn [fst Viz.with_buffer Viz.buffer Viz.pins_of Viz.display_font].
  assert (Hwr : w < 2 ^ 31).
  { subst w. rewrite getTextWidth_sum. destruct (Font.initialized fm); [apply int_range|lia]. }
  assert (Hx : 0 <= C.int (w + 8) < 108).
  { revert C. unfold C.int. intros C. Z.to_euclidean_division_equations. lia. }
  destruct (_ <? _) eqn:Cw.
  - destruct (Font.initialized fm) eqn:Hi.
    + destruct (renderClippedText_pixels FT_Load_Char fm (C.int (w + 8)) y scrolled
                  (C.int (128 - C.int (w + 8))) Font.SMALL b1 Hi F1) as [F2 P2]; try lia.
      split; [exact F2|]. do 2 (split; [reflexivity|]).
      intros px py Hp H. apply P2; auto. left. apply P1; auto.
    + exfalso. rewrite getTextWidth_sum, Hi in Cw. apply Z.ltb_lt in Cw. lia.
  - destruct (drawText_pixels (Viz.display_font d) (C.uint8_t (C.int (w + 8))) y scrolled
                Font.SMALL _ F1) as [F2 P2].
    split; [exact F2|]. do 2 (split; [reflexivity|]).
    intros px py Hp H. apply P2; auto. left. apply P1; auto.
Qed.

Lemma with_scroller_get (is_left : bool) (sc : TextScroller.state) (v : Viz.Visualization) :
  (if is_left then Viz.title_scroller_left (Viz.with_scroller is_left sc v)
   else Viz.title_scroller_right (Viz.with_scroller is_left sc v)) = sc.
Proof. destruct is_left; reflexivity. Qed.

(** X13: with an MPD client and an initialised font manager,
    [drawTitleWithMPD] given a song text that is new to the title's
    scroller, not empty, and no wider than the room left of more than 20
    pixels, draws the name at column 0 and the whole text 8 pixels after
    the width of the name, both with the display's own font manager, and
    leaves the scroller paused at the start. *)
Theorem title_with_fitting_text (now : Z) (mpd : MPD.state) (name : string) (y : Z)
    (is_left : bool) (d : Viz.Display) (v : Viz.Visualization) (fm : Font.FontManager) :
  Viz.mpd_client v = true -> Viz.font_manager v = Some fm -> Font.initialized fm = true ->
  frame (Viz.buffer d) -> 0 <= y <= 255 ->
  let text := MPD.getFormattedText mpd in
  let x := Font.getTextWidth FT_Load_Char fm name Font.SMALL + 8 in
  let scroller := if is_left then Viz.title_scroller_left v else Viz.title_scroller_right v in
  TextScroller.empty text = false ->
  String.eqb text (TextScroller.current_text scroller) = false ->
  0 <= x < 108 ->
  Font.getTextWidth FT_Load_Char fm text Font.SMALL <= 128 - x ->
  let r := Viz.drawTitleWithMPD FT_Load_Char now mpd name y is_left (d, v) in
  let scroller' :=
    if is_left then Viz.title_scroller_left (snd r) else Viz.title_scroller_right (snd r) in
  frame (Viz.buffer (fst r)) /\
  (forall px py, on_screen px py ->
     (pixel (Viz.buffer (fst r)) px py = true <->
      pixel (Viz.buffer d) px py = true \/
      (px, py) ∈ drawn_text FT_Load_Char (Viz.display_font d) name 0 y Font.SMALL \/
      (px, py) ∈ drawn_text FT_Load_Char (Viz.display_font d) text x y Font.SMALL)) /\
  TextScroller.current_text scroller' = text /\
  TextScroller.scroll_state scroller' = TextScroller.PAUSED_AT_START /\
  TextScroller.scroll_position scroller' = F32.zero /\
  TextScroller.pause_counter scroller' = TextScroller.SCROLL_PAUSE_MS.
Proof.
  intros Hm Hfm Hi Hb Hy text x scroller Hne Hnew Hx Hfit r scroller'.
  subst r scroller'. unfold Viz.drawTitleWithMPD.
  rewrite (uint8_small y) by lia.
  destruct (drawText_pixels (Viz.display_font d) 0 y name Font.SMALL _ Hb) as [F1 P1].
  set (b1 := Display.drawText _ _ 0 y name _ _) in *.
  rewrite Hm, Hfm. cbn [negb]. fold text x.
  rewrite (int_small x), (int_small (128 - x)) by lia.
  rewrite Hne. cbn [negb andb].
  replace (20 <? 128 - x) with true by (symmetry; apply Z.ltb_lt; lia).
  fold scroller.
  assert (H0 : at_rest FT_Load_Char fm Font.SMALL text (TextScroller.setText text scroller)).
  { unfold TextScroller.setText. rewrite Hnew. cbn. unfold at_rest. cbn. auto 10. }
  pose proof (at_rest_call FT_Load_Char fm Font.SMALL (128 - x) Hi text now _ Hfit H0) as H1.
  cbv zeta in H1.
  destruct (TextScroller.getScrollingText _ _ _ _ _ _) as [sc scrolled].
  cbn [fst snd] in H1. destruct H1 as [(T & S & P & C & _) ->].
  replace (128 - x <? Font.getTextWidth FT_Load_Char fm text Font.SMALL) with false
    by (symmetry; apply Z.ltb_ge; exact Hfit).
  cbn [fst snd Viz.with_buffer Viz.buffer]. rewrite with_scroller_get.
  rewrite (uint8_small x) by lia.
  destruct (drawText_pixels (Viz.display_font d) x y text Font.SMALL _ F1) as [F2 P2].
  split; [exact F2|]. split; [|auto].
  intros px py Hp. rewrite (P2 px py Hp), (P1 px py Hp). tauto.
Qed.

End Title.

(* ================================================================== *)
(** ** Properties of text and titles *)
(* ================================================================== *)

Section TextEntries.

Import Spec.
Local Open Scope Z_scope.

(** X8: [renderText] on a frame buffer answers whether the font manager
    is initialised.  If it is not, the buffer is untouched.  If it is, the
    pixels lit afterwards are those lit before and the pixels of the
    glyphs that fall on the screen, each glyph placed at the pen position
    reached through the advances of the characters before it; a character
    FreeType cannot load is skipped without moving the pen. *)
Theorem renderText_picture (FT_Load_Char : Z -> ascii -> bool -> option Font.glyph)
    (fm : Font.FontManager) (text : string) (x y : Z)
    (size : Font.FontSize) (invert : bool) (b : list Z) :
  frame b ->
  let r := Font.renderText FT_Load_Char fm text b 128 64 x y size invert in
  let pts := text_points FT_Load_Char (Font.select_face fm size) text x y invert in
  snd r = Font.initialized fm /\ frame (fst r) /\
  (Font.initialized fm = false -> fst r = b) /\
  (Font.initialized fm = true ->
   forall px py, on_screen px py ->
     (pixel (fst r) px py = true <-> pixel b px py = true \/ (px, py) ∈ pts)).
Proof. apply renderText_pixels. Qed.

Lemma renderText_picture_witness :
  frame blank /\
  snd (Font.renderText example_FT example_font "ab" blank 128 64 10 5 Font.SMALL false)
    = Font.initialized example_font /\
  (Font.initialized example_font = true ->
   forall px py, on_screen px py ->
     (pixel (fst (Font.renderText example_FT example_font "ab" blank 128 64 10 5
                    Font.SMALL false)) px py = true <->
      pixel blank px py = true \/
      (px, py) ∈ text_points example_FT (Font.select_face example_font Font.SMALL)
                   "ab" 10 5 false)).
Proof.
  split; [exact frame_blank|].
  pose proof (renderText_picture example_FT example_font "ab" 10 5 Font.SMALL false blank
                frame_blank) as H.
  exact (conj (proj1 H) (proj2 (proj2 (proj2 H)))).
Defined.

(** X9: the width of a text is 0 without an initialised font manager and
    otherwise the sum of the advances, in whole pixels, of its characters
    that FreeType loads, up to the first NUL, wrapped to an [int]; hence
    the width of two texts joined is the wrapped sum of their widths. *)
Theorem getTextWidth_advances (FT_Load_Char : Z -> ascii -> bool -> option Font.glyph)
    (fm : Font.FontManager) (size : Font.FontSize) (a b : string) :
  Font.getTextWidth FT_Load_Char fm a size =
    (if Font.initialized fm
     then C.int (sum (advances FT_Load_Char (Font.select_face fm size) a))
     else 0) /\
  (no_NUL a ->
   Font.getTextWidth FT_Load_Char fm (a ++ b) size =
   C.int (Font.getTextWidth FT_Load_Char fm a size
          + Font.getTextWidth FT_Load_Char fm b size)).
Proof.
  split; [apply getTextWidth_sum|]. intros Ha.
  rewrite !getTextWidth_sum. destruct (Font.initialized fm); [|reflexivity].
  rewrite advances_app, sum_app by exact Ha.
  set (wa := sum (advances FT_Load_Char (Font.select_face fm size) a)).
  set (wb := sum (advances FT_Load_Char (Font.select_face fm size) b)).
  rewrite (int_int_add wa (C.int wb)), (Z.add_comm wa (C.int wb)), (int_int_add wb wa).
  now rewrite (Z.add_comm wb wa).
Qed.

Lemma getTextWidth_advances_witness :
  no_NUL "ab" /\
  Font.getTextWidth example_FT example_font ("ab" ++ "c") Font.SMALL =
  C.int (Font.getTextWidth example_FT example_font "ab" Font.SMALL
         + Font.getTextWidth example_FT example_font "c" Font.SMALL).
Proof.
  assert (Ha : no_NUL "ab") by (repeat constructor; discriminate).
  split; [exact Ha|].
  exact (proj2 (getTextWidth_advances example_FT example_font Font.SMALL "ab" "c") Ha).
Defined.

(** X10: [renderClippedText] at a column [x >= 0] and a base line
    [y >= 1] lights, besides what was lit, the pixels of the text drawn
    with its pen starting at column 0 and moved [x] columns to the right,
    as far as they lie within [clip_width] columns from [x] and in the
    pages from [(y - 8) / 8] to [(y + 8) / 8]; nothing else changes. *)
Theorem renderClippedText_picture (FT_Load_Char : Z -> ascii -> bool -> option Font.glyph)
    (fm : Font.FontManager) (x y : Z) (text : string)
    (clip_width : Z) (size : Font.FontSize) (b : list Z) :
  Font.initialized fm = true ->
  frame b -> 0 <= x -> 1 <= y <= 1000 ->
  let R := Viz.renderClippedText FT_Load_Char fm x y text clip_width size b in
  frame R /\
  forall px py, on_screen px py ->
    (pixel R px py = true <->
     pixel b px py = true \/
     (x <= px < x + clip_width /\ (y - 8) ÷ 8 <= py / 8 <= (y + 8) ÷ 8 /\
      (px - x, py) ∈ text_points FT_Load_Char (Font.select_face fm size) text 0 y false)).
Proof. apply renderClippedText_pixels. Qed.

Lemma renderClippedText_picture_witness :
  (Font.initialized example_font = true /\ frame blank /\ 0 <= 68 /\ 1 <= 5 <= 1000) /\
  frame (Viz.renderClippedText example_FT example_font 68 5 example_long_text 60
           Font.SMALL blank) /\
  forall px py, on_screen px py ->
    (pixel (Viz.renderClippedText example_FT example_font 68 5 example_long_text 60
              Font.SMALL blank) px py = true <->
     pixel blank px py = true \/
     (68 <= px < 68 + 60 /\ (5 - 8) ÷ 8 <= py / 8 <= (5 + 8) ÷ 8 /\
      (px - 68, py) ∈ text_points example_FT (Font.select_face example_font Font.SMALL)
                        example_long_text 0 5 false)).
Proof.
  assert (Hx : 0 <= 68) by lia.
  assert (Hy : 1 <= 5 <= 1000) by lia.
  split; [repeat split; try lia; try reflexivity; apply frame_blank|].
  exact (renderClippedText_picture example_FT example_font 68 5 example_long_text 60
           Font.SMALL blank eq_refl frame_blank Hx Hy).
Defined.

Lemma scroller_fitting_text_witness :
  (Font.initialized example_font = true /\
   Font.getTextWidth example_FT example_font "Blue" Font.SMALL <= 60 /\
   String.eqb "Blue" (TextScroller.current_text (TextScroller.TextScroller 0)) = false) /\
  Forall (eq "Blue"%string)
    (snd (scroll_calls example_FT [5000000000; 9000000000] 60 example_font Font.SMALL
            (TextScroller.setText "Blue" (TextScroller.TextScroller 0)))).
Proof.
  assert (Hw : Font.getTextWidth example_FT example_font "Blue" Font.SMALL <= 60)
    by (vm_compute; discriminate).
  split; [repeat split; try reflexivity; exact Hw|].
  exact (proj1 (scroller_fitting_text example_FT example_font Font.SMALL 60 eq_refl "Blue"
                  [5000000000; 9000000000] (TextScroller.TextScroller 0)
                  Hw eq_refl)).
Defined.

(** X12: a scroller given a new text wider than the room waits before it
    moves.  While the whole milliseconds counted by its calls stay below
    2000 it is paused at position 0, with 2000 less that count left, and
    returns the same string at every call; the first call that brings the
    count to 2000 starts the scrolling.  The count starts at the time of
    the last timed call before the text was set, which [setText] leaves
    alone. *)
Theorem scroller_start_pause (FT_Load_Char : Z -> ascii -> bool -> option Font.glyph)
    (fm : Font.FontManager) (size : Font.FontSize) (max_width : Z)
    (text : string) (nows : list Z) (now : Z) (st : TextScroller.state) :
  Font.initialized fm = true -> 0 <= max_width ->
  max_width < Font.getTextWidth FT_Load_Char fm text size ->
  String.eqb text (TextScroller.current_text st) = false ->
  monotone (TextScroller.last_scroll_time st) (nows ++ [now]) ->
  whole_ms (TextScroller.last_scroll_time st) nows < 2000 ->
  2000 <= whole_ms (TextScroller.last_scroll_time st) (nows ++ [now]) < 2 ^ 31 ->
  let r := scroll_calls FT_Load_Char nows max_width fm size (TextScroller.setText text st) in
  let r' := TextScroller.getScrollingText FT_Load_Char now max_width (Some fm) size (fst r) in
  TextScroller.scroll_state (fst r) = TextScroller.PAUSED_AT_START /\
  TextScroller.scroll_position (fst r) = F32.zero /\
  TextScroller.pause_counter (fst r)
    = 2000 - whole_ms (TextScroller.last_scroll_time st) nows /\
  Forall (eq (TextScroller.createVisibleText FT_Load_Char max_width fm size
                (TextScroller.setText text st))) (snd r ++ [snd r']) /\
  TextScroller.scroll_state (fst r') = TextScroller.SCROLLING /\
  TextScroller.scroll_position (fst r') = F32.zero /\
  TextScroller.pause_counter (fst r') = 0.
Proof.
  intros Hi H0 Hw Hnew Hm Hlt Hge r r'.
  assert (W0 : waiting text (TextScroller.setText text st)).
  { unfold TextScroller.setText. rewrite Hnew. cbn. unfold waiting. cbn.
    unfold TextScroller.SCROLL_PAUSE_MS. repeat split; auto; lia. }
  assert (L0 : TextScroller.last_scroll_time (TextScroller.setText text st)
               = TextScroller.last_scroll_time st).
  { unfold TextScroller.setText. rewrite Hnew. reflexivity. }
  assert (C0 : TextScroller.pause_counter (TextScroller.setText text st) = 2000).
  { unfold TextScroller.setText. rewrite Hnew. reflexivity. }
  assert (Hsplit : forall l last,
            monotone last (l ++ [now]) ->
            monotone last l /\ List.last l last <= now /\ 0 <= whole_ms last l /\
            whole_ms last (l ++ [now]) =
              whole_ms last l + Z.quot (now - List.last l last) 1000000).
  { induction l as [|a l IH]; intros last Hml.
    - cbn in *. repeat split; lia.
    - cbn [app monotone whole_ms] in *. destruct Hml as [Hla Hml].
      destruct (IH a Hml) as (M & Ll & Nl & Wl). rewrite last_cons.
      assert (0 <= Z.quot (a - last) 1000000) by (apply Z.quot_pos; lia).
      repeat split; auto; lia. }
  destruct (Hsplit nows _ Hm) as (Hm1 & Hlast & Hnn & Hsum).
  pose proof (waiting_calls FT_Load_Char fm size max_width Hi text nows
                (TextScroller.setText text st) H0 Hw W0) as H.
  rewrite L0, C0 in H. specialize (H Hm1 Hlt). cbv zeta in H.
  fold r in H. destruct H as (W1 & C1 & L1 & F1 & N1).
  pose proof (waiting_call FT_Load_Char fm size max_width Hi text now (fst r) H0 Hw W1) as H.
  rewrite L1 in H. specialize (H Hlast). cbv zeta in H. fold r' in H.
  destruct H as (T2 & P2 & L2 & N2 & S2 & H); [lia|].
  replace (TextScroller.pause_counter (fst r) <=?
           Z.quot (now - List.last nows (TextScroller.last_scroll_time st)) 1000000)
    with true in H by (symmetry; apply Z.leb_le; lia).
  destruct H as [SS2 C2]. destruct W1 as (T1 & S1 & P1 & _).
  repeat split; auto.
  apply Forall_app. split; [exact F1|]. constructor; [|constructor].
  rewrite S2. apply createVisibleText_ext.
  - rewrite T1. unfold TextScroller.setText. rewrite Hnew. reflexivity.
  - rewrite P1. unfold TextScroller.setText. rewrite Hnew. reflexivity.
Qed.

Lemma scroller_start_pause_witness :
  (Font.initialized example_font = true /\ 0 <= 60 /\
   60 < Font.getTextWidth example_FT example_font example_long_text Font.SMALL /\
   String.eqb example_long_text (TextScroller.current_text (TextScroller.TextScroller 0))
     = false /\
   monotone (TextScroller.last_scroll_time (TextScroller.TextScroller 0))
     ([500000000; 1500000000] ++ [2100000000]) /\
   whole_ms (TextScroller.last_scroll_time (TextScroller.TextScroller 0))
     [500000000; 1500000000] < 2000 /\
   2000 <= whole_ms (TextScroller.last_scroll_time (TextScroller.TextScroller 0))
             ([500000000; 1500000000] ++ [2100000000]) < 2 ^ 31) /\
  TextScroller.pause_counter
    (fst (scroll_calls example_FT [500000000; 1500000000] 60 example_font Font.SMALL
            (TextScroller.setText example_long_text (TextScroller.TextScroller 0))))
  = 2000 - whole_ms (TextScroller.last_scroll_time (TextScroller.TextScroller 0))
             [500000000; 1500000000].
Proof.
  assert (H0 : 0 <= 60) by lia.
  assert (Hw : 60 < Font.getTextWidth example_FT example_font example_long_text Font.SMALL)
    by (vm_compute; reflexivity).
  assert (Hm : monotone (TextScroller.last_scroll_time (TextScroller.TextScroller 0))
                 ([500000000; 1500000000] ++ [2100000000]))
    by (cbn; lia).
  assert (Hlt : whole_ms (TextScroller.last_scroll_time (TextScroller.TextScroller 0))
                  [500000000; 1500000000] < 2000)
    by (vm_compute; reflexivity).
  assert (Hge : 2000 <= whole_ms (TextScroller.last_scroll_time (TextScroller.TextScroller 0))
                          ([500000000; 1500000000] ++ [2100000000]) < 2 ^ 31)
    by (split; vm_compute; [discriminate|reflexivity]).
  split; [repeat split; try reflexivity; try lia; try exact Hw; try exact Hlt;
          try apply Hge; apply Hm|].
  exact (proj1 (proj2 (proj2
    (scroller_start_pause example_FT example_font Font.SMALL 60 example_long_text
       [500000000; 1500000000] 2100000000 (TextScroller.TextScroller 0)
       eq_refl H0 Hw eq_refl Hm Hlt Hge)))).
Defined.

Lemma title_with_fitting_text_witness :
  (Viz.mpd_client example_viz = true /\ Viz.font_manager example_viz = Some example_font /\
   Font.initialized example_font = true /\ frame (Viz.buffer example_display) /\
   0 <= 5 <= 255 /\
   TextScroller.empty (MPD.getFormattedText MPD.MPDClient) = false /\
   String.eqb (MPD.getFormattedText MPD.MPDClient)
     (TextScroller.current_text (Viz.title_scroller_left example_viz)) = false /\
   0 <= Font.getTextWidth example_FT example_font "VU" Font.SMALL + 8 < 108 /\
   Font.getTextWidth example_FT example_font (MPD.getFormattedText MPD.MPDClient) Font.SMALL
     <= 128 - (Font.getTextWidth example_FT example_font "VU" Font.SMALL + 8)) /\
  TextScroller.current_text
    (Viz.title_scroller_left
       (snd (Viz.drawTitleWithMPD example_FT 0 MPD.MPDClient "VU" 5 true
               (example_display, example_viz))))
  = MPD.getFormattedText MPD.MPDClient.
Proof.
  assert (Hy : 0 <= 5 <= 255) by lia.
  assert (Hx : 0 <= Font.getTextWidth example_FT example_font "VU" Font.SMALL + 8 < 108)
    by (vm_compute; split; [discriminate|reflexivity]).
  assert (Hw : Font.getTextWidth example_FT example_font (MPD.getFormattedText MPD.MPDClient)
                 Font.SMALL
               <= 128 - (Font.getTextWidth example_FT example_font "VU" Font.SMALL + 8))
    by (vm_compute; discriminate).
  split; [repeat split; try reflexivity; try lia; try apply Hx; try exact Hw;
          apply frame_blank|].
  exact (proj1 (proj2 (proj2
    (title_with_fitting_text example_FT 0 MPD.MPDClient "VU" 5 true
       example_display example_viz example_font
       eq_refl eq_refl eq_refl frame_blank Hy eq_refl eq_refl Hx Hw)))).
Defined.

End TextEntries.

(* ================================================================== *)
(** ** The needle of the VU meter *)
(* ================================================================== *)

Section Needle.

Import Spec.
Local Open Scope Z_scope.

Variable indef : float -> Z.

Lemma to_int_agree (i1 i2 : float -> Z) (x : float) :
  F32.to_int (fun _ => 0) x = F32.to_int (fun _ => 1) x ->
  F32.to_int i1 x = F32.to_int i2 x.
Proof.
  destruct x as [s| | |s m e]; cbn [F32.to_int]; try discriminate; [reflexivity|].
  cbv zeta. destruct (_ && _)%bool; [reflexivity|discriminate].
Qed.

Lemma needle_pos_all : forallb needle_pos_ok (seqZ 0 256) = true.
Proof. vm_compute. reflexivity. Qed.

Lemma needle_pos (n : Z) :
  0 <= n <= 255 ->
  F32.to_int indef (F32.mul (F32.div (F32.of_int n) (F32.of_int 255)) (F32.of_int 127))
  = n * 127 / 255.
Proof.
  intros Hn. pose proof needle_pos_all as H.
  rewrite forallb_forall in H. specialize (H n).
  unfold needle_pos_ok in H. cbv zeta in H.
  rewrite andb_true_iff, !Z.eqb_eq in H.
  destruct H as [H1 H2]; [apply list_elem_of_In, elem_of_seqZ; lia|].
  rewrite <- H2. apply to_int_agree, H1.
Qed.

(** X14: for a level [n] from 0 to 255 the needle of the VU meter is two
    lines side by side from the bottom row to the tip: the tip is at column
    [127 n / 255] (rounded down), on the parabola 20 rows high at the ends
    and reaching row 0 in the middle; the foot moves from column 56 to 71.
    Nothing else changes in the frame, and the binary32 computation of the
    column agrees with the integer quotient at every level. *)
Theorem drawVUNeedle_picture (fuel : nat) (n : Z) (b : list Z) :
  0 <= n <= 255 -> (72 <= fuel)%nat -> frame b ->
  let pos := n * 127 / 255 in
  let start_x := 71 - (127 - pos) / 8 in
  let end_y := 20 - pos * (127 - pos) / 200 in
  0 <= pos <= 127 /\ 56 <= start_x <= 71 /\ 0 <= end_y <= 20 /\
  exists b',
    Viz.drawVUNeedle indef fuel (F32.of_int n) b = Some b' /\ frame b' /\
    forall x y, on_screen x y ->
      (pixel b' x y = true <->
       pixel b x y = true \/
       (x, y) ∈ line_points start_x 63 pos end_y \/
       (x, y) ∈ line_points (start_x + 1) 63 (pos + 1) end_y).
Proof.
  intros Hn Hf Hb pos start_x end_y.
  assert (Hpos : 0 <= pos <= 127)
    by (subst pos; split; [apply Z.div_pos|apply Z.div_le_upper_bound]; lia).
  assert (Hsx : 56 <= start_x <= 71).
  { subst start_x. assert (0 <= (127 - pos) / 8 < 16); [|lia].
    split; [apply Z.div_pos|apply Z.div_lt_upper_bound]; lia. }
  assert (Hey : 0 <= end_y <= 20).
  { subst end_y. pose proof (Z.square_nonneg (2 * pos - 127)) as Hsq.
    assert (0 <= pos * (127 - pos) / 200 < 21); [|lia].
    split; [apply Z.div_pos|apply Z.div_lt_upper_bound]; nia. }
  repeat (split; [assumption|]).
  unfold Viz.drawVUNeedle. rewrite (needle_pos n Hn). fold pos.
  rewrite (Z.min_r 127 pos), (Z.max_r 0 pos) by lia.
  rewrite !Z.quot_div_nonneg by nia. fold start_x end_y.
  destruct (drawLine_pixels fuel start_x 63 pos end_y b) as (b1 & E1 & F1 & P1);
    unfold byte; try lia; [exact Hb|].
  destruct (drawLine_pixels fuel (start_x + 1) 63 (pos + 1) end_y b1) as (b2 & E2 & F2 & P2);
    unfold byte; try lia; [exact F1|].
  exists b2. rewrite E1. cbn [mbind option_bind]. split; [exact E2|]. split; [exact F2|].
  intros x y Hxy. rewrite (P2 x y Hxy), (P1 x y Hxy). tauto.
Qed.

End Needle.

(* ================================================================== *)
(** ** The waveform *)
(* ================================================================== *)

Section Waveform.

Import Spec.
Local Open Scope Z_scope.

Variable FT_Load_Char : Z -> ascii -> bool -> option Font.glyph.
Variable indef : float -> Z.

Lemma wave_y_range (s : float) : 12 <= Viz.wave_y indef s <= 63.
Proof. unfold Viz.wave_y. lia. Qed.

(** The segments of the waveform, drawn one after the other. *)
Lemma waveform_segments (fuel : nat) (samples : list float) (cols : list Z) :
  forall b : list Z,
  (64 <= fuel)%nat -> Forall (fun i => 0 <= i < 255) cols -> frame b ->
  exists b',
    fold_left
      (fun (ob : option (list Z)) (i : Z) =>
         b ← ob;
         let y1 := Viz.wave_y indef (samples !!! Z.to_nat i) in
         let y2 := Viz.wave_y indef (samples !!! Z.to_nat (i + 1)) in
         Display.drawLine fuel i y1 (i + 1) y2 b)
      cols (Some b) = Some b' /\ frame b' /\
    forall px py, on_screen px py ->
      (pixel b' px py = true <->
       pixel b px py = true \/
       exists i, i ∈ cols /\
         (px, py) ∈ line_points i (Viz.wave_y indef (samples !!! Z.to_nat i))
                      (i + 1) (Viz.wave_y indef (samples !!! Z.to_nat (i + 1)))).
Proof.
  induction cols as [|i cols IH]; intros b Hf Hc Hb.
  - exists b. cbn [fold_left]. split; [reflexivity|]. split; [exact Hb|].
    intros px py _. split; [auto|]. intros [H|(i & Hi & _)]; [exact H|].
    apply elem_of_nil in Hi. contradiction.
  - apply Forall_cons in Hc. destruct Hc as [Hi Hc].
    pose proof (wave_y_range (samples !!! Z.to_nat i)) as R1.
    pose proof (wave_y_range (samples !!! Z.to_nat (i + 1))) as R2.
    destruct (drawLine_pixels fuel i (Viz.wave_y indef (samples !!! Z.to_nat i))
                (i + 1) (Viz.wave_y indef (samples !!! Z.to_nat (i + 1))) b)
      as (b1 & E1 & F1 & P1); unfold byte; try lia; [exact Hb|].
    destruct (IH b1 Hf Hc F1) as (b2 & E2 & F2 & P2).
    exists b2. cbn [fold_left]. cbn [mbind option_bind]. cbv zeta. rewrite E1.
    split; [exact E2|]. split; [exact F2|].
    intros px py Hp. rewrite (P2 px py Hp), (P1 px py Hp). split.
    + intros [[H|H]|(j & Hj & H)]; [left; exact H| |].
      * right. exists i. split; [apply list_elem_of_here|exact H].
      * right. exists j. split; [apply list_elem_of_further, Hj|exact H].
    + intros [H|(j & Hj & H)]; [left; left; exact H|].
      apply elem_of_cons in Hj. destruct Hj as [->|Hj]; [left; right; exact H|].
      right. exists j. split; assumption.
Qed.

(** X15: a waveform frame starts from a cleared buffer, whatever was
    shown before; on it come the title, the centre line along row 37, and
    127 segments that join, column by column, the 128 samples
    [getWaveformData] copies, each at row [37 - (int)(25 * sample)] kept
    within rows 12 to 63, so that above row 12 the frame is the title's.
    The display takes in exactly that frame.  It holds whenever the width
    of the title's name is not negative. *)
Theorem drawWaveform_picture (fuel : nat) (now : Z) (mpd : MPD.state) (audio : Audio.state)
    (is_left : bool) (d : Viz.Display) (v : Viz.Visualization) :
  (128 <= fuel)%nat ->
  Display._cs (Viz.pins_of d) <> Display._dc (Viz.pins_of d) ->
  (forall fm, Viz.font_manager v = Some fm ->
     0 <= Font.getTextWidth FT_Load_Char fm
            (if is_left then "WAVEFORM L" else "WAVEFORM R")%string Font.SMALL) ->
  let titled :=
    Viz.drawTitleWithMPD FT_Load_Char now mpd
      (if is_left then "WAVEFORM L" else "WAVEFORM R")%string 5 is_left
      (Viz.with_buffer (replicate 1024 0) d, v) in
  let samples := Audio.getWaveformData 128 is_left audio in
  exists d' trace,
    Viz.drawWaveform FT_Load_Char indef fuel now mpd audio is_left (d, v)
      = Some (d', snd titled, trace) /\
    frame (Viz.buffer d') /\
    (forall cs dc, received (Viz.pins_of d) true cs dc trace = Viz.buffer d') /\
    (forall px py, on_screen px py ->
       (pixel (Viz.buffer d') px py = true <->
        pixel (Viz.buffer (fst titled)) px py = true \/
        py = 37 \/
        exists i, 0 <= i < 127 /\
          (px, py) ∈ line_points i (Viz.wave_y indef (samples !!! Z.to_nat i))
                       (i + 1) (Viz.wave_y indef (samples !!! Z.to_nat (i + 1))))) /\
    (forall px py, on_screen px py -> py < 12 ->
       pixel (Viz.buffer d') px py = pixel (Viz.buffer (fst titled)) px py).
Proof.
  intros Hf Hpins Hw titled samples.
  destruct (drawTitleWithMPD_frame FT_Load_Char now mpd
              (if is_left then "WAVEFORM L" else "WAVEFORM R")%string 5 is_left
              (Viz.with_buffer (replicate 1024 0) d) v frame_zero ltac:(lia) Hw)
    as (F0 & Pn & _ & _).
  fold titled in F0, Pn. cbn [Viz.with_buffer Viz.pins_of] in Pn.
  unfold Viz.drawWaveform, Display.clear. fold titled.
  destruct titled as [d0 v0]. cbn [fst snd] in *.
  fold samples. unfold Viz.WAVE_SAMPLES.
  destruct (drawLine_pixels fuel 0 37 127 37 (Viz.buffer d0)) as (b1 & E1 & F1 & P1);
    unfold byte; try lia; [exact F0|].
  rewrite E1. cbn [mbind option_bind].
  destruct (waveform_segments fuel samples (seqZ 0 (128 - 1)) b1) as (b2 & E2 & F2 & P2);
    [lia| |exact F1|].
  { apply Forall_forall. intros i Hi%elem_of_seqZ. lia. }
  fold samples. cbv zeta in E2 |- *. rewrite E2. cbn [mbind option_bind].
  exists (Viz.with_buffer b2 d0), (Display.display (Viz.pins_of d0) b2).
  split; [reflexivity|]. cbn [Viz.with_buffer Viz.buffer]. split; [exact F2|].
  split.
  { intros cs dc. rewrite Pn. apply display_received; [exact Hpins|apply F2]. }
  assert (Hpic : forall px py, on_screen px py ->
            (pixel b2 px py = true <->
             pixel (Viz.buffer d0) px py = true \/
             py = 37 \/
             exists i, 0 <= i < 127 /\
               (px, py) ∈ line_points i (Viz.wave_y indef (samples !!! Z.to_nat i))
                            (i + 1) (Viz.wave_y indef (samples !!! Z.to_nat (i + 1))))).
  { intros px py Hp. rewrite (P2 px py Hp), (P1 px py Hp), hline_points.
    setoid_rewrite elem_of_seqZ. destruct Hp as [Hpx Hpy].
    split.
    - intros [[H|[H _]]|(i & Hi & H)]; [auto|auto|].
      right. right. exists i. split; [lia|exact H].
    - intros [H|[H|(i & Hi & H)]]; [auto| |].
      + left. right. lia.
      + right. exists i. split; [lia|exact H]. }
  split; [exact Hpic|].
  intros px py Hp Hrow. apply eq_true_iff_eq. rewrite (Hpic px py Hp).
  split; [|auto]. intros [H|[H|(i & Hi & H)]]; [exact H|lia|].
  apply line_points_box in H. cbn [fst snd] in H.
  pose proof (wave_y_range (samples !!! Z.to_nat i)).
  pose proof (wave_y_range (samples !!! Z.to_nat (i + 1))). lia.
Qed.

End Waveform.

(* ================================================================== *)
(** ** The spectrum bars *)
(* ================================================================== *)

Section SpectrumBars.

Import Spec.
Local Open Scope Z_scope.

Variable FT_Load_Char : Z -> ascii -> bool -> option Font.glyph.
Variable indef : float -> Z.

(** A horizontal line, whatever its row. *)
Lemma drawLine_loop_row (r sy dx : Z) (k : nat) :
  forall (fuel : nat) (x : Z) (b : list Z),
  (k < fuel)%nat -> small x -> small (x + Z.of_nat k) -> Z.of_nat k <= dx <= 2 ^ 29 ->
  Display.drawLine_loop fuel dx 0 1 sy (x + Z.of_nat k) r x r dx b =
  Some (plot ((fun j => (j, r)) <$> seqZ x (Z.of_nat k + 1)) b).
Proof.
  unfold small. induction k as [|k IH]; intros fuel x b Hf Hx Hxk Hdx;
    (destruct fuel as [|fuel]; [lia|]); cbn [Display.drawLine_loop].
  - change (Z.of_nat 0) with 0. rewrite Z.add_0_r, !Z.eqb_refl. reflexivity.
  - replace (x =? x + Z.of_nat (S k)) with false by (symmetry; apply Z.eqb_neq; lia).
    cbn [andb]. change (C.int (- 0)) with 0.
    rewrite (int_small (2 * dx)) by lia.
    replace (0 <? 2 * dx) with true by (symmetry; apply Z.ltb_lt; lia).
    replace (2 * dx <? dx) with false by (symmetry; apply Z.ltb_ge; lia).
    rewrite Z.sub_0_r, (int_small dx), (int_small (x + 1)) by lia.
    replace (x + Z.of_nat (S k)) with (x + 1 + Z.of_nat k) by lia.
    rewrite IH by lia.
    rewrite (seqZ_cons x (Z.of_nat (S k) + 1)) by lia.
    replace (Z.succ x) with (x + 1) by lia.
    replace (Z.pred (Z.of_nat (S k) + 1)) with (Z.of_nat k + 1) by lia.
    reflexivity.
Qed.

Lemma drawLine_row (fuel : nat) (x0 x1 r : Z) (b : list Z) :
  frame b -> 0 <= x0 <= x1 -> x1 < 128 -> x1 - x0 < Z.of_nat fuel ->
  exists b',
    Display.drawLine fuel x0 r x1 r b = Some b' /\ frame b' /\
    forall px py, on_screen px py ->
      (pixel b' px py = true <->
       pixel b px py = true \/ (x0 <= px <= x1 /\ py = C.uint8_t r)).
Proof.
  intros Hb Hx Hx1 Hf.
  exists (plot ((fun j => (j, r)) <$> seqZ x0 (x1 - x0 + 1)) b). split; [|split].
  - unfold Display.drawLine, Display.abs. cbv zeta. rewrite Z.sub_diag.
    change (C.int (Z.abs (C.int 0))) with 0. rewrite (int_small (x1 - x0)) by lia.
    rewrite Z.abs_eq by lia. rewrite (int_small (x1 - x0)) by lia.
    rewrite Z.sub_0_r, (int_small (x1 - x0)) by lia.
    destruct (Z.eq_dec x0 x1) as [->|Hne].
    + rewrite Z.sub_diag, Z.ltb_irrefl. destruct fuel as [|fuel]; [lia|].
      cbn [Display.drawLine_loop]. rewrite !Z.eqb_refl. reflexivity.
    + replace (x0 <? x1) with true by (symmetry; apply Z.ltb_lt; lia).
      pose proof (drawLine_loop_row r (if r <? r then 1 else -1) (x1 - x0)
                    (Z.to_nat (x1 - x0)) fuel x0 b) as H.
      rewrite Z2Nat.id in H by lia.
      replace (x0 + (x1 - x0)) with x1 in H by lia.
      apply H; unfold small; lia.
  - apply frame_plot, Hb.
  - intros px py Hp. rewrite pixel_plot by assumption.
    rewrite orb_true_iff, existsb_exists. apply or_iff_compat_l.
    destruct Hp as [Hpx Hpy]. split.
    + intros ([j i] & Hin & Hh). apply list_elem_of_In, list_elem_of_fmap in Hin.
      destruct Hin as (j' & [= -> ->] & Hj). apply elem_of_seqZ in Hj.
      unfold hits in Hh. cbn [fst snd] in Hh.
      apply andb_true_iff in Hh. destruct Hh as [Hhx%Z.eqb_eq Hhy%Z.eqb_eq].
      rewrite uint8_small in Hhx by lia. lia.
    + intros [Hr ->]. exists (px, r). split.
      * apply list_elem_of_In, list_elem_of_fmap. exists px. split; [reflexivity|].
        apply elem_of_seqZ. lia.
      * unfold hits. cbn [fst snd]. rewrite uint8_small by lia. now rewrite !Z.eqb_refl.
Qed.

Lemma bar_height_range (level : Z) : 0 <= level <= 255 -> 0 <= bar_height level <= 49.
Proof.
  intros H. unfold bar_height. split; [apply Z.div_pos; lia|].
  apply Z.div_le_upper_bound; lia.
Qed.

(** One pass of the bar loop. *)
Lemma drawSpectrum_bar_pixels (fuel : nat) (font : option Font.FontManager)
    (levels : list Z) (i : Z) (b : list Z) (peaks : list float) :
  (12 <= fuel)%nat -> 0 <= i < 7 -> 0 <= levels !!! Z.to_nat i <= 255 -> frame b ->
  exists b',
    Viz.drawSpectrum_bar FT_Load_Char indef fuel font levels i (b, peaks) =
      Some (b', <[Z.to_nat i := new_peak (levels !!! Z.to_nat i) (peaks !!! Z.to_nat i)]> peaks)
    /\ frame b' /\
    forall px py, on_screen px py ->
      (pixel b' px py = true <->
       pixel b px py = true \/
       bar_picture FT_Load_Char indef font (levels !!! Z.to_nat i) (peaks !!! Z.to_nat i)
         i px py).
Proof.
  intros Hf Hi Hl Hb. unfold Viz.drawSpectrum_bar. cbv zeta.
  set (level := levels !!! Z.to_nat i) in *.
  pose proof (bar_height_range level Hl) as Hh.
  change (57 - 8) with 49.
  rewrite (int_small (level * 49)) by lia.
  rewrite Z.quot_div_nonneg by lia. fold (bar_height level).
  set (h := bar_height level) in *.
  rewrite (int_small (57 - h)) by lia.
  assert (E1 : exists b1,
    (if (0 <? h) && (8 <=? 57 - h)
     then Display.drawRect fuel (1 + i * 19) (Z.max (57 - h) 8) 12 (Z.min h 49) true b
     else Some b) = Some b1 /\ frame b1 /\
    forall px py, on_screen px py ->
      (pixel b1 px py = true <->
       pixel b px py = true \/ in_rect (bar_x i) (57 - h) 12 h px py)).
  { destruct (0 <? h) eqn:E0; cbn [andb].
    - replace (8 <=? 57 - h) with true by (symmetry; apply Z.leb_le; lia).
      rewrite Z.max_l, Z.min_l by lia.
      apply drawRect_filled_pixels; unfold small, bar_x; try lia. exact Hb.
    - exists b. split; [reflexivity|]. split; [exact Hb|]. intros px py _.
      apply Z.ltb_ge in E0. unfold in_rect. split; [auto|]. intros [H|H]; [exact H|lia]. }
  destruct E1 as (b1 & -> & F1 & P1). cbn [mbind option_bind].
  change (57 - 1) with 56.
  change (F32.fmin (F32.of_int 56)
            (F32.add (if F32.lt (F32.of_int (57 - h)) (peaks !!! Z.to_nat i)
                      then F32.of_int (57 - h) else peaks !!! Z.to_nat i)
               (F32.literal 8 10)))
    with (new_peak level (peaks !!! Z.to_nat i)).
  set (peak := new_peak level (peaks !!! Z.to_nat i)).
  change (F32.lt peak (F32.of_int 56) && F32.le (F32.of_int 8) peak)
    with (peak_shown peak).
  assert (E2 : exists b2,
    (if peak_shown peak
     then Display.drawLine fuel (1 + i * 19) (F32.to_int indef peak)
            (1 + i * 19 + 12 - 1) (F32.to_int indef peak) b1
     else Some b1) = Some b2 /\ frame b2 /\
    forall px py, on_screen px py ->
      (pixel b2 px py = true <->
       pixel b1 px py = true \/
       (peak_shown peak = true /\ bar_x i <= px < bar_x i + 12 /\
        py = C.uint8_t (F32.to_int indef peak)))).
  { destruct (peak_shown peak).
    - destruct (drawLine_row fuel (1 + i * 19) (1 + i * 19 + 12 - 1)
                  (F32.to_int indef peak) b1 F1) as (b2 & E & F & P); try lia.
      exists b2. split; [exact E|]. split; [exact F|]. intros px py Hp.
      rewrite (P px py Hp). unfold bar_x. apply or_iff_compat_l.
      split; [intros [H ->]|intros (_ & H & ->)]; repeat split; try lia.
    - exists b1. split; [reflexivity|]. split; [exact F1|]. intros px py _.
      split; [auto|]. intros [H|(H & _)]; [exact H|discriminate]. }
  destruct E2 as (b2 & -> & F2 & P2). cbn [mbind option_bind].
  rewrite (uint8_small (1 + i * 19)) by lia.
  destruct (drawText_pixels FT_Load_Char font (1 + i * 19) 64
              (nth (Z.to_nat i) Viz.FREQ_LABELS EmptyString) Font.SMALL b2 F2) as [F3 P3].
  eexists. split; [reflexivity|]. split; [exact F3|].
  intros px py Hp. rewrite (P3 px py Hp), (P2 px py Hp), (P1 px py Hp).
  unfold bar_picture. fold h peak. unfold bar_x. tauto.
Qed.

(** The passes of the bar loop over distinct bars. *)
Lemma spectrum_bars (fuel : nat) (font : option Font.FontManager) (levels : list Z)
    (cols : list Z) :
  forall (b : list Z) (peaks : list float),
  (12 <= fuel)%nat -> NoDup cols -> Forall (fun i => 0 <= i < 7) cols ->
  (forall i, 0 <= i < 7 -> 0 <= levels !!! Z.to_nat i <= 255) ->
  frame b -> length peaks = 7%nat ->
  exists b' peaks',
    fold_left
      (fun obp i => bp ← obp; Viz.drawSpectrum_bar FT_Load_Char indef fuel font levels i bp)
      cols (Some (b, peaks)) = Some (b', peaks') /\
    frame b' /\ length peaks' = 7%nat /\
    (forall i, 0 <= i < 7 ->
       (i ∈ cols ->
        peaks' !!! Z.to_nat i = new_peak (levels !!! Z.to_nat i) (peaks !!! Z.to_nat i)) /\
       (i ∉ cols -> peaks' !!! Z.to_nat i = peaks !!! Z.to_nat i)) /\
    forall px py, on_screen px py ->
      (pixel b' px py = true <->
       pixel b px py = true \/
       exists i, i ∈ cols /\
         bar_picture FT_Load_Char indef font (levels !!! Z.to_nat i) (peaks !!! Z.to_nat i)
           i px py).
Proof.
  induction cols as [|i cols IH]; intros b peaks Hf Hnd Hc Hl Hb Hp.
  - exists b, peaks. cbn [fold_left]. split; [reflexivity|]. split; [exact Hb|].
    split; [exact Hp|]. split.
    + intros i _. split; [intros H%elem_of_nil; contradiction|reflexivity].
    + intros px py _. split; [auto|]. intros [H|(i & Hi%elem_of_nil & _)]; [exact H|].
      contradiction.
  - apply NoDup_cons in Hnd. destruct Hnd as [Hni Hnd].
    apply Forall_cons in Hc. destruct Hc as [Hi Hc].
    destruct (drawSpectrum_bar_pixels fuel font levels i b peaks Hf Hi (Hl i Hi) Hb)
      as (b1 & E1 & F1 & P1).
    set (peaks1 := <[Z.to_nat i := _]> peaks) in *.
    assert (Hp1 : length peaks1 = 7%nat) by (subst peaks1; now rewrite length_insert).
    assert (Hsame : forall j, j <> i -> 0 <= j -> peaks1 !!! Z.to_nat j = peaks !!! Z.to_nat j).
    { intros j Hj Hj0. subst peaks1. apply list_lookup_total_insert_ne. lia. }
    destruct (IH b1 peaks1 Hf Hnd Hc Hl F1 Hp1) as (b2 & peaks2 & E2 & F2 & Hp2 & Q2 & P2).
    exists b2, peaks2. cbn [fold_left]. cbn [mbind option_bind]. rewrite E1.
    split; [exact E2|]. split; [exact F2|]. split; [exact Hp2|]. split.
    + intros j Hj. destruct (Q2 j Hj) as [Qin Qout]. split.
      * intros Hin. apply elem_of_cons in Hin. destruct Hin as [->|Hin].
        -- rewrite (Qout Hni). subst peaks1. apply list_lookup_total_insert_eq. lia.
        -- rewrite (Qin Hin), Hsame; [reflexivity| |lia]. intros ->. contradiction.
      * intros Hout. apply not_elem_of_cons in Hout. destruct Hout as [Hne Hout].
        rewrite (Qout Hout). apply Hsame; [exact Hne|lia].
    + intros px py Hxy. rewrite (P2 px py Hxy), (P1 px py Hxy). split.
      * intros [[H|H]|(j & Hj & H)]; [left; exact H| |].
        -- right. exists i. split; [apply list_elem_of_here|exact H].
        -- right. exists j. split; [apply list_elem_of_further, Hj|].
           rewrite <- Hsame; [exact H| |].
           ++ intros ->. contradiction.
           ++ apply (proj1 (Forall_forall _ _) Hc) in Hj. lia.
      * intros [H|(j & Hj & H)]; [left; left; exact H|].
        apply elem_of_cons in Hj. destruct Hj as [->|Hj]; [left; right; exact H|].
        right. exists j. split; [exact Hj|].
        rewrite Hsame; [exact H| |].
        -- intros ->. contradiction.
        -- apply (proj1 (Forall_forall _ _) Hc) in Hj. lia.
Qed.

Lemma seqZ_0_7_NoDup : NoDup (seqZ 0 7).
Proof. apply NoDup_seqZ. Qed.

(** X16: a spectrum frame starts from a cleared buffer; on it come the
    title and, for each of the seven bands, a bar 12 pixels wide at column
    [1 + 19 i] that stands on row 56 and is [49 level / 255] pixels high
    (none below level 6), the peak marker when it lies within rows 8 to 55,
    and the label.  Each peak marker becomes the smaller of its old row and
    the top of the bar, plus 0.8, at most 56.  The display takes in exactly
    that frame.  It holds for levels from 0 to 255 and a title's name of a
    width that is not negative. *)
Theorem drawSpectrum_picture (fuel : nat) (now : Z) (mpd : MPD.state) (levels : list Z)
    (peaks : list float) (title : string) (is_left : bool)
    (d : Viz.Display) (v : Viz.Visualization) :
  (12 <= fuel)%nat ->
  Display._cs (Viz.pins_of d) <> Display._dc (Viz.pins_of d) ->
  (forall fm, Viz.font_manager v = Some fm ->
     0 <= Font.getTextWidth FT_Load_Char fm title Font.SMALL) ->
  (forall i, 0 <= i < 7 -> 0 <= levels !!! Z.to_nat i <= 255) ->
  length peaks = 7%nat ->
  let titled :=
    Viz.drawTitleWithMPD FT_Load_Char now mpd title 5 is_left
      (Viz.with_buffer (replicate 1024 0) d, v) in
  exists d' peaks' trace,
    Viz.drawSpectrum FT_Load_Char indef fuel now mpd levels peaks title is_left (d, v)
      = Some (d', snd titled, peaks', trace) /\
    frame (Viz.buffer d') /\
    (forall cs dc, received (Viz.pins_of d) true cs dc trace = Viz.buffer d') /\
    length peaks' = 7%nat /\
    (forall i, 0 <= i < 7 ->
       peaks' !!! Z.to_nat i = new_peak (levels !!! Z.to_nat i) (peaks !!! Z.to_nat i)) /\
    forall px py, on_screen px py ->
      (pixel (Viz.buffer d') px py = true <->
       pixel (Viz.buffer (fst titled)) px py = true \/
       exists i, 0 <= i < 7 /\
         bar_picture FT_Load_Char indef (Viz.display_font d)
           (levels !!! Z.to_nat i) (peaks !!! Z.to_nat i) i px py).
Proof.
  intros Hf Hpins Hw Hl Hp titled.
  destruct (drawTitleWithMPD_frame FT_Load_Char now mpd title 5 is_left
              (Viz.with_buffer (replicate 1024 0) d) v frame_zero ltac:(lia) Hw)
    as (F0 & Pn & Fn & _).
  fold titled in F0, Pn, Fn. cbn [Viz.with_buffer Viz.pins_of Viz.display_font] in Pn, Fn.
  unfold Viz.drawSpectrum, Display.clear. fold titled.
  destruct titled as [d0 v0]. cbn [fst snd] in *.
  destruct (spectrum_bars fuel (Viz.display_font d0) levels (seqZ 0 7) (Viz.buffer d0) peaks
              Hf seqZ_0_7_NoDup) as (b2 & peaks2 & E2 & F2 & Hp2 & Q2 & P2);
    [|exact Hl|exact F0|exact Hp|].
  { apply Forall_forall. intros i Hi%elem_of_seqZ. lia. }
  rewrite E2. cbn [mbind option_bind fst snd].
  exists (Viz.with_buffer b2 d0), peaks2, (Display.display (Viz.pins_of d0) b2).
  split; [reflexivity|]. cbn [Viz.with_buffer Viz.buffer]. split; [exact F2|].
  split.
  { intros cs dc. rewrite Pn. apply display_received; [exact Hpins|apply F2]. }
  split; [exact Hp2|]. split.
  { intros i Hi. apply (Q2 i Hi). apply elem_of_seqZ. lia. }
  intros px py Hxy. rewrite (P2 px py Hxy), Fn.
  setoid_rewrite elem_of_seqZ. apply or_iff_compat_l.
  split; intros (i & Hi & H); exists i; (split; [lia|exact H]).
Qed.

End SpectrumBars.

(* ================================================================== *)
(** ** The frames at example inputs *)
(* ================================================================== *)

Section FrameEntries.

Import Spec.
Local Open Scope Z_scope.

Lemma drawVUNeedle_picture_witness :
  (0 <= 128 <= 255 /\ (72 <= 72)%nat /\ frame blank) /\
  exists b',
    Viz.drawVUNeedle (fun _ => 0) 72 (F32.of_int 128) blank = Some b' /\ frame b' /\
    forall x y, on_screen x y ->
      (pixel b' x y = true <->
       pixel blank x y = true \/
       (x, y) ∈ line_points (71 - (127 - 128 * 127 / 255) / 8) 63 (128 * 127 / 255)
                  (20 - 128 * 127 / 255 * (127 - 128 * 127 / 255) / 200) \/
       (x, y) ∈ line_points (71 - (127 - 128 * 127 / 255) / 8 + 1) 63 (128 * 127 / 255 + 1)
                  (20 - 128 * 127 / 255 * (127 - 128 * 127 / 255) / 200)).
Proof.
  assert (Hn : 0 <= 128 <= 255) by lia.
  assert (Hf : (72 <= 72)%nat) by lia.
  split; [repeat split; try lia; apply frame_blank|].
  exact (proj2 (proj2 (proj2
    (drawVUNeedle_picture (fun _ => 0) 72 128 blank Hn Hf frame_blank)))).
Defined.

Lemma drawWaveform_picture_witness :
  ((128 <= 128)%nat /\
   Display._cs (Viz.pins_of example_display) <> Display._dc (Viz.pins_of example_display) /\
   (forall fm, Viz.font_manager example_viz = Some fm ->
      0 <= Font.getTextWidth example_FT fm "WAVEFORM L" Font.SMALL)) /\
  exists d' trace,
    Viz.drawWaveform example_FT (fun _ => 0) 128 0 MPD.MPDClient example_awake true
      (example_display, example_viz)
      = Some (d', snd (Viz.drawTitleWithMPD example_FT 0 MPD.MPDClient "WAVEFORM L" 5 true
                         (Viz.with_buffer (replicate 1024 0) example_display, example_viz)),
              trace) /\
    frame (Viz.buffer d') /\
    (forall cs dc, received (Viz.pins_of example_display) true cs dc trace = Viz.buffer d').
Proof.
  assert (Hf : (128 <= 128)%nat) by lia.
  assert (Hp : Display._cs (Viz.pins_of example_display)
               <> Display._dc (Viz.pins_of example_display)) by (cbn; lia).
  assert (Hw : forall fm, Viz.font_manager example_viz = Some fm ->
                 0 <= Font.getTextWidth example_FT fm "WAVEFORM L" Font.SMALL).
  { intros fm [= <-]. vm_compute. discriminate. }
  split; [split; [exact Hf|split; [exact Hp|exact Hw]]|].
  destruct (drawWaveform_picture example_FT (fun _ => 0) 128 0 MPD.MPDClient example_awake true
              example_display example_viz Hf Hp Hw) as (d' & trace & E & F & R & _).
  exists d', trace. exact (conj E (conj F R)).
Defined.

Lemma drawSpectrum_picture_witness :
  ((12 <= 12)%nat /\
   Display._cs (Viz.pins_of example_display) <> Display._dc (Viz.pins_of example_display) /\
   (forall fm, Viz.font_manager example_viz = Some fm ->
      0 <= Font.getTextWidth example_FT fm "SPECTRUM L" Font.SMALL) /\
   (forall i, 0 <= i < 7 -> 0 <= [0; 5; 6; 100; 200; 254; 255] !!! Z.to_nat i <= 255) /\
   length (replicate 7 F32.zero) = 7%nat) /\
  exists d' peaks' trace,
    Viz.drawSpectrum example_FT (fun _ => 0) 12 0 MPD.MPDClient [0; 5; 6; 100; 200; 254; 255]
      (replicate 7 F32.zero) "SPECTRUM L" true (example_display, example_viz)
      = Some (d', snd (Viz.drawTitleWithMPD example_FT 0 MPD.MPDClient "SPECTRUM L" 5 true
                         (Viz.with_buffer (replicate 1024 0) example_display, example_viz)),
              peaks', trace) /\
    frame (Viz.buffer d') /\
    (forall cs dc, received (Viz.pins_of example_display) true cs dc trace = Viz.buffer d') /\
    length peaks' = 7%nat /\
    (forall i, 0 <= i < 7 ->
       peaks' !!! Z.to_nat i =
       new_peak ([0; 5; 6; 100; 200; 254; 255] !!! Z.to_nat i)
         (replicate 7 F32.zero !!! Z.to_nat i)) /\
    forall px py, on_screen px py ->
      (pixel (Viz.buffer d') px py = true <->
       pixel (Viz.buffer
                (fst (Viz.drawTitleWithMPD example_FT 0 MPD.MPDClient "SPECTRUM L" 5 true
                        (Viz.with_buffer (replicate 1024 0) example_display, example_viz))))
         px py = true \/
       exists i, 0 <= i < 7 /\
         bar_picture example_FT (fun _ => 0) (Viz.display_font example_display)
           ([0; 5; 6; 100; 200; 254; 255] !!! Z.to_nat i)
           (replicate 7 F32.zero !!! Z.to_nat i) i px py).
Proof.
  assert (Hf : (12 <= 12)%nat) by lia.
  assert (Hp : Display._cs (Viz.pins_of example_display)
               <> Display._dc (Viz.pins_of example_display)) by (cbn; lia).
  assert (Hw : forall fm, Viz.font_manager example_viz = Some fm ->
                 0 <= Font.getTextWidth example_FT fm "SPECTRUM L" Font.SMALL).
  { intros fm [= <-]. vm_compute. discriminate. }
  assert (Hl : forall i, 0 <= i < 7 ->
                 0 <= [0; 5; 6; 100; 200; 254; 255] !!! Z.to_nat i <= 255).
  { intros i Hi.
    assert (i = 0 \/ i = 1 \/ i = 2 \/ i = 3 \/ i = 4 \/ i = 5 \/ i = 6) as Hc by lia.
    destruct Hc as [->|[->|[->|[->|[->|[->| ->]]]]]]; vm_compute; split; discriminate. }
  assert (Hk : length (replicate 7 F32.zero) = 7%nat) by reflexivity.
  split; [split; [exact Hf|split; [exact Hp|split; [exact Hw|split; [exact Hl|exact Hk]]]]|].
  exact (drawSpectrum_picture example_FT (fun _ => 0) 12 0 MPD.MPDClient
           [0; 5; 6; 100; 200; 254; 255] (replicate 7 F32.zero) "SPECTRUM L" true
           example_display example_viz Hf Hp Hw Hl Hk).
Defined.

End FrameEntries.

(* ================================================================== *)
(** ** Controls and power state, continued *)
(* ================================================================== *)

Section Controls.

Import Spec.
Local Open Scope Z_scope.

Variable indef : float -> Z.

Lemma to_int_defined (indef' : float -> Z) (x : float) (v : Z) :
  F32.to_int (fun _ => -1) x = v -> 0 <= v -> F32.to_int indef' x = v.
Proof.
  unfold F32.to_int. intros H Hv.
  destruct x as [s|s| |s m e]; try lia; try exact H.
  destruct (_ && _); [exact H|lia].
Qed.

Lemma int_round_trip_all : forallb int_round_trip (seqZ 0 301) = true.
Proof. vm_compute. reflexivity. Qed.

Lemma to_int_of_int (k : Z) : 0 <= k <= 300 -> F32.to_int indef (F32.of_int k) = k.
Proof.
  intros Hk. apply to_int_defined; [|lia].
  apply Z.eqb_eq. apply (forallb_seqZ int_round_trip 0 301 int_round_trip_all). lia.
Qed.

Lemma getSensitivity_setSensitivity (v : Z) (a : Audio.state) :
  Audio.getSensitivity indef (Audio.setSensitivity v a) = Z.max 10 (Z.min 300 v).
Proof.
  unfold Audio.getSensitivity.
  destruct (setSensitivity_fields v a) as (-> & _).
  rewrite clamp_sensitivity. apply to_int_of_int. lia.
Qed.

Lemma getNoiseReduction_setNoiseReduction (v : Z) (a : Audio.state) :
  Audio.getNoiseReduction indef (Audio.setNoiseReduction v a) = Z.max 0 (Z.min 100 v).
Proof.
  unfold Audio.getNoiseReduction.
  destruct (setNoiseReduction_fields v a) as (_ & -> & _).
  rewrite clamp_noise_reduction. apply to_int_of_int. lia.
Qed.

Ltac app_cbn :=
  cbn [App.ctl App.audio App.mpd_client App.encoder1_state App.encoder2_state
       App.btn1_last App.btn2_last App.pwr_last App.local_current_viz
       App.sleep_counter App.calls
       App.set_ctl App.set_audio App.set_mpd App.set_encoders App.set_buttons
       App.set_local_viz App.set_sleep_counter App.log App.set_sleeping
       App.set_running App.set_current_viz
       App.running App.current_viz App.is_sleeping
       App.rot1 App.rot2 App.rot1_sw App.rot2_sw App.power_sw
       App.gpio_top App.has_audio App.gpio_asleep
       negb andb] in *.

Lemma params_inv_setSensitivity (v : Z) (a : Audio.state) :
  params_inv a -> params_inv (Audio.setSensitivity v a).
Proof. apply (params_inv_apply a (SetSensitivity v)). Qed.

Lemma params_inv_setNoiseReduction (v : Z) (a : Audio.state) :
  params_inv a -> params_inv (Audio.setNoiseReduction v a).
Proof. apply (params_inv_apply a (SetNoiseReduction v)). Qed.

Lemma params_inv_setSleepState (b : bool) (a : Audio.state) :
  params_inv a -> params_inv (Audio.setSleepState b a).
Proof. intros H. exact H. Qed.

Lemma renders_valid_app (cs cs' : list App.call) :
  renders_valid cs -> renders_valid cs' -> renders_valid (cs ++ cs').
Proof.
  unfold renders_valid. intros H H' v [Hv|Hv]%elem_of_app; auto.
Qed.

Lemma renders_valid_none (cs : list App.call) :
  (forall v, App.Render v ∉ cs) -> renders_valid cs.
Proof. intros H v Hv. destruct (H v Hv). Qed.

Ltac no_render :=
  apply renders_valid_none; intros v Hv;
  repeat (apply elem_of_cons in Hv as [Hv|Hv]; [discriminate Hv|]);
  apply elem_of_nil in Hv; exact Hv.

Ltac inv_split :=
  unfold loop_inv, flags_consistent, indices_valid; app_cbn;
  split; [split|split; [split|split]].

Lemma loop_inv_poll_encoder1 (g : App.gpio) (st : App.state) :
  loop_inv st -> loop_inv (App.poll_encoder1 indef g st).
Proof.
  unfold App.poll_encoder1. intros H.
  destruct (negb (App.rot1 g =? App.encoder1_state st)); [|exact H].
  destruct (negb (App.getDirection (App.encoder1_state st) (App.rot1 g) =? 0));
    [|exact H].
  destruct H as ((F1 & F2) & (I1 & I2) & R & P).
  inv_split; rewrite ?is_sleeping_setSensitivity; auto using params_inv_setSensitivity.
Qed.

Lemma loop_inv_poll_encoder2 (g : App.gpio) (st : App.state) :
  loop_inv st -> loop_inv (App.poll_encoder2 indef g st).
Proof.
  unfold App.poll_encoder2. intros H.
  destruct (negb (App.rot2 g =? App.encoder2_state st)); [|exact H].
  destruct (negb (App.getDirection (App.encoder2_state st) (App.rot2 g) =? 0));
    [|exact H].
  destruct H as ((F1 & F2) & (I1 & I2) & R & P).
  inv_split; rewrite ?is_sleeping_setNoiseReduction;
    auto using params_inv_setNoiseReduction.
Qed.

Lemma loop_inv_poll_button1 (g : App.gpio) (st : App.state) :
  loop_inv st -> loop_inv (App.poll_button1 g st).
Proof.
  unfold App.poll_button1, App.wake_flag. intros ((F1 & F2) & (I1 & I2) & R & P).
  pose proof (Z.mod_pos_bound (App.current_viz (App.ctl st) + 1) 6 eq_refl).
  destruct (negb (App.rot1_sw g) && App.btn1_last st); app_cbn.
  - destruct (App.is_sleeping (App.ctl st)) eqn:E;
      inv_split; auto; try lia; try discriminate.
    rewrite E. exact F2.
  - inv_split; auto.
Qed.

Lemma loop_inv_poll_button2 (g : App.gpio) (st : App.state) :
  loop_inv st -> loop_inv (App.poll_button2 g st).
Proof.
  unfold App.poll_button2, App.wake_flag. intros ((F1 & F2) & (I1 & I2) & R & P).
  destruct (negb (App.rot2_sw g) && App.btn2_last st); app_cbn.
  - destruct (App.is_sleeping (App.ctl st)) eqn:E;
      inv_split;
      rewrite ?is_sleeping_setNoiseReduction, ?is_sleeping_setSensitivity;
      auto; try lia; try discriminate;
      try (rewrite E; exact F2);
      auto using params_inv_setNoiseReduction, params_inv_setSensitivity.
  - inv_split; auto.
Qed.

Lemma loop_inv_poll_power (g : App.gpio) (st : App.state) :
  loop_inv st -> loop_inv (App.poll_power g st).
Proof.
  unfold App.poll_power. intros ((F1 & F2) & (I1 & I2) & R & P).
  destruct (negb (App.power_sw g) && App.pwr_last st); inv_split; auto.
Qed.

Lemma loop_inv_poll (g : App.gpio) (st : App.state) :
  loop_inv st -> loop_inv (App.poll indef g st).
Proof.
  intros H. unfold App.poll.
  apply loop_inv_poll_power, loop_inv_poll_button2, loop_inv_poll_button1,
    loop_inv_poll_encoder2, loop_inv_poll_encoder1, H.
Qed.

Lemma loop_inv_coordinator (has_audio : bool) (st : App.state) :
  loop_inv st -> loop_inv (App.coordinator has_audio st).
Proof.
  unfold App.coordinator. intros ((F1 & F2) & (I1 & I2) & R & P).
  destruct (negb has_audio && negb (App.is_sleeping (App.ctl st))).
  - unfold App.enter_sleep. inv_split; auto.
    rewrite <- !app_assoc. apply renders_valid_app; [exact R|]. no_render.
  - destruct (has_audio && App.is_sleeping (App.ctl st)).
    + unfold App.wake_up. inv_split; auto; try discriminate.
      rewrite <- !app_assoc. apply renders_valid_app; [exact R|]. no_render.
    + inv_split; auto.
Qed.

Lemma loop_inv_switch_viz (st : App.state) :
  loop_inv st -> loop_inv (App.switch_viz st).
Proof.
  unfold App.switch_viz. intros ((F1 & F2) & (I1 & I2) & R & P).
  destruct (negb (App.current_viz (App.ctl st) =? App.local_current_viz st));
    [|inv_split; auto].
  app_cbn. destruct (App.is_sleeping (App.ctl st)) eqn:E;
    inv_split; auto; try lia; try discriminate;
    try (rewrite E; exact F2);
    rewrite <- ?app_assoc; (apply renders_valid_app; [exact R|]); no_render.
Qed.

Lemma loop_inv_set_sleep_counter (n : Z) (st : App.state) :
  loop_inv st -> loop_inv (App.set_sleep_counter n st).
Proof. intros H. exact H. Qed.

Lemma loop_inv_log (cs : list App.call) (st : App.state) :
  renders_valid cs -> loop_inv st -> loop_inv (App.log cs st).
Proof.
  intros Hc ((F1 & F2) & (I1 & I2) & R & P).
  inv_split; auto using renders_valid_app.
Qed.

Lemma loop_inv_render_or_idle (g : App.gpio) (st : App.state) :
  loop_inv st -> loop_inv (App.render_or_idle indef g st).
Proof.
  unfold App.render_or_idle. intros H.
  destruct (negb (App.is_sleeping (App.ctl st))).
  - apply loop_inv_log; [|exact H].
    destruct H as (_ & (I1 & I2) & _).
    intros v Hv. apply elem_of_cons in Hv as [[= ->]|Hv]; [lia|].
    apply elem_of_cons in Hv as [Hv|Hv]; [discriminate Hv|].
    apply elem_of_nil in Hv. destruct Hv.
  - apply loop_inv_log; [no_render|].
    destruct (10 <=? App.sleep_counter st + 1);
      auto using loop_inv_set_sleep_counter, loop_inv_poll.
Qed.

Lemma loop_inv_run_iteration (i : App.loop_input) (st : App.state) :
  loop_inv st -> loop_inv (App.run_iteration indef i st).
Proof.
  intros H. unfold App.run_iteration.
  apply loop_inv_render_or_idle, loop_inv_switch_viz, loop_inv_coordinator,
    loop_inv_poll, H.
Qed.

Lemma loop_inv_run (inputs : list App.loop_input) (st : App.state) :
  loop_inv st -> loop_inv (App.run indef inputs st).
Proof.
  revert st. induction inputs as [|i rest IH]; intros st H; [exact H|].
  cbn [App.run]. destruct (App.running (App.ctl st)); [|exact H].
  apply IH, loop_inv_run_iteration, H.
Qed.

Lemma loop_inv_initial (hann : list float) (now enc1 enc2 : Z) :
  loop_inv (App.initial hann now enc1 enc2).
Proof.
  unfold App.initial. inv_split; try reflexivity; try lia; try discriminate.
  - intros v Hv. apply elem_of_nil in Hv. destruct Hv.
  - apply params_inv_constructed.
Qed.

(** *** The encoders and the buttons *)

Lemma getDirection_same (e : Z) : two_bits e -> App.getDirection e e = 0.
Proof.
  unfold two_bits. intros H.
  assert (e = 0 \/ e = 1 \/ e = 2 \/ e = 3) as [->|[->|[->| ->]]] by lia; reflexivity.
Qed.

Lemma params_inv_getSensitivity (a : Audio.state) :
  params_inv a -> 10 <= Audio.getSensitivity indef a <= 300.
Proof.
  intros (k & n & Hk & Hn & Hs & _). unfold Audio.getSensitivity.
  rewrite Hs, to_int_of_int; lia.
Qed.

Lemma params_inv_getNoiseReduction (a : Audio.state) :
  params_inv a -> 0 <= Audio.getNoiseReduction indef a <= 100.
Proof.
  intros (k & n & Hk & Hn & _ & Hs & _). unfold Audio.getNoiseReduction.
  rewrite Hs, to_int_of_int; lia.
Qed.

Lemma getNoiseReduction_setSensitivity (v : Z) (a : Audio.state) :
  Audio.getNoiseReduction indef (Audio.setSensitivity v a) = Audio.getNoiseReduction indef a.
Proof. reflexivity. Qed.

Lemma getSensitivity_setNoiseReduction (v : Z) (a : Audio.state) :
  Audio.getSensitivity indef (Audio.setNoiseReduction v a) = Audio.getSensitivity indef a.
Proof. reflexivity. Qed.

(** What the two encoder blocks of [poll] do to the parameters. *)
Lemma poll_encoder1_sensitivity (g : App.gpio) (st : App.state) :
  two_bits (App.encoder1_state st) -> params_inv (App.audio st) ->
  let st' := App.poll_encoder1 indef g st in
  Audio.getSensitivity indef (App.audio st') =
    Z.max 10 (Z.min 300 (Audio.getSensitivity indef (App.audio st)
                          + App.getDirection (App.encoder1_state st) (App.rot1 g) * 10)) /\
  Audio.getNoiseReduction indef (App.audio st') = Audio.getNoiseReduction indef (App.audio st) /\
  App.encoder2_state st' = App.encoder2_state st /\
  App.btn1_last st' = App.btn1_last st /\ App.btn2_last st' = App.btn2_last st /\
  App.ctl st' = App.ctl st.
Proof.
  intros He Hp. pose proof (params_inv_getSensitivity _ Hp) as Hs.
  unfold App.poll_encoder1.
  destruct (App.rot1 g =? App.encoder1_state st) eqn:E; cbn [negb].
  - apply Z.eqb_eq in E. rewrite E, getDirection_same by exact He.
    repeat split; lia.
  - destruct (App.getDirection (App.encoder1_state st) (App.rot1 g) =? 0) eqn:Ed; cbn [negb].
    + apply Z.eqb_eq in Ed. rewrite Ed. app_cbn. repeat split; lia.
    + app_cbn. rewrite getSensitivity_setSensitivity, getNoiseReduction_setSensitivity.
      repeat split; lia.
Qed.

Lemma poll_encoder2_noise_reduction (g : App.gpio) (st : App.state) :
  two_bits (App.encoder2_state st) -> params_inv (App.audio st) ->
  let st' := App.poll_encoder2 indef g st in
  Audio.getNoiseReduction indef (App.audio st') =
    Z.max 0 (Z.min 100 (Audio.getNoiseReduction indef (App.audio st)
                         + App.getDirection (App.encoder2_state st) (App.rot2 g) * 5)) /\
  Audio.getSensitivity indef (App.audio st') = Audio.getSensitivity indef (App.audio st) /\
  App.btn1_last st' = App.btn1_last st /\ App.btn2_last st' = App.btn2_last st /\
  App.ctl st' = App.ctl st.
Proof.
  intros He Hp. pose proof (params_inv_getNoiseReduction _ Hp) as Hs.
  unfold App.poll_encoder2.
  destruct (App.rot2 g =? App.encoder2_state st) eqn:E; cbn [negb].
  - apply Z.eqb_eq in E. rewrite E, getDirection_same by exact He.
    repeat split; lia.
  - destruct (App.getDirection (App.encoder2_state st) (App.rot2 g) =? 0) eqn:Ed; cbn [negb].
    + apply Z.eqb_eq in Ed. rewrite Ed. app_cbn. repeat split; lia.
    + app_cbn. rewrite getNoiseReduction_setNoiseReduction, getSensitivity_setNoiseReduction.
      repeat split; lia.
Qed.

(** What each button block leaves alone. *)
Lemma poll_button1_frame (g : App.gpio) (st : App.state) :
  let st' := App.poll_button1 g st in
  App.audio st' = App.audio st /\ App.mpd_client st' = App.mpd_client st /\
  App.btn2_last st' = App.btn2_last st /\ App.pwr_last st' = App.pwr_last st /\
  App.running (App.ctl st') = App.running (App.ctl st) /\
  App.local_current_viz st' = App.local_current_viz st /\
  App.calls st' = App.calls st /\ App.btn1_last st' = App.rot1_sw g.
Proof.
  unfold App.poll_button1, App.wake_flag.
  destruct (negb (App.rot1_sw g) && App.btn1_last st); app_cbn; [|auto 10].
  destruct (App.is_sleeping (App.ctl st)); app_cbn; auto 10.
Qed.

Lemma poll_button2_frame (g : App.gpio) (st : App.state) :
  let st' := App.poll_button2 g st in
  App.mpd_client st' = App.mpd_client st /\
  App.btn1_last st' = App.btn1_last st /\ App.pwr_last st' = App.pwr_last st /\
  App.running (App.ctl st') = App.running (App.ctl st) /\
  App.current_viz (App.ctl st') = App.current_viz (App.ctl st) /\
  App.local_current_viz st' = App.local_current_viz st /\
  App.calls st' = App.calls st /\ App.btn2_last st' = App.rot2_sw g /\
  Audio.is_sleeping (App.audio st') = Audio.is_sleeping (App.audio st) /\
  (negb (App.rot2_sw g) && App.btn2_last st = false -> App.audio st' = App.audio st).
Proof.
  unfold App.poll_button2, App.wake_flag.
  destruct (negb (App.rot2_sw g) && App.btn2_last st); app_cbn; [|auto 12].
  destruct (App.is_sleeping (App.ctl st)); app_cbn;
    repeat split; try reflexivity; discriminate.
Qed.

Lemma poll_power_frame (g : App.gpio) (st : App.state) :
  let st' := App.poll_power g st in
  App.audio st' = App.audio st /\ App.mpd_client st' = App.mpd_client st /\
  App.btn1_last st' = App.btn1_last st /\ App.btn2_last st' = App.btn2_last st /\
  App.current_viz (App.ctl st') = App.current_viz (App.ctl st) /\
  App.is_sleeping (App.ctl st') = App.is_sleeping (App.ctl st) /\
  App.local_current_viz st' = App.local_current_viz st /\
  App.calls st' = App.calls st /\ App.pwr_last st' = App.power_sw g /\
  App.running (App.ctl st') =
    (if negb (App.power_sw g) && App.pwr_last st then false else App.running (App.ctl st)).
Proof.
  unfold App.poll_power.
  destruct (negb (App.power_sw g) && App.pwr_last st); app_cbn; auto 12.
Qed.

Lemma poll_buttons_audio (g : App.gpio) (st : App.state) :
  negb (App.rot2_sw g) && App.btn2_last st = false ->
  App.audio (App.poll_power g (App.poll_button2 g (App.poll_button1 g st))) = App.audio st.
Proof.
  intros H.
  destruct (poll_button1_frame g st) as (A1 & _ & B1 & _).
  destruct (poll_button2_frame g (App.poll_button1 g st)) as (_ & _ & _ & _ & _ & _ & _ & _ & _ & A2).
  destruct (poll_power_frame g (App.poll_button2 g (App.poll_button1 g st))) as (A3 & _).
  rewrite A3, A2, A1 by (rewrite B1; exact H). reflexivity.
Qed.

(** X21: with the button of rotary 2 not going down, one [poll] moves
    the sensitivity by 10 times the direction read from rotary 1 and the
    noise reduction by 5 times the one read from rotary 2, each clamped to
    its range (10..300 and 0..100). *)
Theorem encoders_set_parameters (g : App.gpio) (st : App.state) :
  two_bits (App.encoder1_state st) -> two_bits (App.encoder2_state st) ->
  params_inv (App.audio st) ->
  negb (App.rot2_sw g) && App.btn2_last st = false ->
  let st' := App.poll indef g st in
  Audio.getSensitivity indef (App.audio st') =
    Z.max 10 (Z.min 300 (Audio.getSensitivity indef (App.audio st)
                          + App.getDirection (App.encoder1_state st) (App.rot1 g) * 10)) /\
  Audio.getNoiseReduction indef (App.audio st') =
    Z.max 0 (Z.min 100 (Audio.getNoiseReduction indef (App.audio st)
                         + App.getDirection (App.encoder2_state st) (App.rot2 g) * 5)).
Proof.
  intros H1 H2 Hp Hb. cbv zeta. unfold App.poll.
  destruct (poll_encoder1_sensitivity g st H1 Hp) as (S1 & N1 & E1 & B1 & B2 & _).
  pose proof (loop_inv_poll_encoder1 g st) as Hinv.
  assert (Hp1 : params_inv (App.audio (App.poll_encoder1 indef g st))).
  { unfold App.poll_encoder1.
    destruct (negb (App.rot1 g =? App.encoder1_state st)); [|exact Hp].
    destruct (negb (App.getDirection (App.encoder1_state st) (App.rot1 g) =? 0));
      [|exact Hp].
    app_cbn. apply params_inv_setSensitivity, Hp. }
  set (s1 := App.poll_encoder1 indef g st) in *.
  destruct (poll_encoder2_noise_reduction g s1 ltac:(rewrite E1; exact H2) Hp1)
    as (N2 & S2 & B1' & B2' & _).
  set (s2 := App.poll_encoder2 indef g s1) in *.
  rewrite poll_buttons_audio by (rewrite B2', B2; exact Hb).
  rewrite S2, N2, S1, N1, E1. auto.
Qed.

Lemma poll_encoder1_frame (g : App.gpio) (st : App.state) :
  let st' := App.poll_encoder1 indef g st in
  App.ctl st' = App.ctl st /\ App.mpd_client st' = App.mpd_client st /\
  App.btn1_last st' = App.btn1_last st /\ App.btn2_last st' = App.btn2_last st /\
  App.pwr_last st' = App.pwr_last st /\
  App.local_current_viz st' = App.local_current_viz st /\
  App.calls st' = App.calls st /\
  Audio.is_sleeping (App.audio st') = Audio.is_sleeping (App.audio st).
Proof.
  unfold App.poll_encoder1.
  destruct (negb (App.rot1 g =? App.encoder1_state st)); [|auto 10].
  destruct (negb (App.getDirection (App.encoder1_state st) (App.rot1 g) =? 0));
    app_cbn; auto 10.
Qed.

Lemma poll_encoder2_frame (g : App.gpio) (st : App.state) :
  let st' := App.poll_encoder2 indef g st in
  App.ctl st' = App.ctl st /\ App.mpd_client st' = App.mpd_client st /\
  App.btn1_last st' = App.btn1_last st /\ App.btn2_last st' = App.btn2_last st /\
  App.pwr_last st' = App.pwr_last st /\
  App.local_current_viz st' = App.local_current_viz st /\
  App.calls st' = App.calls st /\
  Audio.is_sleeping (App.audio st') = Audio.is_sleeping (App.audio st).
Proof.
  unfold App.poll_encoder2.
  destruct (negb (App.rot2 g =? App.encoder2_state st)); [|auto 10].
  destruct (negb (App.getDirection (App.encoder2_state st) (App.rot2 g) =? 0));
    app_cbn; auto 10.
Qed.

(** X22: a press of the button of rotary 2 (low after high) puts the
    analysis parameters back to those of a newly constructed processor,
    whatever the encoders read in the same poll. *)
Theorem button2_resets_parameters (g : App.gpio) (st : App.state) (hann : list float) (now : Z) :
  negb (App.rot2_sw g) && App.btn2_last st = true ->
  same_parameters (App.audio (App.poll indef g st)) (Audio.AudioProcessor hann now).
Proof.
  intros H. unfold App.poll.
  destruct (poll_encoder1_frame g st) as (_ & _ & _ & B1 & _).
  set (s1 := App.poll_encoder1 indef g st) in *.
  destruct (poll_encoder2_frame g s1) as (_ & _ & _ & B2 & _).
  set (s2 := App.poll_encoder2 indef g s1) in *.
  destruct (poll_button1_frame g s2) as (_ & _ & B3 & _).
  set (s3 := App.poll_button1 g s2) in *.
  destruct (poll_power_frame g (App.poll_button2 g s3)) as (-> & _).
  unfold App.poll_button2, App.wake_flag.
  rewrite B3, B2, B1, H. 
  set (a := Audio.setNoiseReduction 77 (Audio.setSensitivity 100 (App.audio s3))).
  assert (same_parameters a (Audio.AudioProcessor hann now)) as Ha.
  { subst a. unfold same_parameters.
    destruct (setNoiseReduction_fields 77 (Audio.setSensitivity 100 (App.audio s3)))
      as (-> & -> & -> & -> & ->).
    destruct (setSensitivity_fields 100 (App.audio s3)) as (-> & _).
    repeat split; vm_compute; reflexivity. }
  destruct (App.is_sleeping (App.ctl (App.set_audio a s3))); app_cbn; exact Ha.
Qed.

(** Button 1: the index moves on once per press. *)
Lemma poll_current_viz (g : App.gpio) (st : App.state) :
  let st' := App.poll indef g st in
  App.current_viz (App.ctl st') =
    (if negb (App.rot1_sw g) && App.btn1_last st
     then (App.current_viz (App.ctl st) + 1) mod 6 else App.current_viz (App.ctl st)) /\
  App.btn1_last st' = App.rot1_sw g.
Proof.
  cbv zeta. unfold App.poll.
  destruct (poll_encoder1_frame g st) as (C1 & _ & B1 & _).
  set (s1 := App.poll_encoder1 indef g st) in *.
  destruct (poll_encoder2_frame g s1) as (C2 & _ & B2 & _).
  set (s2 := App.poll_encoder2 indef g s1) in *.
  destruct (poll_button2_frame g (App.poll_button1 g s2)) as (_ & B4 & _ & _ & V4 & _).
  destruct (poll_power_frame g (App.poll_button2 g (App.poll_button1 g s2)))
    as (_ & _ & B5 & _ & V5 & _).
  rewrite V5, V4, B5, B4.
  destruct (poll_button1_frame g s2) as (_ & _ & _ & _ & _ & _ & _ & ->).
  split; [|reflexivity].
  unfold App.poll_button1, App.wake_flag. rewrite B2, B1, C2, C1.
  destruct (negb (App.rot1_sw g) && App.btn1_last st); app_cbn;
    rewrite ?C2, ?C1; [|reflexivity].
  destruct (App.is_sleeping (App.ctl st)); app_cbn; rewrite ?C2, ?C1; reflexivity.
Qed.

(** X23: over any sequence of polls the selected visualization advances
    by one, modulo 6, at each reading of the button of rotary 1 that is low
    after a high one, and at no other time. *)
Theorem button1_cycles_visualizations (gs : list App.gpio) (st : App.state) :
  0 <= App.current_viz (App.ctl st) < 6 ->
  App.current_viz (App.ctl (polls indef gs st)) =
  (App.current_viz (App.ctl st) + falling_edges (App.btn1_last st) (App.rot1_sw <$> gs)) mod 6.
Proof.
  revert st. induction gs as [|g gs IH]; intros st Hv.
  - cbn. rewrite Z.add_0_r, Z.mod_small by lia. reflexivity.
  - cbn [polls fold_left fmap list_fmap falling_edges].
    destruct (poll_current_viz g st) as (V & B). fold (polls indef gs (App.poll indef g st)).
    pose proof (Z.mod_pos_bound (App.current_viz (App.ctl st) + 1) 6 eq_refl).
    rewrite IH, V, B by (rewrite V; destruct (negb (App.rot1_sw g) && App.btn1_last st); lia).
    destruct (negb (App.rot1_sw g) && App.btn1_last st).
    + rewrite Zplus_mod_idemp_l. f_equal. lia.
    + reflexivity.
Qed.

(** *** Waking up *)

Lemma power_calls_app (cs cs' : list App.call) :
  power_calls (cs ++ cs') = power_calls cs ++ power_calls cs'.
Proof. apply List.filter_app. Qed.

Lemma same_power_power_view (st st' : App.state) :
  same_power st st' -> power_view st' = power_view st.
Proof. unfold same_power, power_view. intros (-> & -> & -> & -> & _ & ->). reflexivity. Qed.

Lemma power_view_wake_up (st : App.state) :
  power_view (App.wake_up st) =
  ({| App.running := App.running (App.ctl st);
      App.current_viz := App.current_viz (App.ctl st);
      App.is_sleeping := false |},
   false, false, App.local_current_viz st, power_calls (App.calls st) ++ wake_calls).
Proof.
  unfold power_view, App.wake_up. app_cbn.
  rewrite !power_calls_app. cbn [power_calls List.filter is_power_call].
  rewrite <- !app_assoc. reflexivity.
Qed.

Lemma power_view_render_or_idle (g : App.gpio) (st : App.state) :
  released g = true ->
  power_view (App.render_or_idle indef g st) = power_view st.
Proof.
  intros Hg. unfold App.render_or_idle.
  destruct (negb (App.is_sleeping (App.ctl st))).
  - unfold power_view. app_cbn. rewrite power_calls_app.
    cbn [power_calls List.filter is_power_call]. now rewrite app_nil_r.
  - destruct (10 <=? App.sleep_counter st + 1).
    + pose proof (poll_released indef g
                    (App.set_sleep_counter (App.sleep_counter st + 1) st) Hg)
        as Hv%same_power_power_view.
      revert Hv. generalize (App.poll indef g
                               (App.set_sleep_counter (App.sleep_counter st + 1) st)).
      intros s0. unfold power_view. app_cbn.
      rewrite power_calls_app. cbn [power_calls List.filter is_power_call].
      rewrite app_nil_r. intros [= -> -> -> -> ->]. reflexivity.
    + unfold power_view. app_cbn. rewrite power_calls_app.
      cbn [power_calls List.filter is_power_call]. now rewrite app_nil_r.
Qed.

(** An iteration with audio present and no button pressed: asleep, it
    wakes up; awake, it changes nothing of the power state. *)
Lemma audible_iteration_asleep (i : App.loop_input) (st : App.state) :
  audible i = true -> between_iterations st -> App.is_sleeping (App.ctl st) = true ->
  power_view (App.run_iteration indef i st) =
  ({| App.running := true;
      App.current_viz := App.current_viz (App.ctl st);
      App.is_sleeping := false |},
   false, false, App.current_viz (App.ctl st),
   power_calls (App.calls st) ++ wake_calls).
Proof.
  unfold audible. intros [[Ha Hg1]%andb_prop Hg2]%andb_prop (Hrun & Hviz) Hs.
  unfold App.run_iteration. rewrite Ha.
  pose proof (poll_released indef (App.gpio_top i) st Hg1) as Hp.
  pose proof (same_power_power_view _ _ Hp) as Hv.
  destruct Hp as (Hctl & _ & _ & Hloc & _ & _).
  revert Hv Hctl Hloc. generalize (App.poll indef (App.gpio_top i) st). intros s1 Hv Hctl Hloc.
  unfold App.coordinator. rewrite Hctl, Hs. cbn [negb andb].
  assert (App.switch_viz (App.wake_up s1) = App.wake_up s1) as ->.
  { apply switch_viz_same. unfold App.wake_up. app_cbn. congruence. }
  rewrite power_view_render_or_idle by assumption.
  rewrite power_view_wake_up. unfold power_view in Hv. injection Hv as -> _ _ -> ->.
  rewrite Hrun, Hviz. reflexivity.
Qed.

Lemma audible_iteration_awake (i : App.loop_input) (st : App.state) :
  audible i = true -> between_iterations st -> App.is_sleeping (App.ctl st) = false ->
  power_view (App.run_iteration indef i st) = power_view st.
Proof.
  unfold audible. intros [[Ha Hg1]%andb_prop Hg2]%andb_prop (Hrun & Hviz) Hs.
  unfold App.run_iteration. rewrite Ha.
  pose proof (poll_released indef (App.gpio_top i) st Hg1) as Hp.
  pose proof (same_power_power_view _ _ Hp) as Hv.
  destruct Hp as (Hctl & _ & _ & Hloc & _ & _).
  revert Hv Hctl Hloc. generalize (App.poll indef (App.gpio_top i) st). intros s1 Hv Hctl Hloc.
  unfold App.coordinator. rewrite Hctl, Hs. cbn [negb andb].
  rewrite switch_viz_same by congruence.
  rewrite power_view_render_or_idle; assumption.
Qed.

Lemma run_audible_awake (inputs : list App.loop_input) (st : App.state) :
  forallb audible inputs = true -> between_iterations st ->
  App.is_sleeping (App.ctl st) = false ->
  power_view (App.run indef inputs st) = power_view st /\
  power_states indef inputs st = replicate (length inputs) false.
Proof.
  revert st. induction inputs as [|i rest IH]; intros st Hq Hb Hs; [split; reflexivity|].
  cbn [forallb] in Hq. apply andb_prop in Hq as [Hi Hrest].
  cbn [App.run power_states length replicate].
  pose proof Hb as (Hrun & Hviz). rewrite Hrun.
  pose proof (audible_iteration_awake i st Hi Hb Hs) as Hv.
  assert (App.ctl (App.run_iteration indef i st) = App.ctl st /\
          App.local_current_viz (App.run_iteration indef i st) = App.local_current_viz st)
    as [Hc Hl] by (unfold power_view in Hv; injection Hv; auto).
  destruct (IH (App.run_iteration indef i st) Hrest) as [Hv' Hp'].
  - unfold between_iterations. rewrite Hc, Hl. auto.
  - rewrite Hc. assumption.
  - rewrite Hv', Hv, Hp', Hc, Hs. auto.
Qed.

Lemma wake_on_audio (inputs : list App.loop_input) (st : App.state) :
  between_iterations st -> all_asleep st ->
  inputs <> [] -> forallb audible inputs = true ->
  let st' := App.run indef inputs st in
  power_states indef inputs st = replicate (length inputs) false /\
  all_awake st' /\
  power_calls (App.calls st') = power_calls (App.calls st) ++ wake_calls.
Proof.
  intros Hb (Hs & _) Hne Hq. destruct inputs as [|i rest]; [congruence|]. cbv zeta.
  cbn [forallb] in Hq. apply andb_prop in Hq as [Hi Hrest].
  cbn [App.run power_states length replicate].
  pose proof Hb as (Hrun & Hviz). rewrite Hrun.
  pose proof (audible_iteration_asleep i st Hi Hb Hs) as Hv.
  set (st1 := App.run_iteration indef i st) in *.
  unfold power_view in Hv. injection Hv as Hc Ha Hm Hl Hms.
  destruct (run_audible_awake rest st1 Hrest) as [Hv' Hp'].
  - unfold between_iterations. rewrite Hc, Hl. auto.
  - rewrite Hc. reflexivity.
  - unfold power_view in Hv'. injection Hv' as Hc' Ha' Hm' Hl' Hms'.
    unfold all_awake. rewrite Hp', Hc', Ha', Hm', Hms', Hc, Ha, Hm, Hms. auto.
Qed.

(** *** The power button *)

Lemma poll_running (g : App.gpio) (st : App.state) :
  App.running (App.ctl (App.poll indef g st)) =
  (if negb (App.power_sw g) && App.pwr_last st then false else App.running (App.ctl st)).
Proof.
  unfold App.poll.
  destruct (poll_encoder1_frame g st) as (C1 & _ & _ & _ & P1 & _).
  set (s1 := App.poll_encoder1 indef g st) in *.
  destruct (poll_encoder2_frame g s1) as (C2 & _ & _ & _ & P2 & _).
  set (s2 := App.poll_encoder2 indef g s1) in *.
  destruct (poll_button1_frame g s2) as (_ & _ & _ & P3 & R3 & _).
  set (s3 := App.poll_button1 g s2) in *.
  destruct (poll_button2_frame g s3) as (_ & _ & P4 & R4 & _).
  set (s4 := App.poll_button2 g s3) in *.
  destruct (poll_power_frame g s4) as (_ & _ & _ & _ & _ & _ & _ & _ & _ & ->).
  rewrite P4, P3, P2, P1, R4, R3, C2, C1. reflexivity.
Qed.

Lemma running_coordinator (has_audio : bool) (st : App.state) :
  App.running (App.ctl (App.coordinator has_audio st)) = App.running (App.ctl st).
Proof.
  unfold App.coordinator, App.enter_sleep, App.wake_up.
  destruct (negb has_audio && negb (App.is_sleeping (App.ctl st))); [reflexivity|].
  destruct (has_audio && App.is_sleeping (App.ctl st)); reflexivity.
Qed.

Lemma running_switch_viz (st : App.state) :
  App.running (App.ctl (App.switch_viz st)) = App.running (App.ctl st).
Proof.
  unfold App.switch_viz.
  destruct (negb (App.current_viz (App.ctl st) =? App.local_current_viz st));
    [|reflexivity].
  app_cbn. destruct (App.is_sleeping (App.ctl st)); reflexivity.
Qed.

Lemma running_render_or_idle (g : App.gpio) (st : App.state) :
  App.running (App.ctl st) = false ->
  App.running (App.ctl (App.render_or_idle indef g st)) = false.
Proof.
  intros H. unfold App.render_or_idle.
  destruct (negb (App.is_sleeping (App.ctl st))); [exact H|].
  destruct (10 <=? App.sleep_counter st + 1); app_cbn; [|exact H].
  rewrite poll_running. app_cbn. rewrite H.
  destruct (negb (App.power_sw g) && App.pwr_last st); reflexivity.
Qed.

(** X26: a press of the power button (low after high) seen by the poll
    at the top of an iteration ends the loop with that iteration: the
    inputs after it are not consumed. *)
Theorem power_button_stops_loop (i : App.loop_input) (rest : list App.loop_input) (st : App.state) :
  App.running (App.ctl st) = true ->
  App.pwr_last st = true -> App.power_sw (App.gpio_top i) = false ->
  App.running (App.ctl (App.run_iteration indef i st)) = false /\
  App.run indef (i :: rest) st = App.run_iteration indef i st.
Proof.
  intros Hr Hl Hp.
  assert (H : App.running (App.ctl (App.run_iteration indef i st)) = false).
  { unfold App.run_iteration. apply running_render_or_idle.
    rewrite running_switch_viz, running_coordinator, poll_running, Hl, Hp. reflexivity. }
  split; [exact H|].
  cbn [App.run]. rewrite Hr. destruct rest as [|j rest]; [reflexivity|].
  cbn [App.run]. rewrite H. reflexivity.
Qed.

(** *** A press as audio returns *)

Lemma poll_ctl_button2 (g : App.gpio) (st : App.state) :
  App.btn2_last st = true -> App.rot2_sw g = false ->
  App.rot1_sw g = true -> App.power_sw g = true ->
  let st' := App.poll indef g st in
  App.ctl st' = {| App.running := App.running (App.ctl st);
                   App.current_viz := App.current_viz (App.ctl st);
                   App.is_sleeping := false |} /\
  Audio.is_sleeping (App.audio st') = Audio.is_sleeping (App.audio st) /\
  App.mpd_client st' = App.mpd_client st /\
  App.local_current_viz st' = App.local_current_viz st /\
  App.calls st' = App.calls st.
Proof.
  intros B2 S2 S1 SP. cbv zeta. unfold App.poll.
  destruct (poll_encoder1_frame g st) as (C1 & M1 & _ & L1 & _ & V1 & K1 & A1).
  set (s1 := App.poll_encoder1 indef g st) in *.
  destruct (poll_encoder2_frame g s1) as (C2 & M2 & _ & L2 & _ & V2 & K2 & A2).
  set (s2 := App.poll_encoder2 indef g s1) in *.
  assert (E3 : App.poll_button1 g s2 = App.set_buttons true (App.btn2_last s2) (App.pwr_last s2) s2).
  { unfold App.poll_button1. rewrite S1. reflexivity. }
  rewrite E3.
  set (s3 := App.set_buttons true (App.btn2_last s2) (App.pwr_last s2) s2).
  unfold App.poll_power. rewrite SP. cbn [negb andb].
  unfold App.poll_button2, App.wake_flag. subst s3. app_cbn.
  rewrite L2, L1, B2, S2. cbn [negb andb]. app_cbn.
  rewrite C2, C1.
  destruct (App.is_sleeping (App.ctl st)) eqn:E; app_cbn;
    rewrite ?C2, ?C1, ?M2, ?M1, ?V2, ?V1, ?K2, ?K1,
      ?is_sleeping_setNoiseReduction, ?is_sleeping_setSensitivity, ?A2, ?A1;
    repeat split; try reflexivity.
  destruct (App.ctl st); cbn in *; congruence.
Qed.

Lemma awake_iteration_calls (i : App.loop_input) (st : App.state) :
  audible i = true -> between_iterations st -> App.is_sleeping (App.ctl st) = false ->
  App.calls (App.run_iteration indef i st) =
  App.calls st ++ [App.Render (App.current_viz (App.ctl st)); App.Delay 10].
Proof.
  unfold audible. intros [[Ha Hg1]%andb_prop Hg2]%andb_prop (Hrun & Hviz) Hs.
  unfold App.run_iteration. rewrite Ha.
  destruct (poll_released indef (App.gpio_top i) st Hg1) as (Hctl & _ & _ & Hloc & _ & Hk).
  revert Hctl Hloc Hk. generalize (App.poll indef (App.gpio_top i) st). intros s1 Hctl Hloc Hk.
  unfold App.coordinator. rewrite Hctl, Hs. cbn [negb andb].
  rewrite switch_viz_same by congruence.
  unfold App.render_or_idle. rewrite Hctl, Hs. cbn [negb]. app_cbn.
  rewrite Hk, Hloc, Hviz. reflexivity.
Qed.

Lemma run_awake_calls (inputs : list App.loop_input) (st : App.state) :
  forallb audible inputs = true -> between_iterations st ->
  App.is_sleeping (App.ctl st) = false ->
  App.calls (App.run indef inputs st) =
  App.calls st ++
    concat (replicate (length inputs)
              [App.Render (App.current_viz (App.ctl st)); App.Delay 10]).
Proof.
  revert st. induction inputs as [|i rest IH]; intros st Hq Hb Hs.
  - cbn. now rewrite app_nil_r.
  - cbn [forallb] in Hq. apply andb_prop in Hq as [Hi Hrest].
    cbn [App.run length replicate concat].
    pose proof Hb as (Hrun & Hviz). rewrite Hrun.
    pose proof (audible_iteration_awake i st Hi Hb Hs) as Hv.
    assert (App.ctl (App.run_iteration indef i st) = App.ctl st /\
            App.local_current_viz (App.run_iteration indef i st) = App.local_current_viz st)
      as [Hc Hl] by (unfold power_view in Hv; injection Hv; auto).
    rewrite IH; try assumption.
    + rewrite awake_iteration_calls by assumption. rewrite Hc, <- app_assoc. reflexivity.
    + unfold between_iterations. rewrite Hc, Hl. auto.
    + rewrite Hc. exact Hs.
Qed.

(** X27: asleep, if the button of rotary 2 goes down in the very
    iteration in which audio returns, the coordinator's sleep flag is
    cleared by the button while the wake-up branch is skipped: however long
    audio then stays present, the capture engine and the metadata client
    remain asleep, the displays are never woken, and the loop renders
    frames from a capture that is paused. *)
Theorem press_while_audio_returns (i : App.loop_input) (rest : list App.loop_input)
    (st : App.state) :
  between_iterations st -> all_asleep st ->
  reset_as_audio_returns i st -> forallb audible rest = true ->
  let st' := App.run indef (i :: rest) st in
  App.is_sleeping (App.ctl st') = false /\
  Audio.is_sleeping (App.audio st') = true /\
  MPD.is_sleeping (App.mpd_client st') = true /\
  App.calls st' =
    App.calls st ++
      concat (replicate (S (length rest))
                [App.Render (App.current_viz (App.ctl st)); App.Delay 10]).
Proof.
  intros (Hrun & Hviz) (Hs & Ha & Hm) (Hau & B2 & S2 & S1 & SP) Hrest. cbv zeta.
  cbn [App.run]. rewrite Hrun.
  assert (Hit : let s := App.run_iteration indef i st in
                App.ctl s = {| App.running := true;
                               App.current_viz := App.current_viz (App.ctl st);
                               App.is_sleeping := false |} /\
                Audio.is_sleeping (App.audio s) = true /\
                App.mpd_client s = App.mpd_client st /\
                App.local_current_viz s = App.local_current_viz st /\
                App.calls s = App.calls st ++
                  [App.Render (App.current_viz (App.ctl st)); App.Delay 10]).
  { cbv zeta. unfold App.run_iteration. rewrite Hau.
    destruct (poll_ctl_button2 (App.gpio_top i) st B2 S2 S1 SP) as (Hc & Hf & Hmm & Hl & Hk).
    revert Hc Hf Hmm Hl Hk. generalize (App.poll indef (App.gpio_top i) st).
    intros s1 Hc Hf Hmm Hl Hk.
    unfold App.coordinator. rewrite Hc. app_cbn.
    rewrite switch_viz_same by (rewrite Hc, Hl; exact Hviz).
    unfold App.render_or_idle. rewrite Hc. app_cbn.
    rewrite Hc, Hf, Hmm, Hl, Hk, Hrun, Ha, Hviz. auto. }
  cbv zeta in Hit. destruct Hit as (Hc & Hf & Hmm & Hl & Hk).
  set (s := App.run_iteration indef i st) in *.
  assert (Hb' : between_iterations s).
  { unfold between_iterations. rewrite Hc, Hl. auto. }
  assert (Hs' : App.is_sleeping (App.ctl s) = false) by (rewrite Hc; reflexivity).
  destruct (run_audible_awake rest s Hrest Hb' Hs') as [Hv _].
  unfold power_view in Hv. injection Hv as Hc' Ha' Hm' _ _.
  rewrite Hc', Ha', Hm', Hs', Hf, Hmm, Hm.
  rewrite run_awake_calls by assumption.
  rewrite Hk, Hc. app_cbn. cbn [replicate concat]. rewrite <- app_assoc. auto.
Qed.

End Controls.

(* ================================================================== *)
(** ** Recent samples, the VU levels and the client text *)
(* ================================================================== *)

Section Recent.

Import Spec.
Local Open Scope Z_scope.

Lemma copy_loop_pair {A B : Type} (f : Z -> A) (g : Z -> B) (p : Z) (n : nat) :
  Audio.copy_loop (fun q => (f q, g q)) p n =
  zip (Audio.copy_loop f p n) (Audio.copy_loop g p n).
Proof.
  revert p. induction n as [|n IH]; intros p; [reflexivity|].
  cbn [Audio.copy_loop zip zip_with]. now rewrite IH.
Qed.

(** Reading the last [n] cells written, whatever was written before. *)
Lemma copy_loop_most_recent {A : Type} `{!Inhabited A} (xs b : list A) (pos : Z) (n : nat) :
  length b = Z.to_nat CAPACITY -> 0 <= pos < CAPACITY ->
  (n <= length xs)%nat -> Z.of_nat n <= CAPACITY ->
  Audio.copy_loop (fun p => ring_store xs b pos !!! Z.to_nat p)
    (Audio.read_start ((pos + Z.of_nat (length xs)) mod CAPACITY) (Z.of_nat n)) n =
  most_recent n xs.
Proof.
  intros Hb Hp Hn Hc. unfold most_recent.
  set (k := (length xs - n)%nat).
  assert (Hk : length (take k xs) = k) by (rewrite length_take; lia).
  assert (Hd : length (drop k xs) = n) by (rewrite length_drop; lia).
  set (pos' := (pos + Z.of_nat k) mod CAPACITY).
  assert (Hp' : 0 <= pos' < CAPACITY) by (apply Z.mod_pos_bound; reflexivity).
  replace ((pos + Z.of_nat (length xs)) mod CAPACITY)
    with ((pos' + Z.of_nat n) mod CAPACITY).
  2:{ subst pos'. rewrite Zplus_mod_idemp_l. f_equal. lia. }
  rewrite read_start_after by lia.
  replace (ring_store xs b pos) with (ring_store (drop k xs) (ring_store (take k xs) b pos) pos').
  2:{ rewrite <- (take_drop k xs) at 3. rewrite ring_store_app, Hk by assumption. reflexivity. }
  rewrite <- Hd at 1.
  apply copy_loop_ring_store; [now rewrite length_ring_store|assumption|lia].
Qed.

Lemma recent_samples (its : list ((Z -> Audio.pcm_read) * Z)) (st : Audio.state) (n : nat) :
  well_formed st -> Audio.is_sleeping st = false ->
  (n <= length (delivered_awake its))%nat -> Z.of_nat n <= CAPACITY ->
  let st' := capture its st in
  Audio.getWaveformData (Z.of_nat n) true st' =
    most_recent n (left_samples (delivered_awake its)) /\
  Audio.getWaveformData (Z.of_nat n) false st' =
    most_recent n (right_samples (delivered_awake its)).
Proof.
  intros Hwf Hs Hn Hc st'.
  destruct (capture_awake its st Hs Hwf) as (_ & _ & Hl & Hr & Hp).
  fold st' in Hl, Hr, Hp. destruct Hwf as (Hll & Hlr & Hpos).
  unfold Audio.getWaveformData. rewrite Hl, Hr, Hp, Nat2Z.id. split.
  - rewrite <- (length_fmap (fun f => Audio.normalize (fst f)) (delivered_awake its)).
    apply copy_loop_most_recent; try assumption.
    unfold left_samples. now rewrite length_fmap.
  - rewrite <- (length_fmap (fun f => Audio.normalize (snd f)) (delivered_awake its)).
    apply copy_loop_most_recent; try assumption.
    unfold right_samples. now rewrite length_fmap.
Qed.

Lemma most_recent_zip {A B : Type} (n : nat) (xs : list A) (ys : list B) :
  length xs = length ys ->
  zip (most_recent n xs) (most_recent n ys) = most_recent n (zip xs ys).
Proof.
  intros H. unfold most_recent. rewrite length_zip_with, <- H, Nat.min_id.
  revert ys H. generalize (length xs - n)%nat. intros k.
  revert k. induction xs as [|x xs IH]; intros k [|y ys] H; try discriminate.
  - now destruct k.
  - destruct k; [reflexivity|]. cbn. apply IH. now injection H.
Qed.

Lemma zip_samples (fs : list (Z * Z)) :
  zip (left_samples fs) (right_samples fs) = both_samples fs.
Proof.
  unfold left_samples, right_samples, both_samples.
  induction fs as [|f fs IH]; [reflexivity|]. cbn. now rewrite <- IH.
Qed.

Lemma recent_stereo_window (its : list ((Z -> Audio.pcm_read) * Z)) (st : Audio.state) :
  well_formed st -> Audio.is_sleeping st = false ->
  (512 <= length (delivered_awake its))%nat ->
  Audio.stereo_window (capture its st) = most_recent 512 (both_samples (delivered_awake its)).
Proof.
  intros Hwf Hs Hn.
  destruct (recent_samples its st 512 Hwf Hs Hn ltac:(vm_compute; discriminate)) as [Hl Hr].
  unfold Audio.stereo_window. rewrite copy_loop_pair.
  unfold Audio.getWaveformData in Hl, Hr.
  change (Z.to_nat (Z.of_nat 512)) with (Z.to_nat Audio.ANALYSIS_SAMPLES) in Hl, Hr.
  change (Z.of_nat 512) with Audio.ANALYSIS_SAMPLES in Hl, Hr.
  rewrite Hl, Hr, most_recent_zip, zip_samples; [reflexivity|].
  unfold left_samples, right_samples. now rewrite !length_fmap.
Qed.

End Recent.

Section Meter.

Import Spec.
Local Open Scope Z_scope.

Lemma sum7_range (l : list Z) :
  length l = 7%nat -> Forall is_level l ->
  0 <= fold_left (fun sum i => sum + l !!! i) (seq 0 7) 0 <= 7 * 255.
Proof.
  intros Hl Hf.
  destruct l as [|a [|b [|c [|d [|e [|f [|g [|h l]]]]]]]]; try discriminate Hl.
  repeat (apply Forall_cons in Hf as [? Hf]). unfold is_level in *.
  cbn. lia.
Qed.

(** X19: [getVUMeterData] leaves the processor as [getSpectrumData]
    does, and each of its two outputs is the mean, rounded down, of the
    seven levels of that channel: a level between 0 and 255. *)
Theorem getVUMeterData_mean (fftwf_execute : list float -> list (float * float))
    (indef : float -> Z) (st : Audio.state) :
  let '(st', left_out, right_out) := Audio.getVUMeterData fftwf_execute indef st in
  let '(st2, left_spectrum, right_spectrum) :=
    Audio.getSpectrumData fftwf_execute indef st in
  st' = st2 /\ is_level left_out /\ is_level right_out /\
  7 * left_out <= fold_left Z.add left_spectrum 0 < 7 * left_out + 7 /\
  7 * right_out <= fold_left Z.add right_spectrum 0 < 7 * right_out + 7.
Proof.
  unfold Audio.getVUMeterData, Audio.getSpectrumData. cbv zeta.
  set (pl := (fun i : nat => Audio.smooth _ _ (Audio.prev_left_spectrum st !!! i) _) <$> seq 0 7).
  set (pr := (fun i : nat => Audio.smooth _ _ (Audio.prev_right_spectrum st !!! i) _) <$> seq 0 7).
  assert (Hl : length (Audio.level_of indef <$> pl) = 7%nat) by reflexivity.
  assert (Hr : length (Audio.level_of indef <$> pr) = 7%nat) by reflexivity.
  assert (Fl : Forall is_level (Audio.level_of indef <$> pl)).
  { apply Forall_fmap, Forall_forall. intros x _. apply level_of_range. }
  assert (Fr : Forall is_level (Audio.level_of indef <$> pr)).
  { apply Forall_fmap, Forall_forall. intros x _. apply level_of_range. }
  pose proof (sum7_range _ Hl Fl) as Sl. pose proof (sum7_range _ Hr Fr) as Sr.
  revert Hl Hr Sl Sr.
  generalize (Audio.level_of indef <$> pl). generalize (Audio.level_of indef <$> pr).
  intros rs ls Hl Hr Sl Sr.
  assert (El : fold_left (fun sum i => sum + ls !!! i) (seq 0 7) 0 = fold_left Z.add ls 0).
  { destruct ls as [|a [|b [|c [|d [|e [|f [|g [|h l]]]]]]]]; try discriminate Hl. reflexivity. }
  assert (Er : fold_left (fun sum i => sum + rs !!! i) (seq 0 7) 0 = fold_left Z.add rs 0).
  { destruct rs as [|a [|b [|c [|d [|e [|f [|g [|h l]]]]]]]]; try discriminate Hr. reflexivity. }
  rewrite <- El, <- Er.
  set (sl := fold_left (fun sum i => sum + ls !!! i) (seq 0 7) 0) in *.
  set (sr := fold_left (fun sum i => sum + rs !!! i) (seq 0 7) 0) in *.
  unfold is_level.
  rewrite !Z.quot_div_nonneg by lia.
  pose proof (Z.mul_div_le sl 7 eq_refl). pose proof (Z.mul_succ_div_gt sl 7 eq_refl).
  pose proof (Z.mul_div_le sr 7 eq_refl). pose proof (Z.mul_succ_div_gt sr 7 eq_refl).
  assert (0 <= sl / 7 <= 255) by (split; [apply Z.div_pos|apply Z.div_le_upper_bound]; lia).
  assert (0 <= sr / 7 <= 255) by (split; [apply Z.div_pos|apply Z.div_le_upper_bound]; lia).
  repeat split; lia.
Qed.

End Meter.

Section Client.

Import Spec.
Local Open Scope string_scope.

Lemma empty_append (a b : string) : MPD.empty (a ++ b) = MPD.empty a && MPD.empty b.
Proof. destruct a; reflexivity. Qed.

Lemma format_text_nonempty (st : MPD.state) : MPD.empty (MPD.format_text st) = false.
Proof.
  rewrite format_text_fields, !empty_append.
  destruct (MPD.empty (MPD.title st)) eqn:E; [|rewrite E];
    cbn [MPD.empty andb]; now rewrite ?andb_false_r.
Qed.

Lemma text_in_step_thread_step (st : MPD.state) (op : thread_op) :
  text_in_step st -> text_in_step (thread_step st op).
Proof.
  unfold text_in_step. intros H. destruct op as [reply| |b|reply]; cbn [thread_step].
  - unfold MPD.connectMPD. cbn [MPD.set_conn MPD.shutdown_requested MPD.is_sleeping].
    destruct (MPD.shutdown_requested st || MPD.is_sleeping st); [exact H|].
    destruct reply; exact H.
  - exact H.
  - exact H.
  - unfold MPD.updateCurrentSong.
    destruct (negb (MPD.conn st) || MPD.shutdown_requested st || MPD.is_sleeping st);
      [exact H|].
    destruct (MPD.cs_error reply); [exact H|].
    destruct (MPD.cs_song reply); reflexivity.
Qed.

(** X20: whatever the client's thread and the coordinator do to a client
    from its construction on (connecting with any outcome, disconnecting,
    switching the sleep state, fetching the song with any reply), the text
    it hands out is the one formatted from its current fields, and it is
    never empty. *)
Theorem client_text_in_step (ops : list thread_op) :
  let st := fold_left thread_step ops MPD.MPDClient in
  MPD.getFormattedText st = MPD.format_text st /\
  MPD.empty (MPD.getFormattedText st) = false.
Proof.
  cbv zeta.
  assert (H : text_in_step (fold_left thread_step ops MPD.MPDClient)).
  { assert (H0 : text_in_step MPD.MPDClient) by reflexivity.
    revert H0. generalize MPD.MPDClient. induction ops as [|op ops IH]; intros st H0.
    - exact H0.
    - cbn [fold_left]. apply IH, text_in_step_thread_step, H0. }
  unfold MPD.getFormattedText. split; [exact H|].
  rewrite H. apply format_text_nonempty.
Qed.

End Client.

(* ================================================================== *)
(** ** Properties of the controls, the capture and the client *)
(* ================================================================== *)

Section LoopEntries.

Import Spec.
Local Open Scope Z_scope.

(** X17: what [getSensitivity] returns after [setSensitivity(v)] is [v]
    clamped to 10..300, and what [getNoiseReduction] returns after
    [setNoiseReduction(v)] is [v] clamped to 0..100: the passage through
    [float] loses nothing. *)
Theorem parameter_round_trip (indef : float -> Z) (v : Z) (a : Audio.state) :
  Audio.getSensitivity indef (Audio.setSensitivity v a) = Z.max 10 (Z.min 300 v) /\
  Audio.getNoiseReduction indef (Audio.setNoiseReduction v a) = Z.max 0 (Z.min 100 v).
Proof.
  split; [apply getSensitivity_setSensitivity|apply getNoiseReduction_setNoiseReduction].
Qed.

(** X18: after any run of the capture thread made awake, the [n] samples
    [getWaveformData] copies are the [n] most recent ones delivered for
    that channel, oldest first, for any [n] up to the number delivered and
    the capacity of the ring, also after the ring has wrapped; and once 512
    frames are in, the window of [getStereoAnalysis] is the 512 most recent
    frames. *)
Theorem capture_most_recent (its : list ((Z -> Audio.pcm_read) * Z)) (st : Audio.state)
    (n : nat) :
  well_formed st -> Audio.is_sleeping st = false ->
  (n <= length (delivered_awake its))%nat -> Z.of_nat n <= CAPACITY ->
  let st' := capture its st in
  Audio.getWaveformData (Z.of_nat n) true st' =
    most_recent n (left_samples (delivered_awake its)) /\
  Audio.getWaveformData (Z.of_nat n) false st' =
    most_recent n (right_samples (delivered_awake its)) /\
  ((512 <= length (delivered_awake its))%nat ->
   Audio.stereo_window st' = most_recent 512 (both_samples (delivered_awake its))).
Proof.
  intros Hwf Hs Hn Hc st'.
  destruct (recent_samples its st n Hwf Hs Hn Hc) as [Hl Hr].
  split; [exact Hl|]. split; [exact Hr|].
  intros H. apply recent_stereo_window; assumption.
Qed.

Lemma capture_most_recent_witness :
  (well_formed example_awake /\ Audio.is_sleeping example_awake = false /\
   (2 <= length (delivered_awake [(example_device, 5%Z); (example_device, 6%Z)]))%nat /\
   Z.of_nat 2 <= CAPACITY) /\
  Audio.getWaveformData (Z.of_nat 2) true
    (capture [(example_device, 5); (example_device, 6)] example_awake) =
  most_recent 2 (left_samples (delivered_awake [(example_device, 5); (example_device, 6)])).
Proof.
  assert (Hwf : well_formed example_awake).
  { unfold well_formed. repeat split; try reflexivity; vm_compute; discriminate. }
  assert (Hn : (2 <= length (delivered_awake [(example_device, 5%Z); (example_device, 6%Z)]))%nat)
    by (vm_compute; lia).
  assert (Hc : Z.of_nat 2 <= CAPACITY) by (vm_compute; discriminate).
  split; [repeat split; assumption || reflexivity || apply Hwf|].
  exact (proj1 (capture_most_recent [(example_device, 5); (example_device, 6)]
                  example_awake 2 Hwf eq_refl Hn Hc)).
Defined.

Lemma encoders_set_parameters_witness :
  (two_bits (App.encoder1_state example_app) /\ two_bits (App.encoder2_state example_app) /\
   params_inv (App.audio example_app) /\
   negb (App.rot2_sw example_turn) && App.btn2_last example_app = false) /\
  Audio.getSensitivity (fun _ => 0) (App.audio (App.poll (fun _ => 0) example_turn example_app))
  = Z.max 10 (Z.min 300 (Audio.getSensitivity (fun _ => 0) (App.audio example_app)
                          + App.getDirection (App.encoder1_state example_app)
                              (App.rot1 example_turn) * 10)).
Proof.
  assert (H1 : two_bits (App.encoder1_state example_app)) by (unfold two_bits; cbn; lia).
  assert (H2 : two_bits (App.encoder2_state example_app)) by (unfold two_bits; cbn; lia).
  assert (Hp : params_inv (App.audio example_app)) by apply params_inv_constructed.
  split; [repeat split; try reflexivity; try apply H1; try apply H2; exact Hp|].
  exact (proj1 (encoders_set_parameters (fun _ => 0) example_turn example_app
                  H1 H2 Hp eq_refl)).
Defined.

Lemma button2_resets_parameters_witness :
  negb (App.rot2_sw (App.gpio_top example_button2)) && App.btn2_last example_app = true /\
  same_parameters
    (App.audio (App.poll (fun _ => 0) (App.gpio_top example_button2) example_app))
    (Audio.AudioProcessor [] 0).
Proof.
  split; [reflexivity|].
  exact (button2_resets_parameters (fun _ => 0) (App.gpio_top example_button2) example_app
           [] 0 eq_refl).
Defined.

Lemma button1_cycles_visualizations_witness :
  0 <= App.current_viz (App.ctl example_app) < 6 /\
  App.current_viz
    (App.ctl (polls (fun _ => 0) [example_press1; example_press1; example_gpio; example_press1]
                example_app)) =
  (App.current_viz (App.ctl example_app)
   + falling_edges (App.btn1_last example_app)
       (App.rot1_sw <$> [example_press1; example_press1; example_gpio; example_press1])) mod 6.
Proof.
  assert (H : 0 <= App.current_viz (App.ctl example_app) < 6) by (cbn; lia).
  split; [exact H|].
  exact (button1_cycles_visualizations (fun _ => 0)
           [example_press1; example_press1; example_gpio; example_press1] example_app H).
Defined.

(** X24: asleep, a run of one or more iterations in each of which audio
    is present and no button is pressed leaves the coordinator and both
    collaborators awake, and the only calls it adds besides rendering and
    pacing are those of the wake-up branch, once and in the order of the
    source. *)
Theorem wake_when_audio_returns (indef : float -> Z) (inputs : list App.loop_input)
    (st : App.state) :
  between_iterations st -> all_asleep st ->
  inputs <> [] -> forallb audible inputs = true ->
  let st' := App.run indef inputs st in
  all_awake st' /\
  power_calls (App.calls st') = power_calls (App.calls st) ++ wake_calls.
Proof.
  intros Hb Ha Hne Hau st'.
  destruct (wake_on_audio indef inputs st Hb Ha Hne Hau) as (_ & H1 & H2).
  split; assumption.
Qed.

Lemma example_app_asleep_between : between_iterations example_app_asleep.
Proof. split; reflexivity. Qed.

Lemma example_app_asleep_all : all_asleep example_app_asleep.
Proof. repeat split; reflexivity. Qed.

Lemma wake_when_audio_returns_witness :
  (between_iterations example_app_asleep /\ all_asleep example_app_asleep /\
   [example_audible; example_audible] <> [] /\
   forallb audible [example_audible; example_audible] = true) /\
  all_awake (App.run (fun _ => 0) [example_audible; example_audible] example_app_asleep) /\
  power_calls
    (App.calls (App.run (fun _ => 0) [example_audible; example_audible] example_app_asleep))
  = power_calls (App.calls example_app_asleep) ++ wake_calls.
Proof.
  assert (Hne : [example_audible; example_audible] <> []) by discriminate.
  split; [split; [exact example_app_asleep_between|
                  split; [exact example_app_asleep_all|split; [exact Hne|reflexivity]]]|].
  exact (wake_when_audio_returns (fun _ => 0) [example_audible; example_audible]
           example_app_asleep example_app_asleep_between example_app_asleep_all Hne eq_refl).
Defined.

(** X25: from its initial state on, whatever the inputs, the main loop
    keeps these true after every run: the sleep flags of the capture engine
    and of the metadata client agree, the coordinator is never asleep while
    they are awake, both visualization indices address the table of six,
    every frame rendered is one of the six, and the analysis parameters are
    whole numbers in their ranges with the factors derived from them. *)
Theorem main_loop_invariant (indef : float -> Z) (hann : list float) (now enc1 enc2 : Z)
    (inputs : list App.loop_input) :
  loop_inv (App.run indef inputs (App.initial hann now enc1 enc2)).
Proof. apply loop_inv_run, loop_inv_initial. Qed.

Lemma power_button_stops_loop_witness :
  (App.running (App.ctl example_app) = true /\ App.pwr_last example_app = true /\
   App.power_sw (App.gpio_top example_power_press) = false) /\
  App.running (App.ctl (App.run_iteration (fun _ => 0) example_power_press example_app))
    = false /\
  App.run (fun _ => 0) (example_power_press :: [example_audible]) example_app
    = App.run_iteration (fun _ => 0) example_power_press example_app.
Proof.
  split; [repeat split; reflexivity|].
  exact (power_button_stops_loop (fun _ => 0) example_power_press [example_audible]
           example_app eq_refl eq_refl eq_refl).
Defined.

Lemma press_while_audio_returns_witness :
  (between_iterations example_app_asleep /\ all_asleep example_app_asleep /\
   reset_as_audio_returns example_reset_press example_app_asleep /\
   forallb audible [example_audible; example_audible] = true) /\
  App.is_sleeping
    (App.ctl (App.run (fun _ => 0) (example_reset_press :: [example_audible; example_audible])
                example_app_asleep)) = false /\
  Audio.is_sleeping
    (App.audio (App.run (fun _ => 0)
                  (example_reset_press :: [example_audible; example_audible])
                  example_app_asleep)) = true.
Proof.
  assert (Hr : reset_as_audio_returns example_reset_press example_app_asleep)
    by (repeat split; reflexivity).
  split; [split; [exact example_app_asleep_between|
                  split; [exact example_app_asleep_all|split; [exact Hr|reflexivity]]]|].
  pose proof (press_while_audio_returns (fun _ => 0) example_reset_press
                [example_audible; example_audible] example_app_asleep
                example_app_asleep_between example_app_asleep_all Hr eq_refl) as H.
  exact (conj (proj1 H) (proj1 (proj2 H))).
Defined.

End LoopEntries.
